(* ===== verification/_CoqProject ===== *)
-Q . S2P
Prelude.v
GoValue.v
JsonText.v
Float64.v
GoFormat.v
Config.v
Crypto.v
SqlInspect.v
Offset.v
ShapeTypes.v
Diff.v
Storage.v
Paths.v
DiskStore.v
DiskLaws.v
DiskRefine.v
Persist.v
Manager.v
ShapeLog.v
Waiting.v
Restart.v
Handles.v
DiskRestart.v
DiskManager.v
Admission.v
Identifiers.v
Request.v
Response.v
ChangeBatch.v
DependencyScan.v
RelationCache.v
Effects.v
DiskReload.v
Snapshot.v
Service.v
Answers.v
Client.v
Stream.v
Replication.v
Moves.v
Lifecycle.v
Telemetry.v
Router.v
Calls.v
Engine.v
Process.v
Survival.v
