(* ===== verification/Prelude.v ===== *)
(** postgres-sync-go: a model of the server in src/ and the theorems that make
    it correct.

    The server replicates tables of Postgres to HTTP clients.  A _shape_ is a
    table with a filter and a list of columns; a client asks for a shape, gets
    its rows as a snapshot, and then follows a log of changes by long polls or a
    stream.  The runtime reads the write-ahead log of Postgres, groups changes
    by transaction, and brings the live shapes up to date by asking the database
    for the changed keys.

    ** Files

    The files are listed in the order they depend on each other.

    - [Prelude]: bytes and strings with Go's functions on them, machine
      integers, decimal formatting and parsing, the type [result] of functions
      that return an error, sorted lists of map entries, and automation.
    - [GoValue], [JsonText], [Float64], [GoFormat]: what the source uses of Go's
      standard library.  Dynamic values and JSON documents, the text
      json.Marshal writes and json.Unmarshal reads, float64 with shortest
      decimal output, the %q verb, strconv.Atoi and ParseBool, canonical header
      names.  Nothing in them is assumed: they are definitions with lemmas.
    - [Config]: internal/config/config.go.
    - [Crypto]: SHA-256, as the handles of shapes are made of it.
    - [SqlInspect]: internal/sqlinspect/inspect.go.
    - [Offset], [ShapeTypes], [Diff]: internal/shapes/offset.go, backend.go,
      keys.go, and the pure part of manager.go: what turns rows into messages.
    - [Storage], [Persist]: internal/storage/store.go, with the store's interface
      as a class [Store], and its contract in two parts: [CheckpointLaws], which
      the runtime relies on and both stores discharge, and [StoreLaws], which
      the memory store discharges; the JSON forms of definitions and states.
    - [Paths], [DiskStore]: internal/storage/disk.go, over its tables, files and
      directories.  [DiskLaws] has the invariant [disk_ok] and the map
      [disk_shapes] that a disk stands for, [DiskRefine] the refinement, and
      [DiskRestart] a manager that starts from a disk.  [Handles] has what a
      handle is made of, so that two handles have directories of their own.
      [DiskManager] has the operations of the manager over a disk whose saves
      may fail: for every shape the disk holds what is in memory, or has given
      it up after a save that failed ([store_holds]).  [DiskReload] has a
      start from such a disk, with faults again.
    - [Manager]: the type Manager of internal/shapes/manager.go, one function for
      each method; [well_formed] is its invariant, [ostep] an operation.
    - [ShapeLog], [Waiting], [Restart], [Effects]: the manager over time: the log
      of a shape as it grows, the interleaving of blocked readers with
      operations, a restart from the store, and what one operation does to the
      shapes in the form its callers use.
    - [Admission], [Identifiers], [Request], [Response]: internal/protocol, file
      by file.
    - [ChangeBatch], [DependencyScan], [RelationCache], [Snapshot]: internal/pg:
      change_batch.go, dependency_scan.go, relation_cache.go, and the queries of
      runtime.go.
    - [Service], [Answers], [Client], [Stream]: internal/protocol/service.go and
      what its clients can rely on.
    - [Replication]: internal/pg/replication.go, what a stream does to shapes.
    - [Moves]: the computations of [Replication] as transitions of the manager
      and saves of the checkpoint ([rstep]).
    - [Lifecycle]: internal/pg/runtime.go and the rest of replication.go:
      starting, connecting, losing a connection and closing.
    - [Telemetry], [Router], [Calls], [Engine]: internal/telemetry/provider.go,
      internal/httpapi/router.go and pkg/pgsync/engine.go: the metrics page, the
      routes, what a request does to the shapes, and the whole put together over
      either store.
    - [Process]: cmd/postgres-sync/main.go: the process, as a step relation
      [pstep] over the steps of the runtime.  [Survival] puts it over the disk
      and starts the next process from what it has left.

    ** State and effects

    A method that takes a lock is one transition of the state it guards: it
    takes the state and returns the state it leaves with its results.  The
    manager is a record of the indices, the store and the waiters; the runtime
    is the manager with its positions, its relation cache and its status; an
    exchange is the manager with an admission controller, a response writer and
    metrics.  The runtime's code runs in a monad of state and error ([Run]), a
    request's in a monad of state ([Handler]), the disk store's in one of state
    and error ([Io]) where a device may fail at any operation.

    What happens between two calls of a handler, and what the outside answers,
    is an argument, indexed by the number of the call: the other goroutines are
    functions on the manager, the backend is a value of a class [Backend], and
    the clock, the waits and the connection are functions of the number.  The
    theorems quantify over them, with what they rely on as hypotheses: for
    example that the others only refresh the shape.  Blocked readers are a step
    relation ([sstep]), as are admissions ([astep]).  The life cycle of the
    runtime is one too ([lstep]): its state [Life] has the fields of the
    runtime, the connections and pools that are open, and where each goroutine
    is; a section of code under the lock is a step, and so is each question to
    the server.  The engine's [Start] and [Close] are sequences of its steps, and so
    is a request.  The process is the runtime with the place of the main
    goroutine, which says which steps of the runtime are possible.

    ** What the theorems show

    - A shape follows its table: a transaction that is applied brings every live
      shape to the true rows if it was stale only where the transaction
      changed ([batch_brings_shapes_up_to_date]); what cannot be refreshed is
      invalidated, not left ([truncate_invalidates],
      [relation_message_checks_schemas], [own_change_never_ignored],
      [dependency_change_noticed], [start_resumes_or_invalidates]).
    - A client follows its shape: the first response puts it in step, every poll
      brings it to the present, a stream carries the log
      ([first_response_in_step], [poll_catches_up], [stream_sends_log]); below
      them, messages replay to the rows they were made of and logs grow in order
      ([refresh_messages_replay], [snapshot_then_log_rebuilds],
      [refresh_extends_log]), and no waiting reader misses a change
      ([no_lost_wakeup]).
    - The manager is a map: its indices agree, its operations are those of a map
      from definitions to shapes, errors change nothing, the store mirrors it
      and a restart restores it.
    - The disk is a map of shapes: a save is an insertion, and wherever it fails
      or the process dies, no other shape changes; a compaction loses nothing; a
      restart restores a shape or gives it up, and never serves another log
      ([disk_save_refines], [disk_load_lists], [disk_compact_keeps]).
      An engine that ends, in whatever way, and is created again has only shapes
      that were there, and every one unless something failed
      ([engine_restarts]), and so does a process, whatever it was doing when it
      ended ([shapes_survive_process]).
    - Connections are under control: at most one stream is live, no connection
      or pool is lost track of, an attempt to connect ends, a lost stream comes
      back, and Close stops what there is ([one_live_stream], [nothing_leaks],
      [attempt_ends], [reconnects], [close_stops], [engine_closes]); the
      examples after them are interleavings in which the code does less.
    - The process ends as it says: a signal can always be followed to the end,
      and the exit code tells whether the engine was closed
      ([signal_ends_process], [exit_code_tells]).
    - Requests are answered: each one once, with a status of the protocol,
      leaving no place taken ([every_request_routed], [request_answered],
      [admission_exact]); a request works only on its own shape, by steps
      of the runtime ([request_steps_own_shape]); the metrics page says what was
      counted ([metrics_page_read]);
      validation, parameters, bodies and settings are what they say.
    - Offsets, cursors and positions move forwards, within their machine types.

    Bounds are hypotheses where the code has none: offsets below the largest
    64-bit integer, handles that are not made twice in a microsecond, fewer than
    a million chunks of a shape, and handles with directories of their own.

    ** Fuel

    [trim_left_fuel] and the scans over strings get the length of their text,
    which each step shortens.  [json_fuel] is twice the length of the text and
    one more: a value or a separator costs a byte for each unit
    ([parse_enough_fuel]).  [tokenize_fuel] and [collect_ctes] get the number of
    bytes or tokens left ([scan_total] shows that it is always enough).  A
    float64 is written with at most 17 digits, and its exponent is estimated to
    within a few steps: [shortest_from] has 16 steps after the first digit,
    [decimal_exponent] 6, [strip_zeros] 20.  [sse_rounds] and [replicationLoop] are loops that do not end
    by themselves: their fuel is the number of rounds that are looked at, and the
    theorems hold for every number.  An attempt to connect has 12 points at most
    ([rank]), which is the fuel of [connectRuntime]; [lines_from] gets the
    length of the page.

    ** Not modelled

    - The network, pgx and the wire format of replication messages: answers of
      the server and decoded messages are arguments.
    - net/url: a query arrives parsed, and url.Parse is a parameter of [Config],
      as are the texts of JSON errors; the table of printable runes behind %q is
      a parameter wherever %q is used.
    - The ticker goroutine of applyWithPeriodicKeepalive: the status update is
      there, at the point where the loop sends it; cancellation of contexts in
      the middle of a database call is an error of that call.
    - SQLite: the statements are functions on the tables, with their constraints
      on primary keys and missing values; foreign keys never fail here, as the
      row of a shape is written before those of its chunks.
    - The listening socket: what it returns, and what its shutdown returns, are
      arguments of [pstep].  A signal before the handler of signals is installed
      ends the process in the way of the operating system.
    - A deletion of a handle that is deleted already, inside the interleavings of
      [Lifecycle] and [Process]: it breaks the index of definitions
      ([stale_delete_orphans_shape]), so it is no transition of the manager
      there, and [request_steps_own_shape] leaves deletions out.

    ** Further work

    A condition on the answers of the database under which all that the runtime
    writes fits on the disk would replace the condition on the run in
    [shapes_survive_process]. *)

From Stdlib Require Import Ascii String ZArith NArith Lia.
From Stdlib Require Import DecimalString DecimalN.
From stdpp Require Export base gmap strings list sorting fin_maps.

#[global] Open Scope Z_scope.
#[global] Open Scope stdpp_scope.

Declare Scope go_scope.
Delimit Scope go_scope with go.

(** * Results

    A Go function returning [(T, error)] is a [result E T]: the error value
    or the result, never both. *)
Inductive result (E A : Type) : Type :=
| Err (e : E)
| Ok (a : A).
Arguments Err {E A} e.
Arguments Ok {E A} a.

(** * Bytes

    A Go string is a sequence of bytes: an [ascii] is one byte, a [string] one
    Go string.  No encoding is assumed. *)
Definition code (c : ascii) : N := N_of_ascii c.

Definition byte_of (n : N) : ascii := ascii_of_N n.

Definition byte_between (lo hi : N) (c : ascii) : bool :=
  (lo <=? code c)%N && (code c <=? hi)%N.

Definition str1 (c : ascii) : string := String c EmptyString.

Definition is_digit (c : ascii) : bool := byte_between 48 57 c.
Definition is_lower (c : ascii) : bool := byte_between 97 122 c.
Definition is_upper (c : ascii) : bool := byte_between 65 90 c.

Definition bytes (l : list N) : string :=
  String.string_of_list_ascii (map byte_of l).

Definition nl : ascii := byte_of 10.
Definition dquote : ascii := byte_of 34.
Definition squote : ascii := byte_of 39.
Definition backslash : ascii := byte_of 92.

(** * Strings: the functions of Go's [strings] package the program uses *)

(** [strip_prefix p s] is [Some rest] when [s = p +:+ rest]. *)
Fixpoint strip_prefix (p s : string) : option string :=
  match p, s with
  | EmptyString, _ => Some s
  | String a p', String b s' => if decide (a = b) then strip_prefix p' s' else None
  | String _ _, EmptyString => None
  end.

(** strings.HasPrefix. *)
Definition has_prefix (p s : string) : bool :=
  match strip_prefix p s with Some _ => true | None => false end.

(** strings.TrimPrefix. *)
Definition trim_prefix (p s : string) : string := default s (strip_prefix p s).

Fixpoint all_bytes (f : ascii -> bool) (s : string) : bool :=
  match s with
  | EmptyString => true
  | String a s' => f a && all_bytes f s'
  end.

(** strings.Contains for a one-byte needle. *)
Fixpoint contains_byte (c : ascii) (s : string) : bool :=
  match s with
  | EmptyString => false
  | String a s' => if decide (a = c) then true else contains_byte c s'
  end.

(** strings.Cut at a one-byte separator. *)
Fixpoint cut_byte (c : ascii) (s : string) : option (string * string) :=
  match s with
  | EmptyString => None
  | String a s' =>
      if decide (a = c) then Some (EmptyString, s')
      else match cut_byte c s' with
           | Some (x, y) => Some (String a x, y)
           | None => None
           end
  end.

(** strings.Split at a one-byte separator: never the empty list. *)
Fixpoint split_byte (c : ascii) (s : string) : list string :=
  match s with
  | EmptyString => [""]
  | String a s' =>
      if decide (a = c) then "" :: split_byte c s'
      else match split_byte c s' with
           | [] => [str1 a]
           | x :: xs => String a x :: xs
           end
  end.

(** strings.SplitN with a one-byte separator: at most [n] pieces, the last one
    unsplit. *)
Fixpoint splitn_byte (c : ascii) (n : nat) (s : string) : list string :=
  match n with
  | O => []
  | S O => [s]
  | S n' =>
      match cut_byte c s with
      | Some (x, y) => x :: splitn_byte c n' y
      | None => [s]
      end
  end.

(** strings.Join. *)
Fixpoint join (sep : string) (l : list string) : string :=
  match l with
  | [] => ""
  | [x] => x
  | x :: l' => x +:+ sep +:+ join sep l'
  end.

(** strings.ReplaceAll of a one-byte pattern. *)
Fixpoint replace_byte (c : ascii) (by_ : string) (s : string) : string :=
  match s with
  | EmptyString => ""
  | String a s' =>
      (if decide (a = c) then by_ else str1 a) +:+ replace_byte c by_ s'
  end.

(** The first [n] bytes, [s[:n]] for [n <= len s]. *)
Fixpoint take_bytes (n : nat) (s : string) : string :=
  match n, s with
  | S n', String a s' => String a (take_bytes n' s')
  | _, _ => ""
  end.

(** The UTF-8 encodings of the code points of [unicode.IsSpace]. *)
Definition space_seqs : list string :=
  [bytes [9]; bytes [10]; bytes [11]; bytes [12]; bytes [13]; bytes [32];
   bytes [194; 133]; bytes [194; 160]; bytes [225; 154; 128]]%N ++
  map (fun n => bytes [226; 128; n])%N
    [128; 129; 130; 131; 132; 133; 134; 135; 136; 137; 138; 168; 169; 175]%N ++
  [bytes [226; 129; 159]; bytes [227; 128; 128]]%N.

Fixpoint strip_any (seqs : list string) (s : string) : option string :=
  match seqs with
  | [] => None
  | p :: ps => match strip_prefix p s with
               | Some r => Some r
               | None => strip_any ps s
               end
  end.

Fixpoint trim_left_fuel (fuel : nat) (seqs : list string) (s : string) : string :=
  match fuel with
  | O => s
  | S f => match strip_any seqs s with
           | Some r => trim_left_fuel f seqs r
           | None => s
           end
  end.

(** Each step removes at least one byte, so [length s] steps are enough. *)
Definition trim_left (seqs : list string) (s : string) : string :=
  trim_left_fuel (String.length s) seqs s.

(** strings.TrimSpace: leading and trailing white space runes, decoded as
    UTF-8, are removed.  A white space rune ends a string exactly when its
    encoding is a suffix, since its first byte is the last rune start. *)
Definition trim_space (s : string) : string :=
  String.rev (trim_left (map String.rev space_seqs)
    (String.rev (trim_left space_seqs s))).

Definition is_blank (s : string) : bool := bool_decide (trim_space s = "").

(** strings.ToLower on the ASCII bytes; other bytes are left alone. *)
Definition lower_byte (c : ascii) : ascii :=
  if is_upper c then byte_of (code c + 32) else c.

Fixpoint ascii_lower (s : string) : string :=
  match s with
  | EmptyString => ""
  | String a s' => String (lower_byte a) (ascii_lower s')
  end.

(** strings.ToLower on a UTF-8 string of code points below U+0100: ASCII
    letters, and the two-byte codes U+00C0 to U+00DE but for U+00D7, whose
    lower case is 32 code points above. *)
Fixpoint latin1_lower (s : string) : string :=
  match s with
  | EmptyString => ""
  | String a s' =>
      if decide (code a = 195%N) then
        match s' with
        | String b s'' =>
            String a (String (if byte_between 128 158 b && negb (code b =? 151)%N
                              then byte_of (code b + 32) else b)
                        (latin1_lower s''))
        | EmptyString => str1 a
        end
      else String (lower_byte a) (latin1_lower s')
  end.

(** strings.EqualFold for ASCII operands. *)
Definition ascii_equal_fold (a b : string) : bool :=
  bool_decide (ascii_lower a = ascii_lower b).

(** The UTF-8 encoding of a code point below U+0800, as [WriteRune] emits it. *)
Definition utf8_rune (n : N) : string :=
  if (n <? 128)%N then bytes [n]
  else bytes [192 + n / 64; 128 + n mod 64]%N.

(** * Integers

    [int] and [int64] are 64-bit two's complement, [uint64] is unsigned. *)
Definition int64_min : Z := -9223372036854775808.
Definition int64_max : Z := 9223372036854775807.
Definition uint64_max : Z := 18446744073709551615.

Definition wrap64 (z : Z) : Z := (z + 9223372036854775808) mod 18446744073709551616 - 9223372036854775808.
Definition wrapu64 (z : Z) : Z := z mod 18446744073709551616.

(** strconv.FormatUint / FormatInt base 10, and the verb [%d]. *)
Definition format_N (n : N) : string := NilZero.string_of_uint (N.to_uint n).

Definition format_Z (z : Z) : string :=
  match z with
  | Z0 => "0"
  | Zpos p => format_N (Npos p)
  | Zneg p => "-" +:+ format_N (Npos p)
  end.

(** Decimal digits, at least one, no sign and no underscore. *)
Definition parse_digits (s : string) : option Z :=
  match NilZero.uint_of_string s with
  | Some d => Some (Z.of_N (N.of_uint d))
  | None => None
  end.

(** strconv.ParseUint(s, 10, 64): digits only, out of range is an error. *)
Definition parse_uint64 (s : string) : option Z :=
  match parse_digits s with
  | Some z => if z <=? uint64_max then Some z else None
  | None => None
  end.

(** strconv.ParseInt(s, 10, 64) and strconv.Atoi: an optional sign, digits,
    out of range is an error. *)
Definition parse_int64 (s : string) : option Z :=
  let in_range z := if (int64_min <=? z) && (z <=? int64_max) then Some z else None in
  match s with
  | String a s' =>
      if decide (code a = 45%N) then
        match parse_digits s' with Some z => in_range (- z) | None => None end
      else if decide (code a = 43%N) then
        match parse_digits s' with Some z => in_range z | None => None end
      else match parse_digits s with Some z => in_range z | None => None end
  | EmptyString => None
  end.

(** * Sorting

    sort.Strings orders byte-wise; its result is unique, so any sorting
    function models it. *)
Definition sort_strings (l : list string) : list string := merge_sort String.le l.

(** The keys of a map, in the order [sort.Strings] gives them. *)
Definition sorted_keys {A} (m : gmap string A) : list string :=
  sort_strings ((map_to_list m).*1).

(** The values of a map in the order of its keys. *)
Definition sorted_values {A} (m : gmap string A) : list A :=
  omap (fun k => m !! k) (sorted_keys m).

(** * Automation *)

(** Split every equation between constructors and every conjunction. *)
Ltac inv_all :=
  repeat match goal with
  | H : Some _ = Some _ |- _ => injection H as H; subst
  | H : Ok _ = Ok _ |- _ => injection H as H; subst
  | H : Err _ = Err _ |- _ => injection H as H; subst
  | H : (_, _) = (_, _) |- _ => injection H as H; subst
  | H : Some _ = None |- _ => discriminate H
  | H : None = Some _ |- _ => discriminate H
  | H : Ok _ = Err _ |- _ => discriminate H
  | H : Err _ = Ok _ |- _ => discriminate H
  | H : _ /\ _ |- _ => destruct H
  | H : exists _, _ |- _ => destruct H
  end.

(** Case analysis on the innermost scrutinee of the goal. *)
Ltac split_match :=
  match goal with
  | |- context [match ?x with _ => _ end] =>
      lazymatch x with
      | context [match _ with _ => _ end] => fail
      | _ => destruct x eqn:?
      end
  end.

Create HintDb go.
Create HintDb runs.
Create Rewrite HintDb go.

(** * Lemmas on lists *)

Lemma omap_cons_eq {A B} (f : A -> option B) (x : A) (l : list A) :
  omap f (x :: l) = match f x with Some y => y :: omap f l | None => omap f l end.
Proof. done. Qed.

Lemma filter_all {A} (P : A -> Prop) `{!forall x, Decision (P x)} (l : list A) :
  Forall P l -> filter P l = l.
Proof. induction 1 as [|x l Hx _ IH]; [done|]. by rewrite filter_cons_True, IH. Qed.

Lemma StronglySorted_lookup_2 {A} (R : A -> A -> Prop) (l : list A) :
  (forall i j x y, (i < j)%nat -> l !! i = Some x -> l !! j = Some y -> R x y) -> StronglySorted R l.
Proof.
  induction l as [|a l IH]; intros H; [constructor|]. constructor.
  - apply IH. intros i j x y Hij Hx Hy. by apply (H (S i) (S j) x y); [lia|..].
  - apply Forall_forall. intros y [j Hj]%list_elem_of_lookup_1. by apply (H O (S j) a y); [lia|..].
Qed.

Lemma lookup_filter_key {A} (P : string -> Prop) `{!forall kv : string * A, Decision (P kv.1)} (k : string) `{!Decision (P k)}
    (m : gmap string A) :
  filter (fun kv => P kv.1) m !! k = if decide (P k) then m !! k else None.
Proof.
  rewrite map_lookup_filter. destruct (m !! k) as [v|]; simpl; [|by case_decide].
  case_decide; [by rewrite option_guard_True|by rewrite option_guard_False].
Qed.

(** * Lemmas on strings *)

Lemma app_nil_l_str (s : string) : "" +:+ s = s.
Proof. reflexivity. Qed.

Lemma app_cons_str (a : ascii) (s t : string) : String a s +:+ t = String a (s +:+ t).
Proof. reflexivity. Qed.

Lemma app_nil_r_str (s : string) : s +:+ "" = s.
Proof. induction s as [|a s IH]; [done|]. by rewrite app_cons_str, IH. Qed.

Lemma app_assoc_str (s t u : string) : (s +:+ t) +:+ u = s +:+ (t +:+ u).
Proof. induction s as [|a s IH]; [done|]. by rewrite !app_cons_str, IH. Qed.

Lemma length_app_str (s t : string) :
  String.length (s +:+ t) = (String.length s + String.length t)%nat.
Proof. induction s as [|a s IH]; [done|]. rewrite app_cons_str. simpl. by rewrite IH. Qed.

#[export] Hint Rewrite app_nil_l_str app_cons_str app_nil_r_str app_assoc_str : go.

Lemma app_inv_length (s1 s2 t1 t2 : string) :
  String.length s1 = String.length s2 ->
  s1 +:+ t1 = s2 +:+ t2 -> s1 = s2 /\ t1 = t2.
Proof.
  revert s2. induction s1 as [|a s1 IH]; intros [|b s2] Hl He; try discriminate; [done|].
  rewrite !app_cons_str in He. injection He as -> He. injection Hl as Hl.
  destruct (IH _ Hl He) as [-> ->]. done.
Qed.

Lemma strip_prefix_app (p s : string) : strip_prefix p (p +:+ s) = Some s.
Proof. induction p as [|a p IH]; [done|]. simpl. by rewrite decide_True. Qed.

Lemma strip_prefix_Some (p s r : string) : strip_prefix p s = Some r <-> s = p +:+ r.
Proof.
  split; [|intros ->; apply strip_prefix_app].
  revert s. induction p as [|a p IH]; intros s H; simpl in H; [by inv_all|].
  destruct s as [|b s]; [done|]. case_decide; [|done]. subst.
  rewrite app_cons_str. f_equal. by apply IH.
Qed.

Lemma contains_byte_app (c : ascii) (s t : string) :
  contains_byte c (s +:+ t) = contains_byte c s || contains_byte c t.
Proof.
  induction s as [|a s IH]; [done|]. simpl. by case_decide.
Qed.

Lemma all_bytes_free (f : ascii -> bool) (c : ascii) (s : string) : f c = false -> all_bytes f s = true -> contains_byte c s = false.
Proof.
  intros Hc. induction s as [|a s IH]; simpl; [done|]. intros [Ha Hs]%andb_true_iff. rewrite decide_False; [by apply IH|].
  intros ->. congruence.
Qed.

Lemma cut_byte_app (c : ascii) (x y : string) :
  contains_byte c x = false -> cut_byte c (x +:+ String c y) = Some (x, y).
Proof.
  induction x as [|a x IH]; simpl; intros H.
  - by rewrite decide_True.
  - case_decide; [done|]. by rewrite IH.
Qed.

Lemma cut_byte_Some (c : ascii) (s x y : string) :
  cut_byte c s = Some (x, y) <-> s = x +:+ String c y /\ contains_byte c x = false.
Proof.
  split; [|intros [-> H]; by apply cut_byte_app].
  revert x. induction s as [|a s IH]; intros x H; simpl in H; [done|].
  case_decide; [inv_all; done|].
  destruct (cut_byte c s) as [[x' y']|] eqn:E; [|done]. inv_all.
  destruct (IH x' eq_refl) as [-> Hx]. split; [done|]. simpl. by rewrite decide_False.
Qed.

Lemma cut_byte_None (c : ascii) (s : string) :
  cut_byte c s = None <-> contains_byte c s = false.
Proof.
  induction s as [|a s IH]; simpl; [done|]. case_decide; [done|].
  destruct (cut_byte c s) as [[??]|]; [|tauto]. split; [done|]. intros Hc. by apply IH in Hc.
Qed.

Lemma join_app_str (sep x y : string) (l : list string) :
  join sep (x :: y :: l) = x +:+ sep +:+ join sep (y :: l).
Proof. done. Qed.

(** Joining parts free of the separator loses nothing. *)
Lemma join_inj (c : ascii) (l1 l2 : list string) :
  length l1 = length l2 ->
  Forall (fun s => contains_byte c s = false) l1 ->
  Forall (fun s => contains_byte c s = false) l2 ->
  join (str1 c) l1 = join (str1 c) l2 -> l1 = l2.
Proof.
  revert l2. induction l1 as [|x l1 IH]; intros [|y l2] Hlen H1 H2 He; try done.
  inversion_clear H1 as [|?? Hx Hl1]. inversion_clear H2 as [|?? Hy Hl2].
  destruct l1 as [|x' l1], l2 as [|y' l2]; try done.
  - simpl in He. by subst.
  - rewrite !join_app_str in He.
    assert (Hc : Some (x, join (str1 c) (x' :: l1)) = Some (y, join (str1 c) (y' :: l2))).
    { rewrite <- (cut_byte_app c x), <- (cut_byte_app c y) by done. f_equal. exact He. }
    injection Hc as -> Hj. f_equal. apply IH; auto.
Qed.

(** * Lemmas on decimal numerals *)

Lemma parse_format_N (n : N) : parse_digits (format_N n) = Some (Z.of_N n).
Proof.
  unfold parse_digits, format_N. rewrite NilZero.usu.
  - by rewrite DecimalN.Unsigned.of_to.
  - destruct n as [|p]; [done|]. simpl.
    pose proof (DecimalPos.Unsigned.to_uint_nonnil p). done.
Qed.

Lemma string_of_uint_digits (d : Decimal.uint) :
  all_bytes is_digit (NilEmpty.string_of_uint d) = true.
Proof. induction d; simpl; auto. Qed.

Lemma format_N_digits (n : N) : all_bytes is_digit (format_N n) = true.
Proof.
  unfold format_N, NilZero.string_of_uint.
  destruct (N.to_uint n); [done|..]; apply string_of_uint_digits.
Qed.

Lemma format_N_head (n : N) : exists a s, format_N n = String a s /\ is_digit a = true.
Proof.
  pose proof (format_N_digits n) as Hd. pose proof (parse_format_N n) as Hp.
  destruct (format_N n) as [|a s]; [done|]. simpl in Hd. apply andb_prop in Hd as [Ha _]. eauto.
Qed.

Lemma all_bytes_contains (f : ascii -> bool) (c : ascii) (s : string) :
  all_bytes f s = true -> f c = false -> contains_byte c s = false.
Proof.
  intros Hs Hc. induction s as [|a s IH]; [done|]. simpl in *.
  apply andb_prop in Hs as [Ha Hs]. case_decide; [congruence|auto].
Qed.

Lemma format_Z_nonneg (z : Z) : 0 <= z -> format_Z z = format_N (Z.to_N z).
Proof. destruct z; simpl; [done..|lia]. Qed.

Lemma is_digit_not_sign (a : ascii) : is_digit a = true -> code a <> 45%N /\ code a <> 43%N.
Proof. unfold is_digit, byte_between. rewrite andb_true_iff, !N.leb_le. lia. Qed.

Lemma parse_uint64_format (z : Z) :
  0 <= z <= uint64_max -> parse_uint64 (format_Z z) = Some z.
Proof.
  intros [H0 H1]. unfold parse_uint64. rewrite format_Z_nonneg, parse_format_N by done.
  rewrite Z2N.id by done. by apply Z.leb_le in H1 as ->.
Qed.

Lemma parse_int64_format (z : Z) :
  int64_min <= z <= int64_max -> parse_int64 (format_Z z) = Some z.
Proof.
  intros Hz. destruct (Z.lt_ge_cases z 0) as [Hneg|Hpos].
  - destruct z as [|p|p]; try lia. unfold format_Z, parse_int64. rewrite app_cons_str.
    rewrite decide_True by done. rewrite app_nil_l_str, parse_format_N.
    change (- Z.of_N (N.pos p)) with (Z.neg p).
    destruct (Z.leb_spec int64_min (Z.neg p)), (Z.leb_spec (Z.neg p) int64_max); simpl; auto; lia.
  - rewrite format_Z_nonneg by done. destruct (format_N_head (Z.to_N z)) as (a & s & He & Ha).
    pose proof (parse_format_N (Z.to_N z)) as Hp. rewrite He in *.
    apply is_digit_not_sign in Ha as [Ha1 Ha2]. unfold parse_int64.
    rewrite !decide_False by done. rewrite Hp, Z2N.id by done.
    destruct (Z.leb_spec int64_min z), (Z.leb_spec z int64_max); simpl; auto; lia.
Qed.

Lemma format_Z_inj (a b : Z) :
  int64_min <= a <= int64_max -> int64_min <= b <= int64_max ->
  format_Z a = format_Z b -> a = b.
Proof.
  intros Ha Hb He. apply parse_int64_format in Ha, Hb. congruence.
Qed.

Lemma format_Z_nonneg_inj (a b : Z) : 0 <= a -> 0 <= b -> format_Z a = format_Z b -> a = b.
Proof.
  intros Ha Hb He. rewrite !format_Z_nonneg in He by done. apply (f_equal parse_digits) in He.
  rewrite !parse_format_N in He. injection He as He. lia.
Qed.

Lemma format_Z_no_byte (z : Z) (c : ascii) :
  is_digit c = false -> code c <> 45%N -> contains_byte c (format_Z z) = false.
Proof.
  intros Hc Hm. destruct z; simpl; [..|rewrite decide_False].
  - rewrite decide_False; [done|]. intros <-. done.
  - eapply all_bytes_contains; [apply format_N_digits|done].
  - eapply all_bytes_contains; [apply format_N_digits|done].
  - intros <-. done.
Qed.

Lemma wrap64_id (z : Z) : int64_min <= z <= int64_max -> wrap64 z = z.
Proof. unfold wrap64, int64_min, int64_max. intros. rewrite Z.mod_small; lia. Qed.

Lemma wrap64_range (z : Z) : int64_min <= wrap64 z <= int64_max.
Proof.
  unfold wrap64, int64_min, int64_max.
  pose proof (Z.mod_pos_bound (z + 9223372036854775808) 18446744073709551616). lia.
Qed.

Lemma wrapu64_id (z : Z) : 0 <= z <= uint64_max -> wrapu64 z = z.
Proof. unfold wrapu64, uint64_max. intros. rewrite Z.mod_small; lia. Qed.

(** * Lemmas on sorting *)

Lemma sort_strings_perm (l : list string) : sort_strings l ≡ₚ l.
Proof. apply merge_sort_Permutation. Qed.

Lemma sort_strings_sorted (l : list string) : StronglySorted String.le (sort_strings l).
Proof. apply (StronglySorted_merge_sort String.le). Qed.

(** The order in which a map is walked does not matter once it is sorted. *)
Lemma sort_strings_unique (l1 l2 : list string) :
  l1 ≡ₚ l2 -> sort_strings l1 = sort_strings l2.
Proof.
  intros Hp. apply (StronglySorted_unique String.le); try apply sort_strings_sorted.
  by rewrite !sort_strings_perm.
Qed.

Lemma sort_strings_id (l : list string) : StronglySorted String.le l -> sort_strings l = l.
Proof.
  intros Hs. apply (StronglySorted_unique String.le); [apply sort_strings_sorted|done|].
  apply sort_strings_perm.
Qed.

Lemma elem_of_sort_strings (x : string) (l : list string) : x ∈ sort_strings l <-> x ∈ l.
Proof. by rewrite sort_strings_perm. Qed.

Lemma NoDup_sort_strings (l : list string) : NoDup (sort_strings l) <-> NoDup l.
Proof. by rewrite sort_strings_perm. Qed.

Lemma elem_of_map_keys {A} (m : gmap string A) (k : string) :
  k ∈ (map_to_list m).*1 <-> is_Some (m !! k).
Proof.
  rewrite list_elem_of_fmap. split.
  - intros ([k' v] & -> & Hk). apply elem_of_map_to_list in Hk. eauto.
  - intros [v Hv]. exists (k, v). split; [done|]. by apply elem_of_map_to_list.
Qed.

Lemma elem_of_sorted_keys {A} (m : gmap string A) (k : string) :
  k ∈ sorted_keys m <-> is_Some (m !! k).
Proof. unfold sorted_keys. by rewrite elem_of_sort_strings, elem_of_map_keys. Qed.

Lemma NoDup_sorted_keys {A} (m : gmap string A) : NoDup (sorted_keys m).
Proof. unfold sorted_keys. rewrite NoDup_sort_strings. apply NoDup_fst_map_to_list. Qed.

Lemma sorted_keys_sorted {A} (m : gmap string A) : StronglySorted String.le (sorted_keys m).
Proof. apply sort_strings_sorted. Qed.

Lemma sorted_keys_empty {A} : sorted_keys (∅ : gmap string A) = [].
Proof. unfold sorted_keys. by rewrite map_to_list_empty. Qed.

Lemma elem_of_sorted_values {A} (m : gmap string A) (v : A) :
  v ∈ sorted_values m <-> exists k, m !! k = Some v.
Proof.
  unfold sorted_values. rewrite list_elem_of_omap. split; [by intros (k & _ & Hk); eauto|].
  intros (k & Hk). exists k. split; [|done]. apply elem_of_sorted_keys. eauto.
Qed.

Lemma sorted_values_keys {A} (f : A -> string) (m : gmap string A) :
  (forall k v, m !! k = Some v -> f v = k) -> map f (sorted_values m) = sorted_keys m.
Proof.
  intros Hf. unfold sorted_values.
  assert (Hk : Forall (fun k => is_Some (m !! k)) (sorted_keys m))
    by (apply Forall_forall; intros k; apply elem_of_sorted_keys).
  induction Hk as [|k l [v Hv] _ IH]; [done|]. simpl. rewrite Hv. simpl. f_equal; [by apply Hf|done].
Qed.

(** * Induction on the length of a string *)

Lemma string_strong_ind (P : string -> Prop) :
  (forall s, (forall t, (String.length t < String.length s)%nat -> P t) -> P s) -> forall s, P s.
Proof.
  intros H s. remember (String.length s) as n eqn:Hn. revert s Hn.
  induction (lt_wf n) as [n _ IH]. intros s ->. apply H. intros t Ht. by eapply IH.
Qed.

(** * Lemmas on trimming *)

Lemma all_bytes_rev (f : ascii -> bool) (s : string) : all_bytes f (String.rev s) = all_bytes f s.
Proof.
  assert (H : forall t u, all_bytes f (String.rev_app t u) = all_bytes f t && all_bytes f u).
  { induction t as [|a t IH]; intros u; simpl; [done|]. rewrite IH. simpl. destruct (f a), (all_bytes f t); done. }
  unfold String.rev. by rewrite H, andb_true_r.
Qed.

Lemma all_bytes_app (f : ascii -> bool) (s t : string) : all_bytes f (s +:+ t) = all_bytes f s && all_bytes f t.
Proof. induction s as [|a s IH]; [done|]. rewrite app_cons_str. cbn [all_bytes]. by rewrite IH, andb_assoc. Qed.

Lemma all_bytes_impl (f g : ascii -> bool) (s : string) : (forall a, f a = true -> g a = true) -> all_bytes f s = true -> all_bytes g s = true.
Proof. intros Hfg. induction s as [|a s IH]; [done|]. cbn [all_bytes]. intros [Ha Hs]%andb_true_iff. by rewrite (Hfg a Ha), IH. Qed.

Lemma take_bytes_bytes (f : ascii -> bool) (n : nat) (s : string) : all_bytes f s = true -> all_bytes f (take_bytes n s) = true.
Proof.
  revert s. induction n as [|n IH]; intros [|a s]; [done..|]. cbn [all_bytes take_bytes]. intros [Ha Hs]%andb_true_iff. rewrite Ha. by apply IH.
Qed.

Lemma contains_byte_rev (c : ascii) (s : string) : contains_byte c (String.rev s) = contains_byte c s.
Proof.
  assert (H : forall t u, contains_byte c (String.rev_app t u) = contains_byte c t || contains_byte c u).
  { induction t as [|a t IH]; intros u; simpl; [done|]. rewrite IH. simpl.
    case_decide; [apply orb_true_r|done]. }
  unfold String.rev. by rewrite H, orb_false_r.
Qed.

Lemma strip_any_Some (seqs : list string) (s r : string) :
  strip_any seqs s = Some r -> exists p, p ∈ seqs /\ s = p +:+ r.
Proof.
  induction seqs as [|p seqs IH]; simpl; intros H; [done|].
  destruct (strip_prefix p s) as [r'|] eqn:E.
  - inv_all. apply strip_prefix_Some in E. exists p. split; [apply list_elem_of_here|done].
  - destruct (IH H) as (q & Hq & Hs). exists q. split; [by apply list_elem_of_further|done].
Qed.

Lemma trim_left_contains (c : ascii) (seqs : list string) (s : string) :
  Forall (fun p => contains_byte c p = false) seqs ->
  contains_byte c (trim_left seqs s) = contains_byte c s.
Proof.
  intros Hseqs. unfold trim_left. generalize (String.length s) as n. intros n. revert s.
  induction n as [|n IH]; intros s; [done|]. cbn [trim_left_fuel].
  destruct (strip_any seqs s) as [r|] eqn:E; [|done]. rewrite IH.
  apply strip_any_Some in E as (p & Hp & ->). rewrite contains_byte_app.
  rewrite Forall_forall in Hseqs. by rewrite (Hseqs p).
Qed.

(** Trimming keeps every byte that occurs in no white space rune. *)
Lemma trim_space_contains (c : ascii) (s : string) :
  forallb (fun p => negb (contains_byte c p)) space_seqs = true ->
  contains_byte c (trim_space s) = contains_byte c s.
Proof.
  intros H. rewrite forallb_forall in H. unfold trim_space.
  rewrite contains_byte_rev, trim_left_contains, contains_byte_rev, trim_left_contains; [done|..];
    apply Forall_forall; intros p Hp.
  - apply negb_true_iff, H. by apply list_elem_of_In.
  - apply list_elem_of_fmap in Hp as (q & -> & Hq). rewrite contains_byte_rev.
    apply negb_true_iff, H. by apply list_elem_of_In.
Qed.

Lemma not_blank (c : ascii) (s : string) :
  forallb (fun p => negb (contains_byte c p)) space_seqs = true ->
  contains_byte c s = true -> is_blank s = false.
Proof.
  intros Hc Hs. unfold is_blank. apply bool_decide_eq_false. intros He.
  rewrite <- (trim_space_contains c) in Hs by done. by rewrite He in Hs.
Qed.

Lemma strip_any_None (seqs : list string) (s : string) :
  strip_any seqs s = None <-> Forall (fun p => strip_prefix p s = None) seqs.
Proof.
  induction seqs as [|p seqs IH]; simpl; [split; [constructor|done]|]. rewrite Forall_cons, <- IH.
  destruct (strip_prefix p s); tauto || (split; [done|by intros [? _]]).
Qed.

Lemma trim_left_id (seqs : list string) (s : string) :
  strip_any seqs s = None -> trim_left seqs s = s.
Proof. intros H. unfold trim_left. destruct (String.length s); simpl; by rewrite ?H. Qed.

Lemma rev_rev_str (s : string) : String.rev (String.rev s) = s.
Proof.
  assert (H : forall t u, String.rev (String.rev_app t u) = String.rev_app u t).
  { induction t as [|a t IH]; intros u; [done|]. simpl. rewrite IH. done. }
  unfold String.rev at 2. by rewrite H.
Qed.

(** A string that neither starts nor ends with white space is left alone. *)
Lemma trim_space_id (s : string) :
  strip_any space_seqs s = None ->
  strip_any (map String.rev space_seqs) (String.rev s) = None -> trim_space s = s.
Proof.
  intros H1 H2. unfold trim_space. rewrite (trim_left_id space_seqs) by done.
  rewrite trim_left_id by done. apply rev_rev_str.
Qed.
