(* ===== verification/GoValue.v ===== *)
(** Dynamic Go values and JSON documents.

    [any] holds the dynamic values the program stores in message headers;
    [json] is the abstract syntax of a JSON document; [to_json] and [of_json]
    are encoding/json's mapping between them, and [json_print] is the compact
    text json.Marshal writes for a document, byte for byte. *)

From Stdlib Require Import Ascii String ZArith NArith Lia.
From S2P Require Import Prelude.

#[local] Set Warnings "-register-all".

(** * UTF-8, as [utf8.DecodeRuneInString] reads it *)

Definition is_cont (c : ascii) : bool := byte_between 128 191 c.

(** [utf8_width s] is the length of the valid UTF-8 sequence at the head of
    [s], and [None] where the decoder returns (RuneError, 1). *)
Definition utf8_width (s : string) : option nat :=
  match s with
  | EmptyString => None
  | String a s1 =>
      let n := code a in
      if (n <? 128)%N then Some 1%nat
      else if byte_between 194 223 a then
        match s1 with
        | String b _ => if is_cont b then Some 2%nat else None
        | _ => None
        end
      else if byte_between 224 239 a then
        match s1 with
        | String b (String c _) =>
            let lo := if (n =? 224)%N then 160%N else 128%N in
            let hi := if (n =? 237)%N then 159%N else 191%N in
            if byte_between lo hi b && is_cont c then Some 3%nat else None
        | _ => None
        end
      else if byte_between 240 244 a then
        match s1 with
        | String b (String c (String d _)) =>
            let lo := if (n =? 240)%N then 144%N else 128%N in
            let hi := if (n =? 244)%N then 143%N else 191%N in
            if byte_between lo hi b && is_cont c && is_cont d then Some 4%nat else None
        | _ => None
        end
      else None
  end.

Definition replacement : string := bytes [239; 191; 189]%N.

(** The string json.Unmarshal reads back from what json.Marshal wrote for
    [s]: every byte outside a valid sequence becomes U+FFFD.  [k] bytes of
    the current sequence are still to be copied. *)
Fixpoint coerce_from (k : nat) (s : string) : string :=
  match s with
  | EmptyString => ""
  | String a s' =>
      match k with
      | S k' => String a (coerce_from k' s')
      | O => match utf8_width s with
             | Some w => String a (coerce_from (Nat.pred w) s')
             | None => replacement +:+ coerce_from 0 s'
             end
      end
  end.

Definition coerce_utf8 (s : string) : string := coerce_from 0 s.

(** [s] is valid UTF-8. *)
Fixpoint valid_from (k : nat) (s : string) : bool :=
  match s with
  | EmptyString => bool_decide (k = O)
  | String a s' =>
      match k with
      | S k' => valid_from k' s'
      | O => match utf8_width s with
             | Some w => valid_from (Nat.pred w) s'
             | None => false
             end
      end
  end.

Definition valid_utf8 (s : string) : bool := valid_from 0 s.

(** * JSON documents *)

(** Numbers are kept as the literal in the text, as the decoder keeps them
    until the target type is known. *)
Inductive json : Type :=
| JNull
| JBool (b : bool)
| JNum (lit : string)
| JStr (s : string)
| JArr (l : list json)
| JObj (l : list (string * json)).

(** * Dynamic values *)

(** The dynamic types the program puts in a [map[string]any], and those the
    decoder makes of them.  A float64 is named by its shortest literal. *)
Inductive any : Type :=
| ANil
| ABool (b : bool)
| AInt (z : Z)
| AFloat (lit : string)
| AString (s : string)
| AStrings (l : list string)
| AUint32s (l : list Z)
| ASlice (l : list any)
| AMap (l : list (string * any))
| AMaps (l : list (list (string * any))).

(** json.Marshal on a dynamic value. *)
Fixpoint to_json (a : any) : json :=
  match a with
  | ANil => JNull
  | ABool b => JBool b
  | AInt z => JNum (format_Z z)
  | AFloat lit => JNum lit
  | AString s => JStr s
  | AStrings l => JArr (map JStr l)
  | AUint32s l => JArr (map (fun z => JNum (format_Z z)) l)
  | ASlice l => JArr (map to_json l)
  | AMap l => JObj (map (fun kv => (kv.1, to_json kv.2)) l)
  | AMaps l => JArr (map (fun m => JObj (map (fun kv => (kv.1, to_json kv.2)) m)) l)
  end.

(** json.Unmarshal into an [any]. *)
Fixpoint of_json (j : json) : any :=
  match j with
  | JNull => ANil
  | JBool b => ABool b
  | JNum lit => AFloat lit
  | JStr s => AString (coerce_utf8 s)
  | JArr l => ASlice (map of_json l)
  | JObj l => AMap (map (fun kv => (coerce_utf8 kv.1, of_json kv.2)) l)
  end.

(** What a stored value becomes when it is read back. *)
Fixpoint reloaded (a : any) : any :=
  match a with
  | ANil => ANil
  | ABool b => ABool b
  | AInt z => AFloat (format_Z z)
  | AFloat lit => AFloat lit
  | AString s => AString (coerce_utf8 s)
  | AStrings l => ASlice (map (fun s => AString (coerce_utf8 s)) l)
  | AUint32s l => ASlice (map (fun z => AFloat (format_Z z)) l)
  | ASlice l => ASlice (map reloaded l)
  | AMap l => AMap (map (fun kv => (coerce_utf8 kv.1, reloaded kv.2)) l)
  | AMaps l => ASlice (map (fun m =>
      AMap (map (fun kv => (coerce_utf8 kv.1, reloaded kv.2)) m)) l)
  end.

(** * Text *)

Definition hex_digit (n : N) : ascii :=
  if (n <? 10)%N then byte_of (48 + n) else byte_of (87 + n).

(** The two lower-case hexadecimal digits of a byte. *)
Definition hex_byte (n : N) : string :=
  String (hex_digit (n / 16)) (str1 (hex_digit (n mod 16))).

(** One ASCII byte inside a string literal, with HTML escaping. *)
Definition json_escape_ascii (a : ascii) : string :=
  let n := code a in
  if (n =? 34)%N || (n =? 92)%N then String backslash (str1 a)
  else if (n =? 8)%N then "\b"
  else if (n =? 12)%N then "\f"
  else if (n =? 10)%N then "\n"
  else if (n =? 13)%N then "\r"
  else if (n =? 9)%N then "\t"
  else if (n <? 32)%N || (n =? 60)%N || (n =? 62)%N || (n =? 38)%N then "\u00" +:+ hex_byte n
  else str1 a.

(** The body of a string literal: invalid bytes become the escape of U+FFFD,
    and U+2028 and U+2029 are escaped. *)
Fixpoint json_escape_from (k : nat) (s : string) : string :=
  match s with
  | EmptyString => ""
  | String a s' =>
      match k with
      | S k' => String a (json_escape_from k' s')
      | O =>
          match utf8_width s with
          | None => "\ufffd" +:+ json_escape_from 0 s'
          | Some (S O) => json_escape_ascii a +:+ json_escape_from 0 s'
          | Some w =>
              match strip_prefix (bytes [226; 128; 168]%N) s, strip_prefix (bytes [226; 128; 169]%N) s, s' with
              | Some _, _, String _ (String _ r) => "\u2028" +:+ json_escape_from 0 r
              | _, Some _, String _ (String _ r) => "\u2029" +:+ json_escape_from 0 r
              | _, _, _ => String a (json_escape_from (Nat.pred w) s')
              end
          end
      end
  end.

Definition json_string (s : string) : string :=
  str1 dquote +:+ json_escape_from 0 s +:+ str1 dquote.

(** The compact text of a document. *)
Fixpoint json_print (j : json) : string :=
  match j with
  | JNull => "null"
  | JBool true => "true"
  | JBool false => "false"
  | JNum lit => lit
  | JStr s => json_string s
  | JArr l => "[" +:+ join "," (map json_print l) +:+ "]"
  | JObj l => "{" +:+ join "," (map (fun kv => json_string kv.1 +:+ ":" +:+ json_print kv.2) l) +:+ "}"
  end.

(** * Reading fields *)

(** A struct field from an object: the decoder matches names up to ASCII
    case, and the last match wins. *)
Fixpoint json_field (name : string) (l : list (string * json)) : option json :=
  match l with
  | [] => None
  | (k, v) :: l' =>
      match json_field name l' with
      | Some v' => Some v'
      | None => if ascii_equal_fold k name then Some v else None
      end
  end.

(** [string], [bool], [int]: null leaves the zero value, another kind is an
    error. *)
Definition dec_string (j : option json) : option string :=
  match j with
  | None | Some JNull => Some ""
  | Some (JStr s) => Some (coerce_utf8 s)
  | Some _ => None
  end.

Definition dec_bool (j : option json) : option bool :=
  match j with
  | None | Some JNull => Some false
  | Some (JBool b) => Some b
  | Some _ => None
  end.

(** [*int]: null or absent is nil. *)
Definition dec_int_ptr (j : option json) : option (option Z) :=
  match j with
  | None | Some JNull => Some None
  | Some (JNum lit) => match parse_int64 lit with Some z => Some (Some z) | None => None end
  | Some _ => None
  end.

(** A slice: null or absent is nil. *)
Definition dec_slice {A} (f : json -> option A) (j : option json) : option (list A) :=
  match j with
  | None | Some JNull => Some []
  | Some (JArr l) => mapM f l
  | Some _ => None
  end.

(** A map with string keys: null or absent is nil, and a later key replaces an
    earlier one. *)
Definition dec_map {A} (f : json -> option A) (j : option json) : option (gmap string A) :=
  match j with
  | None | Some JNull => Some ∅
  | Some (JObj l) =>
      kvs ← mapM (fun kv => v ← f kv.2; Some (coerce_utf8 kv.1, v)) l;
      Some (list_to_map (reverse kvs))
  | Some _ => None
  end.

(** A map is written with its keys in order. *)
Definition map_json {A} (f : A -> json) (m : gmap string A) : json :=
  JObj (omap (fun k => v ← m !! k; Some (k, f v)) (sorted_keys m)).

(** A field with omitempty. *)
Definition field (name : string) (j : json) : list (string * json) := [(name, j)].
Definition field_nonempty (name : string) (s : string) : list (string * json) :=
  if decide (s = "") then [] else [(name, JStr s)].
Definition field_if (b : bool) (name : string) (j : json) : list (string * json) :=
  if b then [(name, j)] else [].
Definition field_int_ptr (name : string) (p : option Z) : list (string * json) :=
  match p with Some z => [(name, JNum (format_Z z))] | None => [] end.
