(* ===== verification/JsonText.v ===== *)
(** The text of JSON documents, as [json.Unmarshal] reads it: the request
    bodies and parameters of [src/internal/protocol/request.go], a setting of
    [src/internal/config/config.go] and the chunks of
    [src/internal/storage/disk.go].

    The reader is a recursive descent over the grammar encoding/json checks,
    with its limit on nesting; what [json_print] of GoValue.v writes is read
    back as it was. *)

From Stdlib Require Import Ascii String ZArith NArith Lia.
From S2P Require Import Prelude GoValue.

#[local] Set Warnings "-clear-no-such-hyp".

(** * Definitions *)

(** ** Strings *)

(** The UTF-8 encoding of a code point. *)
Definition rune_bytes (n : N) : string :=
  if (n <? 128)%N then bytes [n]
  else if (n <? 2048)%N then bytes [192 + n / 64; 128 + n mod 64]%N
  else if (n <? 65536)%N then bytes [224 + n / 4096; 128 + n / 64 mod 64; 128 + n mod 64]%N
  else bytes [240 + n / 262144; 128 + n / 4096 mod 64; 128 + n / 64 mod 64; 128 + n mod 64]%N.

Definition hex_value (c : ascii) : option N :=
  let n := code c in
  if is_digit c then Some (n - 48)%N
  else if byte_between 97 102 c then Some (n - 87)%N
  else if byte_between 65 70 c then Some (n - 55)%N
  else None.

Definition hex4 (a b c d : ascii) : option N :=
  a ← hex_value a; b ← hex_value b; c ← hex_value c; d ← hex_value d;
  Some (((a * 16 + b) * 16 + c) * 16 + d)%N.

Definition is_high_surrogate (n : N) : bool := ((55296 <=? n) && (n <? 56320))%N.
Definition is_low_surrogate (n : N) : bool := ((56320 <=? n) && (n <? 57344))%N.

(** The byte an escape other than [\u] stands for. *)
Definition simple_escape (c : ascii) : option ascii :=
  let n := code c in
  if ((n =? 34) || (n =? 92) || (n =? 47))%N then Some c
  else if (n =? 98)%N then Some (byte_of 8)
  else if (n =? 102)%N then Some (byte_of 12)
  else if (n =? 110)%N then Some (byte_of 10)
  else if (n =? 114)%N then Some (byte_of 13)
  else if (n =? 116)%N then Some (byte_of 9)
  else None.

(** [t] in front of what the rest of a literal holds. *)
Definition prepend (t : string) (r : option (string * string)) : option (string * string) :=
  '(u, rest) ← r; Some (t +:+ u, rest).

(** A string literal after its opening quote: its value and what follows the
    closing quote.  [k] bytes of the current UTF-8 sequence are still to be
    copied; a byte outside a valid sequence reads as U+FFFD, and so does a
    surrogate without its partner. *)
Fixpoint json_chars (k : nat) (s : string) : option (string * string) :=
  match s with
  | EmptyString => None
  | String a s1 =>
      match k with
      | S k' => prepend (str1 a) (json_chars k' s1)
      | O =>
          if decide (a = dquote) then Some ("", s1)
          else if decide (a = backslash) then
            match s1 with
            | String e s2 =>
                if decide (code e = 117%N) then
                  match s2 with
                  | String a1 (String a2 (String a3 (String a4 s3))) =>
                      match hex4 a1 a2 a3 a4 with
                      | None => None
                      | Some n =>
                          if is_high_surrogate n then
                            match s3 with
                            | String q (String u (String b1 (String b2 (String b3 (String b4 s4))))) =>
                                match (if decide (q = backslash) then if decide (code u = 117%N) then hex4 b1 b2 b3 b4 else None else None) with
                                | Some m =>
                                    if is_low_surrogate m
                                    then prepend (rune_bytes (65536 + (n - 55296) * 1024 + (m - 56320))) (json_chars 0 s4)
                                    else prepend replacement (json_chars 0 s3)
                                | None => prepend replacement (json_chars 0 s3)
                                end
                            | _ => prepend replacement (json_chars 0 s3)
                            end
                          else if is_low_surrogate n then prepend replacement (json_chars 0 s3)
                          else prepend (rune_bytes n) (json_chars 0 s3)
                      end
                  | _ => None
                  end
                else match simple_escape e with Some c => prepend (str1 c) (json_chars 0 s2) | None => None end
            | EmptyString => None
            end
          else if (code a <? 32)%N then None
          else
            match utf8_width s with
            | Some w => prepend (str1 a) (json_chars (Nat.pred w) s1)
            | None => prepend replacement (json_chars 0 s1)
            end
      end
  end.

(** ** Numbers *)

Fixpoint span_digits (s : string) : string * string :=
  match s with
  | String c s' => if is_digit c then let '(d, r) := span_digits s' in (String c d, r) else ("", s)
  | EmptyString => ("", "")
  end.

Definition scan_digits (s : string) : option (string * string) :=
  match span_digits s with (EmptyString, _) => None | (d, r) => Some (d, r) end.

(** An optional part of a number that starts with one of [heads]. *)
Definition scan_part (heads : list N) (f : string -> option (string * string)) (s : string) : option (string * string) :=
  match s with
  | String c s' => if decide (code c ∈ heads) then prepend (str1 c) (f s') else Some ("", s)
  | EmptyString => Some ("", "")
  end.

Definition scan_int (s : string) : option (string * string) :=
  match s with
  | String c s' => if decide (code c = 48%N) then Some (str1 c, s') else scan_digits s
  | EmptyString => None
  end.

Definition scan_sign (s : string) : string * string :=
  match s with
  | String c s' => if decide (code c ∈ [43%N; 45%N]) then (str1 c, s') else ("", s)
  | EmptyString => ("", "")
  end.

Definition scan_exponent (s : string) : option (string * string) :=
  let '(sign, r) := scan_sign s in prepend sign (scan_digits r).

Definition scan_unsigned (s : string) : option (string * string) :=
  '(i, r) ← scan_int s;
  '(f, r) ← scan_part [46%N] scan_digits r;
  '(e, r) ← scan_part [101%N; 69%N] scan_exponent r;
  Some (i +:+ f +:+ e, r).

(** The number literal at the head of a text, and what follows it. *)
Definition scan_number (s : string) : option (string * string) :=
  match s with
  | String c s' => if decide (code c = 45%N) then prepend (str1 c) (scan_unsigned s') else scan_unsigned s
  | EmptyString => None
  end.

(** ** Documents *)

Definition is_json_space (c : ascii) : bool := bool_decide (code c ∈ [32; 9; 13; 10]%N).

Fixpoint skip_ws (s : string) : string :=
  match s with String c s' => if is_json_space c then skip_ws s' else s | EmptyString => "" end.

(** [expect c s]: what follows the byte [c], after white space. *)
Definition expect (n : N) (s : string) : option string :=
  match skip_ws s with String c r => if decide (code c = n) then Some r else None | EmptyString => None end.

Definition maxNestingDepth : N := 10000.

Definition parse_literal (s : string) : option (json * string) :=
  match strip_prefix "null" s, strip_prefix "true" s, strip_prefix "false" s with
  | Some r, _, _ => Some (JNull, r)
  | _, Some r, _ => Some (JBool true, r)
  | _, _, Some r => Some (JBool false, r)
  | _, _, _ => '(lit, r) ← scan_number s; Some (JNum lit, r)
  end.

(** A value; the elements of an array after its bracket; the members of an
    object after its brace.  Each call reads at least a byte before the next
    one for the same kind, so twice the length of the text is enough fuel. *)
Fixpoint parse_value (fuel : nat) (depth : N) (s : string) : option (json * string) :=
  match fuel with
  | O => None
  | S f =>
      match skip_ws s with
      | EmptyString => None
      | String c r =>
          if decide (code c = 123%N) then
            if (maxNestingDepth <=? depth)%N then None
            else match expect 125 r with
                 | Some r' => Some (JObj [], r')
                 | None => '(l, r') ← parse_members f (depth + 1) r; Some (JObj l, r')
                 end
          else if decide (code c = 91%N) then
            if (maxNestingDepth <=? depth)%N then None
            else match expect 93 r with
                 | Some r' => Some (JArr [], r')
                 | None => '(l, r') ← parse_elements f (depth + 1) r; Some (JArr l, r')
                 end
          else if decide (c = dquote) then '(t, r') ← json_chars 0 r; Some (JStr t, r')
          else parse_literal (String c r)
      end
  end
with parse_elements (fuel : nat) (depth : N) (s : string) : option (list json * string) :=
  match fuel with
  | O => None
  | S f =>
      '(j, r) ← parse_value f depth s;
      match expect 44 r, expect 93 r with
      | Some r', _ => '(l, r'') ← parse_elements f depth r'; Some (j :: l, r'')
      | None, Some r' => Some ([j], r')
      | None, None => None
      end
  end
with parse_members (fuel : nat) (depth : N) (s : string) : option (list (string * json) * string) :=
  match fuel with
  | O => None
  | S f =>
      r ← expect 34 s;
      '(k, r) ← json_chars 0 r;
      r ← expect 58 r;
      '(j, r) ← parse_value f depth r;
      match expect 44 r, expect 125 r with
      | Some r', _ => '(l, r'') ← parse_members f depth r'; Some ((k, j) :: l, r'')
      | None, Some r' => Some ([(k, j)], r')
      | None, None => None
      end
  end.

Definition json_fuel (s : string) : nat := Datatypes.S (2 * String.length s).

(** The whole text is one document: [None] is a syntax error. *)
Definition parse_json (s : string) : option json :=
  '(j, r) ← parse_value (json_fuel s) 0 s;
  if decide (skip_ws r = "") then Some j else None.

(** What is read back from the text of a document. *)
Fixpoint reread (j : json) : json :=
  match j with
  | JStr s => JStr (coerce_utf8 s)
  | JArr l => JArr (map reread l)
  | JObj l => JObj (map (fun kv => (coerce_utf8 kv.1, reread kv.2)) l)
  | _ => j
  end.

(** The numbers of a document are literals, and it is nested at most [depth]
    deep. *)
Fixpoint json_ok (depth : nat) (j : json) {struct j} : bool :=
  match j with
  | JNum lit => bool_decide (scan_number lit = Some (lit, ""))
  | JArr l => match depth with O => false | S d => forallb (json_ok d) l end
  | JObj l => match depth with O => false | S d => forallb (fun kv => json_ok d kv.2) l end
  | _ => true
  end.

(** * Lemmas *)

(** ** The rest of a text is shorter *)

Lemma prepend_Some (t u rest : string) (x : option (string * string)) :
  prepend t x = Some (u, rest) <-> exists v, x = Some (v, rest) /\ u = t +:+ v.
Proof.
  unfold prepend. destruct x as [[v r]|]; simpl; split.
  - intros [= <- <-]. by exists v.
  - by intros (? & [= -> ->] & ->).
  - done.
  - by intros (? & ? & _).
Qed.

Ltac read_cases H :=
  repeat first
    [ progress (apply prepend_Some in H as (? & H & _))
    | case_decide
    | match type of H with
      | None = Some _ => discriminate H
      | context [match ?x with _ => _ end] => destruct x eqn:?; try discriminate H
      end ].

Lemma json_chars_shorter (k : nat) (s t r : string) : json_chars k s = Some (t, r) -> (String.length r < String.length s)%nat.
Proof.
  revert k t r. induction s as [s IH] using string_strong_ind. intros k t r H. destruct s as [|a s1]; [done|].
  assert (Hr : forall s' k' t' r', (String.length s' < String.length (String a s1))%nat -> json_chars k' s' = Some (t', r') ->
    (String.length r' < String.length (String a s1))%nat) by (intros s' k' t' r' Hl E; specialize (IH s' Hl k' t' r' E); lia).
  cbn [json_chars] in H. read_cases H; try (by injection H as _ <-; simpl; lia); (eapply Hr; [|exact H]); subst; simpl; lia.
Qed.

Lemma skip_ws_shorter (s : string) : (String.length (skip_ws s) <= String.length s)%nat.
Proof. induction s as [|c s IH]; simpl; [lia|]. destruct (is_json_space c); simpl; lia. Qed.

Lemma expect_shorter (n : N) (s r : string) : expect n s = Some r -> (String.length r < String.length s)%nat.
Proof.
  unfold expect. pose proof (skip_ws_shorter s). destruct (skip_ws s) as [|c s']; [done|].
  case_decide; [|done]. intros [= <-]. simpl in *. lia.
Qed.

Lemma span_digits_shorter (s d r : string) : span_digits s = (d, r) ->
  (String.length r <= String.length s)%nat /\ (d <> "" -> String.length r < String.length s)%nat.
Proof.
  revert d r. induction s as [|c s IH]; simpl; intros d r; [by intros [= <- <-]|].
  destruct (is_digit c); [|by intros [= <- <-]]. destruct (span_digits s) as [d' r'].
  intros [= <- <-]. destruct (IH d' r' eq_refl) as [Hl _]. lia.
Qed.

Lemma scan_digits_shorter (s d r : string) : scan_digits s = Some (d, r) -> (String.length r < String.length s)%nat.
Proof.
  unfold scan_digits. destruct (span_digits s) as [d' r'] eqn:E. apply span_digits_shorter in E as [_ E].
  destruct d' as [|c d']; [done|]. intros [= _ <-]. by apply E.
Qed.

Lemma scan_part_shorter (heads : list N) (f : string -> option (string * string)) (s t r : string) :
  (forall s t r, f s = Some (t, r) -> String.length r < String.length s)%nat ->
  scan_part heads f s = Some (t, r) -> (String.length r <= String.length s)%nat.
Proof.
  intros Hf. destruct s as [|c s]; simpl; [by intros [= _ <-]|]. case_decide; [|by intros [= _ <-]].
  intros (v & E & _)%prepend_Some. apply Hf in E. lia.
Qed.

Lemma scan_exponent_shorter (s t r : string) : scan_exponent s = Some (t, r) -> (String.length r < String.length s)%nat.
Proof.
  unfold scan_exponent. destruct s as [|c s]; [done|]. simpl. case_decide; intros (v & E & _)%prepend_Some;
    apply scan_digits_shorter in E; simpl in *; lia.
Qed.

Lemma scan_unsigned_shorter (s t r : string) : scan_unsigned s = Some (t, r) -> (String.length r < String.length s)%nat.
Proof.
  unfold scan_unsigned. destruct (scan_int s) as [[i r1]|] eqn:E1; [|done]. simpl.
  destruct (scan_part _ scan_digits r1) as [[f r2]|] eqn:E2; [|done]. simpl.
  destruct (scan_part _ scan_exponent r2) as [[e r3]|] eqn:E3; [|done]. intros [= _ <-].
  apply scan_part_shorter in E2; [|exact scan_digits_shorter]. apply scan_part_shorter in E3; [|exact scan_exponent_shorter].
  assert (String.length r1 < String.length s)%nat; [|lia]. unfold scan_int in E1. destruct s as [|c s]; [done|].
  case_decide; [by injection E1 as _ <-; simpl; lia|]. by apply scan_digits_shorter in E1.
Qed.

Lemma scan_number_shorter (s t r : string) : scan_number s = Some (t, r) -> (String.length r < String.length s)%nat.
Proof.
  destruct s as [|c s]; [done|]. simpl. case_decide; [|apply scan_unsigned_shorter].
  intros (v & E & _)%prepend_Some. apply scan_unsigned_shorter in E. lia.
Qed.

Lemma parse_literal_shorter (s r : string) (j : json) : parse_literal s = Some (j, r) -> (String.length r < String.length s)%nat.
Proof.
  unfold parse_literal. destruct (strip_prefix "null" s) as [r1|] eqn:E1.
  { intros [= _ <-]. apply strip_prefix_Some in E1 as ->. rewrite length_app_str. simpl. lia. }
  destruct (strip_prefix "true" s) as [r1|] eqn:E2.
  { intros [= _ <-]. apply strip_prefix_Some in E2 as ->. rewrite length_app_str. simpl. lia. }
  destruct (strip_prefix "false" s) as [r1|] eqn:E3.
  { intros [= _ <-]. apply strip_prefix_Some in E3 as ->. rewrite length_app_str. simpl. lia. }
  destruct (scan_number s) as [[lit r1]|] eqn:E4; [|done]. intros [= _ <-]. by apply scan_number_shorter in E4.
Qed.

#[local] Abbreviation shorter := (fun r s => (String.length r < String.length s)%nat).

(** What the three readers leave is shorter than what they got. *)
Lemma parse_shorter (fuel : nat) :
  (forall depth s j r, parse_value fuel depth s = Some (j, r) -> shorter r s) /\
  (forall depth s l r, parse_elements fuel depth s = Some (l, r) -> shorter r s) /\
  (forall depth s l r, parse_members fuel depth s = Some (l, r) -> shorter r s).
Proof.
  induction fuel as [|f (IHv & IHe & IHm)]; [done|]. split_and!; intros depth s x r; cbn [parse_value parse_elements parse_members].
  - pose proof (skip_ws_shorter s) as Hs. destruct (skip_ws s) as [|c s1]; [done|]. simpl in Hs. case_decide; [|case_decide; [|case_decide]].
    + destruct (_ <=? _)%N; [done|]. destruct (expect 125 s1) as [r'|] eqn:E; [intros [= _ <-]; apply expect_shorter in E; lia|].
      destruct (parse_members _ _ _) as [[l r']|] eqn:Em; [|done]. intros [= _ <-]. apply IHm in Em. lia.
    + destruct (_ <=? _)%N; [done|]. destruct (expect 93 s1) as [r'|] eqn:E; [intros [= _ <-]; apply expect_shorter in E; lia|].
      destruct (parse_elements _ _ _) as [[l r']|] eqn:Em; [|done]. intros [= _ <-]. apply IHe in Em. lia.
    + destruct (json_chars 0 s1) as [[t r']|] eqn:E; [|done]. intros [= _ <-]. apply json_chars_shorter in E. lia.
    + intros E%parse_literal_shorter. simpl in E. lia.
  - destruct (parse_value f depth s) as [[j r1]|] eqn:Ev; [|done]. apply IHv in Ev. simpl.
    destruct (expect 44 r1) as [r2|] eqn:E2; [apply expect_shorter in E2|destruct (expect 93 r1) as [r2|] eqn:E3; [apply expect_shorter in E3|done]].
    + destruct (parse_elements f depth r2) as [[l r3]|] eqn:Ee; [|done]. intros [= _ <-]. apply IHe in Ee. lia.
    + intros [= _ <-]. lia.
  - destruct (expect 34 s) as [r0|] eqn:E0; [|done]. apply expect_shorter in E0. simpl.
    destruct (json_chars 0 r0) as [[k r1]|] eqn:Ek; [|done]. apply json_chars_shorter in Ek. simpl.
    destruct (expect 58 r1) as [r2|] eqn:E2; [|done]. apply expect_shorter in E2. simpl.
    destruct (parse_value f depth r2) as [[j r3]|] eqn:Ev; [|done]. apply IHv in Ev. simpl.
    destruct (expect 44 r3) as [r4|] eqn:E4; [apply expect_shorter in E4|destruct (expect 125 r3) as [r4|] eqn:E5; [apply expect_shorter in E5|done]].
    + destruct (parse_members f depth r4) as [[l r5]|] eqn:Em; [|done]. intros [= _ <-]. apply IHm in Em. lia.
    + intros [= _ <-]. lia.
Qed.

(** With fuel for the text, more fuel changes nothing. *)
Lemma parse_fuel (f1 : nat) : forall f2,
  (forall depth s, (2 * String.length s < f1)%nat -> (2 * String.length s < f2)%nat -> parse_value f1 depth s = parse_value f2 depth s) /\
  (forall depth s, (2 * String.length s + 1 < f1)%nat -> (2 * String.length s + 1 < f2)%nat -> parse_elements f1 depth s = parse_elements f2 depth s) /\
  (forall depth s, (2 * String.length s + 1 < f1)%nat -> (2 * String.length s + 1 < f2)%nat -> parse_members f1 depth s = parse_members f2 depth s).
Proof.
  induction f1 as [|f1 IH]; intros [|f2]; [split_and!; intros; lia..|].
  destruct (IH f2) as (IHv & IHe & IHm). destruct (parse_shorter f2) as (Sv & Se & Sm).
  split_and!; intros depth s H1 H2; cbn [parse_value parse_elements parse_members].
  - pose proof (skip_ws_shorter s) as Hs. destruct (skip_ws s) as [|c s1]; [done|]. simpl in Hs.
    by rewrite IHm, IHe by lia.
  - rewrite IHv by lia. destruct (parse_value f2 depth s) as [[j r1]|] eqn:Ev; [|done]. apply Sv in Ev. simpl.
    destruct (expect 44 r1) as [r2|] eqn:E2; [|done]. apply expect_shorter in E2. by rewrite IHe by lia.
  - destruct (expect 34 s) as [r0|] eqn:E0; [|done]. apply expect_shorter in E0. simpl.
    destruct (json_chars 0 r0) as [[k r1]|] eqn:Ek; [|done]. apply json_chars_shorter in Ek. simpl.
    destruct (expect 58 r1) as [r2|] eqn:E2; [|done]. apply expect_shorter in E2. simpl.
    rewrite IHv by lia. destruct (parse_value f2 depth r2) as [[j r3]|] eqn:Ev; [|done]. apply Sv in Ev. simpl.
    destruct (expect 44 r3) as [r4|] eqn:E4; [|done]. apply expect_shorter in E4. by rewrite IHm by lia.
Qed.

Lemma parse_enough_fuel (fuel : nat) (depth : N) (s : string) :
  (json_fuel s <= fuel)%nat -> parse_value fuel depth s = parse_value (json_fuel s) depth s.
Proof. unfold json_fuel. intros H. apply (parse_fuel fuel (Datatypes.S (2 * String.length s))); lia. Qed.

(** ** Reading what was printed: strings *)

Lemma escape_ascii (a : ascii) (x : string) :
  (code a <? 128)%N = true -> json_chars 0 (json_escape_ascii a +:+ x) = prepend (str1 a) (json_chars 0 x).
Proof. destruct a as [[] [] [] [] [] [] [] []]; intros H; try discriminate H; reflexivity. Qed.

Lemma utf8_width_one (a : ascii) (s : string) : utf8_width (String a s) = Some 1%nat -> (code a <? 128)%N = true.
Proof.
  unfold utf8_width. destruct (code a <? 128)%N; [done|]. intros H.
  repeat match type of H with context [match ?x with _ => _ end] => destruct x; try discriminate H end.
Qed.

Lemma byte_between_spec (lo hi : N) (a : ascii) : byte_between lo hi a = true <-> (lo <= code a /\ code a <= hi)%N.
Proof. unfold byte_between. by rewrite andb_true_iff, !N.leb_le. Qed.

(** A sequence of two or more bytes is copied to the text. *)
Lemma utf8_width_long (a : ascii) (s : string) (w : nat) :
  utf8_width (String a s) = Some w -> w <> 1%nat -> (194 <= code a)%N /\ (w <= Datatypes.S (String.length s))%nat /\
  forall t, utf8_width (String a (json_escape_from (Nat.pred w) s +:+ t)) = Some w.
Proof.
  unfold utf8_width. destruct (code a <? 128)%N; [by intros [= <-]|].
  destruct (byte_between 194 223 a) eqn:E2; [|destruct (byte_between 224 239 a) eqn:E3; [|destruct (byte_between 240 244 a) eqn:E4; [|done]]].
  - destruct s as [|b s]; [done|]. destruct (is_cont b) eqn:Eb; [|done]. intros [= <-] _.
    apply byte_between_spec in E2. split_and!; [lia|simpl; lia|]. intros t. simpl. by rewrite Eb.
  - destruct s as [|b [|c s]]; [done..|]. destruct (byte_between _ _ b && is_cont c) eqn:Eb; [|done]. intros [= <-] _.
    apply byte_between_spec in E3. split_and!; [lia|simpl; lia|]. intros t. simpl. by rewrite Eb.
  - destruct s as [|b [|c [|d s]]]; [done..|]. destruct (byte_between _ _ b && is_cont c && is_cont d) eqn:Eb; [|done]. intros [= <-] _.
    apply byte_between_spec in E4. split_and!; [lia|simpl; lia|]. intros t. simpl. by rewrite Eb.
Qed.

Lemma prepend_ok (t u r : string) : prepend t (Some (u, r)) = Some (t +:+ u, r).
Proof. done. Qed.

(** The body of a literal is read back up to its closing quote. *)
Lemma read_escaped (s : string) : forall k rest, (k <= String.length s)%nat ->
  json_chars k (json_escape_from k s +:+ String dquote rest) = Some (coerce_from k s, rest).
Proof.
  induction s as [s IH] using string_strong_ind. intros k rest Hk. destruct s as [|a s1].
  { destruct k; [|simpl in Hk; lia]. reflexivity. }
  destruct k as [|k].
  2:{ cbn [json_escape_from coerce_from]. rewrite app_cons_str. cbn [json_chars]. rewrite IH; [done|simpl; lia|simpl in *; lia]. }
  destruct (utf8_width (String a s1)) as [w|] eqn:Ew.
  2:{ cbn [json_escape_from coerce_from]. rewrite Ew, app_assoc_str.
      change (json_chars 0 ("\ufffd" +:+ (json_escape_from 0 s1 +:+ String dquote rest)))
        with (prepend replacement (json_chars 0 (json_escape_from 0 s1 +:+ String dquote rest))).
      rewrite IH; [done|simpl; lia|lia]. }
  destruct (decide (w = 1%nat)) as [->|Hw].
  { cbn [json_escape_from coerce_from]. rewrite Ew, app_assoc_str, escape_ascii by (by eapply utf8_width_one).
    cbn [Nat.pred]. rewrite IH; [done|simpl; lia|lia]. }
  destruct (utf8_width_long a s1 w Ew Hw) as (Ha & Hlen & Hcopy).
  assert (Hgen : json_chars 0 (String a (json_escape_from (Nat.pred w) s1) +:+ String dquote rest) =
    Some (String a (coerce_from (Nat.pred w) s1), rest)).
  { rewrite app_cons_str. cbn [json_chars].
    rewrite decide_False by (intros ->; by destruct Ha). rewrite decide_False by (intros ->; by destruct Ha).
    destruct (N.ltb_spec (code a) 32); [lia|]. rewrite Hcopy, IH; [done|simpl; lia|simpl in *; lia]. }
  assert (Hsep : forall c r, (c = 168 \/ c = 169)%N -> String a s1 = bytes [226; 128; c]%N +:+ r ->
    json_chars 0 (json_escape_from 0 (String a s1) +:+ String dquote rest) = Some (coerce_from 0 (String a s1), rest)).
  { intros c r Hc E. assert (Hr : (String.length r < String.length (String a s1))%nat)
      by (rewrite E, length_app_str; simpl; lia). rewrite E.
    specialize (IH r Hr 0%nat rest ltac:(lia)). destruct Hc as [-> | ->].
    - change (prepend (bytes [226; 128; 168]%N) (json_chars 0 (json_escape_from 0 r +:+ String dquote rest)) =
        Some (bytes [226; 128; 168]%N +:+ coerce_from 0 r, rest)). by rewrite IH.
    - change (prepend (bytes [226; 128; 169]%N) (json_chars 0 (json_escape_from 0 r +:+ String dquote rest)) =
        Some (bytes [226; 128; 169]%N +:+ coerce_from 0 r, rest)). by rewrite IH. }
  destruct (strip_prefix (bytes [226; 128; 168]%N) (String a s1)) as [r|] eqn:E8; [apply strip_prefix_Some in E8; eauto|].
  destruct (strip_prefix (bytes [226; 128; 169]%N) (String a s1)) as [r|] eqn:E9; [apply strip_prefix_Some in E9; eauto|].
  clear Hsep. cbn [json_escape_from coerce_from]. rewrite Ew, E8, E9. destruct w as [|[|w]]; [|done|exact Hgen].
  unfold utf8_width in Ew. repeat match type of Ew with context [match ?x with _ => _ end] => destruct x; try discriminate Ew end.
Qed.

(** ** Reading what was printed: numbers *)

(** A text that does not go on with a number. *)
Definition delimited (u : string) : Prop :=
  match u with String c _ => is_digit c = false /\ code c ∉ [46; 101; 69]%N | EmptyString => True end.

Lemma span_digits_app (s d r u : string) : span_digits s = (d, r) -> delimited u -> span_digits (s +:+ u) = (d, r +:+ u).
Proof.
  intros E Hu. revert d r E. induction s as [|c s IH]; intros d r E.
  - injection E as <- <-. rewrite !app_nil_l_str. destruct u as [|c u]; [done|]. destruct Hu as [Hu _]. simpl. by rewrite Hu.
  - rewrite app_cons_str. simpl in *. destruct (is_digit c); [|by injection E as <- <-].
    destruct (span_digits s) as [d' r']. injection E as <- <-. by rewrite (IH d' r').
Qed.

Lemma scan_digits_app (s d r u : string) : scan_digits s = Some (d, r) -> delimited u -> scan_digits (s +:+ u) = Some (d, r +:+ u).
Proof.
  unfold scan_digits. destruct (span_digits s) as [d' r'] eqn:E. intros H Hu. rewrite (span_digits_app s d' r' u E Hu).
  destruct d'; [done|]. by injection H as <- <-.
Qed.

Lemma scan_part_app (heads : list N) (f : string -> option (string * string)) (s t r u : string) :
  (forall s t r, f s = Some (t, r) -> f (s +:+ u) = Some (t, r +:+ u)) -> delimited u -> Forall (fun n => n ∈ [46; 101; 69]%N) heads ->
  scan_part heads f s = Some (t, r) -> scan_part heads f (s +:+ u) = Some (t, r +:+ u).
Proof.
  intros Hf Hu Hh. rewrite Forall_forall in Hh. destruct s as [|c s].
  - intros [= <- <-]. rewrite !app_nil_l_str. destruct u as [|c u]; [done|]. simpl. destruct Hu as [_ Hu].
    rewrite decide_False; [done|]. intros Hc. by apply Hu, Hh.
  - rewrite app_cons_str. simpl. case_decide; [|by intros [= <- <-]]. intros (v & E & ->)%prepend_Some. by rewrite (Hf s v r E).
Qed.

Lemma scan_exponent_app (s t r u : string) : scan_exponent s = Some (t, r) -> delimited u -> scan_exponent (s +:+ u) = Some (t, r +:+ u).
Proof.
  intros E Hu. unfold scan_exponent in *. destruct s as [|c s]; [done|]. rewrite app_cons_str. simpl in *.
  case_decide; apply prepend_Some in E as (v & E & ->); [by rewrite (scan_digits_app s v r u)|].
  by rewrite <- app_cons_str, (scan_digits_app _ v r u).
Qed.

Lemma scan_unsigned_app (s t r u : string) : scan_unsigned s = Some (t, r) -> delimited u -> scan_unsigned (s +:+ u) = Some (t, r +:+ u).
Proof.
  intros E Hu. unfold scan_unsigned in *. destruct (scan_int s) as [[i r1]|] eqn:E1; [|done].
  assert (E1' : scan_int (s +:+ u) = Some (i, r1 +:+ u)).
  { destruct s as [|c s]; [done|]. rewrite app_cons_str. simpl in *. case_decide; [by injection E1 as <- <-|].
    rewrite <- app_cons_str. by apply scan_digits_app. }
  rewrite E1'. simpl in *. destruct (scan_part _ scan_digits r1) as [[f r2]|] eqn:E2; [|done].
  apply (scan_part_app _ _ _ _ _ u) in E2; [|intros; by apply scan_digits_app|done|by repeat constructor].
  rewrite E2. simpl in *. destruct (scan_part _ scan_exponent r2) as [[e r3]|] eqn:E3; [|done].
  apply (scan_part_app _ _ _ _ _ u) in E3; [|intros; by apply scan_exponent_app|done|by repeat constructor].
  rewrite E3. by injection E as <- <-.
Qed.

Lemma scan_number_app (s t r u : string) : scan_number s = Some (t, r) -> delimited u -> scan_number (s +:+ u) = Some (t, r +:+ u).
Proof.
  intros E Hu. destruct s as [|c s]; [done|]. rewrite app_cons_str. simpl in *. case_decide.
  - apply prepend_Some in E as (v & E & ->). by rewrite (scan_unsigned_app s v r u).
  - rewrite <- app_cons_str. by apply scan_unsigned_app.
Qed.

Lemma scan_number_head (s t r : string) : scan_number s = Some (t, r) ->
  exists c s', s = String c s' /\ (code c = 45%N \/ is_digit c = true).
Proof.
  destruct s as [|c s]; [done|]. simpl. case_decide as Hc; intros E; exists c, s; (split; [done|]); [by left|right].
  unfold scan_unsigned, scan_int in E. case_decide as H0; [unfold is_digit; apply byte_between_spec; lia|].
  unfold scan_digits in E. simpl in E. destruct (is_digit c); [done|]. done.
Qed.

(** ** Reading what was printed: documents *)

(** The first byte of a document's text. *)
Definition starts_value (c : ascii) : Prop := code c ∈ [34; 91; 102; 110; 116; 123]%N \/ code c = 45%N \/ is_digit c = true.

Lemma json_print_head (n : nat) (j : json) : json_ok n j = true -> exists c s, json_print j = String c s /\ starts_value c.
Proof.
  destruct j as [|[]|lit|s|l|l]; intros H; try (eexists _, _; split; [reflexivity|left; apply (bool_decide_unpack _); vm_compute; exact I]).
  cbn [json_ok json_print] in *. apply bool_decide_eq_true in H. destruct (scan_number_head _ _ _ H) as (c & s & -> & Hc).
  exists c, s. by split; [|right].
Qed.

Lemma starts_value_no_space (c : ascii) (s : string) : starts_value c -> skip_ws (String c s) = String c s.
Proof.
  intros Hc. simpl. unfold is_json_space. rewrite bool_decide_false; [done|]. intros Hs.
  destruct Hc as [Hc|[Hc|Hc]]; [| |unfold is_digit in Hc; apply byte_between_spec in Hc];
    revert Hs; rewrite !elem_of_cons, elem_of_nil in *; lia.
Qed.

Lemma expect_head (n : N) (c : ascii) (s : string) : starts_value c -> ~ starts_value (byte_of n) -> (n < 256)%N -> expect n (String c s) = None.
Proof.
  intros Hc Hn Hlt. unfold expect. rewrite starts_value_no_space by done. rewrite decide_False; [done|].
  intros Hcode. apply Hn. unfold byte_of, code in *. by rewrite <- Hcode, ascii_N_embedding.
Qed.

Lemma expect_it (n : N) (c : ascii) (s : string) : code c = n -> is_json_space c = false -> expect n (String c s) = Some s.
Proof. intros Hc Hs. unfold expect. simpl. rewrite Hs. by rewrite decide_True. Qed.

Lemma json_ind' (P : json -> Prop) :
  P JNull -> (forall b, P (JBool b)) -> (forall lit, P (JNum lit)) -> (forall s, P (JStr s)) ->
  (forall l, Forall P l -> P (JArr l)) -> (forall l, Forall (fun kv => P kv.2) l -> P (JObj l)) -> forall j, P j.
Proof.
  intros H1 H2 H3 H4 H5 H6. fix IH 1. intros [|b|lit|s|l|l]; [done|done|done|done| |].
  - apply H5. induction l as [|j l IHl]; [done|]. by constructor.
  - apply H6. induction l as [|[k j] l IHl]; [done|]. by constructor.
Qed.

Lemma quoted_text (s rest : string) : json_string s +:+ rest = String dquote (json_escape_from 0 s +:+ String dquote rest).
Proof. unfold json_string. by rewrite !app_assoc_str. Qed.

Lemma read_quoted (s rest : string) : json_chars 0 (json_escape_from 0 s +:+ String dquote rest) = Some (coerce_utf8 s, rest).
Proof. apply read_escaped. lia. Qed.

Lemma parse_literal_number (lit rest : string) :
  scan_number lit = Some (lit, "") -> delimited rest -> parse_literal (lit +:+ rest) = Some (JNum lit, rest).
Proof.
  intros Hl Hr. unfold parse_literal. rewrite (scan_number_app _ _ _ rest Hl Hr).
  destruct (scan_number_head _ _ _ Hl) as (c & s & -> & Hc). rewrite app_cons_str.
  assert (Hno : forall x p, code x <> 45%N -> is_digit x = false -> strip_prefix (String x p) (String c (s +:+ rest)) = None).
  { intros x p H1 H2. simpl. rewrite decide_False; [done|]. intros ->. destruct Hc; congruence. }
  by rewrite !Hno by done.
Qed.

Lemma delimited_by (n : N) (u : string) : n ∈ [44; 93; 125]%N -> delimited (String (byte_of n) u).
Proof.
  intros Hn. rewrite !elem_of_cons, elem_of_nil in Hn. destruct Hn as [->|[->|[->|[]]]];
    (split; [done|apply (bool_decide_unpack _); vm_compute; exact I]).
Qed.

Lemma delimited_comma (u : string) : delimited ("," +:+ u).
Proof. apply (delimited_by 44). by left. Qed.

Lemma expect_comma (u : string) : expect 44 (String ","%char u) = Some u.
Proof. by apply expect_it. Qed.

(** What one reader makes of printed text. *)
Definition reads_back (j : json) : Prop := forall n depth fuel rest,
  json_ok n j = true -> (depth + N.of_nat n <= maxNestingDepth)%N -> delimited rest ->
  (2 * String.length (json_print j) < fuel)%nat -> parse_value fuel depth (json_print j +:+ rest) = Some (reread j, rest).

Lemma read_elements (l : list json) (n : nat) (depth : N) (rest : string) : Forall reads_back l -> l <> [] ->
  forallb (json_ok n) l = true -> (depth + N.of_nat n <= maxNestingDepth)%N -> forall fuel,
  (2 * String.length (join "," (map json_print l)) + 1 < fuel)%nat ->
  parse_elements fuel depth (join "," (map json_print l) +:+ String (byte_of 93) rest) = Some (map reread l, rest).
Proof.
  intros Hl Hne Hok Hd. induction Hl as [|j l Hj Hl IH]; [done|]. intros fuel Hf. destruct fuel as [|fuel]; [lia|].
  cbn [parse_elements map]. simpl in Hok. apply andb_true_iff in Hok as [Hokj Hokl]. destruct l as [|j' l].
  - cbn [join map] in *. rewrite Hj with (n := n) by (done || lia || by apply delimited_by; set_solver). reflexivity.
  - cbn [map] in Hf |- *. rewrite join_app_str, !length_app_str in Hf. rewrite join_app_str, !app_assoc_str.
    change (String.length ",") with 1%nat in Hf.
    rewrite Hj with (n := n) by (done || lia || apply delimited_comma). cbn [mbind option_bind].
    rewrite (expect_comma : forall u, expect 44 ("," +:+ u) = Some u).
    rewrite IH; [reflexivity|done|done|cbn [map]; lia].
Qed.

Lemma read_members (l : list (string * json)) (n : nat) (depth : N) (rest : string) : Forall (fun kv => reads_back kv.2) l -> l <> [] ->
  forallb (fun kv => json_ok n kv.2) l = true -> (depth + N.of_nat n <= maxNestingDepth)%N -> forall fuel,
  (2 * String.length (join "," (map (fun kv => json_string kv.1 +:+ ":" +:+ json_print kv.2) l)) + 1 < fuel)%nat ->
  parse_members fuel depth (join "," (map (fun kv => json_string kv.1 +:+ ":" +:+ json_print kv.2) l) +:+ String (byte_of 125) rest) =
  Some (map (fun kv => (coerce_utf8 kv.1, reread kv.2)) l, rest).
Proof.
  intros Hl Hne Hok Hd. induction Hl as [|[k j] l Hj Hl IH]; [done|]. intros fuel Hf. destruct fuel as [|fuel]; [lia|].
  cbn [parse_members map fst snd] in *. simpl in Hok. apply andb_true_iff in Hok as [Hokj Hokl].
  assert (Hstep : forall u, delimited u -> (2 * String.length (json_print j) < fuel)%nat ->
    expect 34 ((json_string k +:+ ":" +:+ json_print j) +:+ u) = Some (json_escape_from 0 k +:+ String dquote (":" +:+ json_print j +:+ u)) /\
    expect 58 (":" +:+ json_print j +:+ u) = Some (json_print j +:+ u) /\
    parse_value fuel depth (json_print j +:+ u) = Some (reread j, u)).
  { intros u Hu Hfuel. rewrite app_assoc_str, quoted_text, app_assoc_str. split_and!; [by apply expect_it|by apply expect_it|]. by apply Hj with (n := n). }
  destruct l as [|kv l].
  - cbn [join map] in *. rewrite !length_app_str in Hf.
    destruct (Hstep (String (byte_of 125) rest)) as (E1 & E2 & E3); [apply delimited_by; set_solver|lia|].
    rewrite E1. cbn [mbind option_bind]. rewrite read_quoted. cbn [mbind option_bind]. rewrite E2. cbn [mbind option_bind]. rewrite E3. reflexivity.
  - cbn [map] in Hf |- *. rewrite join_app_str, !length_app_str in Hf.
    change (String.length ",") with 1%nat in Hf. rewrite join_app_str, !(fun a b => app_assoc_str a b (String (byte_of 125) rest)).
    set (u := join "," _ +:+ _) in *. destruct (Hstep ("," +:+ u)) as (E1 & E2 & E3); [apply delimited_comma|lia|].
    rewrite E1. cbn [mbind option_bind]. rewrite read_quoted. cbn [mbind option_bind]. rewrite E2. cbn [mbind option_bind]. rewrite E3. cbn [mbind option_bind].
    rewrite (expect_comma : forall u, expect 44 ("," +:+ u) = Some u). unfold u.
    rewrite IH; [reflexivity|done|done|cbn [map]; lia].
Qed.

Lemma parse_string_value (f : nat) (depth : N) (x : string) :
  parse_value (Datatypes.S f) depth (String dquote x) = '(t, r) ← json_chars 0 x; Some (JStr t, r).
Proof. reflexivity. Qed.

Lemma parse_array_value (f : nat) (depth : N) (x : string) : (depth < maxNestingDepth)%N -> expect 93 x = None ->
  parse_value (Datatypes.S f) depth ("[" +:+ x) = '(l, r) ← parse_elements f (depth + 1) x; Some (JArr l, r).
Proof.
  intros Hd He. change (parse_value (Datatypes.S f) depth ("[" +:+ x)) with
    (if (maxNestingDepth <=? depth)%N then None else match expect 93 x with
     | Some r' => Some (JArr [], r') | None => '(l, r) ← parse_elements f (depth + 1) x; Some (JArr l, r) end).
  destruct (N.leb_spec maxNestingDepth depth); [lia|]. by rewrite He.
Qed.

Lemma parse_object_value (f : nat) (depth : N) (x : string) : (depth < maxNestingDepth)%N -> expect 125 x = None ->
  parse_value (Datatypes.S f) depth ("{" +:+ x) = '(l, r) ← parse_members f (depth + 1) x; Some (JObj l, r).
Proof.
  intros Hd He. change (parse_value (Datatypes.S f) depth ("{" +:+ x)) with
    (if (maxNestingDepth <=? depth)%N then None else match expect 125 x with
     | Some r' => Some (JObj [], r') | None => '(l, r) ← parse_members f (depth + 1) x; Some (JObj l, r) end).
  destruct (N.leb_spec maxNestingDepth depth); [lia|]. by rewrite He.
Qed.

Lemma parse_empty_value (f : nat) (depth : N) (rest : string) : (depth < maxNestingDepth)%N ->
  parse_value (Datatypes.S f) depth ("[]" +:+ rest) = Some (JArr [], rest) /\
  parse_value (Datatypes.S f) depth ("{}" +:+ rest) = Some (JObj [], rest).
Proof.
  intros Hd. split.
  - change ((if (maxNestingDepth <=? depth)%N then None else Some (JArr [], rest)) = Some (JArr [], rest)).
    destruct (N.leb_spec maxNestingDepth depth); [lia|done].
  - change ((if (maxNestingDepth <=? depth)%N then None else Some (JObj [], rest)) = Some (JObj [], rest)).
    destruct (N.leb_spec maxNestingDepth depth); [lia|done].
Qed.

Lemma print_reads_back (j : json) : reads_back j.
Proof.
  induction j as [|b|lit|s|l IH|l IH] using json_ind'; intros n depth fuel rest Hok Hd Hr Hf; (destruct fuel as [|fuel]; [lia|]).
  - reflexivity.
  - by destruct b.
  - cbn [json_ok json_print] in *. apply bool_decide_eq_true in Hok. pose proof (json_print_head n (JNum lit)) as Hh.
    cbn [json_ok json_print parse_value] in *. destruct Hh as (c & s & -> & Hc); [by apply bool_decide_eq_true|].
    rewrite app_cons_str, starts_value_no_space by done. rewrite <- app_cons_str.
    assert (Hnum : code c = 45%N \/ is_digit c = true) by (destruct (scan_number_head _ _ _ Hok) as (c' & s' & [= <- <-] & ?); done).
    assert (Hne : forall m, m ∈ [123; 91; 34]%N -> code c <> m).
    { intros m Hm Hcm. unfold is_digit in Hnum. rewrite byte_between_spec in Hnum. revert Hm. rewrite !elem_of_cons, elem_of_nil. lia. }
    rewrite decide_False by (apply Hne; set_solver). rewrite decide_False by (apply Hne; set_solver).
    rewrite decide_False by (intros ->; by apply (Hne 34%N); [set_solver|]). by apply parse_literal_number.
  - cbn [json_print]. rewrite quoted_text, parse_string_value, read_quoted. done.
  - cbn [json_ok json_print reread] in *. destruct n as [|n]; [done|].
    destruct l as [|j l]; [apply parse_empty_value; lia|]. rewrite !length_app_str in Hf. rewrite !app_assoc_str.
    change (String.length "[") with 1%nat in Hf. change (String.length "]") with 1%nat in Hf.
    rewrite parse_array_value; [|lia|].
    + rewrite (read_elements _ n (depth + 1) rest IH) by (done || lia). done.
    + pose proof Hok as [Hj _]%andb_true_iff. destruct (json_print_head n j Hj) as (c & s & E & Hc).
      assert (exists t, join "," (map json_print (j :: l)) = String c t) as [t ->].
      { cbn [map]. rewrite E. destruct l; [by exists s|]. cbn [map]. rewrite join_app_str, app_cons_str. eauto. }
      rewrite app_cons_str. apply expect_head; [done| |done]. apply (bool_decide_unpack _). vm_compute. exact I.
  - cbn [json_ok json_print reread] in *. destruct n as [|n]; [done|].
    destruct l as [|[k j] l]; [apply parse_empty_value; lia|]. rewrite !length_app_str in Hf. rewrite !app_assoc_str.
    change (String.length "{") with 1%nat in Hf. change (String.length "}") with 1%nat in Hf.
    rewrite parse_object_value; [|lia|].
    + rewrite (read_members _ n (depth + 1) rest IH) by (done || lia). done.
    + assert (exists t, join "," (map (fun kv => json_string kv.1 +:+ ":" +:+ json_print kv.2) ((k, j) :: l)) = String dquote t) as [t ->].
      { cbn [map fst snd]. destruct l; [by eexists|]. cbn [map]. rewrite join_app_str. by eexists. }
      rewrite app_cons_str. apply expect_head; [left; by left| |done]. apply (bool_decide_unpack _). vm_compute. exact I.
Qed.

Lemma parse_print (n : nat) (j : json) : json_ok n j = true -> (N.of_nat n <= maxNestingDepth)%N -> parse_json (json_print j) = Some (reread j).
Proof.
  intros Hok Hn. unfold parse_json, json_fuel.
  pose proof (print_reads_back j n 0%N (Datatypes.S (2 * String.length (json_print j))) "" Hok ltac:(lia) I ltac:(lia)) as H.
  rewrite app_nil_r_str in H. by rewrite H.
Qed.
