(* ===== verification/Float64.v ===== *)
(** The numbers of a JSON document as Go's [float64]: what
    [src/internal/protocol/request.go] makes of a number in a request body.

    A float64 is its exact value, a sign and [m * 2^e]; reading a literal
    rounds to the nearest float64, ties to even, and the shortest decimal text
    that reads back to it is what strconv.FormatFloat writes. *)

From Stdlib Require Import Ascii String ZArith NArith Lia.
From S2P Require Import Prelude GoValue JsonText.

(** * Definitions *)

(** [m * 2^e], negated if [f_neg]; [0 <= m <= 2^53]. *)
Record float64 : Type := mkFloat { f_neg : bool; f_mant : Z; f_exp : Z }.

Definition two_53 : Z := 9007199254740992.

(** The quotient rounded to the nearest integer, ties to even. *)
Definition round_div (n d : Z) : Z :=
  let q := n / d in
  match 2 * (n - q * d) ?= d with
  | Lt => q
  | Gt => q + 1
  | Eq => if Z.even q then q else q + 1
  end.

(** The float64 nearest to [n / d], for positive [n] and [d]: [None] is out of
    range.  The exponent is chosen so that the mantissa has 53 bits, unless the
    number is subnormal. *)
Definition round_ratio (n d : Z) : option (Z * Z) :=
  let scale e := if 0 <=? e then round_div n (d * 2 ^ e) else round_div (n * 2 ^ (- e)) d in
  let floor_at e := if 0 <=? e then n / (d * 2 ^ e) else n * 2 ^ (- e) / d in
  let e := Z.log2 n - Z.log2 d - 53 in
  let e := if floor_at e <? two_53 then e else e + 1 in
  let e := Z.max (-1074) e in
  let m := scale e in
  if (971 <? e) || ((e =? 971) && (m =? two_53)) then None else Some (m, e).

(** The digits of a number literal without sign: all of them as one integer,
    and the power of ten they are multiplied by. *)
Definition literal_parts (s : string) : Z * Z :=
  let '(i, r) := span_digits s in
  let '(f, r) := match r with String c r' => if decide (code c = 46%N) then span_digits r' else ("", r) | EmptyString => ("", "") end in
  let digits := default 0 (parse_digits (i +:+ f)) in
  let exponent :=
    match r with
    | String _ r' =>
        let '(sign, d) := scan_sign r' in
        let z := default 0 (parse_digits d) in if decide (sign = "-") then - z else z
    | EmptyString => 0
    end in
  (digits, exponent - Z.of_nat (String.length f)).

(** strconv.ParseFloat of a JSON number: [None] is a range error.  Powers of
    ten beyond the range are not computed. *)
Definition ParseFloat (lit : string) : option float64 :=
  let '(sign, r) := scan_sign lit in
  let neg := bool_decide (sign = "-") in
  let '(digits, e) := literal_parts r in
  if digits =? 0 then Some (mkFloat neg 0 0)
  else if 310 <? e then None
  else if e + Z.log2 digits <? -1100 then Some (mkFloat neg 0 0)
  else
    '(m, x) ← (if 0 <=? e then round_ratio (digits * 10 ^ e) 1 else round_ratio digits (10 ^ (- e)));
    Some (mkFloat neg m x).

Definition float_eqb (m1 e1 m2 e2 : Z) : bool :=
  let e := Z.min e1 e2 in m1 * 2 ^ (e1 - e) =? m2 * 2 ^ (e2 - e).

(** The value truncated towards zero. *)
Definition float_trunc (f : float64) : Z :=
  let m := if 0 <=? f_exp f then f_mant f * 2 ^ f_exp f else f_mant f / 2 ^ (- f_exp f) in
  if f_neg f then - m else m.

Definition float_integral (f : float64) : bool :=
  (0 <=? f_exp f) || (f_mant f mod 2 ^ (- f_exp f) =? 0).

(** [int(f)] and [int64(f)]: out of range, the conversion of amd64 gives the
    least integer. *)
Definition float_to_int (f : float64) : Z :=
  let z := float_trunc f in if (int64_min <=? z) && (z <=? int64_max) then z else int64_min.

(** [f == float64(int64(f))]. *)
Definition float_is_int (f : float64) : bool :=
  let z := float_trunc f in
  float_integral f && (((int64_min <=? z) && (z <=? int64_max)) || (z =? int64_min)).

(** ** Shortest decimal text *)

(** [d * 10^x] reads back to the magnitude [m * 2^e]. *)
Definition reads_as (m e d x : Z) : bool :=
  match (if 0 <=? x then round_ratio (d * 10 ^ x) 1 else round_ratio d (10 ^ (- x))) with
  | Some (m', e') => float_eqb m e m' e'
  | None => false
  end.

(** [floor (m * 2^e / 10^x)], and the comparison of twice the rest with the
    divisor. *)
Definition decimal_floor (m e x : Z) : Z * comparison :=
  let n := m * 2 ^ Z.max 0 e * 10 ^ Z.max 0 (- x) in
  let d := 2 ^ Z.max 0 (- e) * 10 ^ Z.max 0 x in
  (n / d, 2 * (n mod d) ?= d).

(** The number of decimal digits before the point, for a positive magnitude:
    the least [k] with [m * 2^e < 10^k], found from an estimate. *)
Fixpoint decimal_exponent (fuel : nat) (m e k : Z) : Z :=
  match fuel with
  | O => k
  | S f => if (decimal_floor m e k).1 =? 0 then k else decimal_exponent f m e (k + 1)
  end.

(** The digits and their power of ten, from [n] digits on. *)
Fixpoint shortest_from (fuel : nat) (m e k n : Z) : Z * Z :=
  let x := k - n in
  let '(d, c) := decimal_floor m e x in
  let up := match c with Lt => false | Gt => true | Eq => negb (Z.even d) end in
  let near := if up then d + 1 else d in
  let far := if up then d else d + 1 in
  if reads_as m e near x then (near, x)
  else match fuel with
  | O => (near, x)
  | S f => if (0 <? far) && reads_as m e far x then (far, x) else shortest_from f m e k (n + 1)
  end.

(** The digits without their trailing zeros. *)
Fixpoint strip_zeros (fuel : nat) (d x : Z) : Z * Z :=
  match fuel with
  | O => (d, x)
  | S f => if (d mod 10 =? 0) && negb (d =? 0) then strip_zeros f (d / 10) (x + 1) else (d, x)
  end.

(** Seventeen digits always read back. *)
Definition shortest (m e : Z) : Z * Z :=
  let k0 := (Z.log2 m + e) * 30103 / 100000 - 1 in
  let k := decimal_exponent 6 m e k0 in
  let '(d, x) := shortest_from 16 m e k 1 in strip_zeros 20 d x.

Fixpoint repeat_byte (c : ascii) (n : nat) : string :=
  match n with O => "" | S k => String c (repeat_byte c k) end.
Fixpoint drop_bytes (n : nat) (s : string) : string :=
  match n, s with S k, String _ s' => drop_bytes k s' | _, _ => s end.

Definition zero_byte : ascii := byte_of 48.

(** strconv.FormatFloat(f, 'f', -1, 64). *)
Definition format_f (f : float64) : string :=
  (if f_neg f then "-" else "") +:+
  (if f_mant f =? 0 then "0"
   else
     let '(d, x) := shortest (f_mant f) (f_exp f) in
     let digits := format_Z d in
     let n := Z.of_nat (String.length digits) in
     if 0 <=? x then digits +:+ repeat_byte zero_byte (Z.to_nat x)
     else if - x <? n then take_bytes (Z.to_nat (n + x)) digits +:+ "." +:+ drop_bytes (Z.to_nat (n + x)) digits
     else "0." +:+ repeat_byte zero_byte (Z.to_nat (- x - n)) +:+ digits).

(** The verb [%v]: an exponent below -4 or from 21 on is written. *)
Definition format_v (f : float64) : string :=
  if f_mant f =? 0 then format_f f
  else
    let '(d, x) := shortest (f_mant f) (f_exp f) in
    let digits := format_Z d in
    let e := x + Z.of_nat (String.length digits) - 1 in
    if (e <? -4) || (20 <? e) then
      (if f_neg f then "-" else "") +:+ take_bytes 1 digits +:+
      (if (String.length digits =? 1)%nat then "" else "." +:+ drop_bytes 1 digits) +:+ "e" +:+
      (if e <? 0 then "-" else "+") +:+ (if Z.abs e <? 10 then "0" else "") +:+ format_Z (Z.abs e)
    else format_f f.

(** * Lemmas *)

Lemma span_digits_all (s : string) : all_bytes is_digit s = true -> span_digits s = (s, "").
Proof. induction s as [|c s IH]; [done|]. simpl. intros [Hc Hs]%andb_true_iff. by rewrite Hc, IH. Qed.

Lemma literal_parts_digits (n : N) : literal_parts (format_N n) = (Z.of_N n, 0).
Proof.
  unfold literal_parts. rewrite span_digits_all by apply format_N_digits. cbn -[parse_digits].
  by rewrite app_nil_r_str, parse_format_N.
Qed.

Lemma round_div_exact (n d : Z) : 0 < d -> (d | n) -> round_div n d = n / d.
Proof.
  intros Hd [q ->]. unfold round_div. rewrite Z.div_mul by lia. rewrite Z.sub_diag.
  destruct (Z.compare_spec (2 * 0) d); [lia|done|lia].
Qed.

(** An integer of at most 53 bits is a float64. *)
Lemma round_ratio_int (n : Z) : 0 < n < two_53 -> exists m e, round_ratio n 1 = Some (m, e) /\ e <= 0 /\ m = n * 2 ^ (- e).
Proof.
  intros Hn. pose proof (Z.log2_spec n ltac:(lia)) as [Hl Hu].
  assert (HL : 0 <= Z.log2 n < 53) by (split; [apply Z.log2_nonneg|apply Z.log2_lt_pow2; unfold two_53 in Hn; lia]).
  unfold round_ratio. change (Z.log2 1) with 0. set (L := Z.log2 n) in *.
  assert (Hfl : (n * 2 ^ (53 - L) <? two_53) = false).
  { apply Z.ltb_ge. change two_53 with (2 ^ 53). replace 53 with (L + (53 - L)) at 1 by lia.
    rewrite Z.pow_add_r by lia. apply Z.mul_le_mono_nonneg_r; [apply Z.pow_nonneg; lia|lia]. }
  replace (L - 0 - 53) with (- (53 - L)) by lia. destruct (Z.leb_spec 0 (- (53 - L))); [lia|].
  rewrite Z.opp_involutive, Z.div_1_r, Hfl. rewrite Z.max_r by lia. exists (n * 2 ^ (- (- (53 - L) + 1))), (- (53 - L) + 1).
  assert (Hs : (if 0 <=? - (53 - L) + 1 then round_div n (1 * 2 ^ (- (53 - L) + 1)) else round_div (n * 2 ^ (- (- (53 - L) + 1))) 1) =
    n * 2 ^ (- (- (53 - L) + 1))).
  { destruct (Z.leb_spec 0 (- (53 - L) + 1)).
    - replace (- (53 - L) + 1) with 0 by lia. rewrite round_div_exact; [simpl; rewrite Z.div_1_r; lia|lia|apply Z.divide_1_l].
    - rewrite round_div_exact; [by rewrite Z.div_1_r|lia|apply Z.divide_1_l]. }
  rewrite Hs. destruct (Z.ltb_spec 971 (- (53 - L) + 1)); [lia|]. destruct (Z.eqb_spec (- (53 - L) + 1) 971); [lia|].
  cbn [orb andb]. split_and!; [done|lia|done].
Qed.

Lemma ParseFloat_int (z : Z) : Z.abs z < two_53 -> exists f, ParseFloat (format_Z z) = Some f /\ float_trunc f = z /\ float_integral f = true.
Proof.
  intros Hz.
  assert (Hpos : forall p neg, Zpos p < two_53 -> exists f,
    ('(digits, e) ← Some (literal_parts (format_N (Npos p)));
     if digits =? 0 then Some (mkFloat neg 0 0) else if 310 <? e then None
     else if e + Z.log2 digits <? -1100 then Some (mkFloat neg 0 0)
     else '(m, x) ← (if 0 <=? e then round_ratio (digits * 10 ^ e) 1 else round_ratio digits (10 ^ (- e))); Some (mkFloat neg m x)) = Some f /\
    float_trunc f = (if neg : bool then Zneg p else Zpos p) /\ float_integral f = true).
  { intros p neg Hp. rewrite literal_parts_digits. cbn [mbind option_bind Z.of_N].
    destruct (Z.eqb_spec (Zpos p) 0); [lia|]. destruct (Z.ltb_spec 310 0); [lia|].
    pose proof (Z.log2_nonneg (Zpos p)). destruct (Z.ltb_spec (0 + Z.log2 (Zpos p)) (-1100)); [lia|].
    destruct (round_ratio_int (Zpos p)) as (m & e & E & He & ->); [lia|].
    rewrite Z.mul_1_r, E. cbn [mbind option_bind]. eexists. split; [done|]. unfold float_trunc, float_integral. cbn [f_neg f_mant f_exp].
    assert (Hpow : 0 < 2 ^ (- e)) by (apply Z.pow_pos_nonneg; lia).
    rewrite Z.div_mul, Z.mod_mul by lia. destruct (Z.leb_spec 0 e).
    - replace e with 0 by lia. rewrite !Z.mul_1_r. by destruct neg.
    - cbn [orb]. split; [|done]. by destruct neg. }
  destruct z as [|p|p]; cbn [format_Z].
  - by exists (mkFloat false 0 0).
  - destruct (Hpos p false ltac:(lia)) as (f & E & H). exists f. split; [|exact H]. rewrite <- E. unfold ParseFloat.
    destruct (format_N_head (Npos p)) as (a & s & Es & Ha). apply is_digit_not_sign in Ha. rewrite Es. simpl scan_sign.
    rewrite decide_False by (rewrite !elem_of_cons, elem_of_nil; intuition congruence). by rewrite bool_decide_false by done.
  - destruct (Hpos p true ltac:(lia)) as (f & E & H). exists f. split; [|exact H]. exact E.
Qed.
