(* ===== verification/GoFormat.v ===== *)
(** Text the program makes with Go's [fmt], [strconv] and [net/http]: quoted
    strings, conversion errors and canonical header keys. *)

From Stdlib Require Import Ascii String ZArith NArith Lia.
From S2P Require Import Prelude GoValue JsonText.

(** * Definitions *)

(** ** Quoting *)

(** The code point at the head of a text, for a sequence [utf8_width] accepts. *)
Definition rune_at (s : string) : N :=
  match s with
  | String a (String b (String c (String d _))) =>
      if (code a <? 128)%N then code a
      else if (code a <? 224)%N then ((code a - 192) * 64 + (code b - 128))%N
      else if (code a <? 240)%N then ((code a - 224) * 4096 + (code b - 128) * 64 + (code c - 128))%N
      else ((code a - 240) * 262144 + (code b - 128) * 4096 + (code c - 128) * 64 + (code d - 128))%N
  | String a (String b (String c _)) =>
      if (code a <? 128)%N then code a
      else if (code a <? 224)%N then ((code a - 192) * 64 + (code b - 128))%N
      else ((code a - 224) * 4096 + (code b - 128) * 64 + (code c - 128))%N
  | String a (String b _) => if (code a <? 128)%N then code a else ((code a - 192) * 64 + (code b - 128))%N
  | String a _ => code a
  | EmptyString => 0%N
  end.

(** [n] as [k] lower-case hexadecimal digits. *)
Fixpoint hex_digits (k : nat) (n : N) : string :=
  match k with O => "" | S k => hex_digits k (n / 16) +:+ str1 (hex_digit (n mod 16)) end.

(** One ASCII byte inside a quoted string. *)
Definition quote_ascii (a : ascii) : string :=
  let n := code a in
  if (n =? 34)%N || (n =? 92)%N then String backslash (str1 a)
  else if byte_between 32 126 a then str1 a
  else if (n =? 7)%N then "\a"
  else if (n =? 8)%N then "\b"
  else if (n =? 12)%N then "\f"
  else if (n =? 10)%N then "\n"
  else if (n =? 13)%N then "\r"
  else if (n =? 9)%N then "\t"
  else if (n =? 11)%N then "\v"
  else "\x" +:+ hex_byte n.

Section quoting.
(** strconv.IsPrint outside ASCII: a table of Unicode. *)
Variable is_print : N -> bool.

Fixpoint quote_from (k : nat) (s : string) : string :=
  match s with
  | EmptyString => ""
  | String a s' =>
      match k with
      | S k' => quote_from k' s'
      | O =>
          match utf8_width s with
          | None => "\x" +:+ hex_byte (code a) +:+ quote_from 0 s'
          | Some (S O) => quote_ascii a +:+ quote_from 0 s'
          | Some w =>
              let r := rune_at s in
              (if is_print r then take_bytes w s
               else if (r <? 65536)%N then "\u" +:+ hex_digits 4 r
               else "\U" +:+ hex_digits 8 r) +:+ quote_from (Nat.pred w) s'
          end
      end
  end.

(** strconv.Quote and the verb [%q]. *)
Definition go_quote (s : string) : string := str1 dquote +:+ quote_from 0 s +:+ str1 dquote.

(** ** Conversions *)

(** The text of a strconv.NumError. *)
Definition num_error (func text what : string) : string := "strconv." +:+ func +:+ ": parsing " +:+ go_quote text +:+ ": " +:+ what.

(** strconv.Atoi: digits that do not fit are out of range, anything else is a
    syntax error. *)
Definition Atoi (s : string) : result string Z :=
  match parse_int64 s with
  | Some z => Ok z
  | None =>
      let digits := match s with String a s' => if decide (code a ∈ [43%N; 45%N]) then s' else s | EmptyString => s end in
      Err (num_error "Atoi" s (match parse_digits digits with Some _ => "value out of range" | None => "invalid syntax" end))
  end.

Definition ParseBool (s : string) : result string bool :=
  if decide (s ∈ ["1"; "t"; "T"; "TRUE"; "true"; "True"]) then Ok true
  else if decide (s ∈ ["0"; "f"; "F"; "FALSE"; "false"; "False"]) then Ok false
  else Err (num_error "ParseBool" s "invalid syntax").
End quoting.

Definition format_bool (b : bool) : string := if b then "true" else "false".

(** ** Header keys *)

Definition upper_byte (c : ascii) : ascii := if is_lower c then byte_of (code c - 32) else c.

(** textproto.CanonicalMIMEHeaderKey on a key of token bytes: upper case at
    the start and after a hyphen, lower case elsewhere. *)
Fixpoint canonical_from (upper : bool) (s : string) : string :=
  match s with
  | EmptyString => ""
  | String c s' => String (if upper then upper_byte c else lower_byte c) (canonical_from (code c =? 45)%N s')
  end.

Definition canonical_key (s : string) : string := canonical_from true s.

(** * Lemmas *)

(** Printable ASCII without quotes and backslashes is quoted as it is. *)
Definition plain_ascii (c : ascii) : bool := byte_between 32 126 c && negb (code c =? 34)%N && negb (code c =? 92)%N.

Lemma plain_quote_ascii (c : ascii) : plain_ascii c = true -> utf8_width (str1 c) = Some 1%nat /\ quote_ascii c = str1 c.
Proof. destruct c as [[] [] [] [] [] [] [] []]; intros H; try discriminate H; by split. Qed.

Lemma quote_plain (is_print : N -> bool) (s : string) : all_bytes plain_ascii s = true -> go_quote is_print s = str1 dquote +:+ s +:+ str1 dquote.
Proof.
  intros Hs. unfold go_quote. do 2 f_equal. revert Hs. induction s as [|c s IH]; [done|].
  cbn [all_bytes]. intros [Hc Hs]%andb_true_iff. specialize (IH Hs). cbn [quote_from].
  destruct (plain_quote_ascii c Hc) as [Hw Hq].
  assert (Hw' : utf8_width (String c s) = Some 1%nat).
  { unfold utf8_width, str1 in *. destruct (code c <? 128)%N; [done|]. by destruct (byte_between 194 223 c), (byte_between 224 239 c), (byte_between 240 244 c). }
  rewrite Hw', Hq, IH. done.
Qed.
