(* ===== verification/Config.v ===== *)
(** The settings: [src/internal/config/config.go].

    A configuration is the record of the code; loading reads an environment,
    a function from names to values, and validates what it read.  Whether a
    text is a URL is net/url's to say, and the texts of encoding/json's errors
    are its own. *)

From Stdlib Require Import Ascii String ZArith NArith Lia.
From S2P Require Import Prelude GoValue JsonText GoFormat.

(** * Definitions *)

Definition DefaultPort : Z := 3000.
Definition DefaultReplicationStreamID : string := "default".
Definition DefaultDBPoolSize : Z := 20.
Definition DefaultCacheMaxAge : Z := 60.
Definition DefaultCacheStaleAge : Z := 300.
Definition DefaultLongPollTimeoutMS : Z := 20000.
Definition DefaultSSETimeoutMS : Z := 60000.

Definition StorageModeMemory : string := "memory".
Definition StorageModeDisk : string := "disk".

Definition FeatureAllowSubqueries : string := "allow_subqueries".
Definition FeatureTaggedSubqueries : string := "tagged_subqueries".

Record MaxConcurrentRequests : Type := mkLimits { lim_Initial : Z; lim_Existing : Z }.

Record Config : Type := mkConfig {
  cfg_DatabaseURL : string;
  cfg_PooledDatabaseURL : string;
  cfg_Secret : string;
  cfg_Insecure : bool;
  cfg_Port : Z;
  cfg_ListenHost : string;
  cfg_ReplicationStreamID : string;
  cfg_DBPoolSize : Z;
  cfg_MaxConcurrentRequests : MaxConcurrentRequests;
  cfg_CacheMaxAge : Z;
  cfg_CacheStaleAge : Z;
  cfg_StorageMode : string;
  cfg_StorageDir : string;
  cfg_MetricsPath : string;
  cfg_LongPollTimeoutMS : Z;
  cfg_SSETimeoutMS : Z;
  cfg_AllowShapeDeletion : bool;
  cfg_FeatureFlags : list string
}.

Definition Enabled (flags : list string) (flag : string) : bool := existsb (fun candidate => bool_decide (candidate = flag)) flags.

Definition DefaultConfig : Config :=
  mkConfig "" "" "" false DefaultPort "" DefaultReplicationStreamID DefaultDBPoolSize (mkLimits 300 10000)
    DefaultCacheMaxAge DefaultCacheStaleAge StorageModeMemory "" "/metrics" DefaultLongPollTimeoutMS DefaultSSETimeoutMS false [].

Definition zero_config : Config := mkConfig "" "" "" false 0 "" "" 0 (mkLimits 0 0) 0 0 "" "" "" 0 0 false [].

(** net.JoinHostPort. *)
Definition JoinHostPort (host port : string) : string :=
  if contains_byte (byte_of 58) host then "[" +:+ host +:+ "]:" +:+ port else host +:+ ":" +:+ port.

Definition ListenAddress (c : Config) : string :=
  if is_blank (cfg_ListenHost c) then ":" +:+ format_Z (cfg_Port c)
  else JoinHostPort (cfg_ListenHost c) (format_Z (cfg_Port c)).

Definition known_flags : list string := [FeatureAllowSubqueries; FeatureTaggedSubqueries].

(** The loop over the parts; [flags] is also the set of those seen. *)
Definition add_flag (flags : list string) (raw_flag : string) : list string :=
  let flag := trim_space raw_flag in
  if decide (flag = "") then flags
  else if negb (bool_decide (flag ∈ known_flags)) then flags
  else if decide (flag ∈ flags) then flags
  else flags ++ [flag].

Definition parseFeatureFlags (value : string) : list string := fold_left add_flag (split_byte (byte_of 44) value) [].

Section loading.
(** net/url.Parse, as far as it is used: the text of its error. *)
Variable url_Parse : string -> option string.
(** The text of the error json.Unmarshal returns for a text. *)
Variable json_error : string -> string.
Variable is_print : N -> bool.

(** The text of the error, [None] where the configuration is valid. *)
Definition Validate (c : Config) : option string :=
  let mode := if decide (cfg_StorageMode c = "") then StorageModeMemory else cfg_StorageMode c in
  if is_blank (cfg_DatabaseURL c) then Some "DATABASE_URL is required"
  else match url_Parse (cfg_DatabaseURL c) with
  | Some e => Some ("invalid DATABASE_URL: " +:+ e)
  | None =>
  match (if decide (cfg_PooledDatabaseURL c = "") then None else url_Parse (cfg_PooledDatabaseURL c)) with
  | Some e => Some ("invalid SYNC_POOLED_DATABASE_URL: " +:+ e)
  | None =>
  if negb (cfg_Insecure c) && is_blank (cfg_Secret c) then Some "SYNC_SECRET is required unless SYNC_INSECURE=true"
  else if (cfg_Port c <=? 0) || (65535 <? cfg_Port c) then Some ("invalid SYNC_PORT: " +:+ format_Z (cfg_Port c))
  else if cfg_DBPoolSize c <=? 0 then Some ("invalid SYNC_DB_POOL_SIZE: " +:+ format_Z (cfg_DBPoolSize c))
  else if (lim_Initial (cfg_MaxConcurrentRequests c) <=? 0) || (lim_Existing (cfg_MaxConcurrentRequests c) <=? 0) then
    Some ("invalid SYNC_MAX_CONCURRENT_REQUESTS: {Initial:" +:+ format_Z (lim_Initial (cfg_MaxConcurrentRequests c)) +:+
      " Existing:" +:+ format_Z (lim_Existing (cfg_MaxConcurrentRequests c)) +:+ "}")
  else if (cfg_CacheMaxAge c <? 0) || (cfg_CacheStaleAge c <? 0) then
    Some ("invalid cache config: {MaxAge:" +:+ format_Z (cfg_CacheMaxAge c) +:+ " StaleAge:" +:+ format_Z (cfg_CacheStaleAge c) +:+ "}")
  else if cfg_LongPollTimeoutMS c <=? 0 then Some ("invalid long poll timeout: " +:+ format_Z (cfg_LongPollTimeoutMS c))
  else if cfg_SSETimeoutMS c <=? 0 then Some ("invalid sse timeout: " +:+ format_Z (cfg_SSETimeoutMS c))
  else if negb (bool_decide (mode = StorageModeMemory)) && negb (bool_decide (mode = StorageModeDisk)) then
    Some ("invalid storage mode: " +:+ mode)
  else None
  end end.

(** A field of the limits: absent and null keep the value there is. *)
Definition dec_limit (old : Z) (j : option json) : option Z :=
  match j with
  | None | Some JNull => Some old
  | Some (JNum lit) => parse_int64 lit
  | Some _ => None
  end.

(** json.Unmarshal into the limits. *)
Definition unmarshal_limits (value : string) (old : MaxConcurrentRequests) : option MaxConcurrentRequests :=
  j ← parse_json value;
  match j with
  | JNull => Some old
  | JObj l =>
      i ← dec_limit (lim_Initial old) (json_field "initial" l);
      e ← dec_limit (lim_Existing old) (json_field "existing" l);
      Some (mkLimits i e)
  | _ => None
  end.

Variable lookup : string -> option string.

(** A variable that is set and, where [skip_blank], not blank. *)
Definition env_value (name : string) (skip_blank : bool) : option string :=
  value ← lookup name; if skip_blank && is_blank value then None else Some value.

(** A text setting, trimmed. *)
Definition env_text (name : string) (skip_blank : bool) (old : string) : string :=
  match env_value name skip_blank with Some value => trim_space value | None => old end.

Definition env_int (name : string) (skip_blank : bool) (old : Z) : result string Z :=
  match env_value name skip_blank with
  | None => Ok old
  | Some value => match Atoi is_print (trim_space value) with Ok z => Ok z | Err e => Err ("invalid " +:+ name +:+ ": " +:+ e) end
  end.

(** [SYNC_INSECURE] is not trimmed. *)
Definition env_bool (name : string) (skip_blank trimmed : bool) (old : bool) : result string bool :=
  match env_value name skip_blank with
  | None => Ok old
  | Some value =>
      match ParseBool is_print (if trimmed then trim_space value else value) with
      | Ok b => Ok b
      | Err e => Err ("invalid " +:+ name +:+ ": " +:+ e)
      end
  end.

Definition env_limits (old : MaxConcurrentRequests) : result string MaxConcurrentRequests :=
  match env_value "SYNC_MAX_CONCURRENT_REQUESTS" true with
  | None => Ok old
  | Some value =>
      match unmarshal_limits value old with
      | Some l => Ok l
      | None => Err ("invalid SYNC_MAX_CONCURRENT_REQUESTS: " +:+ json_error value)
      end
  end.

#[local] Instance result_ret : MRet (result string) := fun A a => Ok a.
#[local] Instance result_bind : MBind (result string) := fun A B f x => match x with Ok a => f a | Err e => Err e end.

(** Reading the settings: the first conversion error ends it. *)
Definition read_settings : result string Config :=
  let d := DefaultConfig in
  let database := env_text "DATABASE_URL" false (cfg_DatabaseURL d) in
  let pooled := env_text "SYNC_POOLED_DATABASE_URL" true (cfg_PooledDatabaseURL d) in
  let pooled := if decide (pooled = "") then database else pooled in
  let secret := env_text "SYNC_SECRET" false (cfg_Secret d) in
  insecure ← env_bool "SYNC_INSECURE" false false (cfg_Insecure d);
  port ← env_int "SYNC_PORT" false (cfg_Port d);
  let stream := env_text "SYNC_REPLICATION_STREAM_ID" true (cfg_ReplicationStreamID d) in
  pool ← env_int "SYNC_DB_POOL_SIZE" false (cfg_DBPoolSize d);
  maxAge ← env_int "SYNC_CACHE_MAX_AGE" false (cfg_CacheMaxAge d);
  staleAge ← env_int "SYNC_CACHE_STALE_AGE" false (cfg_CacheStaleAge d);
  limits ← env_limits (cfg_MaxConcurrentRequests d);
  let mode := env_text "SYNC_STORAGE_MODE" true (cfg_StorageMode d) in
  let dir := env_text "SYNC_STORAGE_DIR" false (cfg_StorageDir d) in
  longPoll ← env_int "SYNC_LONG_POLL_TIMEOUT_MS" true (cfg_LongPollTimeoutMS d);
  sse ← env_int "SYNC_SSE_TIMEOUT_MS" true (cfg_SSETimeoutMS d);
  deletion ← env_bool "SYNC_ALLOW_SHAPE_DELETION" true true (cfg_AllowShapeDeletion d);
  let flags := match lookup "SYNC_FEATURE_FLAGS" with Some value => parseFeatureFlags value | None => cfg_FeatureFlags d end in
  mret (mkConfig database pooled secret insecure port (cfg_ListenHost d) stream pool limits maxAge staleAge mode dir
    (cfg_MetricsPath d) longPoll sse deletion flags).

(** The configuration and the error. *)
Definition Load : Config * option string :=
  match read_settings with
  | Err e => (zero_config, Some e)
  | Ok cfg => (cfg, Validate cfg)
  end.
End loading.

(** * Lemmas *)

Lemma add_flag_spec (flags : list string) (raw_flag x : string) :
  x ∈ add_flag flags raw_flag <-> x ∈ flags \/ (x = trim_space raw_flag /\ x ∈ known_flags).
Proof.
  unfold add_flag. case_decide as He.
  - split; [by left|]. intros [?|[-> Hk]]; [done|]. rewrite He in Hk. unfold known_flags in Hk. rewrite !elem_of_cons, elem_of_nil in Hk. by destruct Hk as [?|[?|[]]].
  - case_bool_decide as Hk; cbn [negb]; [case_decide as Hi|].
    + split; [by left|]. by intros [?|[-> _]].
    + rewrite elem_of_app, list_elem_of_singleton. split; [intros [?| ->]; auto|intros [?|[-> _]]; auto].
    + split; [by left|]. by intros [?|[-> ?]].
Qed.

Lemma add_flag_NoDup (flags : list string) (raw_flag : string) : NoDup flags -> NoDup (add_flag flags raw_flag).
Proof.
  intros Hn. unfold add_flag. case_decide; [done|]. case_bool_decide; cbn [negb]; [|done]. case_decide; [done|].
  apply NoDup_app. split_and!; [done| |apply NoDup_singleton]. intros x Hx ->%list_elem_of_singleton. done.
Qed.

(** The flags are the known ones among the trimmed parts, each once. *)
Lemma parse_flags_spec (value : string) :
  NoDup (parseFeatureFlags value) /\
  forall x, x ∈ parseFeatureFlags value <-> x ∈ known_flags /\ exists part, part ∈ split_byte (byte_of 44) value /\ trim_space part = x.
Proof.
  unfold parseFeatureFlags. generalize (split_byte (byte_of 44) value) as parts. intros parts.
  assert (H : forall flags, NoDup flags -> NoDup (fold_left add_flag parts flags) /\
    forall x, x ∈ fold_left add_flag parts flags <-> x ∈ flags \/ (x ∈ known_flags /\ exists part, part ∈ parts /\ trim_space part = x)).
  { induction parts as [|p parts IH]; intros flags Hn; cbn [fold_left].
    - split; [done|]. intros x. split; [by left|]. intros [?|(_ & p & Hp & _)]; [done|]. by apply elem_of_nil in Hp.
    - destruct (IH (add_flag flags p) (add_flag_NoDup flags p Hn)) as [H1 H2]. split; [done|]. intros x. rewrite H2, add_flag_spec.
      setoid_rewrite elem_of_cons. split.
      + intros [[?|[-> ?]]|(? & q & ? & ?)]; [by left|right; eauto|right; eauto].
      + intros [?|(? & q & [-> |?] & <-)]; [by left; left|left; right; eauto|right; eauto]. }
  destruct (H [] (NoDup_nil_2)) as [H1 H2]. split; [done|]. intros x. rewrite H2, elem_of_nil. tauto.
Qed.

(** What a valid configuration is. *)
Record valid_config (c : Config) : Prop := {
  valid_database : is_blank (cfg_DatabaseURL c) = false;
  valid_secret : cfg_Insecure c = true \/ is_blank (cfg_Secret c) = false;
  valid_port : 1 <= cfg_Port c <= 65535;
  valid_pool : 0 < cfg_DBPoolSize c;
  valid_limits : 0 < lim_Initial (cfg_MaxConcurrentRequests c) /\ 0 < lim_Existing (cfg_MaxConcurrentRequests c);
  valid_cache : 0 <= cfg_CacheMaxAge c /\ 0 <= cfg_CacheStaleAge c;
  valid_timeouts : 0 < cfg_LongPollTimeoutMS c /\ 0 < cfg_SSETimeoutMS c;
  valid_mode : cfg_StorageMode c ∈ [""; StorageModeMemory; StorageModeDisk]
}.

(** Validation is exact, up to what net/url says of the addresses. *)
Lemma Validate_spec (url_Parse : string -> option string) (c : Config) :
  Validate url_Parse c = None <->
  valid_config c /\ url_Parse (cfg_DatabaseURL c) = None /\ (cfg_PooledDatabaseURL c <> "" -> url_Parse (cfg_PooledDatabaseURL c) = None).
Proof.
  unfold Validate. destruct c as [db pooled secret insecure port host stream pool [li le] ca cs mode dir path lp sse del flags]; cbn.
  split.
  - intros H. repeat match type of H with
      | (if ?b then Some _ else _) = None => destruct b eqn:?; [discriminate H|]
      | match ?o with Some _ => Some _ | None => _ end = None => destruct o eqn:?; [discriminate H|]
      end.
    repeat match goal with
      | E : (_ || _) = false |- _ => apply orb_false_iff in E as [? ?]
      | E : (_ <=? _) = false |- _ => apply Z.leb_gt in E
      | E : (_ <? _) = false |- _ => apply Z.ltb_ge in E
      end.
    split_and!; [split; cbn; try done; try lia| |].
    + destruct insecure; [by left|right]. by destruct (is_blank secret).
    + destruct (decide (mode = "")) as [->|]; [by left|]. apply (bool_decide_unpack _).
      destruct (bool_decide (mode = StorageModeMemory)) eqn:E1, (bool_decide (mode = StorageModeDisk)) eqn:E2; try discriminate;
        rewrite ?bool_decide_eq_true in *; subst; reflexivity.
    + done.
    + intros Hp. by rewrite decide_False in * by done.
  - intros ([H1 H2 H3 H4 H5 H6 H7 H8] & Hu & Hp). cbn in *. rewrite H1, Hu.
    replace (if decide (pooled = "") then None else url_Parse pooled) with (@None string) by (case_decide; [done|]; by rewrite Hp).
    replace (negb insecure && is_blank secret) with false by (destruct H2 as [-> | ->]; [done|]; by rewrite andb_false_r).
    repeat match goal with
      | |- (if ?b then Some _ else _) = None => let E := fresh in assert (b = false) as ->; [|]
      end; try done; rewrite ?orb_false_iff, ?Z.leb_gt, ?Z.ltb_ge; try lia.
    rewrite !elem_of_cons, elem_of_nil in H8. by destruct H8 as [-> |[-> |[-> |[]]]].
Qed.

Lemma env_text_set (lookup : string -> option string) (name old : string) :
  trim_space old <> "" -> old <> "" -> env_text lookup name true old <> "".
Proof.
  intros H1 H2. unfold env_text, env_value. destruct (lookup name) as [v|]; [|done]. cbn [mbind option_bind andb].
  unfold is_blank. case_bool_decide; done.
Qed.

(** * Properties *)

(** C37. A configuration that loads without an error is usable: it is valid, its
    mode is one of the two, it has a pooled address and a stream id, and its
    feature flags are exactly the known ones the environment names. *)
Theorem loaded_config_valid (url_Parse : string -> option string) (json_error : string -> string) (is_print : N -> bool)
    (lookup : string -> option string) (c : Config) :
  Load url_Parse json_error is_print lookup = (c, None) ->
  valid_config c /\ cfg_StorageMode c ∈ [StorageModeMemory; StorageModeDisk] /\
  cfg_PooledDatabaseURL c <> "" /\ cfg_ReplicationStreamID c <> "" /\ NoDup (cfg_FeatureFlags c) /\
  (forall x, x ∈ cfg_FeatureFlags c <-> x ∈ known_flags /\
     exists value part, lookup "SYNC_FEATURE_FLAGS" = Some value /\ part ∈ split_byte (byte_of 44) value /\ trim_space part = x).
Proof.
  intros E. assert (Hv : valid_config c).
  { unfold Load in E. destruct (read_settings _ _ _); [done|]. injection E as <- Hv. by apply Validate_spec in Hv as [? _]. }
  split; [done|]. unfold Load in E. destruct (read_settings _ _ _) as [e|c'] eqn:Er; [done|]. injection E as -> _.
  unfold read_settings, mbind, result_bind, mret, result_ret in Er.
  repeat match type of Er with match ?x with Err _ => _ | Ok _ => _ end = _ => destruct x eqn:?; [discriminate Er|] end.
  injection Er as <-. split_and!.
  - assert (Hm := env_text_set lookup "SYNC_STORAGE_MODE" (cfg_StorageMode DefaultConfig)).
    specialize (Hm ltac:(vm_compute; discriminate) ltac:(done)). destruct Hv as [_ _ _ _ _ _ _ Hmode].
    cbn [cfg_StorageMode] in *. apply elem_of_cons in Hmode as [He|He]; [destruct (Hm He)|exact He].
  - cbn [cfg_PooledDatabaseURL]. case_decide as Hp; [|done]. destruct Hv as [Hdb _ _ _ _ _ _ _]. cbn [cfg_DatabaseURL] in Hdb.
    intros Hdb'. by rewrite Hdb' in Hdb.
  - apply (env_text_set lookup "SYNC_REPLICATION_STREAM_ID" (cfg_ReplicationStreamID DefaultConfig)); [vm_compute; discriminate|done].
  - cbn [cfg_FeatureFlags]. destruct (lookup "SYNC_FEATURE_FLAGS"); [apply parse_flags_spec|apply NoDup_nil_2].
  - intros x. cbn [cfg_FeatureFlags]. destruct (lookup "SYNC_FEATURE_FLAGS") as [v|].
    + rewrite (proj2 (parse_flags_spec v)). split; [intros (? & p & ? & ?)|intros (? & ? & p & [= <-] & ? & ?)]; eauto 10.
    + split; [by intros ?%elem_of_nil|by intros (_ & ? & ? & [=] & _)].
Qed.

Definition demo_env_vars (name : string) : option string :=
  if decide (name = "DATABASE_URL") then Some "postgresql://localhost/app"
  else if decide (name = "SYNC_INSECURE") then Some "true"
  else if decide (name = "SYNC_PORT") then Some " 4000 "
  else if decide (name = "SYNC_MAX_CONCURRENT_REQUESTS") then Some ("{" +:+ json_string "initial" +:+ ": 5}")
  else if decide (name = "SYNC_FEATURE_FLAGS") then Some "allow_subqueries, other,allow_subqueries" else None.

Lemma loaded_config_valid_witness :
  let c := (Load (fun _ => None) (fun _ => "") (fun _ => true) demo_env_vars).1 in
  valid_config c /\ cfg_Port c = 4000 /\ cfg_MaxConcurrentRequests c = mkLimits 5 10000 /\ cfg_FeatureFlags c = ["allow_subqueries"].
Proof.
  intros c. split; [|vm_compute; done].
  apply (loaded_config_valid (fun _ => None) (fun _ => "") (fun _ => true) demo_env_vars). vm_compute. reflexivity.
Defined.
