(* ===== verification/Crypto.v ===== *)
(** The digests the program takes from Go's standard library: SHA-256, which
    names a shape definition, and MD5, which tags the rows of a dependent
    shape.  Both are executable, and checked on the published test vectors. *)

From Stdlib Require Import Ascii String ZArith NArith Lia.
From S2P Require Import Prelude GoValue.

#[local] Open Scope N_scope.

(** * 32-bit words *)

Definition w32 (n : N) : N := N.land n 4294967295.
Definition add32 (a b : N) : N := w32 (a + b).
Definition not32 (a : N) : N := N.lxor a 4294967295.
Definition rotr32 (n k : N) : N := N.lor (N.shiftr n k) (w32 (N.shiftl n (32 - k))).
Definition rotl32 (n k : N) : N := rotr32 n (32 - k).

(** [chunk k l] cuts [l] into groups of [k]. *)
Fixpoint chunk_fuel (fuel : nat) (k : nat) (l : list N) : list (list N) :=
  match fuel, l with
  | S f, _ :: _ => take k l :: chunk_fuel f k (drop k l)
  | _, _ => []
  end.
Definition chunk (k : nat) (l : list N) : list (list N) := chunk_fuel (length l) k l.

Definition be_word (l : list N) : N := fold_left (fun acc b => acc * 256 + b) l 0.
Definition le_word (l : list N) : N := be_word (reverse l).

Definition be_bytes (k : nat) (n : N) : list N :=
  reverse (map (fun i => N.land (N.shiftr n (8 * N.of_nat i)) 255) (seq 0 k)).
Definition le_bytes (k : nat) (n : N) : list N := reverse (be_bytes k n).

(** The message, a one bit, zeros up to 56 modulo 64, and the bit length. *)
Definition pad (len64 : N -> list N) (msg : list N) : list N :=
  let n := N.of_nat (length msg) in
  let z := (119 - n mod 64) mod 64 in
  msg ++ [128] ++ repeat 0 (N.to_nat z) ++ len64 (8 * n).

Definition bytes_of (s : string) : list N := map code (String.list_ascii_of_string s).

(** hex.EncodeToString. *)
Fixpoint hex_encode (l : list N) : string :=
  match l with
  | [] => ""
  | b :: l' => hex_byte b +:+ hex_encode l'
  end.

(** * SHA-256 *)

Definition sha256_k : list N :=
  [1116352408; 1899447441; 3049323471; 3921009573; 961987163; 1508970993; 2453635748; 2870763221;
   3624381080; 310598401; 607225278; 1426881987; 1925078388; 2162078206; 2614888103; 3248222580;
   3835390401; 4022224774; 264347078; 604807628; 770255983; 1249150122; 1555081692; 1996064986;
   2554220882; 2821834349; 2952996808; 3210313671; 3336571891; 3584528711; 113926993; 338241895;
   666307205; 773529912; 1294757372; 1396182291; 1695183700; 1986661051; 2177026350; 2456956037;
   2730485921; 2820302411; 3259730800; 3345764771; 3516065817; 3600352804; 4094571909; 275423344;
   430227734; 506948616; 659060556; 883997877; 958139571; 1322822218; 1537002063; 1747873779;
   1955562222; 2024104815; 2227730452; 2361852424; 2428436474; 2756734187; 3204031479; 3329325298].

Definition sha256_iv : list N :=
  [1779033703; 3144134277; 1013904242; 2773480762; 1359893119; 2600822924; 528734635; 1541459225].

(** The schedule is built most recent word first. *)
Fixpoint sha256_extend (n : nat) (w : list N) : list N :=
  match n with
  | O => w
  | S n' =>
      let g i := nth i w 0 in
      let s0 := let x := g 14%nat in N.lxor (N.lxor (rotr32 x 7) (rotr32 x 18)) (N.shiftr x 3) in
      let s1 := let x := g 1%nat in N.lxor (N.lxor (rotr32 x 17) (rotr32 x 19)) (N.shiftr x 10) in
      sha256_extend n' (add32 (add32 (g 15%nat) s0) (add32 (g 6%nat) s1) :: w)
  end.

Definition sha256_round (st : list N) (kw : N * N) : list N :=
  match st with
  | [a; b; c; d; e; f; g; h] =>
      let s1 := N.lxor (N.lxor (rotr32 e 6) (rotr32 e 11)) (rotr32 e 25) in
      let ch := N.lxor (N.land e f) (N.land (not32 e) g) in
      let t1 := add32 (add32 h s1) (add32 ch (add32 (fst kw) (snd kw))) in
      let s0 := N.lxor (N.lxor (rotr32 a 2) (rotr32 a 13)) (rotr32 a 22) in
      let mj := N.lxor (N.lxor (N.land a b) (N.land a c)) (N.land b c) in
      [add32 t1 (add32 s0 mj); a; b; c; add32 d t1; e; f; g]
  | _ => st
  end.

Definition sha256_block (st : list N) (block : list N) : list N :=
  let w := reverse (sha256_extend 48 (reverse (map be_word (chunk 4 block)))) in
  zip_with add32 st (fold_left sha256_round (zip sha256_k w) st).

(** The first 8 words of the state are the digest. *)
Definition sha256 (s : string) : list N :=
  mjoin (map (be_bytes 4) (fold_left sha256_block (chunk 64 (pad (be_bytes 8) (bytes_of s))) sha256_iv)).

(** hex.EncodeToString(sha256.Sum256(b)). *)
Definition sha256_hex (s : string) : string := hex_encode (sha256 s).

(** * MD5 *)

Definition md5_k : list N :=
  [3614090360; 3905402710; 606105819; 3250441966; 4118548399; 1200080426; 2821735955; 4249261313;
   1770035416; 2336552879; 4294925233; 2304563134; 1804603682; 4254626195; 2792965006; 1236535329;
   4129170786; 3225465664; 643717713; 3921069994; 3593408605; 38016083; 3634488961; 3889429448;
   568446438; 3275163606; 4107603335; 1163531501; 2850285829; 4243563512; 1735328473; 2368359562;
   4294588738; 2272392833; 1839030562; 4259657740; 2763975236; 1272893353; 4139469664; 3200236656;
   681279174; 3936430074; 3572445317; 76029189; 3654602809; 3873151461; 530742520; 3299628645;
   4096336452; 1126891415; 2878612391; 4237533241; 1700485571; 2399980690; 4293915773; 2240044497;
   1873313359; 4264355552; 2734768916; 1309151649; 4149444226; 3174756917; 718787259; 3951481745].

Definition md5_shift (i : N) : N :=
  nth (N.to_nat (4 * (i / 16) + i mod 4))
    [7; 12; 17; 22; 5; 9; 14; 20; 4; 11; 16; 23; 6; 10; 15; 21] 0.

Definition md5_round (w : list N) (st : list N) (ik : N * N) : list N :=
  match st with
  | [a; b; c; d] =>
      let i := fst ik in
      let '(f, g) :=
        if i <? 16 then (N.lor (N.land b c) (N.land (not32 b) d), i)
        else if i <? 32 then (N.lor (N.land d b) (N.land (not32 d) c), (5 * i + 1) mod 16)
        else if i <? 48 then (N.lxor (N.lxor b c) d, (3 * i + 5) mod 16)
        else (N.lxor c (N.lor b (not32 d)), (7 * i) mod 16) in
      let x := add32 (add32 f a) (add32 (snd ik) (nth (N.to_nat g) w 0)) in
      [d; add32 b (rotl32 x (md5_shift i)); b; c]
  | _ => st
  end.

Definition md5_block (st : list N) (block : list N) : list N :=
  let w := map le_word (chunk 4 block) in
  zip_with add32 st
    (fold_left (md5_round w) (zip (map N.of_nat (seq 0 64)) md5_k) st).

Definition md5 (s : string) : list N :=
  mjoin (map (le_bytes 4)
    (fold_left md5_block (chunk 64 (pad (le_bytes 8) (bytes_of s)))
       [1732584193; 4023233417; 2562383102; 271733878])).

(** hex.EncodeToString(md5.Sum(b)). *)
Definition md5_hex (s : string) : string := hex_encode (md5 s).

(** * Test vectors *)

Example sha256_empty :
  sha256_hex "" = "e3b0c44298fc1c149afbf4c8996fb92427ae41e4649b934ca495991b7852b855".
Proof. vm_compute. reflexivity. Qed.

Example sha256_abc :
  sha256_hex "abc" = "ba7816bf8f01cfea414140de5dae2223b00361a396177a9cb410ff61f20015ad".
Proof. vm_compute. reflexivity. Qed.

Example sha256_two_blocks :
  sha256_hex "abcdbcdecdefdefgefghfghighijhijkijkljklmklmnlmnomnopnopq" =
  "248d6a61d20638b8e5c026930c3e6039a33ce45964ff2167f6ecedd419db06c1".
Proof. vm_compute. reflexivity. Qed.

Example md5_abc : md5_hex "abc" = "900150983cd24fb0d6963f7d28e17f72".
Proof. vm_compute. reflexivity. Qed.

Example md5_long :
  md5_hex "12345678901234567890123456789012345678901234567890123456789012345678901234567890" =
  "57edf4a22be3c955ac49da2e2107b67a".
Proof. vm_compute. reflexivity. Qed.
