(* ===== verification/SqlInspect.v ===== *)
(** SQL clause inspection: [src/internal/sqlinspect/inspect.go].

    [SanitizeClause] blanks single-quoted literals and comments out of a
    clause; [ContainsDependencyKeyword] looks for a keyword that makes the
    clause depend on other relations in what is left. *)

From Stdlib Require Import Ascii String ZArith NArith Lia.
From S2P Require Import Prelude.

(** * Definitions *)

(** The three flags of the scanner, of which at most one is ever set. *)
Inductive scan_mode : Type := InCode | InSingleQuoted | InLineComment | InBlockComment.

#[export] Instance scan_mode_eq_dec : EqDecision scan_mode.
Proof. solve_decision. Defined.

Definition sp : ascii := byte_of 32.
Definition dash : ascii := byte_of 45.
Definition slash : ascii := byte_of 47.
Definition star : ascii := byte_of 42.

(** The loop body, on the rest of the clause: the bytes written to the
    builder by the iterations still to come. *)
Fixpoint sanitize (m : scan_mode) (s : string) : string :=
  match s with
  | EmptyString => ""
  | String a s' =>
      match m with
      | InLineComment =>
          if decide (a = nl) then String sp (sanitize InCode s') else sanitize InLineComment s'
      | InBlockComment =>
          match s' with
          | String b s'' =>
              if decide (a = star /\ b = slash) then String sp (sanitize InCode s'')
              else sanitize InBlockComment s'
          | EmptyString => ""
          end
      | InSingleQuoted =>
          if decide (a = squote) then
            match s' with
            | String b s'' =>
                if decide (b = squote) then sanitize InSingleQuoted s''
                else String sp (sanitize InCode s')
            | EmptyString => String sp ""
            end
          else sanitize InSingleQuoted s'
      | InCode =>
          if decide (a = squote) then String sp (sanitize InSingleQuoted s')
          else match s' with
               | String b s'' =>
                   if decide (a = dash /\ b = dash) then String sp (sanitize InLineComment s'')
                   else if decide (a = slash /\ b = star) then String sp (sanitize InBlockComment s'')
                   else String a (sanitize InCode s')
               | EmptyString => String a ""
               end
      end
  end.

Definition SanitizeClause (value : string) : string := sanitize InCode value.

(** The word characters of a regular expression's [\b]. *)
Definition is_word_byte (c : ascii) : bool :=
  is_digit c || is_lower c || is_upper c || (code c =? 95)%N.

Definition head_is_word (s : string) : bool :=
  match s with EmptyString => false | String a _ => is_word_byte a end.

(** U+017F, which case folding identifies with [s]. *)
Definition long_s : string := bytes [197; 191]%N.

(** [match_fold kw s last] matches the lower-case keyword at the head of [s]
    up to case: whether the last character matched is a word character, and
    the rest of [s]. *)
Fixpoint match_fold (kw s : string) (last : bool) : option (bool * string) :=
  match kw with
  | EmptyString => Some (last, s)
  | String k kw' =>
      match s with
      | EmptyString => None
      | String a s' =>
          if decide (lower_byte a = k) then match_fold kw' s' true
          else if decide (code k = 115%N) then
            match strip_prefix long_s s, s' with
            | Some _, String _ s'' => match_fold kw' s'' false
            | _, _ => None
            end
          else None
      end
  end.

Definition dependency_keywords : list string :=
  ["select"; "join"; "exists"; "with"; "union"; "intersect"; "except"].

(** A keyword at the head of [s], between two word boundaries. *)
Definition keyword_at (prev : bool) (s : string) : bool :=
  xorb prev (head_is_word s) &&
  existsb (fun kw =>
    match match_fold kw s false with
    | Some (last, rest) => xorb last (head_is_word rest)
    | None => false
    end) dependency_keywords.

(** dependencyKeywordPattern.MatchString, from a position whose previous byte
    is a word character or not. *)
Fixpoint keyword_from (prev : bool) (s : string) : bool :=
  keyword_at prev s ||
  match s with
  | EmptyString => false
  | String a s' => keyword_from (is_word_byte a) s'
  end.

Definition dependencyKeywordPattern (s : string) : bool := keyword_from false s.

Definition ContainsDependencyKeyword (value : string) : bool :=
  let sanitized := SanitizeClause value in
  negb (is_blank sanitized) && dependencyKeywordPattern sanitized.

(** The SQL literal of a text: quotes doubled, between quotes. *)
Definition sql_literal (s : string) : string :=
  str1 squote +:+ replace_byte squote (bytes [39; 39]%N) s +:+ str1 squote.

(** Text the scanner copies unchanged: no quote, no comment opener. *)
Definition head_is (c : ascii) (s : string) : bool :=
  match s with EmptyString => false | String a _ => bool_decide (a = c) end.

Fixpoint clean (s : string) : bool :=
  match s with
  | EmptyString => true
  | String a s' =>
      negb (bool_decide (a = squote)) &&
      negb (bool_decide (a = dash) && head_is dash s') &&
      negb (bool_decide (a = slash) && head_is star s') && clean s'
  end.

Fixpoint last_is_word (prev : bool) (s : string) : bool :=
  match s with EmptyString => prev | String a s' => last_is_word (is_word_byte a) s' end.

(** * Lemmas *)

Lemma head_is_true (c : ascii) (s : string) : head_is c s = true <-> exists s', s = String c s'.
Proof.
  destruct s as [|a s]; simpl.
  - split; [done|]. by intros [??].
  - rewrite bool_decide_eq_true. split; [intros ->; eauto|]. intros [s' H]. by injection H.
Qed.

(** What the scanner emits in code starts with a space or with the byte it
    stands on. *)
Lemma sanitize_head (c : ascii) (s : string) :
  c <> sp -> head_is c (sanitize InCode s) = true -> head_is c s = true.
Proof.
  intros Hc. destruct s as [|a s]; [done|]. simpl.
  assert (Hsp : forall t, head_is c (String sp t) = true -> False).
  { intros t Ht. apply head_is_true in Ht as [? Ht]. by injection Ht. }
  repeat case_match; intros Hh; try (by apply Hsp in Hh); exact Hh.
Qed.

Lemma sanitize_clean (m : scan_mode) (s : string) : clean (sanitize m s) = true.
Proof.
  revert m. induction s as [s IH] using string_strong_ind. intros m.
  destruct s as [|a s]; [done|].
  assert (IH1 : forall m, clean (sanitize m s) = true) by (intros; apply IH; simpl; lia).
  assert (IH2 : forall b t m, s = String b t -> clean (sanitize m t) = true)
    by (intros; subst; apply IH; simpl; lia).
  assert (Hsp : forall t, clean t = true -> clean (String sp t) = true) by (intros; simpl; done).
  destruct m; simpl.
  - case_decide; [by apply Hsp|]. destruct s as [|b t].
    + simpl. rewrite (bool_decide_false (a = squote)) by done. by rewrite !andb_false_r.
    + case_decide; [apply Hsp; by eapply IH2|]. case_decide; [apply Hsp; by eapply IH2|].
      specialize (IH1 InCode). cbn [clean]. rewrite IH1, andb_true_r, (bool_decide_false (a = squote)) by done.
      rewrite !andb_true_iff. split_and!; [done|..]; apply negb_true_iff, andb_false_iff;
        rewrite bool_decide_eq_false;
        [destruct (decide (a = dash)) as [->|]|destruct (decide (a = slash)) as [->|]]; try tauto; right;
        apply not_true_iff_false; intros Hh; apply sanitize_head in Hh; try done;
        apply head_is_true in Hh as [? Hh]; injection Hh; intros; subst; tauto.
  - case_decide; [|apply IH1]. destruct s as [|b t]; [done|].
    case_decide; [by eapply IH2|]. by apply Hsp.
  - case_decide; [by apply Hsp|apply IH1].
  - destruct s as [|b t]; [done|]. case_decide; [apply Hsp; by eapply IH2|apply IH1].
Qed.

Lemma sanitize_id (s : string) : clean s = true -> SanitizeClause s = s.
Proof.
  unfold SanitizeClause. induction s as [|a s IH]; [done|].
  cbn [clean]. rewrite !andb_true_iff, !negb_true_iff, bool_decide_eq_false.
  intros [[[Hq Hd] Hs] Hc]. cbn [sanitize]. rewrite decide_False by done.
  rewrite andb_false_iff, bool_decide_eq_false in Hd, Hs.
  destruct s as [|b t]; [done|]. simpl in Hd, Hs. rewrite bool_decide_eq_false in Hd, Hs.
  rewrite (decide_False (P := a = dash /\ b = dash)) by tauto.
  rewrite (decide_False (P := a = slash /\ b = star)) by tauto. by rewrite IH.
Qed.

Lemma contains_sanitized (value : string) :
  ContainsDependencyKeyword (SanitizeClause value) = ContainsDependencyKeyword value.
Proof. unfold ContainsDependencyKeyword. by rewrite (sanitize_id (SanitizeClause value)) by apply sanitize_clean. Qed.

Lemma contains_not_blank (value : string) : ContainsDependencyKeyword value = true -> is_blank (SanitizeClause value) = false.
Proof. unfold ContainsDependencyKeyword. by destruct (is_blank _). Qed.

Lemma match_fold_app (kw w rest : string) (last : bool) :
  ascii_lower w = kw -> kw <> "" -> match_fold kw (w +:+ rest) last = Some (true, rest).
Proof.
  revert w last. induction kw as [|k kw IH]; intros w last Hw Hne; [done|].
  destruct w as [|a w]; [done|]. injection Hw as Hk Hw. rewrite app_cons_str.
  cbn [match_fold]. rewrite decide_True by done.
  destruct kw as [|k' kw]; [destruct w; done|]. by apply IH.
Qed.

Lemma lower_is_word (a : ascii) : is_word_byte (lower_byte a) = true -> is_word_byte a = true.
Proof.
  unfold lower_byte. destruct (is_upper a) eqn:E; [|done].
  intros _. unfold is_word_byte. by rewrite E, orb_true_r.
Qed.

Lemma keyword_from_app (prev : bool) (s t : string) :
  keyword_from (last_is_word prev s) t = true -> keyword_from prev (s +:+ t) = true.
Proof.
  revert prev. induction s as [|a s IH]; intros prev H; [done|].
  rewrite app_cons_str. cbn [keyword_from]. rewrite IH by done. apply orb_true_r.
Qed.

Lemma keyword_head (w : string) :
  ascii_lower w ∈ dependency_keywords -> exists a w', w = String a w' /\ is_word_byte a = true.
Proof.
  unfold dependency_keywords. rewrite !elem_of_cons. intros Hw. destruct w as [|a w].
  - exfalso. simpl in Hw. repeat (destruct Hw as [Hw|Hw]; [discriminate|]).
    by apply not_elem_of_nil in Hw.
  - exists a, w. split; [done|]. apply lower_is_word. simpl in Hw.
    repeat (destruct Hw as [Hw|Hw]; [injection Hw as -> _; reflexivity|]).
    by apply not_elem_of_nil in Hw.
Qed.

(** A keyword between word boundaries is found where it stands. *)
Lemma keyword_at_word (w rest : string) (prev : bool) :
  ascii_lower w ∈ dependency_keywords -> prev = false -> head_is_word rest = false ->
  keyword_at prev (w +:+ rest) = true.
Proof.
  intros Hw -> Hr. destruct (keyword_head w Hw) as (a & w' & -> & Ha).
  unfold keyword_at. apply andb_true_intro. split; [done|].
  apply existsb_exists. exists (ascii_lower (String a w')). split; [by apply list_elem_of_In|].
  by rewrite match_fold_app, Hr.
Qed.

Lemma word_byte_not_space (a : ascii) :
  is_word_byte a = true -> forallb (fun p => negb (contains_byte a p)) space_seqs = true.
Proof. destruct a as [[] [] [] [] [] [] [] []]; vm_compute; congruence. Qed.

Lemma keyword_not_blank (pre w rest : string) :
  ascii_lower w ∈ dependency_keywords -> is_blank (pre +:+ w +:+ rest) = false.
Proof.
  intros Hw. destruct (keyword_head w Hw) as (a & w' & -> & Ha).
  apply (not_blank a); [by apply word_byte_not_space|].
  rewrite !contains_byte_app. simpl. rewrite decide_True by done. by rewrite orb_true_r.
Qed.

Lemma sanitize_quoted (t rest : string) :
  head_is squote rest = false ->
  sanitize InSingleQuoted (replace_byte squote (bytes [39; 39]%N) t +:+ String squote rest) =
  String sp (SanitizeClause rest).
Proof.
  intros Hr. induction t as [|a t IH].
  - cbn [replace_byte]. rewrite app_nil_l_str. cbn [sanitize]. rewrite decide_True by done.
    destruct rest as [|b rest]; [done|]. rewrite decide_False; [done|].
    intros ->. by rewrite (proj2 (head_is_true squote _)) in Hr by eauto.
  - cbn [replace_byte]. rewrite app_assoc_str. case_decide as Ha.
    + exact IH.
    + unfold str1. rewrite app_cons_str, app_nil_l_str. cbn [sanitize].
      by rewrite decide_False.
Qed.

(** * Properties *)

(** Sanitizing removes every quote and comment and nothing is left to
    remove: the result has no quote and no comment opener, and sanitizing
    again, or detecting keywords in the sanitized text, changes nothing. *)
Theorem sanitize_idempotent (value : string) :
  clean (SanitizeClause value) = true /\
  SanitizeClause (SanitizeClause value) = SanitizeClause value /\
  ContainsDependencyKeyword (SanitizeClause value) = ContainsDependencyKeyword value.
Proof.
  pose proof (sanitize_clean InCode value) as Hc.
  split_and!; [exact Hc|by apply sanitize_id|apply contains_sanitized].
Qed.

(** A string literal is opaque: whatever its text holds, quotes included,
    it contributes two spaces and the scan goes on after it. *)
Theorem sanitize_literal (t rest : string) :
  head_is squote rest = false ->
  SanitizeClause (sql_literal t +:+ rest) = "  " +:+ SanitizeClause rest.
Proof.
  intros Hr. unfold sql_literal, SanitizeClause at 1, str1. autorewrite with go.
  cbn [sanitize]. rewrite decide_True by done. by rewrite sanitize_quoted.
Qed.

Lemma sanitize_literal_witness :
  SanitizeClause (sql_literal "it's a -- SELECT" +:+ " = name") = "   = name".
Proof. apply (sanitize_literal "it's a -- SELECT" " = name"). reflexivity. Defined.

(** No dependency is missed in plain text: a keyword in any mix of cases,
    between two characters that are not word characters, is detected wherever
    it stands in a clause free of quotes and comments. *)
Theorem dependency_keyword_found (pre w rest : string) :
  clean (pre +:+ w +:+ rest) = true ->
  ascii_lower w ∈ dependency_keywords ->
  last_is_word false pre = false -> head_is_word rest = false ->
  ContainsDependencyKeyword (pre +:+ w +:+ rest) = true.
Proof.
  intros Hc Hw Hp Hr. unfold ContainsDependencyKeyword.
  rewrite sanitize_id, keyword_not_blank by done.
  simpl. unfold dependencyKeywordPattern. apply keyword_from_app. rewrite Hp.
  pose proof (keyword_at_word w rest false Hw eq_refl Hr) as Ha.
  destruct (w +:+ rest); cbn [keyword_from]; by rewrite Ha.
Qed.

Lemma dependency_keyword_found_witness :
  ContainsDependencyKeyword ("id IN (" +:+ "SeLeCt" +:+ " id FROM t)") = true.
Proof.
  apply (dependency_keyword_found "id IN (" "SeLeCt" " id FROM t)"); try reflexivity.
  vm_compute. apply list_elem_of_here.
Defined.

(** The scanner does not know double-quoted identifiers: a quote inside one
    opens a literal, and a subquery after it goes unseen. *)
Example quoted_identifier_hides_subquery :
  ContainsDependencyKeyword (bytes [34; 97; 39; 98; 34]%N +:+ " = 1 AND id IN (SELECT id FROM t)") = false.
Proof. vm_compute. reflexivity. Qed.
