(* ===== verification/Offset.v ===== *)
(** Shape offsets: [src/internal/shapes/offset.go].

    An offset is text: [0_n] counts the changes of a shape, [lsn_op] names an
    operation of a committed transaction, and [0_inf] stands for "now". *)

From Stdlib Require Import Ascii String ZArith NArith Lia.
From S2P Require Import Prelude.

(** * Definitions *)

Definition InitialOffset : string := "0_0".
Definition NowOffset : string := "0_inf".

Inductive offsetKind : Type := offsetInvalid | offsetSequence | offsetNow | offsetLSN.

#[export] Instance offsetKind_eq_dec : EqDecision offsetKind.
Proof. solve_decision. Defined.

(** The fields not set by a composite literal are zero. *)
Record parsedOffset : Type := {
  off_raw : string;
  off_kind : offsetKind;
  off_seq : Z;
  off_lsn : Z;
  off_opPos : Z
}.

Definition underscore : ascii := byte_of 95.

Definition invalid_offset (r : string) : parsedOffset * bool :=
  ({| off_raw := r; off_kind := offsetInvalid; off_seq := 0; off_lsn := 0; off_opPos := 0 |}, false).

Definition ParseOffset (raw0 : string) : parsedOffset * bool :=
  let raw := if decide (raw0 = "") then InitialOffset else raw0 in
  match splitn_byte underscore 2 raw with
  | [p0; p1] =>
      if decide (p0 = "0") then
        if decide (p1 = "inf") then
          ({| off_raw := raw; off_kind := offsetNow; off_seq := 0; off_lsn := 0; off_opPos := 0 |}, true)
        else
          match parse_int64 p1 with
          | Some s =>
              if s <? 0 then invalid_offset raw
              else ({| off_raw := raw; off_kind := offsetSequence; off_seq := s; off_lsn := 0; off_opPos := 0 |}, true)
          | None => invalid_offset raw
          end
      else
        match parse_uint64 p0 with
        | None => invalid_offset raw
        | Some l =>
            match parse_int64 p1 with
            | Some p =>
                if p <? 0 then invalid_offset raw
                else ({| off_raw := raw; off_kind := offsetLSN; off_seq := 0; off_lsn := l; off_opPos := p |}, true)
            | None => invalid_offset raw
            end
        end
  | _ => invalid_offset raw
  end.

Definition compareInt64 (left right : Z) : Z :=
  if left <? right then -1 else if right <? left then 1 else 0.

Definition offsetRank (k : offsetKind) : Z :=
  match k with
  | offsetSequence => 1
  | offsetNow => 2
  | offsetLSN => 3
  | offsetInvalid => 0
  end.

Definition compareParsedOffsets (left right : parsedOffset) : Z :=
  let leftRank := offsetRank (off_kind left) in
  let rightRank := offsetRank (off_kind right) in
  if negb (leftRank =? rightRank) then
    if leftRank <? rightRank then -1 else 1
  else
    match off_kind left with
    | offsetSequence => compareInt64 (off_seq left) (off_seq right)
    | offsetNow => 0
    | offsetLSN =>
        if negb (off_lsn left =? off_lsn right) then
          if off_lsn left <? off_lsn right then -1 else 1
        else compareInt64 (off_opPos left) (off_opPos right)
    | offsetInvalid => 0
    end.

Definition CompareOffsets (left right : string) : Z :=
  let '(parsedLeft, okLeft) := ParseOffset left in
  let '(parsedRight, okRight) := ParseOffset right in
  match okLeft, okRight with
  | false, false => 0
  | false, true => -1
  | true, false => 1
  | true, true => compareParsedOffsets parsedLeft parsedRight
  end.

Definition FormatSequenceOffset (sequence : Z) : string :=
  "0_" +:+ format_Z sequence.

Definition FormatLSNOffset (lsn opPos : Z) : string :=
  format_Z lsn +:+ "_" +:+ format_Z opPos.

(** [int] arithmetic wraps at 64 bits. *)
Definition NextGeneratedOffset (current : string) (step : Z) : string :=
  let '(parsed, ok) := ParseOffset current in
  if negb ok then FormatSequenceOffset (wrap64 (step + 1))
  else
    match off_kind parsed with
    | offsetLSN => FormatLSNOffset (off_lsn parsed) (wrap64 (off_opPos parsed + step + 1))
    | offsetNow => FormatLSNOffset (wrapu64 (step + 1)) 0
    | _ => FormatSequenceOffset (wrap64 (off_seq parsed + step + 1))
    end.

(** The empty string and [false] are [None]. *)
Definition OffsetLSN (offset : string) : option string :=
  let '(parsed, ok) := ParseOffset offset in
  if negb ok || negb (bool_decide (off_kind parsed = offsetLSN)) then None
  else Some (format_Z (off_lsn parsed)).

(** ** The position an offset denotes

    Positions are ordered lexicographically; an unparsable offset is below
    every other. *)
Definition position (o : string) : Z * Z * Z :=
  let '(p, ok) := ParseOffset o in
  if ok then
    match off_kind p with
    | offsetSequence => (1, off_seq p, 0)
    | offsetNow => (2, 0, 0)
    | offsetLSN => (3, off_lsn p, off_opPos p)
    | offsetInvalid => (0, 0, 0)
    end
  else (0, 0, 0).

Definition pos_lt (a b : Z * Z * Z) : Prop :=
  let '(a0, a1, a2) := a in
  let '(b0, b1, b2) := b in
  a0 < b0 \/ (a0 = b0 /\ (a1 < b1 \/ (a1 = b1 /\ a2 < b2))).

Definition offset_lt (a b : string) : Prop := pos_lt (position a) (position b).
Definition offset_le (a b : string) : Prop := ~ offset_lt b a.

#[export] Instance pos_lt_dec : RelDecision pos_lt.
Proof. intros [[??]?] [[??]?]. unfold pos_lt. apply _. Defined.

#[export] Instance offset_lt_dec : RelDecision offset_lt.
Proof. intros a b. unfold offset_lt. apply _. Defined.

Definition offset_ok (o : string) : bool := (ParseOffset o).2.

(** The arithmetic of [NextGeneratedOffset] stays in range, and an LSN offset
    names a real transaction. *)
Definition next_in_range (current : string) (step : Z) : bool :=
  let '(p, ok) := ParseOffset current in
  (0 <=? step) && (step + 1 <=? int64_max) &&
  (negb ok || match off_kind p with
    | offsetLSN => (0 <? off_lsn p) && (off_opPos p + step + 1 <=? int64_max)
    | offsetSequence => off_seq p + step + 1 <=? int64_max
    | _ => true
    end).

(** * Lemmas *)

Lemma splitn2_cut (s x y : string) :
  contains_byte underscore x = false -> splitn_byte underscore 2 (x +:+ "_" +:+ y) = [x; y].
Proof.
  intros Hx. simpl. change ("_" +:+ y) with (String underscore y).
  by rewrite cut_byte_app.
Qed.

Lemma underscore_not_in_format (z : Z) : contains_byte underscore (format_Z z) = false.
Proof. by apply format_Z_no_byte. Qed.

Lemma app_nonempty (s t : string) (a : ascii) : s +:+ String a t <> "".
Proof. destruct s; done. Qed.

Lemma format_Z_0 (z : Z) : 0 <= z <= uint64_max -> format_Z z = "0" -> z = 0.
Proof.
  intros Hz He. apply parse_uint64_format in Hz. rewrite He in Hz.
  change (parse_uint64 "0") with (Some 0) in Hz. congruence.
Qed.

Lemma parse_lsn (l p : Z) :
  0 < l <= uint64_max -> 0 <= p <= int64_max ->
  ParseOffset (FormatLSNOffset l p) =
  ({| off_raw := FormatLSNOffset l p; off_kind := offsetLSN; off_seq := 0; off_lsn := l; off_opPos := p |}, true).
Proof.
  intros Hl Hp. unfold ParseOffset.
  rewrite decide_False by apply app_nonempty.
  unfold FormatLSNOffset at 1. rewrite (splitn2_cut "") by apply underscore_not_in_format.
  rewrite decide_False by (intros H%format_Z_0; lia).
  rewrite parse_uint64_format, parse_int64_format by (unfold int64_min; lia).
  destruct (Z.ltb_spec p 0); [lia|done].
Qed.

Lemma parse_sequence (n : Z) :
  0 <= n <= int64_max ->
  ParseOffset (FormatSequenceOffset n) =
  ({| off_raw := FormatSequenceOffset n; off_kind := offsetSequence; off_seq := n; off_lsn := 0; off_opPos := 0 |}, true).
Proof.
  intros Hn. unfold ParseOffset. rewrite decide_False by done.
  unfold FormatSequenceOffset at 1.
  change ("0_" +:+ format_Z n) with ("0" +:+ "_" +:+ format_Z n).
  rewrite (splitn2_cut "") by done. rewrite decide_True by done.
  rewrite decide_False.
  - rewrite parse_int64_format by (unfold int64_min; lia). destruct (Z.ltb_spec n 0); [lia|done].
  - intros He. assert (Hi : parse_int64 (format_Z n) = Some n) by (apply parse_int64_format; unfold int64_min; lia).
    by rewrite He in Hi.
Qed.

(** A parsed offset is one of the three valid kinds, with its fields in
    range. *)
Lemma ParseOffset_ok (o : string) (p : parsedOffset) :
  ParseOffset o = (p, true) ->
  match off_kind p with
  | offsetInvalid => False
  | offsetSequence => 0 <= off_seq p <= int64_max
  | offsetNow => True
  | offsetLSN => 0 <= off_lsn p <= uint64_max /\ 0 <= off_opPos p <= int64_max
  end.
Proof.
  assert (Hint : forall s z, parse_int64 s = Some z -> int64_min <= z <= int64_max).
  { intros s z H. unfold parse_int64 in H. destruct s; [done|].
    repeat case_match; inv_all; rewrite ?andb_true_iff, ?Z.leb_le in *; lia. }
  assert (Huint : forall s z, parse_uint64 s = Some z -> 0 <= z <= uint64_max).
  { intros s z H. unfold parse_uint64, parse_digits in H.
    repeat case_match; inv_all; rewrite ?Z.leb_le in *; lia. }
  unfold ParseOffset, invalid_offset. intros H.
  repeat case_match; inv_all; simplify_eq/=; try done;
    repeat match goal with
    | H : parse_int64 _ = Some _ |- _ => apply Hint in H
    | H : parse_uint64 _ = Some _ |- _ => apply Huint in H
    end; rewrite ?Z.ltb_ge in *; lia.
Qed.

Lemma compareInt64_spec (a b : Z) :
  compareInt64 a b = if a <? b then -1 else if b <? a then 1 else 0.
Proof. done. Qed.

(** The comparison is the sign of the lexicographic comparison of
    positions. *)
Lemma CompareOffsets_cases (a b : string) :
  (offset_lt a b /\ CompareOffsets a b = -1) \/
  (position a = position b /\ CompareOffsets a b = 0) \/
  (offset_lt b a /\ CompareOffsets a b = 1).
Proof.
  unfold offset_lt, pos_lt, position, CompareOffsets.
  destruct (ParseOffset a) as [pa oka] eqn:Ea, (ParseOffset b) as [pb okb] eqn:Eb.
  destruct oka, okb;
    repeat match goal with H : ParseOffset _ = (_, true) |- _ => apply ParseOffset_ok in H end;
    destruct (off_kind pa) eqn:Ka; try done; try (destruct (off_kind pb) eqn:Kb; try done);
    unfold compareParsedOffsets, compareInt64; rewrite ?Ka, ?Kb; simpl;
    repeat match goal with
    | |- context [Z.ltb ?x ?y] => destruct (Z.ltb_spec x y); simpl
    | |- context [Z.eqb ?x ?y] => destruct (Z.eqb_spec x y); simpl
    end;
    first [ left; split; [lia|done] | right; left; split; [congruence|done]
          | right; left; split; [repeat (f_equal; try lia)|done]
          | right; right; split; [lia|done] | lia ].
Qed.

Lemma pos_lt_irrefl (a : Z * Z * Z) : ~ pos_lt a a.
Proof. destruct a as [[??]?]. unfold pos_lt. lia. Qed.

Lemma pos_lt_trans (a b c : Z * Z * Z) : pos_lt a b -> pos_lt b c -> pos_lt a c.
Proof. destruct a as [[??]?], b as [[??]?], c as [[??]?]. unfold pos_lt. lia. Qed.

Lemma pos_lt_total (a b : Z * Z * Z) : pos_lt a b \/ a = b \/ pos_lt b a.
Proof.
  destruct a as [[a0 a1] a2], b as [[b0 b1] b2]. unfold pos_lt.
  destruct (Z.lt_trichotomy a0 b0) as [?|[?|?]]; [lia| |lia].
  destruct (Z.lt_trichotomy a1 b1) as [?|[?|?]]; [lia| |lia].
  destruct (Z.lt_trichotomy a2 b2) as [?|[?|?]]; [lia| |lia].
  subst. auto.
Qed.

#[export] Instance offset_lt_strict : StrictOrder offset_lt.
Proof.
  split; unfold offset_lt.
  - intros a. apply pos_lt_irrefl.
  - intros a b c. apply pos_lt_trans.
Qed.

Lemma CompareOffsets_gt (a b : string) : CompareOffsets a b > 0 <-> offset_lt b a.
Proof.
  destruct (CompareOffsets_cases a b) as [[H ->]|[[H ->]|[H ->]]]; split; intros; try lia; try done.
  - exfalso. by eapply pos_lt_irrefl, pos_lt_trans.
  - exfalso. unfold offset_lt in *. rewrite H in *. by eapply pos_lt_irrefl.
Qed.

Lemma CompareOffsets_zero (a b : string) : CompareOffsets a b = 0 <-> position a = position b.
Proof.
  destruct (CompareOffsets_cases a b) as [[H ->]|[[H ->]|[H ->]]]; split; intros; try lia; try done;
    exfalso; unfold offset_lt in *; by match goal with E : position _ = position _ |- _ =>
      rewrite E in *; eapply pos_lt_irrefl end.
Qed.

Lemma offset_lt_asym (a b : string) : offset_lt a b -> ~ offset_lt b a.
Proof. unfold offset_lt. intros H1 H2. by eapply pos_lt_irrefl, pos_lt_trans. Qed.

Lemma CompareOffsets_neg (a b : string) : CompareOffsets b a = - CompareOffsets a b.
Proof.
  destruct (CompareOffsets_cases a b) as [[H ->]|[[H ->]|[H ->]]].
  - by destruct (CompareOffsets_cases b a) as [[H' ->]|[[H' ->]|[H' ->]]];
      [apply offset_lt_asym in H| |]; unfold offset_lt in *; rewrite ?H' in H;
      try apply pos_lt_irrefl in H.
  - symmetry in H. apply CompareOffsets_zero in H. lia.
  - destruct (CompareOffsets_cases b a) as [[H' ->]|[[H' ->]|[H' ->]]]; [done|..].
    + unfold offset_lt in H. rewrite H' in H. by apply pos_lt_irrefl in H.
    + by apply offset_lt_asym in H.
Qed.

Lemma offset_lt_or_le (a b : string) : offset_lt a b \/ offset_le b a.
Proof.
  unfold offset_le. destruct (pos_lt_total (position a) (position b)) as [H|[H|H]].
  - by left.
  - right. unfold offset_lt. rewrite H. apply pos_lt_irrefl.
  - right. intros Hn. by eapply pos_lt_irrefl, pos_lt_trans.
Qed.

Lemma offset_le_trans (a b c : string) : offset_le a b -> offset_le b c -> offset_le a c.
Proof.
  unfold offset_le. intros H1 H2 H3.
  destruct (pos_lt_total (position a) (position b)) as [H|[H|H]]; [..|done].
  - apply H2. unfold offset_lt in *. by eapply pos_lt_trans.
  - apply H2. unfold offset_lt in *. by rewrite <- H.
Qed.

Lemma offset_lt_le (a b : string) : offset_lt a b -> offset_le a b.
Proof. intros H Hn. by eapply pos_lt_irrefl, pos_lt_trans. Qed.

Lemma offset_le_refl (a : string) : offset_le a a.
Proof. apply pos_lt_irrefl. Qed.

#[export] Hint Resolve offset_lt_le offset_le_refl : go.

Lemma offset_le_lt_trans (a b c : string) : offset_le a b -> offset_lt b c -> offset_lt a c.
Proof.
  unfold offset_le, offset_lt. intros H1 H2.
  destruct (pos_lt_total (position a) (position b)) as [H|[H|H]]; [..|done].
  - by eapply pos_lt_trans.
  - by rewrite H.
Qed.

(** Nothing above an offset that parses fails to parse. *)
Lemma offset_ok_le (a b : string) : offset_ok a = true -> offset_le a b -> offset_ok b = true.
Proof.
  unfold offset_ok, offset_le, offset_lt, position. destruct (ParseOffset a) as [p oka] eqn:Ea. intros Hok. cbn [snd] in Hok. subst oka.
  destruct (ParseOffset b) as [q okb]. destruct okb; [done|]. intros Hn. exfalso. apply Hn.
  apply ParseOffset_ok in Ea. destruct (off_kind p) eqn:Ek; unfold pos_lt; try lia; exfalso; naive_solver.
Qed.

Lemma offset_pos_le_lt (a b c : Z * Z * Z) : pos_lt a b -> ~ pos_lt c b -> pos_lt a c.
Proof.
  intros H1 H2. destruct (pos_lt_total b c) as [H|[<-|H]]; [by eapply pos_lt_trans|done|done].
Qed.

Lemma position_lsn (l p : Z) :
  0 < l <= uint64_max -> 0 <= p <= int64_max -> position (FormatLSNOffset l p) = (3, l, p).
Proof. intros Hl Hp. unfold position. by rewrite parse_lsn. Qed.

Lemma position_sequence (n : Z) :
  0 <= n <= int64_max -> position (FormatSequenceOffset n) = (1, n, 0).
Proof. intros Hn. unfold position. by rewrite parse_sequence. Qed.

(** The position [NextGeneratedOffset] reaches. *)
Lemma position_next (o : string) (step : Z) :
  next_in_range o step = true ->
  position (NextGeneratedOffset o step) =
  match position o with
  | (3, l, p) => (3, l, p + step + 1)
  | (2, _, _) => (3, step + 1, 0)
  | (1, n, _) => (1, n + step + 1, 0)
  | _ => (1, step + 1, 0)
  end.
Proof.
  unfold next_in_range, NextGeneratedOffset, position at 2.
  destruct (ParseOffset o) as [p ok] eqn:E. destruct ok; simpl;
    rewrite !andb_true_iff, ?Z.leb_le; intros [[H0 H1] H2].
  - apply ParseOffset_ok in E. destruct (off_kind p) eqn:K; [done|..];
      rewrite ?andb_true_iff, ?Z.leb_le, ?Z.ltb_lt in H2.
    + rewrite wrap64_id by (unfold int64_min, int64_max in *; lia).
      rewrite position_sequence by (unfold int64_max in *; lia). done.
    + rewrite wrapu64_id by (unfold uint64_max, int64_max in *; lia).
      rewrite position_lsn; [done|unfold uint64_max, int64_max in *; lia..].
    + rewrite wrap64_id by (unfold int64_min, int64_max in *; lia).
      rewrite position_lsn; [done|unfold uint64_max, int64_max in *; lia..].
  - rewrite wrap64_id by (unfold int64_min, int64_max in *; lia).
    rewrite position_sequence by (unfold int64_max in *; lia). done.
Qed.

Lemma next_offset_lt (o : string) (step : Z) :
  next_in_range o step = true -> offset_lt o (NextGeneratedOffset o step).
Proof.
  intros H. unfold offset_lt. rewrite position_next by done.
  unfold next_in_range in H. unfold position. destruct (ParseOffset o) as [p ok] eqn:E.
  destruct ok; simpl; rewrite !andb_true_iff, ?Z.leb_le in H; destruct H as [[H0 H1] H2].
  - apply ParseOffset_ok in E. destruct (off_kind p); [done|..]; simpl; unfold pos_lt; lia.
  - unfold pos_lt. lia.
Qed.

(** * Properties *)

(** Every offset the program formats is read back as what it denotes: an
    LSN offset of a positive LSN parses to its two numbers, a sequence offset
    to its count, and neither is ever rejected. *)
Theorem offset_roundtrip (l p : Z) :
  0 < l <= uint64_max -> 0 <= p <= int64_max ->
  (exists po, ParseOffset (FormatLSNOffset l p) = (po, true) /\
     off_kind po = offsetLSN /\ off_lsn po = l /\ off_opPos po = p) /\
  (exists po, ParseOffset (FormatSequenceOffset p) = (po, true) /\
     off_kind po = offsetSequence /\ off_seq po = p) /\
  OffsetLSN (FormatLSNOffset l p) = Some (format_Z l).
Proof.
  intros Hl Hp. unfold OffsetLSN. rewrite parse_lsn, parse_sequence by done.
  split; [|split]; eauto.
Qed.

Lemma offset_roundtrip_witness :
  exists po, ParseOffset (FormatLSNOffset 18446744073709551615 7) = (po, true) /\
    off_kind po = offsetLSN /\ off_lsn po = 18446744073709551615 /\ off_opPos po = 7.
Proof.
  apply (offset_roundtrip 18446744073709551615 7); vm_compute; split; discriminate || reflexivity.
Defined.

(** C34. Comparing offsets is comparing positions in a total order: the sign of
    [CompareOffsets] decides the order, comparing the other way negates it,
    and the order is transitive. *)
Theorem compare_offsets_order (a b c : string) :
  (CompareOffsets a b < 0 <-> offset_lt a b) /\
  CompareOffsets b a = - CompareOffsets a b /\
  (CompareOffsets a b = 0 <-> position a = position b) /\
  (CompareOffsets a b <= 0 -> CompareOffsets b c <= 0 -> CompareOffsets a c <= 0).
Proof.
  assert (Hle : forall x y, CompareOffsets x y <= 0 <-> offset_le x y).
  { intros x y. unfold offset_le. rewrite <- CompareOffsets_gt. lia. }
  assert (Hsym : CompareOffsets b a = - CompareOffsets a b).
  { exact (CompareOffsets_neg a b). }
  split; [|split; [done|split; [apply CompareOffsets_zero|]]].
  - rewrite <- CompareOffsets_gt, Hsym. lia.
  - rewrite !Hle. apply offset_le_trans.
Qed.

(** C35. Generated offsets advance: the offset generated after [current] at
    step [i] is above [current] and above that of every earlier step, as long
    as the counters fit their 64 bits. *)
Theorem next_generated_offset_increases (current : string) (i j : Z) :
  next_in_range current i = true -> next_in_range current j = true -> i < j ->
  CompareOffsets (NextGeneratedOffset current i) current > 0 /\
  CompareOffsets (NextGeneratedOffset current j) (NextGeneratedOffset current i) > 0.
Proof.
  intros Hi Hj Hij. rewrite !CompareOffsets_gt. split; [by apply next_offset_lt|].
  unfold offset_lt. rewrite !position_next by done.
  destruct (position current) as [[k x] y]. unfold pos_lt.
  repeat match goal with
  | |- context [match ?v with _ => _ end] => is_var v; destruct v
  end; lia.
Qed.

Lemma next_generated_offset_increases_witness :
  CompareOffsets (NextGeneratedOffset "0_inf" 0) "0_inf" > 0 /\
  CompareOffsets (NextGeneratedOffset "0_inf" 3) (NextGeneratedOffset "0_inf" 0) > 0.
Proof. apply (next_generated_offset_increases "0_inf" 0 3); vm_compute; reflexivity. Defined.
