(* ===== verification/ShapeTypes.v ===== *)
(** The data of the shape engine: [src/internal/shapes/backend.go], the type
    declarations of [src/internal/shapes/manager.go], and the row keys of
    [src/internal/shapes/keys.go]. *)

From Stdlib Require Import Ascii String ZArith NArith Lia.
From S2P Require Import Prelude GoValue.

(** * Definitions *)

(** ** Data *)

(** A row maps a column to nil or to its text: the runtime reads every column
    cast to text, and stores nil for NULL. *)
Abbreviation Row := (gmap string (option string)).

(** [row[name]]: nil where the column is absent. *)
Definition row_get (row : Row) (name : string) : option string := mjoin (row !! name).

Record Relation : Type := mkRelation { rel_Schema : string; rel_Table : string }.

#[export] Instance Relation_eq_dec : EqDecision Relation.
Proof. solve_decision. Defined.

Definition zero_relation : Relation := mkRelation "" "".

Record ColumnSchema : Type := mkColumn {
  col_Type : string;
  col_NotNull : bool;
  col_PKIndex : option Z
}.

#[export] Instance ColumnSchema_eq_dec : EqDecision ColumnSchema.
Proof. solve_decision. Defined.

Abbreviation Schema := (gmap string ColumnSchema).

Record Message : Type := mkMessage {
  msg_Headers : gmap string any;
  msg_Key : string;
  msg_Value : Row;
  msg_OldValue : Row;
  msg_Offset : string;
  msg_InternalKey : string
}.

Record SnapshotMetadata : Type := mkMetadata {
  SnapshotMark : Z;
  DatabaseLSN : string;
  XMin : string;
  XMax : string;
  XIPList : option (list string)
}.

Record SnapshotResult : Type := mkSnapshot {
  snap_Schema : Schema;
  snap_Rows : list Row;
  snap_Metadata : option SnapshotMetadata
}.

Record Subset : Type := mkSubset {
  sub_Where : string;
  sub_Params : gmap string string;
  sub_Limit : option Z;
  sub_Offset : option Z;
  sub_OrderBy : string;
  sub_WhereExpr : string;
  sub_OrderByExpr : string
}.

Record Definition_ : Type := mkDefinition {
  def_Relation : Relation;
  def_Where : string;
  def_Params : gmap string string;
  def_Columns : list string;
  def_Replica : string;
  def_Log : string;
  def_Subset : option Subset
}.

(** Times are nanoseconds since the epoch. *)
Record State : Type := mkState {
  st_Handle : string;
  st_Hash : string;
  st_Definition : Definition_;
  st_Schema : Schema;
  st_Snapshot : list Message;
  st_Changes : list Message;
  st_Materialized : gmap string Row;
  st_CurrentOffset : string;
  st_LastAccess : Z;
  st_Generation : Z;
  st_Deleted : bool
}.

Record ChangeMetadata : Type := mkChangeMetadata {
  KeyRelation : Relation;
  CommitLSN : Z;
  TransactionID : Z;
  DependentRefresh : bool
}.

Definition zero_change_metadata : ChangeMetadata := mkChangeMetadata zero_relation 0 0 false.

(** ** Keys *)

Definition unit_sep : ascii := byte_of 31.
Definition internalKeySeparator : string := str1 unit_sep.

Definition RelationHeader (relation : Relation) : list string :=
  [rel_Schema relation; rel_Table relation].

Definition quoteIdentifier (value : string) : string :=
  str1 dquote +:+ replace_byte dquote (bytes [34; 34]%N) value +:+ str1 dquote.

Definition quoteKeyValue (value : string) : string :=
  str1 dquote +:+ replace_byte dquote (bytes [92; 34]%N) value +:+ str1 dquote.

Definition quoteQualifiedRelation (relation : Relation) : string :=
  quoteIdentifier (rel_Schema relation) +:+ "." +:+ quoteIdentifier (rel_Table relation).

(** The pairs the loop over the schema collects, for one order of the
    schema's columns. *)
Definition pk_pairs (columns : list (string * ColumnSchema)) (row : Row) : list (Z * string) :=
  omap (fun nc => idx ← col_PKIndex nc.2; Some (idx, default "" (row_get row nc.1))) columns.

Definition pair_le (p q : Z * string) : Prop := p.1 <= q.1.

#[export] Instance pair_le_dec : RelDecision pair_le.
Proof. intros p q. unfold pair_le. apply _. Defined.

(** Go walks the schema in an unspecified order and sorts the pairs by index;
    with distinct indices the result does not depend on the order
    ([primaryKeyValues_order]). *)
Definition primaryKeyValues (schema : Schema) (row : Row) : list string :=
  (merge_sort pair_le (pk_pairs (map_to_list schema) row)).*2.

Definition MessageKey (relation : Relation) (schema : Schema) (row : Row) : string :=
  match primaryKeyValues schema row with
  | [] => ""
  | values => join "/" (quoteQualifiedRelation relation :: map quoteKeyValue values)
  end.

Definition PrimaryKeySignature (schema : Schema) (row : Row) : string :=
  match primaryKeyValues schema row with
  | [] => ""
  | values => join internalKeySeparator values
  end.

(** The key columns of a schema carry distinct indices. *)
Definition pk_distinct (schema : Schema) : Prop :=
  NoDup (omap (fun nc => col_PKIndex nc.2) (map_to_list schema)).

(** Two rows agree on the key columns. *)
Definition same_key (schema : Schema) (r1 r2 : Row) : Prop :=
  forall name c, schema !! name = Some c -> col_PKIndex c <> None ->
  default "" (row_get r1 name) = default "" (row_get r2 name).

(** No key value holds the separator. *)
Definition key_separable (schema : Schema) (row : Row) : Prop :=
  Forall (fun v => contains_byte unit_sep v = false) (primaryKeyValues schema row).

(** * Lemmas *)

#[export] Instance pair_le_total : Total pair_le.
Proof. intros [x ?] [y ?]. unfold pair_le. simpl. lia. Qed.

#[export] Instance pair_le_trans : Transitive pair_le.
Proof. intros [x ?] [y ?] [z ?]. unfold pair_le. simpl. lia. Qed.

Lemma pk_pairs_fst (l : list (string * ColumnSchema)) (row : Row) :
  (pk_pairs l row).*1 = omap (fun nc => col_PKIndex nc.2) l.
Proof.
  unfold pk_pairs. induction l as [|[n c] l IH]; [done|]. cbn.
  destruct (col_PKIndex c); cbn; [f_equal|]; exact IH.
Qed.

#[export] Instance pk_pairs_proper : Proper ((≡ₚ) ==> eq ==> (≡ₚ)) pk_pairs.
Proof. intros l1 l2 Hp row ? <-. unfold pk_pairs. by rewrite Hp. Qed.

(** A list of pairs with distinct indices has one sorted arrangement. *)
Lemma pair_sorted_unique (l1 l2 : list (Z * string)) :
  NoDup l1.*1 -> l1 ≡ₚ l2 -> merge_sort pair_le l1 = merge_sort pair_le l2.
Proof.
  intros Hd Hp. apply (StronglySorted_unique_strong pair_le);
    try apply (StronglySorted_merge_sort pair_le).
  - intros [i v] [j w] Hi Hj H1 H2. rewrite merge_sort_Permutation in Hi.
    rewrite merge_sort_Permutation, <- Hp in Hj. unfold pair_le in *. simpl in *.
    assert (i = j) as -> by lia.
    apply (list_elem_of_lookup_1 l1) in Hi as [a Ha]; apply list_elem_of_lookup_1 in Hj as [b Hb].
    assert (a = b) as ->; [|by rewrite Ha in Hb; injection Hb as ->].
    eapply (NoDup_lookup l1.*1); [done| |]; rewrite list_lookup_fmap; [by rewrite Ha|by rewrite Hb].
  - by rewrite !merge_sort_Permutation.
Qed.

Lemma elem_of_pk_pairs (schema : Schema) (row : Row) (i : Z) (v : string) :
  (i, v) ∈ pk_pairs (map_to_list schema) row <->
  exists name c, schema !! name = Some c /\ col_PKIndex c = Some i /\ v = default "" (row_get row name).
Proof.
  unfold pk_pairs. rewrite list_elem_of_omap. split.
  - intros ([n c] & Hin & He). apply elem_of_map_to_list in Hin. simpl in He.
    destruct (col_PKIndex c) eqn:Ei; [|done]. simpl in He. inv_all. eauto.
  - intros (n & c & Hs & Hi & ->). exists (n, c). split; [by apply elem_of_map_to_list|].
    simpl. by rewrite Hi.
Qed.

Lemma NoDup_fst_inj {A} (l : list (Z * A)) (i : Z) (v w : A) :
  NoDup l.*1 -> (i, v) ∈ l -> (i, w) ∈ l -> v = w.
Proof.
  intros Hd [a Ha]%list_elem_of_lookup_1 [b Hb]%list_elem_of_lookup_1.
  assert (a = b) as ->; [|by rewrite Ha in Hb; injection Hb as ->].
  eapply (NoDup_lookup l.*1); [done| |]; rewrite list_lookup_fmap; [by rewrite Ha|by rewrite Hb].
Qed.

Lemma pair_list_eq {A B} (l1 l2 : list (A * B)) : l1.*1 = l2.*1 -> l1.*2 = l2.*2 -> l1 = l2.
Proof.
  revert l2. induction l1 as [|[a b] l1 IH]; intros [|[a' b'] l2] H1 H2; try done.
  injection H1 as -> H1. injection H2 as -> H2. f_equal. auto.
Qed.

(** The indices come out in order whatever the values are. *)
Lemma sorted_fst_unique (l1 l2 : list (Z * string)) :
  l1.*1 ≡ₚ l2.*1 -> (merge_sort pair_le l1).*1 = (merge_sort pair_le l2).*1.
Proof.
  intros Hp. apply (StronglySorted_unique Z.le).
  - apply (StronglySorted_fmap fst pair_le Z.le); [done|]. apply (StronglySorted_merge_sort pair_le).
  - apply (StronglySorted_fmap fst pair_le Z.le); [done|]. apply (StronglySorted_merge_sort pair_le).
  - by rewrite !merge_sort_Permutation.
Qed.

Lemma primaryKeyValues_length (schema : Schema) (r1 r2 : Row) :
  length (primaryKeyValues schema r1) = length (primaryKeyValues schema r2).
Proof.
  unfold primaryKeyValues. rewrite !length_fmap, !merge_sort_Permutation.
  rewrite <- (length_fmap fst), pk_pairs_fst, <- (pk_pairs_fst _ r2). by rewrite length_fmap.
Qed.

Lemma primaryKeyValues_same (schema : Schema) (r1 r2 : Row) :
  pk_distinct schema ->
  primaryKeyValues schema r1 = primaryKeyValues schema r2 <-> same_key schema r1 r2.
Proof.
  intros Hd. split.
  - intros Hv. set (l := map_to_list schema) in *.
    assert (Hs : merge_sort pair_le (pk_pairs l r1) = merge_sort pair_le (pk_pairs l r2)).
    { apply pair_list_eq; [|exact Hv]. apply sorted_fst_unique. by rewrite !pk_pairs_fst. }
    assert (Hp : pk_pairs l r1 ≡ₚ pk_pairs l r2)
      by (by rewrite <- (merge_sort_Permutation pair_le (pk_pairs l r1)), Hs, merge_sort_Permutation).
    intros name c Hc Hi. destruct (col_PKIndex c) as [i|] eqn:Ei; [|done].
    apply (NoDup_fst_inj (pk_pairs l r2) i).
    + unfold l. by rewrite pk_pairs_fst.
    + rewrite <- Hp. apply elem_of_pk_pairs. eauto.
    + apply elem_of_pk_pairs. eauto.
  - intros Hk. unfold primaryKeyValues. f_equal. f_equal. unfold pk_pairs.
    apply list_omap_ext, Forall2_same_length_lookup_2; [done|].
    intros i [n c] [n' c'] H1 H2. rewrite H1 in H2. injection H2 as <- <-. simpl.
    destruct (col_PKIndex c) eqn:Ei; [|done]. simpl.
    apply list_elem_of_lookup_2 in H1. apply elem_of_map_to_list in H1.
    by rewrite (Hk _ _ H1) by congruence.
Qed.

Lemma signature_values (schema : Schema) (r1 r2 : Row) :
  key_separable schema r1 -> key_separable schema r2 ->
  PrimaryKeySignature schema r1 = PrimaryKeySignature schema r2 <->
  primaryKeyValues schema r1 = primaryKeyValues schema r2.
Proof.
  intros H1 H2. pose proof (primaryKeyValues_length schema r1 r2) as Hl.
  unfold PrimaryKeySignature, key_separable in *.
  destruct (primaryKeyValues schema r1) as [|v1 l1], (primaryKeyValues schema r2) as [|v2 l2]; try done.
  split; [|by intros ->]. intros Hj. by apply (join_inj unit_sep) in Hj.
Qed.

(** * Properties *)

(** The key values of a row do not depend on the order in which Go walks
    the schema: every order of the columns gives the values in key order, as
    long as the columns' key indices are distinct. *)
Theorem primaryKeyValues_order (schema : Schema) (row : Row) (l : list (string * ColumnSchema)) :
  pk_distinct schema -> l ≡ₚ map_to_list schema ->
  (merge_sort pair_le (pk_pairs l row)).*2 = primaryKeyValues schema row.
Proof.
  intros Hd Hp. unfold primaryKeyValues. f_equal. apply pair_sorted_unique.
  - rewrite pk_pairs_fst, Hp. exact Hd.
  - by rewrite Hp.
Qed.

Definition demo_schema : Schema :=
  list_to_map [("b", mkColumn "text" true (Some 0)); ("a", mkColumn "int4" true (Some 1));
               ("v", mkColumn "text" false None)].

Definition demo_row (a b v : string) : Row :=
  <["a" := Some a]> (<["b" := Some b]> {["v" := Some v]}).

Lemma demo_pk_distinct : pk_distinct demo_schema.
Proof. unfold pk_distinct. apply (bool_decide_unpack _). vm_compute. exact I. Qed.

Lemma primaryKeyValues_order_witness :
  primaryKeyValues demo_schema (demo_row "1" "x" "p") =
    (merge_sort pair_le (pk_pairs (reverse (map_to_list demo_schema)) (demo_row "1" "x" "p"))).*2 /\
  primaryKeyValues demo_schema (demo_row "1" "x" "p") = ["x"; "1"].
Proof.
  split; [|reflexivity]. symmetry.
  apply (primaryKeyValues_order demo_schema (demo_row "1" "x" "p")); [exact demo_pk_distinct|].
  apply reverse_Permutation.
Defined.

(** The internal key identifies a row: two rows of a schema have the same
    signature exactly when they agree on every primary key column, as long as
    no key value contains the separator byte. *)
Theorem signature_identifies_row (schema : Schema) (r1 r2 : Row) :
  pk_distinct schema -> key_separable schema r1 -> key_separable schema r2 ->
  PrimaryKeySignature schema r1 = PrimaryKeySignature schema r2 <-> same_key schema r1 r2.
Proof.
  intros Hd H1 H2. rewrite signature_values by done. by apply primaryKeyValues_same.
Qed.

Lemma signature_identifies_row_witness :
  PrimaryKeySignature demo_schema (demo_row "1" "x" "p") =
  PrimaryKeySignature demo_schema (demo_row "1" "x" "q").
Proof.
  apply (signature_identifies_row demo_schema (demo_row "1" "x" "p") (demo_row "1" "x" "q")).
  - exact demo_pk_distinct.
  - repeat constructor.
  - repeat constructor.
  - intros name c Hs Hi. unfold row_get, demo_row.
    destruct (decide (name = "v")) as [->|Hv].
    + vm_compute in Hs. injection Hs as <-. done.
    + rewrite !lookup_insert. repeat case_decide; try done. by rewrite !lookup_singleton_ne.
Defined.
