(* ===== verification/Diff.v ===== *)
(** Messages of a shape: the second half of [src/internal/shapes/manager.go].

    How rows become snapshot messages, how two materialized states are diffed
    into insert, update and delete messages, how messages of a dependent shape
    are tagged, and how a batch of messages receives its offsets.  Copies made
    by the clone functions are values here: the code never mutates a map it
    has shared. *)

From Stdlib Require Import Ascii String ZArith NArith Lia.
From S2P Require Import Prelude GoValue Crypto SqlInspect Offset ShapeTypes.

(** * Definitions *)

(** ** Clones *)

(** [cloned := make(map); for k, v := range m { cloned[k] = v }]. *)
Definition copy_map {A} (m : gmap string A) : gmap string A := list_to_map (map_to_list m).

Definition cloneSchema (schema : Schema) : Schema := copy_map schema.
Definition cloneRow (row : Row) : Row := copy_map row.
Definition cloneMaterialized (m : gmap string Row) : gmap string Row := cloneRow <$> copy_map m.

Definition cloneMessage (m : Message) : Message :=
  mkMessage (copy_map (msg_Headers m)) (msg_Key m) (cloneRow (msg_Value m))
    (cloneRow (msg_OldValue m)) (msg_Offset m) (msg_InternalKey m).

Definition cloneMessages (l : list Message) : list Message := map cloneMessage l.

(** ** Headers *)

(** [v, _ := message.Headers[key].(string)]. *)
Definition header_string (m : Message) (key : string) : string :=
  match msg_Headers m !! key with Some (AString s) => s | _ => "" end.

Definition set_header (key : string) (v : any) (m : Message) : Message :=
  mkMessage (<[key := v]> (msg_Headers m)) (msg_Key m) (msg_Value m) (msg_OldValue m)
    (msg_Offset m) (msg_InternalKey m).

Definition set_offset (o : string) (m : Message) : Message :=
  mkMessage (msg_Headers m) (msg_Key m) (msg_Value m) (msg_OldValue m) o (msg_InternalKey m).

Definition operation_headers (operation : string) (relation : Relation) : gmap string any :=
  <["operation" := AString operation]> {["relation" := AStrings (RelationHeader relation)]}.

(** ** Snapshots *)

Definition snapshotMessage (def : Definition_) (schema : Schema) (row : Row) : Message :=
  mkMessage (operation_headers "insert" (def_Relation def))
    (MessageKey (def_Relation def) schema row) (cloneRow row) ∅ ""
    (PrimaryKeySignature schema row).

Definition buildSnapshotMessages (def : Definition_) (snapshot : SnapshotResult) : list Message :=
  if decide (def_Log def = "changes_only") then []
  else map (snapshotMessage def (snap_Schema snapshot)) (snap_Rows snapshot).

Definition materializedRows (schema : Schema) (rows : list Row) : gmap string Row :=
  fold_left (fun m row => <[PrimaryKeySignature schema row := cloneRow row]> m) rows ∅.

(** ** Tags of dependent shapes *)

Definition definitionHasDependencyKeyword (def : Definition_) : bool :=
  if ContainsDependencyKeyword (def_Where def) then true
  else match def_Subset def with
       | None => false
       | Some s =>
           ContainsDependencyKeyword (sub_Where s) ||
           ContainsDependencyKeyword (sub_WhereExpr s) ||
           ContainsDependencyKeyword (sub_OrderBy s) ||
           ContainsDependencyKeyword (sub_OrderByExpr s)
       end.

Definition pipe : ascii := byte_of 124.
Definition equals : ascii := byte_of 61.

Definition dependentTagValue (internalKey : string) : string :=
  if decide (internalKey = "") then ""
  else if negb (contains_byte pipe internalKey) then
    match cut_byte equals internalKey with
    | Some (_, value) => value
    | None => internalKey
    end
  else internalKey.

Definition dependentTag (handle internalKey : string) : string :=
  md5_hex (handle +:+ "v:" +:+ dependentTagValue internalKey).

Definition addDependentTag (handle : string) (m : Message) : Message :=
  if decide (msg_InternalKey m = "") then m
  else set_header "tags" (AStrings [dependentTag handle (msg_InternalKey m)]) m.

Definition dependentMoveOutMessage (handle internalKey : string) : Message :=
  mkMessage
    (<["event" := AString "move-out"]>
      {["patterns" := AMaps [[("pos", AInt 0); ("value", AString (dependentTag handle internalKey))]]]})
    "" ∅ ∅ "" internalKey.

Definition decorateDependentSnapshotMessages (handle : string) (def : Definition_)
    (messages : list Message) : list Message :=
  if negb (definitionHasDependencyKeyword def) then messages
  else map (addDependentTag handle) messages.

(** The control message that closes a batch with a move-in. *)
Definition moveInSnapshotEnd : Message :=
  mkMessage
    (<["control" := AString "snapshot-end"]> (<["xmin" := AString "0"]>
      (<["xmax" := AString "0"]> {["xip_list" := AStrings []]}))) "" ∅ ∅ "" "".

(** One iteration of the loop over the messages: the message emitted, and
    whether it moves a row in. *)
Definition decorateOne (handle : string) (related : bool) (m0 : Message) : Message * bool :=
  let m := cloneMessage m0 in
  let operation := header_string m "operation" in
  if related && bool_decide (operation = "delete") then
    (dependentMoveOutMessage handle (msg_InternalKey m), false)
  else
    let m := addDependentTag handle m in
    if related && bool_decide (operation = "insert") then
      (set_header "is_move_in" (ABool true) m, true)
    else (m, false).

Definition relatedRelationChanged (def : Definition_) (metadata : ChangeMetadata) : bool :=
  negb (bool_decide (KeyRelation metadata = zero_relation)) &&
  negb (bool_decide (KeyRelation metadata = def_Relation def)).

Definition decorateDependentRefreshMessages (handle : string) (def : Definition_)
    (messages : list Message) (metadata : ChangeMetadata) : list Message :=
  if negb (definitionHasDependencyKeyword def) then messages
  else
    let out := map (decorateOne handle (relatedRelationChanged def metadata)) messages in
    if existsb snd out then out.*1 ++ [moveInSnapshotEnd] else out.*1.

(** ** Row differences *)

Definition is_pk (schema : Schema) (name : string) : bool :=
  match schema !! name with
  | Some c => match col_PKIndex c with Some _ => true | None => false end
  | None => false
  end.

(** The key columns the row has. *)
Definition primaryKeyRow (schema : Schema) (row : Row) : Row :=
  filter (fun nv => is_pk schema nv.1 = true) row.

Definition changedColumns (oldRow newRow : Row) : gset string :=
  dom (filter (fun nv => row_get oldRow nv.1 <> nv.2) newRow) ∪
  dom (filter (fun nv => newRow !! nv.1 = None) oldRow).

(** (value, oldValue), or [None] for [changed = false]. *)
Definition updateValues (def : Definition_) (schema : Schema) (oldRow newRow : Row) : option (Row * Row) :=
  let changed := changedColumns oldRow newRow in
  if decide (changed = ∅) then None
  else if decide (def_Replica def = "full") then
    Some (cloneRow newRow, filter (fun nv => nv.1 ∈ changed) oldRow)
  else
    Some (set_to_map (fun name => (name, row_get newRow name)) changed ∪ primaryKeyRow schema newRow, ∅).

Definition deleteValue (def : Definition_) (schema : Schema) (row : Row) : Row :=
  if decide (def_Replica def = "full") then cloneRow row else primaryKeyRow schema row.

Definition diff_keys (previous current : gmap string Row) : list string :=
  sort_strings ((map_to_list previous).*1 ++
    filter (fun k => previous !! k = None) (map_to_list current).*1).

(** The body of the loop over the keys. *)
Definition diffKey (def : Definition_) (schema : Schema) (previous current : gmap string Row)
    (keyRelation : Relation) (key : string) : option Message :=
  match previous !! key, current !! key with
  | None, Some newRow =>
      Some (mkMessage (operation_headers "insert" (def_Relation def))
              (MessageKey keyRelation schema newRow) (cloneRow newRow) ∅ "" key)
  | Some oldRow, None =>
      Some (mkMessage (operation_headers "delete" (def_Relation def))
              (MessageKey keyRelation schema oldRow) (deleteValue def schema oldRow) ∅ "" key)
  | Some oldRow, Some newRow =>
      if decide (oldRow = newRow) then None
      else match updateValues def schema oldRow newRow with
           | None => None
           | Some (value, oldValue) =>
               Some (mkMessage (operation_headers "update" (def_Relation def))
                       (MessageKey keyRelation schema newRow) value oldValue "" key)
           end
  | None, None => None
  end.

Definition diffRows (def : Definition_) (schema : Schema) (previous current : gmap string Row)
    (keyRelation : Relation) : list Message :=
  omap (diffKey def schema previous current keyRelation) (diff_keys previous current).

(** ** Applying a message to the materialized rows *)

Definition applyMessageToMaterialized (materialized : gmap string Row) (m : Message) : gmap string Row :=
  let operation := header_string m "operation" in
  let key := if decide (msg_InternalKey m = "") then msg_Key m else msg_InternalKey m in
  if decide (operation = "delete") then delete key materialized
  else if decide (operation = "insert" \/ operation = "update") then
    <[key := cloneRow (msg_Value m)]> materialized
  else materialized.

(** ** Targeted refreshes *)

Definition targetedKeySet (schema : Schema) (keyRows rows : list Row) : gset string :=
  list_to_set (filter (fun k => k <> "") (map (PrimaryKeySignature schema) (keyRows ++ rows))).

Definition subsetRows (rows : gmap string Row) (keys : gset string) : gmap string Row :=
  cloneRow <$> filter (fun kr => kr.1 ∈ keys) rows.

Definition relationKey (relation : Relation) : string :=
  rel_Schema relation +:+ "." +:+ rel_Table relation.

(** ** Offsets and wire format *)

(** The message at [index] of a batch. *)
Definition applyChangeOffset (currentOffset : string) (metadata : ChangeMetadata)
    (index : nat) (m : Message) : Message :=
  if 0 <? CommitLSN metadata then
    let m := set_offset (FormatLSNOffset (CommitLSN metadata) (Z.of_nat index)) m in
    if DependentRefresh metadata then m
    else set_header "txids" (AUint32s [TransactionID metadata])
           (set_header "op_position" (AInt (Z.of_nat index))
             (set_header "lsn" (AString (format_Z (CommitLSN metadata))) m))
  else if decide (msg_Offset m = "") then
    set_offset (NextGeneratedOffset currentOffset (Z.of_nat index)) m
  else m.

(** [messages[len(messages)-1].Headers["last"] = true]. *)
Fixpoint mark_last (l : list Message) : list Message :=
  match l with
  | [] => []
  | [m] => [set_header "last" (ABool true) m]
  | m :: l' => m :: mark_last l'
  end.

(** The rewritten messages and the new current offset. *)
Definition applyChangeOffsets (currentOffset : string) (messages : list Message)
    (metadata : ChangeMetadata) : list Message * string :=
  let messages := imap (applyChangeOffset currentOffset metadata) messages in
  match last messages with
  | None => (messages, currentOffset)
  | Some _ =>
      let messages :=
        if (0 <? CommitLSN metadata) && negb (DependentRefresh metadata)
        then mark_last messages else messages in
      (messages, default currentOffset (msg_Offset <$> last messages))
  end.

Definition wire_value (schema : Schema) (name : string) (value : option string) : option string :=
  match schema !! name, value with
  | Some column, Some s =>
      if decide (col_Type column = "bool") then
        if decide (s = "true") then Some "t"
        else if decide (s = "false") then Some "f"
        else Some s
      else Some s
  | _, _ => value
  end.

Definition applyLiveWireFormatRow (schema : Schema) (row : Row) : Row :=
  map_imap (fun name value => Some (wire_value schema name value)) row.

Definition wire_message (schema : Schema) (m : Message) : Message :=
  mkMessage (msg_Headers m) (msg_Key m) (applyLiveWireFormatRow schema (msg_Value m))
    (applyLiveWireFormatRow schema (msg_OldValue m)) (msg_Offset m) (msg_InternalKey m).

Definition applyLiveWireFormat (schema : Schema) (messages : list Message) : list Message :=
  map (wire_message schema) messages.

(** ** What a client does with a message

    The protocol's side of the contract: an insert or a full update replaces
    the row, any other update changes the columns it carries, a delete or a
    move-out removes the row, and a control message does nothing. *)
Definition client_row (replica : string) (m : Message) (old : option Row) : option Row :=
  let operation := header_string m "operation" in
  if decide (operation = "insert") then Some (msg_Value m)
  else if decide (operation = "update") then
    if decide (replica = "full") then Some (msg_Value m)
    else Some (msg_Value m ∪ default ∅ old)
  else if decide (operation = "delete" \/ header_string m "event" = "move-out") then None
  else old.

Definition client_apply (replica : string) (view : gmap string Row) (m : Message) : gmap string Row :=
  partial_alter (client_row replica m) (msg_InternalKey m) view.

Definition replay (replica : string) (view : gmap string Row) (l : list Message) : gmap string Row :=
  fold_left (client_apply replica) l view.

(** Rows that stay in a shape keep their columns. *)
Definition same_columns (previous current : gmap string Row) : Prop :=
  forall k r1 r2, previous !! k = Some r1 -> current !! k = Some r2 -> dom r1 = dom r2.

(** Two messages have the same effect on a client. *)
Definition same_effect (m m' : Message) : Prop :=
  msg_InternalKey m = msg_InternalKey m' /\
  forall replica old, client_row replica m old = client_row replica m' old.

(** A message that changes a row, as [diffRows] builds them. *)
Definition row_message (m : Message) : Prop :=
  header_string m "operation" ∈ ["insert"; "update"; "delete"].

(** The offset [applyChangeOffsets] gives the message at [i]. *)
Definition batch_offset (currentOffset : string) (metadata : ChangeMetadata) (i : nat) : string :=
  if 0 <? CommitLSN metadata then FormatLSNOffset (CommitLSN metadata) (Z.of_nat i)
  else NextGeneratedOffset currentOffset (Z.of_nat i).

(** A batch of [n] messages starts above the current offset and its counters
    fit their widths. *)
Definition batch_in_range (currentOffset : string) (metadata : ChangeMetadata) (n : nat) : bool :=
  (Z.of_nat n <=? int64_max) &&
  if 0 <? CommitLSN metadata then
    (CommitLSN metadata <=? uint64_max) &&
    bool_decide (CompareOffsets (FormatLSNOffset (CommitLSN metadata) 0) currentOffset > 0)
  else next_in_range currentOffset (Z.of_nat (pred n)).

(** The rows of a view as the live wire format writes them. *)
Definition wire_rows (schema : Schema) (view : gmap string Row) : gmap string Row :=
  applyLiveWireFormatRow schema <$> view.

(** Two views that differ at most in the spelling of booleans. *)
Definition wire_equiv (schema : Schema) (v1 v2 : gmap string Row) : Prop :=
  wire_rows schema v1 = wire_rows schema v2.

(** * Lemmas *)

(** ** Copies are the value they copy *)

Lemma copy_map_id {A} (m : gmap string A) : copy_map m = m.
Proof. apply list_to_map_to_list. Qed.

Lemma cloneRow_id (row : Row) : cloneRow row = row.
Proof. apply copy_map_id. Qed.

Lemma cloneSchema_id (schema : Schema) : cloneSchema schema = schema.
Proof. apply copy_map_id. Qed.

Lemma cloneMaterialized_id (m : gmap string Row) : cloneMaterialized m = m.
Proof.
  unfold cloneMaterialized. rewrite copy_map_id. apply map_eq. intros i.
  rewrite lookup_fmap. destruct (m !! i); simpl; by rewrite ?cloneRow_id.
Qed.

Lemma cloneMessage_id (m : Message) : cloneMessage m = m.
Proof. unfold cloneMessage. rewrite !cloneRow_id, copy_map_id. by destruct m. Qed.

Lemma cloneMessages_id (l : list Message) : cloneMessages l = l.
Proof.
  unfold cloneMessages. induction l as [|m l IH]; [done|]. simpl. by rewrite cloneMessage_id, IH.
Qed.

Lemma cloneMessages_id_map (l : list Message) : map cloneMessage l = l.
Proof. apply cloneMessages_id. Qed.

Lemma subsetRows_filter (rows : gmap string Row) (keys : gset string) :
  subsetRows rows keys = filter (fun kr => kr.1 ∈ keys) rows.
Proof.
  unfold subsetRows. apply map_eq. intros i. rewrite lookup_fmap.
  destruct (filter _ rows !! i); simpl; by rewrite ?cloneRow_id.
Qed.

#[export] Hint Rewrite @copy_map_id cloneRow_id cloneSchema_id cloneMaterialized_id cloneMessage_id
  cloneMessages_id subsetRows_filter : go.

(** ** Headers *)

Lemma header_operation (op : string) (r : Relation) (k : string) (v o : Row) (off ik : string) :
  header_string (mkMessage (operation_headers op r) k v o off ik) "operation" = op.
Proof. unfold header_string, operation_headers. simpl. by rewrite lookup_insert_eq. Qed.

Lemma header_set_ne (k k' : string) (v : any) (m : Message) :
  k <> k' -> header_string (set_header k v m) k' = header_string m k'.
Proof. intros Hk. unfold header_string, set_header. simpl. by rewrite lookup_insert_ne. Qed.

#[export] Hint Rewrite header_operation : go.

(** ** Same effect *)

#[export] Instance same_effect_equiv : Equivalence same_effect.
Proof.
  split.
  - intros m. done.
  - intros m1 m2 [H1 H2]. split; intros; by rewrite ?H1, ?H2.
  - intros m1 m2 m3 [H1 H2] [H3 H4]. split; intros; by rewrite ?H1, ?H3, ?H2, ?H4.
Qed.

Lemma same_effect_set_header (k : string) (v : any) (m : Message) :
  k <> "operation" -> k <> "event" -> same_effect (set_header k v m) m.
Proof.
  intros H1 H2. split; [done|]. intros replica old. unfold client_row.
  by rewrite !header_set_ne by done.
Qed.

Lemma same_effect_set_offset (o : string) (m : Message) : same_effect (set_offset o m) m.
Proof. done. Qed.

Lemma replay_app (replica : string) (view : gmap string Row) (l1 l2 : list Message) :
  replay replica view (l1 ++ l2) = replay replica (replay replica view l1) l2.
Proof. unfold replay. apply fold_left_app. Qed.

Lemma replay_same_effect (replica : string) (view : gmap string Row) (l1 l2 : list Message) :
  Forall2 same_effect l1 l2 -> replay replica view l1 = replay replica view l2.
Proof.
  intros H. revert view. induction H as [|m1 m2 l1 l2 [Hk He] _ IH]; intros view; [done|].
  unfold replay in *. simpl. rewrite IH. f_equal. unfold client_apply. rewrite Hk.
  apply partial_alter_ext. intros. apply He.
Qed.

(** ** Changed columns *)

Lemma elem_of_changedColumns (oldRow newRow : Row) (name : string) :
  dom oldRow = dom newRow ->
  name ∈ changedColumns oldRow newRow <-> oldRow !! name <> newRow !! name.
Proof.
  intros Hd. unfold changedColumns. rewrite elem_of_union, !elem_of_dom.
  assert (Hsome : is_Some (oldRow !! name) <-> is_Some (newRow !! name))
    by (by rewrite <- !elem_of_dom, Hd).
  unfold is_Some in *. setoid_rewrite map_lookup_filter_Some. simpl. unfold row_get.
  destruct (oldRow !! name) as [v|] eqn:Eo, (newRow !! name) as [w|] eqn:En; simpl in *.
  - split.
    + intros [(x & Hx & Hn)|(x & Hx & Hn)]; [congruence|done].
    + intros Hn. left. exists w. split; congruence.
  - destruct Hsome as [H _]. by destruct H as [? ?]; eauto.
  - destruct Hsome as [_ H]. by destruct H as [? ?]; eauto.
  - split; [|done]. by intros [(x & Hx & _)|(x & Hx & _)].
Qed.

Lemma changedColumns_empty (oldRow newRow : Row) :
  dom oldRow = dom newRow -> changedColumns oldRow newRow = ∅ -> oldRow = newRow.
Proof.
  intros Hd He. apply map_eq. intros name.
  destruct (decide (oldRow !! name = newRow !! name)) as [|Hn]; [done|].
  apply elem_of_changedColumns in Hn; [|done]. rewrite He in Hn. set_solver.
Qed.

Lemma lookup_primaryKeyRow (schema : Schema) (row : Row) (name : string) :
  primaryKeyRow schema row !! name = if is_pk schema name then row !! name else None.
Proof.
  unfold primaryKeyRow. rewrite map_lookup_filter. destruct (row !! name); simpl.
  - destruct (is_pk schema name); [by rewrite option_guard_True|by rewrite option_guard_False].
  - by destruct (is_pk schema name).
Qed.

(** What an update message of the default mode carries: the changed columns
    and the key columns, with their new values, and nothing else. *)
Lemma lookup_update_value (schema : Schema) (oldRow newRow : Row) (name : string) :
  dom oldRow = dom newRow ->
  (set_to_map (fun n => (n, row_get newRow n)) (changedColumns oldRow newRow) ∪
    primaryKeyRow schema newRow : Row) !! name =
  if decide (oldRow !! name <> newRow !! name \/ is_pk schema name = true) then newRow !! name else None.
Proof.
  intros Hd. rewrite lookup_union, lookup_primaryKeyRow.
  pose proof (elem_of_changedColumns _ _ name Hd) as Hc.
  assert (Hs : (set_to_map (fun n => (n, row_get newRow n)) (changedColumns oldRow newRow) : Row) !! name =
    if decide (name ∈ changedColumns oldRow newRow) then Some (row_get newRow name) else None).
  { case_decide as Hin.
    - apply lookup_set_to_map; [by intros ????; simpl|]. eauto.
    - apply eq_None_not_Some. intros [v Hv]. apply lookup_set_to_map in Hv as (y & Hy & He); [|by intros ????; simpl].
      by simplify_eq. }
  rewrite Hs. destruct (decide (name ∈ changedColumns oldRow newRow)) as [Hin|Hin].
  - rewrite decide_True by (left; by apply Hc). rewrite union_Some_l. unfold row_get.
    apply Hc in Hin. destruct (newRow !! name) as [v|] eqn:E; [done|]. exfalso.
    assert (is_Some (oldRow !! name)) as [w Hw] by (destruct (oldRow !! name); [eauto|done]).
    assert (name ∈ dom newRow) as Hx by (rewrite <- Hd; by apply elem_of_dom).
    apply elem_of_dom in Hx as [??]. congruence.
  - rewrite (left_id None (∪)). destruct (is_pk schema name) eqn:Ep; case_decide as Hx; try done.
    + exfalso. apply Hx. by right.
    + exfalso. destruct Hx as [Hx|]; [|done]. by apply Hc in Hx.
Qed.

(** ** One key of a diff *)

Lemma diffKey_None (def : Definition_) (schema : Schema) (previous current : gmap string Row) (r : Relation) (k : string) :
  same_columns previous current ->
  diffKey def schema previous current r k = None <-> previous !! k = current !! k.
Proof.
  intros Hc. unfold diffKey, updateValues.
  destruct (previous !! k) as [o|] eqn:Eo, (current !! k) as [n|] eqn:En; try done.
  destruct (decide (o = n)) as [->|Hne]; [done|].
  rewrite decide_False; [|intros He; apply Hne, changedColumns_empty; [by eapply Hc|done]].
  split; [by case_decide|congruence].
Qed.

Lemma diffKey_key (def : Definition_) (schema : Schema) (previous current : gmap string Row) (r : Relation)
    (k : string) (m : Message) :
  diffKey def schema previous current r k = Some m -> msg_InternalKey m = k /\ msg_Offset m = "" /\ row_message m.
Proof.
  unfold diffKey, row_message. intros H. repeat case_match; inv_all; simpl; autorewrite with go;
    (split_and!; [done|done|]); repeat constructor.
Qed.

Lemma client_row_insert (replica : string) (m : Message) (old : option Row) :
  header_string m "operation" = "insert" -> client_row replica m old = Some (msg_Value m).
Proof. intros H. unfold client_row. by rewrite H. Qed.

Lemma client_row_update (replica : string) (m : Message) (old : option Row) :
  header_string m "operation" = "update" ->
  client_row replica m old =
  Some (if decide (replica = "full") then msg_Value m else msg_Value m ∪ default ∅ old).
Proof. intros H. unfold client_row. rewrite H. simpl. by case_decide. Qed.

Lemma client_row_delete (replica : string) (m : Message) (old : option Row) :
  header_string m "operation" = "delete" -> client_row replica m old = None.
Proof. intros H. unfold client_row. by rewrite H. Qed.

(** The message turns the previous row of its key into the current one. *)
Lemma diffKey_effect (def : Definition_) (schema : Schema) (previous current : gmap string Row) (r : Relation)
    (k : string) (m : Message) :
  same_columns previous current -> diffKey def schema previous current r k = Some m ->
  client_row (def_Replica def) m (previous !! k) = current !! k.
Proof.
  intros Hc. unfold diffKey, updateValues.
  destruct (previous !! k) as [o|] eqn:Eo, (current !! k) as [n|] eqn:En; intros H; try done.
  - destruct (decide (o = n)) as [|Hne]; [done|].
    destruct (decide (changedColumns o n = ∅)); [done|].
    destruct (decide (def_Replica def = "full")) as [Hf|Hf]; inv_all;
      rewrite client_row_update by apply header_operation; cbn [msg_Value]; f_equal.
    + rewrite decide_True by done. apply cloneRow_id.
    + rewrite decide_False by done. apply map_eq. intros name.
      assert (Hd : dom o = dom n) by by eapply Hc.
      change (default ∅ (Some o)) with o. rewrite lookup_union, lookup_update_value by done.
      destruct (decide (_ \/ _)) as [Hx|Hx].
      * destruct (n !! name) as [v|] eqn:E; [apply union_Some_l|].
        rewrite (left_id None (∪)). apply not_elem_of_dom. rewrite Hd. by apply not_elem_of_dom.
      * rewrite (left_id None (∪)). apply dec_stable. tauto.
  - inv_all. apply client_row_delete, header_operation.
  - inv_all. rewrite client_row_insert by apply header_operation. simpl. by rewrite cloneRow_id.
Qed.

(** ** Replaying messages with distinct keys *)

Lemma replay_lookup_omap (replica : string) (view : gmap string Row) (f : string -> option Message)
    (keys : list string) (k : string) :
  (forall x m, f x = Some m -> msg_InternalKey m = x) -> NoDup keys ->
  replay replica view (omap f keys) !! k =
  if decide (k ∈ keys) then
    match f k with Some m => client_row replica m (view !! k) | None => view !! k end
  else view !! k.
Proof.
  intros Hf Hnd. revert view. induction Hnd as [|x keys Hx Hnd IH]; intros view.
  - rewrite decide_False by apply not_elem_of_nil. done.
  - rewrite omap_cons_eq. destruct (f x) as [m|] eqn:Ef.
    + unfold replay in *. cbn [fold_left]. rewrite IH. unfold client_apply.
      rewrite (Hf _ _ Ef). destruct (decide (k = x)) as [->|Hne].
      * rewrite decide_False, decide_True by (done || apply list_elem_of_here).
        by rewrite lookup_partial_alter_eq, Ef.
      * rewrite lookup_partial_alter_ne by done.
        destruct (decide (k ∈ keys)), (decide (k ∈ x :: keys)) as [Hk|Hk]; try done.
        -- exfalso. apply Hk. by apply list_elem_of_further.
        -- exfalso. apply elem_of_cons in Hk as [?|?]; done.
    + rewrite IH. destruct (decide (k = x)) as [->|Hne].
      * rewrite decide_False, decide_True by (done || apply list_elem_of_here). by rewrite Ef.
      * destruct (decide (k ∈ keys)), (decide (k ∈ x :: keys)) as [Hk|Hk]; try done.
        -- exfalso. apply Hk. by apply list_elem_of_further.
        -- exfalso. apply elem_of_cons in Hk as [?|?]; done.
Qed.

Lemma elem_of_diff_keys (previous current : gmap string Row) (k : string) :
  k ∈ diff_keys previous current <-> is_Some (previous !! k) \/ is_Some (current !! k).
Proof.
  unfold diff_keys. rewrite elem_of_sort_strings, elem_of_app, list_elem_of_filter, !elem_of_map_keys.
  split; [intros [H|[_ H]]; auto|]. intros H.
  destruct (previous !! k) as [v|] eqn:E; [left; eauto|]. right.
  destruct H as [[? H]|H]; [done|]. done.
Qed.

Lemma NoDup_diff_keys (previous current : gmap string Row) : NoDup (diff_keys previous current).
Proof.
  unfold diff_keys. rewrite NoDup_sort_strings, NoDup_app. split_and!.
  - apply NoDup_fst_map_to_list.
  - intros k Hk. rewrite list_elem_of_filter. apply elem_of_map_keys in Hk as [v Hv].
    intros [He _]. congruence.
  - apply NoDup_filter, NoDup_fst_map_to_list.
Qed.

(** A diff, replayed on the previous rows, gives the current rows. *)
Lemma replay_diff (def : Definition_) (schema : Schema) (previous current : gmap string Row) (r : Relation) :
  same_columns previous current ->
  replay (def_Replica def) previous (diffRows def schema previous current r) = current.
Proof.
  intros Hc. apply map_eq. intros k. unfold diffRows.
  rewrite replay_lookup_omap; [|intros x m Hm; by apply diffKey_key in Hm as [? _]|apply NoDup_diff_keys].
  case_decide as Hk.
  - destruct (diffKey _ _ _ _ _ k) as [m|] eqn:E; [by eapply diffKey_effect|].
    by apply diffKey_None in E.
  - rewrite elem_of_diff_keys in Hk. destruct (previous !! k), (current !! k); try done; naive_solver.
Qed.

Lemma diffRows_In (def : Definition_) (schema : Schema) (previous current : gmap string Row) (r : Relation) (m : Message) :
  m ∈ diffRows def schema previous current r ->
  diffKey def schema previous current r (msg_InternalKey m) = Some m /\ msg_Offset m = "" /\ row_message m.
Proof.
  unfold diffRows. rewrite list_elem_of_omap. intros (k & Hk & Hd).
  destruct (diffKey_key _ _ _ _ _ _ _ Hd) as (Hik & Ho & Hr). by rewrite Hik.
Qed.

Lemma diffRows_keys (def : Definition_) (schema : Schema) (previous current : gmap string Row) (r : Relation) :
  map msg_InternalKey (diffRows def schema previous current r) =
  filter (fun k => is_Some (diffKey def schema previous current r k)) (diff_keys previous current).
Proof.
  unfold diffRows. induction (diff_keys previous current) as [|k l IH]; [done|].
  rewrite filter_cons, omap_cons_eq. destruct (diffKey _ _ _ _ _ k) as [m|] eqn:E.
  - rewrite decide_True by eauto. cbn [map]. rewrite IH. f_equal. by apply diffKey_key in E as [? _].
  - rewrite decide_False; [done|]. by intros [??].
Qed.

Lemma StronglySorted_filter {A} (R : A -> A -> Prop) (P : A -> Prop) `{!forall x, Decision (P x)} (l : list A) :
  StronglySorted R l -> StronglySorted R (filter P l).
Proof.
  induction 1 as [|x l Hl IH Hx]; [constructor|]. rewrite filter_cons. case_decide; [|done].
  constructor; [done|]. apply Forall_forall. intros y Hy. apply list_elem_of_filter in Hy as [_ Hy].
  rewrite Forall_forall in Hx. auto.
Qed.

(** ** Decorated messages *)

Lemma move_out_row (handle k replica : string) (old : option Row) :
  client_row replica (dependentMoveOutMessage handle k) old = None.
Proof. done. Qed.

Lemma replay_snapshot_end (replica : string) (view : gmap string Row) :
  replay replica view [moveInSnapshotEnd] = view.
Proof.
  unfold replay. simpl. apply map_eq. intros k. unfold client_apply.
  rewrite lookup_partial_alter. by case_decide; subst.
Qed.

Lemma addDependentTag_effect (handle : string) (m : Message) : same_effect (addDependentTag handle m) m.
Proof. unfold addDependentTag. case_decide; [done|]. by apply same_effect_set_header. Qed.

Lemma addDependentTag_operation (handle : string) (m : Message) :
  header_string (addDependentTag handle m) "operation" = header_string m "operation".
Proof. unfold addDependentTag. case_decide; [done|]. by apply header_set_ne. Qed.

Lemma decorateOne_effect (handle : string) (related : bool) (m : Message) :
  row_message m -> same_effect (decorateOne handle related m).1 m.
Proof.
  intros Hr. unfold decorateOne. rewrite cloneMessage_id.
  destruct (related && bool_decide (header_string m "operation" = "delete")) eqn:E.
  - apply andb_prop in E as [_ E%bool_decide_eq_true]. split; [done|].
    intros replica old. cbn [fst]. rewrite move_out_row. symmetry. by apply client_row_delete.
  - destruct (related && bool_decide (header_string m "operation" = "insert")); cbn [fst].
    + etrans; [by apply same_effect_set_header|apply addDependentTag_effect].
    + apply addDependentTag_effect.
Qed.

Lemma replay_decorate (handle replica : string) (def : Definition_) (l : list Message)
    (metadata : ChangeMetadata) (view : gmap string Row) :
  Forall row_message l ->
  replay replica view (decorateDependentRefreshMessages handle def l metadata) = replay replica view l.
Proof.
  intros Hl. unfold decorateDependentRefreshMessages.
  destruct (negb (definitionHasDependencyKeyword def)); [done|].
  assert (He : Forall2 same_effect (map (decorateOne handle (relatedRelationChanged def metadata)) l).*1 l).
  { induction Hl as [|m l Hm _ IH]; [constructor|]. constructor; [by apply decorateOne_effect|exact IH]. }
  destruct (existsb snd _).
  - by rewrite replay_app, replay_snapshot_end, (replay_same_effect _ _ _ _ He).
  - by rewrite (replay_same_effect _ _ _ _ He).
Qed.

Lemma decorate_offsets (handle : string) (def : Definition_) (l : list Message) (metadata : ChangeMetadata) :
  Forall (fun m => msg_Offset m = "") l ->
  Forall (fun m => msg_Offset m = "") (decorateDependentRefreshMessages handle def l metadata).
Proof.
  intros Hl. unfold decorateDependentRefreshMessages.
  destruct (negb (definitionHasDependencyKeyword def)); [done|].
  assert (He : Forall (fun m => msg_Offset m = "")
    (map (decorateOne handle (relatedRelationChanged def metadata)) l).*1).
  { induction Hl as [|m l Hm _ IH]; [constructor|]. constructor; [|exact IH].
    unfold decorateOne. rewrite cloneMessage_id. destruct (_ && _); [done|].
    destruct (_ && _); simpl; unfold addDependentTag; by case_decide. }
  destruct (existsb snd _); [|done]. apply Forall_app. split; [done|]. by constructor.
Qed.

(** ** Offsets of a batch *)

Lemma mark_last_Forall2 (l : list Message) :
  Forall2 (fun a b => same_effect a b /\ msg_Offset a = msg_Offset b) (mark_last l) l.
Proof.
  induction l as [|m l IH]; [constructor|]. destruct l as [|m' l].
  - repeat constructor. intros. by apply same_effect_set_header.
  - simpl mark_last. constructor; [done|exact IH].
Qed.

Lemma applyChangeOffset_spec (cur : string) (md : ChangeMetadata) (i : nat) (m : Message) :
  msg_Offset m = "" ->
  same_effect (applyChangeOffset cur md i m) m /\
  msg_Offset (applyChangeOffset cur md i m) = batch_offset cur md i.
Proof.
  intros Ho. unfold applyChangeOffset, batch_offset.
  destruct (0 <? CommitLSN md); [|by rewrite decide_True].
  destruct (DependentRefresh md); [done|]. split; [|done].
  do 3 (etrans; [by apply same_effect_set_header|]). done.
Qed.

Lemma imap_offsets (cur : string) (md : ChangeMetadata) (l : list Message) :
  Forall (fun m => msg_Offset m = "") l ->
  Forall2 same_effect (imap (applyChangeOffset cur md) l) l /\
  forall i m, imap (applyChangeOffset cur md) l !! i = Some m -> msg_Offset m = batch_offset cur md i.
Proof.
  intros Hl. rewrite Forall_lookup in Hl. split.
  - apply Forall2_same_length_lookup_2; [apply length_imap|].
    intros i a b Ha Hb. rewrite list_lookup_imap, Hb in Ha. injection Ha as <-.
    apply applyChangeOffset_spec. eauto.
  - intros i m Hm. rewrite list_lookup_imap in Hm.
    destruct (l !! i) as [b|] eqn:Eb; [|done]. injection Hm as <-.
    apply applyChangeOffset_spec. eauto.
Qed.

Lemma last_offset (l : list Message) (f : nat -> string) (d : string) :
  (forall i m, l !! i = Some m -> msg_Offset m = f i) ->
  default d (msg_Offset <$> last l) = match l with [] => d | _ => f (pred (length l)) end.
Proof.
  intros H. rewrite last_lookup. destruct l as [|m l]; [done|].
  destruct ((m :: l) !! pred (length (m :: l))) as [x|] eqn:E; [simpl; by apply H|].
  apply lookup_ge_None in E. simpl in E. lia.
Qed.

(** The messages keep their effect, the [i]-th one gets the [i]-th offset of
    the batch, and the shape's offset becomes that of the last one. *)
Lemma applyChangeOffsets_spec (cur : string) (md : ChangeMetadata) (l out : list Message) (o : string) :
  Forall (fun m => msg_Offset m = "") l ->
  applyChangeOffsets cur l md = (out, o) ->
  Forall2 same_effect out l /\
  (forall i m, out !! i = Some m -> msg_Offset m = batch_offset cur md i) /\
  o = match l with [] => cur | _ => batch_offset cur md (pred (length l)) end.
Proof.
  intros Hl. unfold applyChangeOffsets. destruct (imap_offsets cur md l Hl) as [He Ho].
  set (l1 := imap (applyChangeOffset cur md) l) in *.
  assert (Hlen : length l1 = length l) by apply length_imap.
  destruct (last l1) as [x|] eqn:El; intros Heq; injection Heq as <- <-.
  - set (l2 := if (0 <? CommitLSN md) && negb (DependentRefresh md) then mark_last l1 else l1).
    assert (Hf2 : Forall2 same_effect l2 l1 /\ (forall i m, l2 !! i = Some m -> msg_Offset m = batch_offset cur md i)).
    { unfold l2. destruct (_ && _).
      - pose proof (mark_last_Forall2 l1) as Hm. split.
        + eapply Forall2_impl; [exact Hm|]. by intros ?? [? _].
        + intros i m Hi. destruct (Forall2_lookup_l _ _ _ _ _ Hm Hi) as (b & Hb & _ & ->). by apply Ho.
      - split; [reflexivity|done]. }
    destruct Hf2 as [Ha Hb]. split; [by transitivity l1|split; [done|]]. rewrite (last_offset _ _ _ Hb).
    apply Forall2_length in Ha. rewrite Hlen in Ha. destruct l2, l; [done..|]. by rewrite Ha.
  - split_and!; [done|done|]. apply last_None in El. rewrite El in Hlen.
    by destruct l.
Qed.

Lemma next_in_range_le (cur : string) (i j : Z) :
  0 <= i <= j -> next_in_range cur j = true -> next_in_range cur i = true.
Proof.
  intros Hij. unfold next_in_range. destruct (ParseOffset cur) as [p ok].
  rewrite !andb_true_iff, !orb_true_iff, !Z.leb_le. intros [[H1 H2] H3]. split_and!; [lia|lia|].
  destruct H3 as [H3|H3]; [by left|]. right. destruct (off_kind p); try done;
    rewrite ?andb_true_iff, ?Z.leb_le, ?Z.ltb_lt in *; lia.
Qed.

Lemma position_next_lt (cur : string) (i j : Z) :
  0 <= i < j -> next_in_range cur j = true ->
  offset_lt (NextGeneratedOffset cur i) (NextGeneratedOffset cur j).
Proof.
  intros Hij Hj. unfold offset_lt. rewrite !position_next by (eapply next_in_range_le; [|done]; lia).
  destruct (position cur) as [[k x] y]. unfold pos_lt.
  repeat match goal with
  | |- context [match ?v with _ => _ end] => is_var v; destruct v
  end; lia.
Qed.

Lemma batch_offset_ok (cur : string) (md : ChangeMetadata) (n i : nat) :
  batch_in_range cur md n = true -> (i < n)%nat ->
  offset_lt cur (batch_offset cur md i) /\
  forall j, (i < j < n)%nat -> offset_lt (batch_offset cur md i) (batch_offset cur md j).
Proof.
  unfold batch_in_range, batch_offset. rewrite andb_true_iff, Z.leb_le. intros [Hn H] Hi.
  destruct (Z.ltb_spec 0 (CommitLSN md)) as [Hl|Hl].
  - rewrite andb_true_iff, Z.leb_le, bool_decide_eq_true, CompareOffsets_gt in H. destruct H as [Hu Hc].
    unfold offset_lt in *. rewrite position_lsn in Hc by (unfold int64_max; lia).
    rewrite position_lsn by lia. split.
    + eapply offset_pos_le_lt; [exact Hc|]. unfold pos_lt. lia.
    + intros j Hj. rewrite position_lsn by lia. unfold pos_lt. lia.
  - split; [apply next_offset_lt; eapply next_in_range_le; [|exact H]; lia|].
    intros j Hj. apply position_next_lt; [lia|]. eapply next_in_range_le; [|exact H]. lia.
Qed.

(** ** Wire format *)

Lemma lookup_wire_row (schema : Schema) (row : Row) (name : string) :
  applyLiveWireFormatRow schema row !! name = wire_value schema name <$> row !! name.
Proof. unfold applyLiveWireFormatRow. rewrite map_lookup_imap. by destruct (row !! name). Qed.

Lemma wire_value_idem (schema : Schema) (name : string) (v : option string) :
  wire_value schema name (wire_value schema name v) = wire_value schema name v.
Proof.
  unfold wire_value. destruct (schema !! name) as [c|]; [|done]. destruct v as [s|]; [|done].
  destruct (decide (col_Type c = "bool")) as [Hb|Hb]; [|done].
  destruct (decide (s = "true")) as [->|Ht]; [done|].
  destruct (decide (s = "false")) as [->|Hf]; [done|].
  by rewrite (decide_False _ _ Ht), (decide_False _ _ Hf).
Qed.

Lemma wire_row_idem (schema : Schema) (row : Row) :
  applyLiveWireFormatRow schema (applyLiveWireFormatRow schema row) = applyLiveWireFormatRow schema row.
Proof.
  apply map_eq. intros name. rewrite !lookup_wire_row. destruct (row !! name); simpl; [|done].
  by rewrite wire_value_idem.
Qed.

Lemma wire_row_union (schema : Schema) (r1 r2 : Row) :
  applyLiveWireFormatRow schema (r1 ∪ r2) = applyLiveWireFormatRow schema r1 ∪ applyLiveWireFormatRow schema r2.
Proof.
  apply map_eq. intros name. rewrite lookup_wire_row, !lookup_union, !lookup_wire_row.
  by destruct (r1 !! name), (r2 !! name).
Qed.

Lemma wire_row_empty (schema : Schema) : applyLiveWireFormatRow schema ∅ = ∅.
Proof. apply map_eq. intros name. by rewrite lookup_wire_row, !lookup_empty. Qed.

Lemma client_row_wire (schema : Schema) (replica : string) (m : Message) (old : option Row) :
  client_row replica (wire_message schema m) (applyLiveWireFormatRow schema <$> old) =
  applyLiveWireFormatRow schema <$> client_row replica m old.
Proof.
  unfold client_row.
  change (header_string (wire_message schema m)) with (header_string m).
  destruct (decide (header_string m "operation" = "insert")); [done|].
  destruct (decide (header_string m "operation" = "update")).
  - destruct (decide (replica = "full")); [done|]. cbn [fmap option_fmap option_map msg_Value wire_message].
    f_equal. rewrite wire_row_union. f_equal. destruct old; [done|]. by rewrite wire_row_empty.
  - by destruct (decide (_ \/ _)).
Qed.

(** Formatting the messages formats the rows they build. *)
Lemma replay_wire (schema : Schema) (replica : string) (view : gmap string Row) (l : list Message) :
  replay replica (wire_rows schema view) (applyLiveWireFormat schema l) =
  wire_rows schema (replay replica view l).
Proof.
  revert view. induction l as [|m l IH]; intros view; [done|].
  unfold replay in *. cbn [applyLiveWireFormat map fold_left]. rewrite <- IH. f_equal.
  apply map_eq. intros k. unfold client_apply, wire_rows. rewrite lookup_fmap, !lookup_partial_alter.
  change (msg_InternalKey (wire_message schema m)) with (msg_InternalKey m). rewrite !lookup_fmap.
  case_decide; [apply client_row_wire|done].
Qed.

Lemma wire_rows_idem (schema : Schema) (view : gmap string Row) :
  wire_rows schema (wire_rows schema view) = wire_rows schema view.
Proof.
  unfold wire_rows. rewrite <- map_fmap_compose. apply map_fmap_ext. intros k r _. apply wire_row_idem.
Qed.

Lemma applyLiveWireFormat_idem (schema : Schema) (l : list Message) :
  applyLiveWireFormat schema (applyLiveWireFormat schema l) = applyLiveWireFormat schema l.
Proof.
  unfold applyLiveWireFormat. rewrite map_map. apply map_ext. intros m.
  unfold wire_message. simpl. by rewrite !wire_row_idem.
Qed.

#[export] Instance wire_equiv_equivalence (schema : Schema) : Equivalence (wire_equiv schema).
Proof. split; unfold wire_equiv; [by intros ?|by intros ???|intros ??? -> ->; done]. Qed.

(** Replaying respects the equivalence of views. *)
#[export] Instance replay_wire_proper (schema : Schema) (replica : string) :
  Proper (wire_equiv schema ==> eq ==> wire_equiv schema) (replay replica).
Proof. intros v1 v2 Hv l ? <-. unfold wire_equiv in *. by rewrite <- !replay_wire, Hv. Qed.

Lemma wire_rows_equiv (schema : Schema) (view : gmap string Row) : wire_equiv schema (wire_rows schema view) view.
Proof. apply wire_rows_idem. Qed.

(** Formatted messages rebuild the same rows up to the spelling of
    booleans. *)
Lemma replay_live (schema : Schema) (replica : string) (view : gmap string Row) (l : list Message) :
  wire_equiv schema (replay replica view (applyLiveWireFormat schema l)) (replay replica view l).
Proof. unfold wire_equiv. by rewrite <- !replay_wire, applyLiveWireFormat_idem. Qed.

Lemma row_message_wire (schema : Schema) (l : list Message) :
  Forall row_message l -> Forall row_message (applyLiveWireFormat schema l).
Proof. intros H. apply Forall_map. by eapply Forall_impl. Qed.

Lemma wire_offsets (schema : Schema) (l : list Message) :
  Forall (fun m => msg_Offset m = "") l ->
  Forall (fun m => msg_Offset m = "") (applyLiveWireFormat schema l).
Proof. intros H. apply Forall_map. by eapply Forall_impl. Qed.

Lemma diffRows_fresh (def : Definition_) (schema : Schema) (previous current : gmap string Row) (r : Relation) :
  Forall (fun m => msg_Offset m = "") (diffRows def schema previous current r) /\
  Forall row_message (diffRows def schema previous current r).
Proof. split; apply Forall_forall; intros m Hm; by apply diffRows_In in Hm as (_ & ? & ?). Qed.

(** * Properties *)


Definition demo_def : Definition_ :=
  mkDefinition (mkRelation "public" "items") "" ∅ [] "" "" None.

Definition demo_before : gmap string Row :=
  <["k1" := demo_row "1" "x" "old"]> {["k2" := demo_row "2" "y" "gone"]}.
Definition demo_after : gmap string Row :=
  <["k1" := demo_row "1" "x" "new"]> {["k3" := demo_row "3" "z" "fresh"]}.

Lemma demo_same_columns : same_columns demo_before demo_after.
Proof.
  intros k r1 r2 H1 H2. unfold demo_before, demo_after in *.
  destruct (decide (k = "k1")) as [->|Hk].
  - rewrite lookup_insert_eq in H1, H2. injection H1 as <-. injection H2 as <-.
    apply (bool_decide_unpack _). vm_compute. exact I.
  - rewrite lookup_insert_ne in H1, H2 by done.
    apply lookup_singleton_Some in H1 as [<- _]. by rewrite lookup_singleton_ne in H2.
Qed.


(** A diff is minimal and ordered: it holds exactly one message for every
    key whose row differs, none for the others, in increasing key order; two
    equal row sets have an empty diff. *)
Theorem diff_minimal (def : Definition_) (schema : Schema) (previous current : gmap string Row) (r : Relation) :
  same_columns previous current ->
  let keys := map msg_InternalKey (diffRows def schema previous current r) in
  (forall k, k ∈ keys <-> previous !! k <> current !! k) /\ NoDup keys /\
  StronglySorted String.le keys.
Proof.
  intros Hc keys. unfold keys. rewrite diffRows_keys. split_and!.
  - intros k. rewrite list_elem_of_filter, elem_of_diff_keys, <- not_eq_None_Some.
    rewrite (diffKey_None _ _ _ _ _ _ Hc). split; [tauto|]. intros Hk. split; [done|].
    destruct (previous !! k); [by left|]. destruct (current !! k); [by right|done].
  - apply NoDup_filter, NoDup_diff_keys.
  - apply StronglySorted_filter, sort_strings_sorted.
Qed.

Lemma diff_minimal_witness :
  NoDup (map msg_InternalKey (diffRows demo_def demo_schema demo_before demo_after (def_Relation demo_def))) /\
  map msg_InternalKey (diffRows demo_def demo_schema demo_before demo_after (def_Relation demo_def)) =
    ["k1"; "k2"; "k3"].
Proof.
  split; [|vm_compute; reflexivity].
  apply (diff_minimal demo_def demo_schema demo_before demo_after (def_Relation demo_def) demo_same_columns).
Defined.

(** What an update carries.  By default it holds the new values of the
    changed columns and of the key columns and no other column; with
    [replica=full] it holds the whole new row, and the old values of exactly
    the changed columns. *)
Theorem update_message_columns (def : Definition_) (schema : Schema) (oldRow newRow value oldValue : Row) :
  dom oldRow = dom newRow -> updateValues def schema oldRow newRow = Some (value, oldValue) ->
  (def_Replica def <> "full" -> oldValue = ∅ /\ forall name, value !! name =
     if decide (oldRow !! name <> newRow !! name \/ is_pk schema name = true) then newRow !! name else None) /\
  (def_Replica def = "full" -> value = newRow /\ forall name, oldValue !! name =
     if decide (oldRow !! name <> newRow !! name) then oldRow !! name else None).
Proof.
  intros Hd H. unfold updateValues in H. case_decide; [done|]. case_decide as Hf; inv_all; split; try done.
  - intros _. split; [apply cloneRow_id|]. intros name. rewrite map_lookup_filter.
    pose proof (elem_of_changedColumns _ _ name Hd) as He. case_decide as Hn.
    + apply He in Hn. destruct (oldRow !! name); [|done]. simpl. by rewrite option_guard_True.
    + destruct (oldRow !! name); [|done]. simpl. rewrite option_guard_False; [done|]. tauto.
  - intros _. split; [done|]. intros name. by apply lookup_update_value.
Qed.

Lemma update_message_columns_witness :
  exists value oldValue,
    updateValues demo_def demo_schema (demo_row "1" "x" "old") (demo_row "1" "x" "new") = Some (value, oldValue) /\
    oldValue = ∅.
Proof.
  destruct (updateValues demo_def demo_schema (demo_row "1" "x" "old") (demo_row "1" "x" "new"))
    as [[value oldValue]|] eqn:E; [|vm_compute in E; discriminate E].
  exists value, oldValue. split; [reflexivity|].
  apply (update_message_columns demo_def demo_schema (demo_row "1" "x" "old") (demo_row "1" "x" "new") value oldValue).
  - apply (bool_decide_unpack _). vm_compute. exact I.
  - exact E.
  - discriminate.
Defined.

(** The offsets of a batch advance: the messages of a batch that starts
    above the current offset carry strictly increasing offsets, all above it,
    and the shape's new offset is the last of them. *)
Theorem batch_offsets_increase (cur : string) (md : ChangeMetadata) (l out : list Message) (o : string) :
  Forall (fun m => msg_Offset m = "") l -> batch_in_range cur md (length l) = true ->
  applyChangeOffsets cur l md = (out, o) ->
  length out = length l /\
  (forall i m, out !! i = Some m -> CompareOffsets (msg_Offset m) cur > 0) /\
  (forall i j m m', (i < j)%nat -> out !! i = Some m -> out !! j = Some m' ->
     CompareOffsets (msg_Offset m') (msg_Offset m) > 0) /\
  (l <> [] -> msg_Offset <$> last out = Some o).
Proof.
  intros Hl Hr E. apply applyChangeOffsets_spec in E as (He & Ho & ->); [|done].
  apply Forall2_length in He. split; [done|]. split_and!.
  - intros i m Hi. rewrite CompareOffsets_gt, (Ho _ _ Hi).
    apply lookup_lt_Some in Hi. eapply batch_offset_ok; [done|lia].
  - intros i j m m' Hij Hi Hj. rewrite CompareOffsets_gt, (Ho _ _ Hi), (Ho _ _ Hj).
    apply lookup_lt_Some in Hi, Hj. eapply batch_offset_ok; [done|lia|lia].
  - intros Hne. rewrite last_lookup. destruct l as [|m0 l]; [done|]. rewrite <- He.
    destruct (out !! pred (length out)) as [x|] eqn:Ex; [simpl; by rewrite (Ho _ _ Ex)|].
    apply lookup_ge_None in Ex. simpl in He. lia.
Qed.

Lemma batch_offsets_increase_witness :
  let l := diffRows demo_def demo_schema demo_before demo_after (def_Relation demo_def) in
  let md := mkChangeMetadata zero_relation 77 5 false in
  msg_Offset <$> last (applyChangeOffsets "0_3" l md).1 = Some "77_2".
Proof.
  intros l md. destruct (applyChangeOffsets "0_3" l md) as [out o] eqn:E.
  transitivity (Some o).
  - apply (batch_offsets_increase "0_3" md l out o).
    + repeat constructor.
    + vm_compute. reflexivity.
    + exact E.
    + vm_compute. discriminate.
  - apply (f_equal snd) in E. cbn [snd] in E. rewrite <- E. vm_compute. reflexivity.
Defined.

(** A single key column that holds the empty text has the empty signature,
    and no refresh of changed keys ever includes such a row. *)
Example empty_key_never_targeted :
  targetedKeySet {["id" := mkColumn "text" true (Some 0)]} [{["id" := Some ""]}] [{["id" := Some ""]}] = ∅.
Proof. vm_compute. reflexivity. Qed.
