(* ===== verification/Storage.v ===== *)
(** Storage: [src/internal/storage/store.go].

    The records a store keeps, the [Store] interface as a type class with the
    laws its clients rely on, and [MemoryStore], an instance of both. *)

From Stdlib Require Import Ascii String ZArith NArith Lia.
From S2P Require Import Prelude GoValue.

(** * Definitions *)

(** A json.RawMessage: no bytes, the bytes of a document, or bytes that
    json.Unmarshal rejects. *)
Inductive raw : Type :=
| RawEmpty
| RawJson (j : json)
| RawInvalid (text : string).

(** Times are nanoseconds since the epoch, in UTC. *)
Record PersistedShape : Type := mkPersisted {
  ps_Handle : string;
  ps_Hash : string;
  ps_Definition : raw;
  ps_Schema : raw;
  ps_Snapshot : raw;
  ps_Materialized : raw;
  ps_CurrentOffset : string;
  ps_LastAccess : Z;
  ps_Generation : Z;
  ps_Deleted : bool;
  ps_Changes : list raw
}.

Record RuntimeCheckpoint : Type := mkCheckpoint {
  cp_SlotName : string;
  cp_LastConfirmedLSN : string;
  cp_SystemID : string;
  cp_Timeline : Z;
  cp_DBName : string
}.

Definition zero_checkpoint : RuntimeCheckpoint := mkCheckpoint "" "" "" 0 "".

Record StoreStats : Type := mkStats {
  stats_Kind : string;
  stats_ShapeCount : Z;
  stats_ActiveShapeCount : Z;
  stats_DeletedShapeCount : Z;
  stats_ChunkCount : Z;
  stats_ChangeCount : Z;
  stats_MetadataBytes : Z;
  stats_ChunkBytes : Z;
  stats_TotalBytes : Z;
  stats_HasCheckpoint : bool;
  stats_Checkpoint : RuntimeCheckpoint
}.

Record CompactionResult : Type := mkCompaction {
  RemovedChunks : Z;
  RemovedBytes : Z
}.

(** The [Store] interface.  An operation that writes returns the store it
    leaves and its error, nil being [None]. *)
Class Store (S : Type) : Type := {
  Kind : S -> string;
  LoadShapes : S -> result string (list PersistedShape);
  SaveShape : PersistedShape -> S -> S * option string;
  LoadRuntimeCheckpoint : S -> result string (option RuntimeCheckpoint);
  SaveRuntimeCheckpoint : RuntimeCheckpoint -> S -> S * option string;
  Stats : S -> result string StoreStats;
  Compact : S -> S * result string CompactionResult
}.

(** What a compaction leaves of a shape: a deleted shape loses its changes. *)
Definition compacted (p : PersistedShape) : PersistedShape :=
  if ps_Deleted p then
    mkPersisted (ps_Handle p) (ps_Hash p) (ps_Definition p) (ps_Schema p) (ps_Snapshot p)
      (ps_Materialized p) (ps_CurrentOffset p) (ps_LastAccess p) (ps_Generation p) (ps_Deleted p) []
  else p.

(** What the runtime relies on: the checkpoint is kept apart from the shapes. *)
Class CheckpointLaws (S : Type) `{Store S} : Type := {
  checkpoint_of : S -> option RuntimeCheckpoint;
  save_keeps_law s p s' e : SaveShape p s = (s', e) -> checkpoint_of s' = checkpoint_of s;
  load_checkpoint_law s c : LoadRuntimeCheckpoint s = Ok c -> c = checkpoint_of s;
  save_checkpoint_law s c s' : SaveRuntimeCheckpoint c s = (s', None) -> checkpoint_of s' = Some c
}.

(** What the shape manager may rely on besides: a store is a map of shapes by
    handle; a save that fails changes nothing. *)
Class StoreLaws (S : Type) `{CheckpointLaws S} : Type := {
  shapes_of : S -> gmap string PersistedShape;
  load_law s l : LoadShapes s = Ok l -> l = sorted_values (shapes_of s);
  save_law s p s' : SaveShape p s = (s', None) -> shapes_of s' = <[ps_Handle p := p]> (shapes_of s);
  save_error_law s p s' e : SaveShape p s = (s', Some e) -> shapes_of s' = shapes_of s;
  keep_shapes_law s c s' : SaveRuntimeCheckpoint c s = (s', None) -> shapes_of s' = shapes_of s;
  compact_law s s' r : Compact s = (s', Ok r) ->
    shapes_of s' = compacted <$> shapes_of s /\ checkpoint_of s' = checkpoint_of s
}.

(** ** MemoryStore *)

Record MemoryStore : Type := mkMemoryStore {
  mem_shapes : gmap string PersistedShape;
  mem_checkpoint : option RuntimeCheckpoint
}.

Definition NewMemoryStore : MemoryStore := mkMemoryStore ∅ None.

Definition cloneRawMessage (message : raw) : raw :=
  match message with RawEmpty => RawEmpty | _ => message end.

Definition clonePersistedShape (p : PersistedShape) : PersistedShape :=
  mkPersisted (ps_Handle p) (ps_Hash p) (cloneRawMessage (ps_Definition p))
    (cloneRawMessage (ps_Schema p)) (cloneRawMessage (ps_Snapshot p))
    (cloneRawMessage (ps_Materialized p)) (ps_CurrentOffset p) (ps_LastAccess p)
    (ps_Generation p) (ps_Deleted p) (map cloneRawMessage (ps_Changes p)).

Definition memory_LoadShapes (s : MemoryStore) : list PersistedShape :=
  map clonePersistedShape (sorted_values (mem_shapes s)).

Definition memory_SaveShape (p : PersistedShape) (s : MemoryStore) : MemoryStore :=
  mkMemoryStore (<[ps_Handle p := clonePersistedShape p]> (mem_shapes s)) (mem_checkpoint s).

Definition memory_SaveRuntimeCheckpoint (c : RuntimeCheckpoint) (s : MemoryStore) : MemoryStore :=
  mkMemoryStore (mem_shapes s) (Some c).

(** The counters of the loop over the shapes. *)
Definition memory_counts (shapes : list PersistedShape) : Z * Z * Z :=
  fold_left (fun '(active, deleted, changes) p =>
    let changes := changes + Z.of_nat (length (ps_Changes p)) in
    if ps_Deleted p then (active, deleted + 1, changes) else (active + 1, deleted, changes))
    shapes (0, 0, 0).

Definition memory_Stats (s : MemoryStore) : StoreStats :=
  let '(active, deleted, changes) := memory_counts (map_to_list (mem_shapes s)).*2 in
  mkStats "memory" (Z.of_nat (size (mem_shapes s))) active deleted 0 changes 0 0 0
    (bool_decide (is_Some (mem_checkpoint s))) (default zero_checkpoint (mem_checkpoint s)).

(** [RemovedChunks] counts the deleted shapes that had changes. *)
Definition memory_Compact (s : MemoryStore) : MemoryStore * CompactionResult :=
  let hit p := ps_Deleted p && negb (bool_decide (ps_Changes p = [])) in
  (mkMemoryStore ((fun p => if hit p then compacted p else p) <$> mem_shapes s) (mem_checkpoint s),
   mkCompaction (Z.of_nat (size (filter (fun kp => hit kp.2 = true) (mem_shapes s)))) 0).

#[export] Instance memory_Store : Store MemoryStore := {
  Kind := fun _ => "memory";
  LoadShapes := fun s => Ok (memory_LoadShapes s);
  SaveShape := fun p s => (memory_SaveShape p s, None);
  LoadRuntimeCheckpoint := fun s => Ok (mem_checkpoint s);
  SaveRuntimeCheckpoint := fun c s => (memory_SaveRuntimeCheckpoint c s, None);
  Stats := fun s => Ok (memory_Stats s);
  Compact := fun s => ((memory_Compact s).1, Ok (memory_Compact s).2)
}.

(** * Lemmas *)

Lemma clonePersistedShape_id (p : PersistedShape) : clonePersistedShape p = p.
Proof.
  destruct p as [h hash d s sn m o la g del ch]. unfold clonePersistedShape. simpl.
  assert (Hr : forall r, cloneRawMessage r = r) by (by intros []).
  f_equal; try apply Hr. rewrite <- (map_id ch) at 2. by apply map_ext.
Qed.

Lemma clonePersistedShapes_id (l : list PersistedShape) : map clonePersistedShape l = l.
Proof. rewrite <- (map_id l) at 2. apply map_ext. exact clonePersistedShape_id. Qed.

#[export] Hint Rewrite clonePersistedShape_id clonePersistedShapes_id : go.

#[export] Instance memory_CheckpointLaws : CheckpointLaws MemoryStore.
Proof.
  refine {| checkpoint_of := mem_checkpoint |}.
  - by intros s p s' e [= <- _].
  - by intros s c [= <-].
  - by intros s c s' [= <-].
Defined.

#[export] Instance memory_StoreLaws : StoreLaws MemoryStore.
Proof.
  refine {| shapes_of := mem_shapes |}.
  - intros s l [= <-]. unfold memory_LoadShapes. by rewrite clonePersistedShapes_id.
  - intros s p s' [= <-]. simpl. by rewrite clonePersistedShape_id.
  - done.
  - by intros s c s' [= <-].
  - intros s s' r [= <- <-]. split; [|done]. simpl. apply map_fmap_ext. intros k p _.
    unfold compacted. destruct (ps_Deleted p) eqn:Ed; [|done]. simpl.
    case_bool_decide as Hc; [|done]. destruct p; simpl in *. by subst.
Defined.

Lemma memory_counts_sum (l : list PersistedShape) (a d c : Z) :
  fold_left (fun '(active, deleted, changes) p =>
    let changes := changes + Z.of_nat (length (ps_Changes p)) in
    if ps_Deleted p then (active, deleted + 1, changes) else (active + 1, deleted, changes)) l (a, d, c) =
  (a + Z.of_nat (length (filter (fun p => ps_Deleted p = false) l)),
   d + Z.of_nat (length (filter (fun p => ps_Deleted p = true) l)),
   c + Z.of_nat (sum_list (map (fun p => length (ps_Changes p)) l))).
Proof.
  revert a d c. induction l as [|p l IH]; intros a d c; simpl.
  - by rewrite !Z.add_0_r.
  - rewrite !filter_cons. destruct (ps_Deleted p) eqn:E; rewrite IH;
      destruct (decide (true = false)), (decide (true = true)), (decide (false = true)), (decide (false = false)); try done;
      cbn [length]; repeat (f_equal; try lia).
Qed.

(** * Properties *)

(** The memory store's statistics add up: the active and the deleted
    shapes are all its shapes, and compaction drops exactly the changes of
    deleted shapes: no shape is lost, live shapes are untouched, and a second
    compaction removes nothing. *)
Theorem memory_compact_keeps_live (s : MemoryStore) :
  let s' := (memory_Compact s).1 in
  stats_ActiveShapeCount (memory_Stats s) + stats_DeletedShapeCount (memory_Stats s) =
    stats_ShapeCount (memory_Stats s) /\
  (forall h p, mem_shapes s !! h = Some p -> ps_Deleted p = false -> mem_shapes s' !! h = Some p) /\
  (forall h p, mem_shapes s' !! h = Some p -> ps_Deleted p = true -> ps_Changes p = []) /\
  dom (mem_shapes s') = dom (mem_shapes s) /\
  RemovedChunks (memory_Compact s').2 = 0.
Proof.
  intros s'. assert (Hs' : mem_shapes s' = compacted <$> mem_shapes s)
    by exact (proj1 (compact_law s s' (memory_Compact s).2 eq_refl)).
  split_and!.
  - unfold memory_Stats, memory_counts. rewrite memory_counts_sum. cbn [stats_ActiveShapeCount stats_DeletedShapeCount stats_ShapeCount].
    assert (Hl : length (map_to_list (mem_shapes s)).*2 = size (mem_shapes s))
      by (by rewrite length_fmap, length_map_to_list).
    rewrite <- Hl. generalize (map_to_list (mem_shapes s)).*2 as l. clear.
    induction l as [|p l IH]; [done|]. rewrite !filter_cons.
    destruct (ps_Deleted p);
      destruct (decide (true = false)), (decide (true = true)), (decide (false = true)), (decide (false = false)); try done;
      cbn [length]; lia.
  - intros h p Hp Hd. rewrite Hs', lookup_fmap, Hp. simpl. unfold compacted. by rewrite Hd.
  - intros h p Hp Hd. rewrite Hs', lookup_fmap in Hp. destruct (mem_shapes s !! h) as [q|]; [|done].
    simpl in Hp. injection Hp as <-. unfold compacted in *. by destruct (ps_Deleted q) eqn:E; [|congruence].
  - by rewrite Hs', dom_fmap_L.
  - unfold memory_Compact at 1. cbn [snd RemovedChunks]. rewrite Hs'.
    rewrite map_empty_filter_2; [done|]. intros h p Hp. rewrite lookup_fmap in Hp.
    destruct (mem_shapes s !! h) as [q|]; [|done]. simpl in Hp. injection Hp as <-.
    unfold compacted. destruct (ps_Deleted q) eqn:E; simpl; rewrite ?E; done.
Qed.
