(* ===== verification/Paths.v ===== *)
(** Paths: [path/filepath]'s Clean and Join on Unix, the verb [%06d], and
    [sanitizePath] of [src/internal/storage/disk.go].

    A clean path is the text of a list of components.  What the disk store
    needs of it: below a clean directory, a plain name gives a clean path, and
    different names give different paths; and the numbers of its chunks order
    their paths. *)

From Stdlib Require Import Ascii String ZArith NArith Lia.
From S2P Require Import Prelude GoValue.

#[local] Set Warnings "-clear-no-such-hyp".

(** * Definitions *)

Definition slash : ascii := byte_of 47.

Definition rooted (p : string) : bool := has_prefix "/" p.

(** One component of a path after those of [out], the last one first. *)
Definition path_step (root : bool) (out : list string) (x : string) : list string :=
  if decide (x = "" \/ x = ".") then out
  else if decide (x = "..") then
    match out with
    | [] => if root then [] else [".."]
    | y :: out' => if decide (y = "..") then x :: out else out'
    end
  else x :: out.

(** The components of a path, the last one first. *)
Definition path_parts (p : string) : list string := fold_left (path_step (rooted p)) (split_byte slash p) [].

Definition path_text (root : bool) (parts : list string) : string :=
  if root then "/" +:+ join "/" (rev parts)
  else match parts with [] => "." | _ => join "/" (rev parts) end.

(** filepath.Clean. *)
Definition Clean (p : string) : string :=
  if decide (p = "") then "." else path_text (rooted p) (path_parts p).

(** filepath.Join of two elements. *)
Definition Join (a b : string) : string :=
  if decide (a = "") then (if decide (b = "") then "" else Clean b)
  else if decide (b = "") then Clean a else Clean (a +:+ "/" +:+ b).

(** filepath.Dir of a clean path: what is before its last slash. *)
Definition path_parent (p : string) : string :=
  match path_parts p with
  | [] => p
  | _ :: parts => path_text (rooted p) parts
  end.

(** The last [w] decimal digits. *)
Fixpoint pad_digits (w : nat) (n : N) : string :=
  match w with
  | O => ""
  | S w' => pad_digits w' (n / 10) +:+ str1 (byte_of (48 + n mod 10))
  end.

(** The verb [%06d] on a number that is not negative. *)
Definition format_06 (z : Z) : string :=
  if z <? 1000000 then pad_digits 6 (Z.to_N z) else format_Z z.

(** ** sanitizePath *)

Definition is_alnum (c : ascii) : bool := is_lower c || is_upper c || is_digit c.

(** strings.Map, where each rune is kept or becomes an underscore: [k] bytes of
    the current rune are still to be skipped. *)
Fixpoint map_alnum (k : nat) (s : string) : string :=
  match s with
  | EmptyString => ""
  | String a s' =>
      match k with
      | S k' => map_alnum k' s'
      | O =>
          if is_alnum a then String a (map_alnum 0 s')
          else String "_"%char (map_alnum (Nat.pred (default 1%nat (utf8_width s))) s')
      end
  end.

(** strings.Trim with one byte to remove. *)
Definition trim_byte (c : ascii) (s : string) : string :=
  String.rev (trim_left [str1 c] (String.rev (trim_left [str1 c] s))).

Definition sanitizePath (value : string) : string :=
  let value := trim_byte "_"%char (map_alnum 0 value) in
  if decide (value = "") then "shape" else value.

(** A name that is one component of a path. *)
Definition plain (x : string) : bool :=
  bool_decide (x <> "" /\ x <> "." /\ x <> "..") && negb (contains_byte slash x).

(** The components [Clean] leaves, the last one first: names, below them the
    steps up of a relative path. *)
Inductive normal (root : bool) : list string -> Prop :=
| normal_nil : normal root []
| normal_up (l : list string) : root = false -> Forall (eq "..") l -> normal root (".." :: l)
| normal_name (x : string) (l : list string) : plain x = true -> normal root l -> normal root (x :: l).

(** A clean path other than the root and the current directory. *)
Definition clean_dir (d : string) : Prop :=
  exists root parts, normal root parts /\ parts <> [] /\ d = path_text root parts.

(** * Lemmas *)

(** ** Splitting and joining *)

Lemma split_byte_cons (c : ascii) (s : string) : exists x l, split_byte c s = x :: l.
Proof.
  induction s as [|a s [x [l E]]]; simpl; [by do 2 eexists|]. case_decide; [by do 2 eexists|]. rewrite E. by do 2 eexists.
Qed.

Lemma split_byte_app (c : ascii) (s t : string) : split_byte c (s +:+ String c t) = split_byte c s ++ split_byte c t.
Proof.
  induction s as [|a s IH]; simpl; [by rewrite decide_True|]. rewrite IH. case_decide; [done|].
  by destruct (split_byte_cons c s) as (x & l & ->).
Qed.

Lemma split_byte_free (c : ascii) (s : string) : contains_byte c s = false -> split_byte c s = [s].
Proof.
  induction s as [|a s IH]; simpl; [done|]. case_decide; [done|]. intros Hs. by rewrite IH.
Qed.

Lemma split_byte_parts (c : ascii) (s x : string) : x ∈ split_byte c s -> contains_byte c x = false.
Proof.
  revert x. induction s as [|a s IH]; simpl; intros x.
  - by intros ->%list_elem_of_singleton.
  - case_decide as Hc.
    + intros [->|Hx]%elem_of_cons; [done|auto].
    + destruct (split_byte_cons c s) as (y & l & E). rewrite E in *. intros [->|Hx]%elem_of_cons.
      * simpl. rewrite decide_False by done. apply IH. by left.
      * apply IH. by right.
Qed.

Lemma split_join (c : ascii) (l : list string) :
  l <> [] -> Forall (fun x => contains_byte c x = false) l -> split_byte c (join (str1 c) l) = l.
Proof.
  intros Hne Hl. induction Hl as [|x l Hx Hl IH]; [done|]. destruct l as [|y l]; [by apply split_byte_free|].
  rewrite join_app_str. change (str1 c +:+ ?t) with (String c t). rewrite split_byte_app, (split_byte_free c x Hx), IH; done.
Qed.

Lemma join_last (sep x : string) (l : list string) : l <> [] -> join sep (l ++ [x]) = join sep l +:+ sep +:+ x.
Proof.
  induction l as [|y l IH]; [done|]. intros _. destruct l as [|z l]; [done|].
  change ((y :: z :: l) ++ [x]) with (y :: (z :: l) ++ [x]). cbn [app]. rewrite !join_app_str.
  change (z :: l ++ [x]) with ((z :: l) ++ [x]). rewrite IH by done. by rewrite !app_assoc_str.
Qed.

(** ** Clean paths *)

Lemma plain_spec (x : string) : plain x = true <-> x <> "" /\ x <> "." /\ x <> ".." /\ contains_byte slash x = false.
Proof. unfold plain. rewrite andb_true_iff, bool_decide_eq_true, negb_true_iff. tauto. Qed.

Lemma step_plain (root : bool) (out : list string) (x : string) : plain x = true -> path_step root out x = x :: out.
Proof.
  rewrite plain_spec. intros (H1 & H2 & H3 & _). unfold path_step. rewrite decide_False by tauto. by rewrite decide_False.
Qed.

Lemma normal_ups (root : bool) (l : list string) : root = false -> Forall (eq "..") l -> normal root l.
Proof. intros Hr Hl. destruct Hl as [|x l <- Hl]; constructor; done. Qed.

Lemma normal_step (root : bool) (out : list string) (x : string) :
  contains_byte slash x = false -> normal root out -> normal root (path_step root out x).
Proof.
  intros Hx Hn. unfold path_step. case_decide as H1; [done|]. case_decide as H2.
  - subst x. destruct Hn as [|l -> Hl|y l Hy Hl].
    + destruct root; by repeat constructor.
    + rewrite decide_True by done. apply normal_up; [done|]. by constructor.
    + rewrite decide_False; [done|]. apply plain_spec in Hy as (_ & _ & ? & _). done.
  - apply normal_name; [|done]. apply plain_spec. tauto.
Qed.

Lemma normal_parts (p : string) : normal (rooted p) (path_parts p).
Proof.
  unfold path_parts. assert (H : Forall (fun x => contains_byte slash x = false) (split_byte slash p)).
  { apply Forall_forall. intros x. apply split_byte_parts. }
  revert H. generalize (split_byte slash p) (rooted p). intros l root.
  assert (H0 : normal root []) by constructor. revert H0. generalize (@nil string).
  induction l as [|x l IH]; intros out Ho Hl; [done|]. inversion_clear Hl. simpl. apply IH; [|done]. by apply normal_step.
Qed.

(** Reading the components of a clean path gives them back. *)
Lemma fold_normal (root : bool) (l : list string) : normal root l -> fold_left (path_step root) (rev l) [] = l.
Proof.
  intros Hn. induction Hn as [|l -> Hl|x l Hx Hn IH]; [done|..].
  - assert (H : forall l, Forall (eq "..") l -> fold_left (path_step false) (rev l) [] = l); [|by apply H; constructor].
    clear. intros l. induction 1 as [|x l <- Hl IH]; [done|]. simpl. rewrite fold_left_app, IH. by destruct Hl as [|y l <- Hl].
  - simpl. rewrite fold_left_app, IH. by apply step_plain.
Qed.

Lemma normal_slashes (root : bool) (l : list string) : normal root l -> Forall (fun x => contains_byte slash x = false) l.
Proof.
  induction 1 as [|l _ Hl|x l Hx _ IH]; constructor; try done.
  - eapply Forall_impl; [exact Hl|]. by intros x <-.
  - by apply plain_spec in Hx as (_ & _ & _ & ?).
Qed.

Lemma normal_nonempty (root : bool) (l : list string) : normal root l -> Forall (fun x => x <> "") l.
Proof.
  induction 1 as [|l _ Hl|x l Hx _ IH]; constructor; try done.
  - eapply Forall_impl; [exact Hl|]. by intros x <-.
  - by apply plain_spec in Hx as (? & _).
Qed.

Lemma rooted_text (root : bool) (l : list string) : normal root l -> rooted (path_text root l) = root.
Proof.
  intros Hn. unfold path_text. destruct root; [done|]. destruct l as [|x l]; [done|].
  assert (exists y t, rev (x :: l) = y :: t /\ y ∈ x :: l) as (y & t & E & Hy).
  { destruct (rev (x :: l)) as [|y t] eqn:E.
    - apply (f_equal (@length string)) in E. by rewrite length_rev in E.
    - exists y, t. split; [done|]. apply list_elem_of_In, in_rev. rewrite E. by left. }
  rewrite E. pose proof (normal_slashes _ _ Hn) as Hs. pose proof (normal_nonempty _ _ Hn) as Hne.
  rewrite Forall_forall in Hs, Hne. specialize (Hs y Hy). specialize (Hne y Hy).
  destruct y as [|a y]; [done|]. simpl in Hs. unfold rooted, has_prefix.
  assert (Ha : a <> slash) by (intros ->; by rewrite decide_True in Hs).
  assert (exists u, join "/" (String a y :: t) = String a u) as [u ->].
  { destruct t; [by eexists|]. rewrite join_app_str. by eexists. }
  simpl. rewrite decide_False; [done|]. intros <-. by apply Ha.
Qed.

Lemma parts_text (root : bool) (l : list string) : normal root l -> l <> [] -> path_parts (path_text root l) = l.
Proof.
  intros Hn Hne. unfold path_parts. rewrite rooted_text by done.
  assert (Hs : split_byte slash (join "/" (rev l)) = rev l).
  { apply split_join.
    - intros E. apply (f_equal (@length string)) in E. rewrite length_rev in E. by destruct l.
    - apply Forall_rev. by eapply normal_slashes. }
  unfold path_text. destruct root.
  - change ("/" +:+ join "/" (rev l)) with ("" +:+ String slash (join "/" (rev l))). rewrite split_byte_app, Hs. cbn [split_byte app fold_left].
    change (path_step true [] "") with (@nil string). by apply fold_normal.
  - destruct l as [|x l]; [done|]. rewrite Hs. by apply fold_normal.
Qed.

Lemma text_nonempty (root : bool) (l : list string) : normal root l -> path_text root l <> "".
Proof.
  intros Hn. unfold path_text. destruct root; [done|]. destruct l as [|x l]; [done|].
  destruct (rev (x :: l)) as [|y t] eqn:E.
  - apply (f_equal (@length string)) in E. by rewrite length_rev in E.
  - assert (Hy : y ∈ x :: l) by (apply list_elem_of_In, in_rev; rewrite E; by left).
    pose proof (normal_nonempty _ _ Hn) as Hne. rewrite Forall_forall in Hne. specialize (Hne y Hy).
    destruct y as [|a y]; [done|]. destruct t; [done|]. by rewrite join_app_str.
Qed.

Lemma Clean_dir (d : string) : clean_dir d -> Clean d = d.
Proof.
  intros (root & parts & Hn & Hne & ->). unfold Clean. rewrite decide_False by (by apply text_nonempty).
  by rewrite rooted_text, parts_text.
Qed.

Lemma clean_dir_nonempty (d : string) : clean_dir d -> d <> "".
Proof. intros (root & parts & Hn & _ & ->). by apply text_nonempty. Qed.

(** Clean is idempotent. *)
Lemma Clean_idem (p : string) : Clean (Clean p) = Clean p.
Proof.
  unfold Clean at 2 3. case_decide as Hp; [done|]. pose proof (normal_parts p) as Hn.
  destruct (path_parts p) as [|x l] eqn:E; [by destruct (rooted p)|]. apply Clean_dir. by exists (rooted p), (x :: l).
Qed.

(** ** A name below a directory *)

Lemma path_text_cons (root : bool) (x : string) (l : list string) :
  l <> [] -> path_text root (x :: l) = path_text root l +:+ "/" +:+ x.
Proof.
  intros Hne. unfold path_text. assert (Hr : rev l <> []).
  { intros E. apply (f_equal (@length string)) in E. rewrite length_rev in E. by destruct l. }
  cbn [rev]. rewrite join_last by done. destruct root; [by rewrite !app_assoc_str|]. by destruct l.
Qed.

Lemma has_prefix_app (s t : string) : s <> "" -> rooted (s +:+ t) = rooted s.
Proof. destruct s as [|a s]; [done|]. intros _. unfold rooted, has_prefix. simpl. by destruct (decide _). Qed.

Lemma parts_child (d x : string) : d <> "" -> plain x = true -> path_parts (d +:+ "/" +:+ x) = x :: path_parts d.
Proof.
  intros Hd Hx. unfold path_parts. rewrite has_prefix_app by done. change ("/" +:+ x) with (String slash x).
  rewrite split_byte_app, fold_left_app. apply plain_spec in Hx as Hx'. destruct Hx' as (_ & _ & _ & Hs).
  rewrite (split_byte_free slash x Hs). cbn [fold_left]. by apply step_plain.
Qed.

Lemma child_dir (d x : string) : clean_dir d -> plain x = true ->
  clean_dir (d +:+ "/" +:+ x) /\ Join d x = d +:+ "/" +:+ x /\ path_parent (d +:+ "/" +:+ x) = d.
Proof.
  intros Hd Hx. pose proof (clean_dir_nonempty _ Hd) as Hd0. assert (Hx0 : x <> "") by (by apply plain_spec in Hx as (? & _)).
  assert (Hc : clean_dir (d +:+ "/" +:+ x)).
  { destruct Hd as (root & parts & Hn & Hne & ->). exists root, (x :: parts).
    rewrite path_text_cons by done. split_and!; [by constructor|done|done]. }
  split_and!; [done|..].
  - unfold Join. rewrite !decide_False by done. by apply Clean_dir.
  - unfold path_parent. rewrite parts_child, has_prefix_app by done.
    destruct Hd as (root & parts & Hn & Hne & ->). by rewrite rooted_text, parts_text.
Qed.

(** The directory of chunks below any directory. *)
Lemma Join_clean_dir (d x : string) : d <> "" -> plain x = true -> clean_dir (Join d x).
Proof.
  intros Hd Hx. assert (Hx0 : x <> "") by (by apply plain_spec in Hx as (? & _)).
  unfold Join. rewrite !decide_False by done. unfold Clean. rewrite decide_False by (by destruct d).
  rewrite parts_child, has_prefix_app by done. exists (rooted d), (x :: path_parts d).
  split_and!; [|done|done]. constructor; [done|]. apply normal_parts.
Qed.

Lemma child_inj (d x y : string) : d +:+ "/" +:+ x = d +:+ "/" +:+ y -> x = y.
Proof. intros H. apply (app_inv_length d d) in H as [_ H]; [|done]. by injection H. Qed.

(** ** Numbers of chunks *)

Lemma pad_digits_length (w : nat) (n : N) : String.length (pad_digits w n) = w.
Proof. revert n. induction w as [|w IH]; intros n; [done|]. cbn [pad_digits]. rewrite length_app_str, IH. simpl. lia. Qed.

Lemma compare_refl_str (s : string) : String.compare s s = Eq.
Proof. induction s as [|a s IH]; [done|]. simpl. unfold Ascii.compare. by rewrite N.compare_refl. Qed.

Lemma compare_app_eq (s t u : string) : String.compare (s +:+ t) (s +:+ u) = String.compare t u.
Proof. induction s as [|a s IH]; [done|]. rewrite !app_cons_str. simpl. unfold Ascii.compare. by rewrite N.compare_refl. Qed.

Lemma compare_app_lt (s t u v : string) :
  String.length s = String.length t -> String.compare s t = Lt -> String.compare (s +:+ u) (t +:+ v) = Lt.
Proof.
  revert t. induction s as [|a s IH]; intros [|b t] Hl; try done. injection Hl as Hl. rewrite !app_cons_str. simpl.
  destruct (Ascii.compare a b); [|done|done]. by apply IH.
Qed.

Lemma byte_of_compare (m n : N) : (m < 256)%N -> (n < 256)%N -> Ascii.compare (byte_of m) (byte_of n) = (m ?= n)%N.
Proof. intros Hm Hn. unfold Ascii.compare, byte_of. by rewrite !N_ascii_embedding. Qed.

(** Padded numbers are in the order of their text. *)
Lemma pad_digits_lt (w : nat) (m n : N) :
  (m < n)%N -> (n < 10 ^ N.of_nat w)%N -> String.compare (pad_digits w m) (pad_digits w n) = Lt.
Proof.
  revert m n. induction w as [|w IH]; intros m n Hmn Hn; [simpl in Hn; lia|]. cbn [pad_digits].
  rewrite Nat2N.inj_succ, N.pow_succ_r' in Hn.
  pose proof (N.div_mod m 10 ltac:(lia)) as Em. pose proof (N.div_mod n 10 ltac:(lia)) as En.
  pose proof (N.mod_lt m 10 ltac:(lia)). pose proof (N.mod_lt n 10 ltac:(lia)).
  destruct (N.lt_trichotomy (m / 10) (n / 10)) as [Hlt|[Heq|Hgt]].
  - apply compare_app_lt; [by rewrite !pad_digits_length|]. apply IH; [done|]. apply N.Div0.div_lt_upper_bound; lia.
  - rewrite Heq, compare_app_eq. unfold str1. simpl. rewrite byte_of_compare by lia.
    destruct (N.compare_spec (48 + m mod 10) (48 + n mod 10)); [lia|done|lia].
  - pose proof (N.Div0.div_le_mono m n 10 ltac:(lia)). lia.
Qed.

Lemma format_06_lt (m n : Z) : 0 <= m -> m < n -> n < 1000000 -> String.compare (format_06 m) (format_06 n) = Lt.
Proof.
  intros H0 Hmn Hn. unfold format_06. destruct (Z.ltb_spec m 1000000); [|lia]. destruct (Z.ltb_spec n 1000000); [|lia].
  apply pad_digits_lt; simpl; lia.
Qed.

Lemma format_06_length (n : Z) : n < 1000000 -> String.length (format_06 n) = 6%nat.
Proof. intros Hn. unfold format_06. destruct (Z.ltb_spec n 1000000); [|lia]. apply pad_digits_length. Qed.

Lemma pad_digits_free (c : ascii) (w : nat) (n : N) : is_digit c = false -> contains_byte c (pad_digits w n) = false.
Proof.
  intros Hc. revert n. induction w as [|w IH]; intros n; [done|]. cbn [pad_digits]. rewrite contains_byte_app, IH. simpl.
  rewrite decide_False; [done|]. intros <-. pose proof (N.mod_lt n 10 ltac:(lia)) as Hm. revert Hm Hc. generalize (n mod 10)%N.
  intros k Hk. unfold is_digit, byte_between, code, byte_of. rewrite N_ascii_embedding by lia.
  destruct (N.leb_spec 48 (48 + k)), (N.leb_spec (48 + k) 57); done || lia.
Qed.

(** ** Sanitized names *)

Definition path_byte (c : ascii) : bool := is_alnum c || bool_decide (c = "_"%char).

Lemma map_alnum_bytes (k : nat) (s : string) : all_bytes path_byte (map_alnum k s) = true.
Proof.
  revert k. induction s as [|a s IH]; [done|]. intros [|k]; cbn [map_alnum]; [|apply IH].
  destruct (is_alnum a) eqn:E; cbn [all_bytes]; rewrite IH; unfold path_byte; by rewrite ?E.
Qed.

Lemma all_bytes_trim_left (f : ascii -> bool) (seqs : list string) (s : string) :
  all_bytes f s = true -> all_bytes f (trim_left seqs s) = true.
Proof.
  unfold trim_left. generalize (String.length s) as n. intros n. revert s. induction n as [|n IH]; intros s Hs; [done|].
  cbn [trim_left_fuel]. destruct (strip_any seqs s) as [r|] eqn:E; [|done]. apply IH.
  apply strip_any_Some in E as (p & _ & ->). clear IH. induction p as [|a p IH]; [done|]. apply IH.
  rewrite app_cons_str in Hs. simpl in Hs. by apply andb_true_iff in Hs as [_ ?].
Qed.

Lemma sanitizePath_bytes (h : string) : all_bytes path_byte (sanitizePath h) = true /\ sanitizePath h <> "".
Proof.
  unfold sanitizePath. case_decide as Hv; [done|]. split; [|done]. unfold trim_byte.
  rewrite all_bytes_rev. apply all_bytes_trim_left. rewrite all_bytes_rev. apply all_bytes_trim_left, map_alnum_bytes.
Qed.

Lemma sanitizePath_plain (h : string) : plain (sanitizePath h) = true.
Proof.
  destruct (sanitizePath_bytes h) as [Hb Hne]. apply plain_spec. split; [done|].
  assert (Hdot : contains_byte "."%char (sanitizePath h) = false) by (by apply (all_bytes_free path_byte)).
  assert (Hsl : contains_byte slash (sanitizePath h) = false) by (by apply (all_bytes_free path_byte)).
  split_and!; [intros E; by rewrite E in Hdot|intros E; by rewrite E in Hdot|done].
Qed.
