(* ===== verification/DiskStore.v ===== *)
(** The disk store: [src/internal/storage/disk.go].

    A store is a database of three tables and a directory of chunk files.  A
    save runs in a transaction of the database and changes files on its way, so
    a failure in the middle leaves the old tables and some new files.  Every
    statement and every file operation has a number, and a device tells which
    of them fail; a process that dies at an operation leaves what it leaves
    when that operation fails, since the transaction is rolled back. *)

From Stdlib Require Import Ascii String ZArith NArith Lia.
From S2P Require Import Prelude GoValue JsonText Storage Paths.

#[local] Set Warnings "-clear-no-such-hyp".

(** * Definitions *)

(** ** The database *)

(** A row of [shapes].  Time is in seconds; a column of documents holds the
    bytes of a message. *)
Record shapeRow : Type := mkShapeRow {
  row_hash : string;
  row_definition : raw;
  row_schema : raw;
  row_snapshot : raw;
  row_materialized : raw;
  row_current_offset : string;
  row_last_access : Z;
  row_generation : Z;
  row_deleted : Z;
  row_change_count : Z
}.

(** A row of [chunks], below its handle. *)
Record chunkRow : Type := mkChunkRow { chunk_seq : Z; chunk_path : string; message_count : Z }.

(** The tables, by their primary keys; the chunks of a handle are in the order
    of their numbers. *)
Record Tables : Type := mkTables {
  tbl_shapes : gmap string shapeRow;
  tbl_chunks : gmap string (list chunkRow);
  tbl_checkpoint : option RuntimeCheckpoint
}.

Definition empty_tables : Tables := mkTables ∅ ∅ None.

Definition chunk_rows (h : string) (t : Tables) : list chunkRow := default [] (tbl_chunks t !! h).

Definition set_shapes (m : gmap string shapeRow) (t : Tables) : Tables := mkTables m (tbl_chunks t) (tbl_checkpoint t).
Definition set_chunks (m : gmap string (list chunkRow)) (t : Tables) : Tables := mkTables (tbl_shapes t) m (tbl_checkpoint t).

(** ** Operations that can fail *)

Inductive diskError : Type :=
| ErrNotExist              (** os.ErrNotExist *)
| ErrNotEmpty              (** a directory that is not empty *)
| ErrMarshal               (** a message that is not JSON *)
| ErrUnmarshal             (** a chunk that is not an array *)
| ErrNotNull               (** a column without its value *)
| ErrHighBit               (** an unsigned number above the largest int64 *)
| ErrUnique                (** a primary key that is taken *)
| ErrTxDone                (** a statement after the end of its transaction *)
| ErrDevice (text : string).

(** A failure: its text, and how much of a file is written before it. *)
Record fault : Type := mkFault { fault_text : string; fault_written : option nat }.

(** What fails, the size of the database file, and the texts of the libraries'
    errors. *)
Class Device : Type := {
  fault_at : nat -> option fault;
  metadata_bytes : nat -> Z;
  error_text : diskError -> string
}.

(** The store, with the tables, what its transaction has made of them, and the
    files and directories of the file system by their clean paths. *)
Record DiskStore : Type := mkDiskStore {
  ds_dir : string;
  ds_chunkDir : string;
  ds_tables : Tables;
  ds_tx : option Tables;
  ds_files : gmap string string;
  ds_dirs : gset string;
  ds_step : nat
}.

Definition tick (s : DiskStore) : DiskStore :=
  mkDiskStore (ds_dir s) (ds_chunkDir s) (ds_tables s) (ds_tx s) (ds_files s) (ds_dirs s) (Datatypes.S (ds_step s)).
Definition set_files (f : gmap string string) (s : DiskStore) : DiskStore :=
  mkDiskStore (ds_dir s) (ds_chunkDir s) (ds_tables s) (ds_tx s) f (ds_dirs s) (ds_step s).
Definition set_dirs (d : gset string) (s : DiskStore) : DiskStore :=
  mkDiskStore (ds_dir s) (ds_chunkDir s) (ds_tables s) (ds_tx s) (ds_files s) d (ds_step s).
Definition set_tables (t : Tables) (x : option Tables) (s : DiskStore) : DiskStore :=
  mkDiskStore (ds_dir s) (ds_chunkDir s) t x (ds_files s) (ds_dirs s) (ds_step s).

Definition Io (A : Type) : Type := DiskStore -> result diskError A * DiskStore.

#[export] Instance io_ret : MRet Io := fun A a s => (Ok a, s).
#[export] Instance io_bind : MBind Io := fun A B f m s =>
  match m s with
  | (Err e, s') => (Err e, s')
  | (Ok a, s') => f a s'
  end.

Definition throw {A} (e : diskError) : Io A := fun s => (Err e, s).

Definition of_result {A} (r : result diskError A) : Io A := fun s => (r, s).

(** The error of an operation, for code that looks at it. *)
Definition catch {A} (m : Io A) : Io (result diskError A) := fun s => let '(r, s') := m s in (Ok r, s').

Definition with_store {A} (f : DiskStore -> Io A) : Io A := fun s => f s s.

Fixpoint for_each {A} (f : A -> Io unit) (l : list A) : Io unit :=
  match l with
  | [] => mret tt
  | x :: l' => _ ← f x; for_each f l'
  end.

Section device.
Context `{Device}.

Definition attempt {A} (f : DiskStore -> result diskError A * DiskStore) : Io A := fun s =>
  match fault_at (ds_step s) with
  | Some e => (Err (ErrDevice (fault_text e)), tick s)
  | None => f (tick s)
  end.

(** ** Statements *)

Definition query {A} (f : Tables -> A) : Io A := attempt (fun s => (Ok (f (ds_tables s)), s)).

(** A statement outside a transaction is committed by itself. *)
Definition exec (f : Tables -> result diskError Tables) : Io unit := attempt (fun s =>
  match f (ds_tables s) with
  | Err e => (Err e, s)
  | Ok t => (Ok tt, set_tables t (ds_tx s) s)
  end).

(** The statements of a transaction. *)
Definition tx_query {A} (f : Tables -> A) : Io A := attempt (fun s =>
  match ds_tx s with
  | Some t => (Ok (f t), s)
  | None => (Err ErrTxDone, s)
  end).

Definition tx_exec (f : Tables -> result diskError Tables) : Io unit := attempt (fun s =>
  match ds_tx s with
  | Some t => match f t with Err e => (Err e, s) | Ok u => (Ok tt, set_tables (ds_tables s) (Some u) s) end
  | None => (Err ErrTxDone, s)
  end).

Definition begin_tx : Io unit := attempt (fun s => (Ok tt, set_tables (ds_tables s) (Some (ds_tables s)) s)).

Definition commit : Io unit := attempt (fun s =>
  match ds_tx s with
  | Some t => (Ok tt, set_tables t None s)
  | None => (Err ErrTxDone, s)
  end).

(** The deferred rollback, which does nothing after the commit. *)
Definition rollback_after {A} (body : Io A) : Io A :=
  fun s => let '(r, s') := body s in (r, set_tables (ds_tables s') None s').

Definition in_tx {A} (body : Io A) : Io A := _ ← begin_tx; rollback_after body.

(** ** Files *)

Fixpoint tails {A} (l : list A) : list (list A) :=
  match l with [] => [] | _ :: l' => l :: tails l' end.

(** A directory and those above it. *)
Definition ancestors (p : string) : list string := map (path_text (rooted p)) (tails (path_parts p)).

Definition below (d p : string) : bool := has_prefix (d +:+ "/") p.

Definition os_MkdirAll (p : string) : Io unit :=
  attempt (fun s => (Ok tt, set_dirs (ds_dirs s ∪ list_to_set (ancestors p)) s)).

(** The file is truncated first; a failing write leaves a part of the data. *)
Definition os_WriteFile (p data : string) : Io unit := fun s =>
  let put d := set_files (<[Clean p := d]> (ds_files s)) (tick s) in
  if decide (path_parent (Clean p) ∈ ds_dirs s) then
    match fault_at (ds_step s) with
    | Some e => (Err (ErrDevice (fault_text e)), match fault_written e with Some n => put (take_bytes n data) | None => tick s end)
    | None => (Ok tt, put data)
    end
  else (Err ErrNotExist, tick s).

Definition os_Rename (p q : string) : Io unit := attempt (fun s =>
  match ds_files s !! Clean p with
  | Some data => (Ok tt, set_files (<[Clean q := data]> (delete (Clean p) (ds_files s))) s)
  | None => (Err ErrNotExist, s)
  end).

Definition is_empty_dir (p : string) (s : DiskStore) : bool :=
  bool_decide (filter (fun q => below p q = true) (map_to_list (ds_files s)).*1 = [] /\
               filter (fun q => below p q = true) (elements (ds_dirs s)) = []).

Definition os_Remove (p : string) : Io unit := attempt (fun s =>
  match ds_files s !! Clean p with
  | Some _ => (Ok tt, set_files (delete (Clean p) (ds_files s)) s)
  | None =>
      if decide (Clean p ∈ ds_dirs s) then
        if is_empty_dir (Clean p) s then (Ok tt, set_dirs (ds_dirs s ∖ {[Clean p]}) s) else (Err ErrNotEmpty, s)
      else (Err ErrNotExist, s)
  end).

Definition os_ReadFile (p : string) : Io string := attempt (fun s =>
  match ds_files s !! Clean p with
  | Some data => (Ok data, s)
  | None => (Err ErrNotExist, s)
  end).

(** Removing what is not there is no error; whether something was removed or
    missing makes no difference to the caller. *)
Definition remove_if_there (p : string) : Io unit :=
  r ← catch (os_Remove p);
  match r with
  | Ok _ | Err ErrNotExist => mret tt
  | Err e => throw e
  end.

Definition removeChunks (paths : list string) : Io unit := for_each remove_if_there paths.

(** ** Messages *)

Definition boolToInt (value : bool) : Z := if value then 1 else 0.

(** json.Marshal of the messages; one without bytes is written as null. *)
Definition marshal_raw (r : raw) : result diskError json :=
  match r with
  | RawEmpty => Ok JNull
  | RawJson j => Ok j
  | RawInvalid _ => Err ErrMarshal
  end.

Fixpoint marshal_raws (l : list raw) : result diskError (list json) :=
  match l with
  | [] => Ok []
  | r :: l' =>
      match marshal_raw r, marshal_raws l' with
      | Ok j, Ok js => Ok (j :: js)
      | Err e, _ | _, Err e => Err e
      end
  end.

Definition encode_chunk (l : list raw) : result diskError string :=
  match marshal_raws l with
  | Ok js => Ok (json_print (JArr js))
  | Err e => Err e
  end.

Definition decode_chunk (data : string) : result diskError (list raw) :=
  match parse_json data with
  | Some (JArr l) => Ok (map RawJson l)
  | Some JNull => Ok []
  | _ => Err ErrUnmarshal
  end.

Definition chunk_name (seq : Z) : string := format_06 seq +:+ ".json".

Definition writeChunk (h : string) (seq : Z) (changes : list raw) : Io string :=
  with_store (fun s =>
    let handleDir := Join (ds_chunkDir s) (sanitizePath h) in
    _ ← os_MkdirAll handleDir;
    let path := Join handleDir (chunk_name seq) in
    let tempPath := path +:+ ".tmp" in
    encoded ← of_result (encode_chunk changes);
    _ ← os_WriteFile tempPath encoded;
    _ ← os_Rename tempPath path;
    mret path).

(** ** Saving a shape *)

Definition next_seq (next : Z) (r : chunkRow) : Z := if next <=? chunk_seq r then chunk_seq r + 1 else next.

Definition loadChunkMetadata (h : string) : Io (Z * Z * list string) :=
  count ← tx_query (fun t => default 0 (row_change_count <$> tbl_shapes t !! h));
  rows ← tx_query (chunk_rows h);
  mret (count, fold_left next_seq rows 0, map chunk_path rows).

Definition has_bytes (r : raw) : bool := match r with RawEmpty => false | _ => true end.

(** The row of a shape: a message without bytes is NULL. *)
Definition shape_row (p : PersistedShape) (count : Z) : result diskError shapeRow :=
  if int64_max <? ps_Generation p then Err ErrHighBit
  else if has_bytes (ps_Definition p) && has_bytes (ps_Schema p) && has_bytes (ps_Snapshot p) && has_bytes (ps_Materialized p) then
    Ok (mkShapeRow (ps_Hash p) (ps_Definition p) (ps_Schema p) (ps_Snapshot p) (ps_Materialized p) (ps_CurrentOffset p)
          (ps_LastAccess p / 1000000000) (ps_Generation p) (boolToInt (ps_Deleted p)) count)
  else Err ErrNotNull.

Definition upsert_shape (p : PersistedShape) (count : Z) (t : Tables) : result diskError Tables :=
  match shape_row p count with
  | Ok row => Ok (set_shapes (<[ps_Handle p := row]> (tbl_shapes t)) t)
  | Err e => Err e
  end.

Definition delete_chunks (h : string) (t : Tables) : result diskError Tables :=
  Ok (set_chunks (delete h (tbl_chunks t)) t).

(** A row enters the index at its place. *)
Fixpoint insert_row (r : chunkRow) (l : list chunkRow) : result diskError (list chunkRow) :=
  match l with
  | [] => Ok [r]
  | x :: l' =>
      if chunk_seq r =? chunk_seq x then Err ErrUnique
      else if chunk_seq r <? chunk_seq x then Ok (r :: x :: l')
      else match insert_row r l' with Ok l'' => Ok (x :: l'') | Err e => Err e end
  end.

Definition insert_chunk (h : string) (r : chunkRow) (t : Tables) : result diskError Tables :=
  match insert_row r (chunk_rows h t) with
  | Ok l => Ok (set_chunks (<[h := l]> (tbl_chunks t)) t)
  | Err e => Err e
  end.

Definition reset_chunks (h : string) (paths : list string) : Io unit :=
  _ ← removeChunks paths; tx_exec (delete_chunks h).

(** The part of a save before its commit. *)
Definition save_body (p : PersistedShape) : Io unit :=
  '(existingCount, nextSeq, existingChunks) ← loadChunkMetadata (ps_Handle p);
  '(existingCount, nextSeq, changes) ←
    (if ps_Deleted p then _ ← reset_chunks (ps_Handle p) existingChunks; mret (0, 0, [])
     else mret (existingCount, nextSeq, ps_Changes p));
  '(existingCount, nextSeq) ←
    (if Z.of_nat (length changes) <? existingCount then _ ← reset_chunks (ps_Handle p) existingChunks; mret (0, 0)
     else mret (existingCount, nextSeq));
  _ ← tx_exec (upsert_shape p (Z.of_nat (length changes)));
  if existingCount <? Z.of_nat (length changes) then
    chunkPath ← writeChunk (ps_Handle p) nextSeq (drop (Z.to_nat existingCount) changes);
    tx_exec (insert_chunk (ps_Handle p) (mkChunkRow nextSeq chunkPath (Z.of_nat (length changes) - existingCount)))
  else mret tt.

Definition disk_SaveShape (p : PersistedShape) : Io unit := in_tx (_ ← save_body p; commit).

(** ** Loading *)

Fixpoint read_chunks (paths : list string) : Io (list raw) :=
  match paths with
  | [] => mret []
  | path :: rest =>
      data ← os_ReadFile path;
      chunk ← of_result (decode_chunk data);
      changes ← read_chunks rest;
      mret (chunk ++ changes)
  end.

Definition loadShapeChanges (h : string) : Io (list raw) :=
  paths ← query (fun t => map chunk_path (chunk_rows h t));
  read_chunks (sort_strings paths).

Definition row_shape (h : string) (row : shapeRow) (changes : list raw) : PersistedShape :=
  mkPersisted h (row_hash row) (row_definition row) (row_schema row) (row_snapshot row) (row_materialized row)
    (row_current_offset row) (row_last_access row * 1000000000) (row_generation row) (row_deleted row =? 1) changes.

Definition invalid_changes : list raw := [RawInvalid "{invalid"].

Fixpoint load_rows (rows : list (string * shapeRow)) : Io (list PersistedShape) :=
  match rows with
  | [] => mret []
  | (h, row) :: rest =>
      r ← catch (loadShapeChanges h);
      shapes ← load_rows rest;
      mret (row_shape h row (match r with Ok changes => changes | Err _ => invalid_changes end) :: shapes)
  end.

(** [SELECT ... FROM shapes ORDER BY handle]. *)
Definition shape_rows (t : Tables) : list (string * shapeRow) :=
  omap (fun h => row ← tbl_shapes t !! h; Some (h, row)) (sorted_keys (tbl_shapes t)).

Definition disk_LoadShapes : Io (list PersistedShape) :=
  rows ← query shape_rows;
  load_rows rows.

(** ** The checkpoint *)

Definition disk_LoadRuntimeCheckpoint : Io (option RuntimeCheckpoint) := query tbl_checkpoint.

Definition disk_SaveRuntimeCheckpoint (c : RuntimeCheckpoint) : Io unit :=
  exec (fun t => Ok (mkTables (tbl_shapes t) (tbl_chunks t) (Some c))).

(** ** Statistics *)

(** The files below a directory, in the order of filepath.WalkDir: a slash is
    before every other byte. *)
Definition walk_key (p : string) : string := replace_byte slash (str1 (byte_of 0)) p.

Definition walk_files (d : string) (files : gmap string string) : list string :=
  merge_sort (fun p q => String.le (walk_key p) (walk_key q))
    (filter (fun p => below d p = true) (map_to_list files).*1).

Definition file_bytes (files : gmap string string) (p : string) : Z := Z.of_nat (String.length (default "" (files !! p))).

Definition sum_Z (l : list Z) : Z := fold_left Z.add l 0.

Definition directorySize (d : string) (files : gmap string string) : Z := sum_Z (map (file_bytes files) (walk_files d files)).

Definition count_rows (n : Z) (t : Tables) : Z :=
  Z.of_nat (length (filter (fun row => row_deleted row = n) (map_to_list (tbl_shapes t)).*2)).

Definition all_chunks (t : Tables) : list chunkRow := mjoin (map_to_list (tbl_chunks t)).*2.

Definition disk_Stats : Io StoreStats :=
  '(shapes, active, deleted) ← query (fun t => (Z.of_nat (size (tbl_shapes t)), count_rows 0 t, count_rows 1 t));
  '(chunks, changes) ← query (fun t => (Z.of_nat (length (all_chunks t)), sum_Z (map message_count (all_chunks t))));
  with_store (fun s =>
    let metadata := metadata_bytes (ds_step s) in
    let chunkBytes := directorySize (ds_chunkDir s) (ds_files s) in
    checkpoint ← disk_LoadRuntimeCheckpoint;
    mret (mkStats "disk" shapes active deleted chunks changes metadata chunkBytes (metadata + chunkBytes)
      (bool_decide (is_Some checkpoint)) (default zero_checkpoint checkpoint))).

(** ** Compaction *)

(** The handle is in [shapes], and not deleted. *)
Definition has_live_shape (t : Tables) (h : string) : bool :=
  match tbl_shapes t !! h with Some row => negb (row_deleted row =? 1) | None => false end.

Definition delete_dead_chunks (t : Tables) : result diskError Tables :=
  Ok (set_chunks (filter (fun kv => has_live_shape t kv.1 = true) (tbl_chunks t)) t).

Definition reset_count (row : shapeRow) : shapeRow :=
  if row_deleted row =? 1 then
    mkShapeRow (row_hash row) (row_definition row) (row_schema row) (row_snapshot row) (row_materialized row)
      (row_current_offset row) (row_last_access row) (row_generation row) (row_deleted row) 0
  else row.

Definition liveChunkPaths : Io (gset string) :=
  query (fun t => list_to_set (map (fun r => Clean (chunk_path r)) (all_chunks t))).

(** The walk: what it has removed so far is its result. *)
Fixpoint remove_unreferenced (live : gset string) (paths : list string) (result : CompactionResult) : Io CompactionResult :=
  match paths with
  | [] => mret result
  | path :: rest =>
      if decide (Clean path ∈ live) then remove_unreferenced live rest result
      else with_store (fun s =>
        let bytes := file_bytes (ds_files s) path in
        _ ← remove_if_there path;
        remove_unreferenced live rest (mkCompaction (RemovedChunks result + 1) (RemovedBytes result + bytes)))
  end.

Definition removeUnreferencedChunkFiles (live : gset string) : Io CompactionResult :=
  paths ← attempt (fun s => (Ok (walk_files (ds_chunkDir s) (ds_files s)), s));
  remove_unreferenced live paths (mkCompaction 0 0).

(** The directories in the directory of chunks. *)
Definition is_child (d p : string) : bool :=
  match strip_prefix (d +:+ "/") p with Some name => plain name | None => false end.

Definition child_dirs (d : string) (dirs : gset string) : list string :=
  sort_strings (filter (fun p => is_child d p = true) (elements dirs)).

Definition remove_if_empty (p : string) : Io unit :=
  r ← catch (os_Remove p);
  match r with
  | Ok _ | Err ErrNotExist | Err ErrNotEmpty => mret tt
  | Err e => throw e
  end.

Definition removeEmptyChunkDirs : Io unit :=
  entries ← attempt (fun s => (Ok (child_dirs (ds_chunkDir s) (ds_dirs s)), s));
  for_each remove_if_empty entries.

Definition disk_Compact : Io CompactionResult :=
  _ ← in_tx (
    _ ← tx_exec delete_dead_chunks;
    _ ← tx_exec (fun t => Ok (set_shapes (reset_count <$> tbl_shapes t) t));
    commit);
  livePaths ← liveChunkPaths;
  result ← removeUnreferencedChunkFiles livePaths;
  _ ← catch removeEmptyChunkDirs;
  mret result.

(** ** Opening *)

(** What is on the disk: databases, files and directories. *)
Record Medium : Type := mkMedium {
  md_databases : gmap string Tables;
  md_files : gmap string string;
  md_dirs : gset string
}.

Definition database_path (dir : string) : string := Join dir "metadata.sqlite".

(** The statements create what is missing: a new database has empty tables. *)
Definition initDiskSchema : Io unit := for_each (fun _ => exec Ok) (seq 0 4).

Definition open_store (dir : string) (databases : gmap string Tables) : Io unit :=
  let dir := if is_blank dir then ".postgres-sync-go" else dir in
  _ ← os_MkdirAll dir;
  let chunkDir := Join dir "chunks" in
  _ ← os_MkdirAll chunkDir;
  _ ← attempt (fun s =>
    (Ok tt, mkDiskStore dir chunkDir (default empty_tables (databases !! database_path dir)) None (ds_files s) (ds_dirs s) (ds_step s)));
  initDiskSchema.

Definition NewDiskStore (dir : string) (m : Medium) : result diskError DiskStore :=
  match open_store dir (md_databases m) (mkDiskStore "" "" empty_tables None (md_files m) (md_dirs m) 0) with
  | (Ok _, s) => Ok s
  | (Err e, _) => Err e
  end.

(** What an end of the process leaves on the disk. *)
Definition disk_Close (s : DiskStore) : Medium :=
  mkMedium {[database_path (ds_dir s) := ds_tables s]} (ds_files s) (ds_dirs s).

(** ** The interface *)

Definition error_of {A} (r : result diskError A) : option string :=
  match r with Ok _ => None | Err e => Some (error_text e) end.

Definition text_result {A} (r : result diskError A) : result string A :=
  match r with Ok a => Ok a | Err e => Err (error_text e) end.

(** An operation that only reads leaves the store as it was. *)
#[export] Instance disk_Store : Store DiskStore := {
  Kind := fun _ => "disk";
  LoadShapes := fun s => text_result (disk_LoadShapes s).1;
  SaveShape := fun p s => let '(r, s') := disk_SaveShape p s in (s', error_of r);
  LoadRuntimeCheckpoint := fun s => text_result (disk_LoadRuntimeCheckpoint s).1;
  SaveRuntimeCheckpoint := fun c s => let '(r, s') := disk_SaveRuntimeCheckpoint c s in (s', error_of r);
  Stats := fun s => text_result (disk_Stats s).1;
  Compact := fun s => let '(r, s') := disk_Compact s in (s', text_result r)
}.
End device.
