(* ===== verification/DiskLaws.v ===== *)
(** What the disk store promises: [src/internal/storage/disk.go].

    [disk_shapes] reads the tables and the files as a map of shapes.  A save is
    an insertion into that map, a load lists it, a compaction leaves it as it
    is and no file without a row; and an operation that fails, or a process
    that dies in its middle, changes no other shape. *)

From Stdlib Require Import Ascii String ZArith NArith Lia.
From S2P Require Import Prelude GoValue JsonText Storage Paths DiskStore.

#[local] Set Warnings "-clear-no-such-hyp".

(** * Definitions *)

(** ** What the disk holds *)

Fixpoint read_all (files : gmap string string) (paths : list string) : result diskError (list raw) :=
  match paths with
  | [] => Ok []
  | path :: rest =>
      match files !! Clean path with
      | None => Err ErrNotExist
      | Some data =>
          match decode_chunk data, read_all files rest with
          | Ok chunk, Ok changes => Ok (chunk ++ changes)
          | Err e, _ | _, Err e => Err e
          end
      end
  end.

Definition stored_changes (s : DiskStore) (h : string) : result diskError (list raw) :=
  read_all (ds_files s) (sort_strings (map chunk_path (chunk_rows h (ds_tables s)))).

Definition or_invalid (r : result diskError (list raw)) : list raw :=
  match r with Ok changes => changes | Err _ => invalid_changes end.

Definition disk_shapes (s : DiskStore) : gmap string PersistedShape :=
  map_imap (fun h row => Some (row_shape h row (or_invalid (stored_changes s h)))) (tbl_shapes (ds_tables s)).

(** What is kept of a shape: the time to the second, and no change of a
    deleted one. *)
Definition on_disk (p : PersistedShape) : PersistedShape :=
  mkPersisted (ps_Handle p) (ps_Hash p) (ps_Definition p) (ps_Schema p) (ps_Snapshot p) (ps_Materialized p)
    (ps_CurrentOffset p) (ps_LastAccess p / 1000000000 * 1000000000) (ps_Generation p) (ps_Deleted p)
    (if ps_Deleted p then [] else ps_Changes p).

Definition with_changes (p : PersistedShape) (changes : list raw) : PersistedShape :=
  mkPersisted (ps_Handle p) (ps_Hash p) (ps_Definition p) (ps_Schema p) (ps_Snapshot p) (ps_Materialized p)
    (ps_CurrentOffset p) (ps_LastAccess p) (ps_Generation p) (ps_Deleted p) changes.

(** A shape whose chunks cannot be read. *)
Definition unreadable (p : PersistedShape) : PersistedShape := with_changes p invalid_changes.

(** ** The invariant *)

Definition chunk_file (d h : string) (seq : Z) : string := d +:+ "/" +:+ sanitizePath h +:+ "/" +:+ chunk_name seq.

(** The largest number of chunks whose paths are in the order of their
    numbers. *)
Definition max_chunks : nat := N.to_nat 1000000.

(** A shape that has chunks is live and counts at least as many changes; the
    chunks are numbered from zero and lie at their paths; no two shapes share a
    directory; what can be read of a log is as long as its count. *)
Record disk_ok (s : DiskStore) : Prop := {
  ok_dir : clean_dir (ds_chunkDir s);
  ok_tx : ds_tx s = None;
  ok_bound h : (length (chunk_rows h (ds_tables s)) <= max_chunks)%nat;
  ok_rows h i r : chunk_rows h (ds_tables s) !! i = Some r ->
    chunk_seq r = Z.of_nat i /\ chunk_path r = chunk_file (ds_chunkDir s) h (Z.of_nat i);
  ok_shape h : chunk_rows h (ds_tables s) <> [] ->
    exists row, tbl_shapes (ds_tables s) !! h = Some row /\ row_deleted row = 0 /\ Z.of_nat (length (chunk_rows h (ds_tables s))) <= row_change_count row;
  ok_distinct h k : is_Some (tbl_shapes (ds_tables s) !! h) -> is_Some (tbl_shapes (ds_tables s) !! k) ->
    sanitizePath h = sanitizePath k -> h = k;
  ok_count h row l : tbl_shapes (ds_tables s) !! h = Some row -> stored_changes s h = Ok l ->
    row_change_count row = Z.of_nat (length l);
  ok_files p : is_Some (ds_files s !! p) -> Clean p = p
}.

(** ** What a save is given *)

(** Messages are in an array. *)
Definition message_depth : nat := N.to_nat 9999.

(** A message that is read back as it was written. *)
Definition message_ok (r : raw) : Prop :=
  match r with RawJson j => json_ok message_depth j = true /\ reread j = j | _ => False end.

(** There is a place for the shape: no other shape has its directory, and its
    directory has room. *)
Definition placed (s : DiskStore) (p : PersistedShape) : Prop :=
  (forall k, is_Some (tbl_shapes (ds_tables s) !! k) -> sanitizePath k = sanitizePath (ps_Handle p) -> k = ps_Handle p) /\
  (length (chunk_rows (ps_Handle p) (ds_tables s)) < max_chunks)%nat.

(** The shape fits: its messages are read back, and there is a place. *)
Definition accepts (s : DiskStore) (p : PersistedShape) : Prop :=
  Forall message_ok (ps_Changes p) /\ placed s p.

(** The log of the shape is dropped, or it extends the stored one. *)
Definition follows (s : DiskStore) (p : PersistedShape) : Prop :=
  ps_Deleted p = true \/ ps_Changes p = [] \/
  exists l, stored_changes s (ps_Handle p) = Ok l /\ l `prefix_of` ps_Changes p.

(** * Lemmas *)

(** ** Running operations *)

Definition runs {A} (m : Io A) (s : DiskStore) (Q : result diskError A -> DiskStore -> Prop) : Prop := Q (m s).1 (m s).2.

Lemma runs_bind {A B} (m : Io A) (f : A -> Io B) s (Q : result diskError B -> DiskStore -> Prop) :
  runs m s (fun r s' => match r with Ok a => runs (f a) s' Q | Err e => Q (Err e) s' end) -> runs (m ≫= f) s Q.
Proof. unfold runs, mbind, io_bind. by destruct (m s) as [[e|a] s']. Qed.

Lemma runs_ret {A} (a : A) s (Q : result diskError A -> DiskStore -> Prop) : Q (Ok a) s -> runs (mret a) s Q.
Proof. done. Qed.

Lemma runs_mono {A} (m : Io A) s (P Q : result diskError A -> DiskStore -> Prop) :
  runs m s P -> (forall r s', P r s' -> Q r s') -> runs m s Q.
Proof. unfold runs. auto. Qed.

Lemma runs_catch {A} (m : Io A) s (Q : result diskError (result diskError A) -> DiskStore -> Prop) :
  runs m s (fun r s' => Q (Ok r) s') -> runs (catch m) s Q.
Proof. unfold runs, catch. by destruct (m s). Qed.

Lemma runs_with_store {A} (f : DiskStore -> Io A) s (Q : result diskError A -> DiskStore -> Prop) :
  runs (f s) s Q -> runs (with_store f) s Q.
Proof. done. Qed.

(** What no operation below a save changes. *)
Record keeps (s s' : DiskStore) : Prop := {
  keeps_dir : ds_dir s' = ds_dir s;
  keeps_chunkDir : ds_chunkDir s' = ds_chunkDir s;
  keeps_tables : ds_tables s' = ds_tables s
}.

#[export] Instance keeps_preorder : PreOrder keeps.
Proof. split; [done|]. intros s1 s2 s3 [] []. constructor; congruence. Qed.

Section device.
Context `{Device}.

Lemma runs_attempt {A} (f : DiskStore -> result diskError A * DiskStore) s (Q : result diskError A -> DiskStore -> Prop) :
  (forall t, Q (Err (ErrDevice t)) (tick s)) -> Q (f (tick s)).1 (f (tick s)).2 -> runs (attempt f) s Q.
Proof. unfold runs, attempt. intros He Hf. destruct (fault_at _); [apply He|done]. Qed.

Lemma runs_query {A} (f : Tables -> A) s (Q : result diskError A -> DiskStore -> Prop) :
  (forall t, Q (Err (ErrDevice t)) (tick s)) -> Q (Ok (f (ds_tables s))) (tick s) -> runs (query f) s Q.
Proof. intros He Hq. by apply runs_attempt. Qed.

Lemma runs_tx_query {A} (f : Tables -> A) s t (Q : result diskError A -> DiskStore -> Prop) :
  ds_tx s = Some t -> (forall x, Q (Err (ErrDevice x)) (tick s)) -> Q (Ok (f t)) (tick s) -> runs (tx_query f) s Q.
Proof. intros Ht He Hq. apply runs_attempt; [done|]. cbn [ds_tx tick]. by rewrite Ht. Qed.

(** A statement in a transaction. *)
Lemma runs_tx_exec (f : Tables -> result diskError Tables) s t (Q : result diskError unit -> DiskStore -> Prop) :
  ds_tx s = Some t -> (forall e, Q (Err e) (tick s)) ->
  (forall u, f t = Ok u -> Q (Ok tt) (set_tables (ds_tables s) (Some u) (tick s))) -> runs (tx_exec f) s Q.
Proof.
  intros Ht He Hq. apply runs_attempt; [done|]. cbn [ds_tx ds_tables tick]. rewrite Ht.
  destruct (f t) as [e|u] eqn:E; [apply He|]. by apply Hq.
Qed.

(** ** Removing files *)

(** The files are as before but for those that are gone. *)
Definition removed (s s' : DiskStore) (gone : list string) : Prop :=
  forall q, ds_files s' !! q = if decide (q ∈ map Clean gone) then None else ds_files s !! q.

Lemma removed_nil (s s' : DiskStore) : ds_files s' = ds_files s -> removed s s' [].
Proof. intros He q. rewrite He. by case_decide as Hq; [apply not_elem_of_nil in Hq|]. Qed.

Lemma removed_app (s1 s2 s3 : DiskStore) (l1 l2 : list string) :
  removed s1 s2 l1 -> removed s2 s3 l2 -> removed s1 s3 (l1 ++ l2).
Proof.
  intros H1 H2 q. rewrite H2, H1. rewrite map_app. repeat case_decide; rewrite elem_of_app in *; tauto.
Qed.

Lemma remove_if_there_spec (p : string) (s : DiskStore) :
  runs (remove_if_there p) s (fun r s' => keeps s s' /\ ds_tx s' = ds_tx s /\
    removed s s' (match r with Ok _ => [p] | Err _ => [] end)).
Proof.
  unfold remove_if_there. apply runs_bind, runs_catch. apply runs_attempt.
  { intros t. cbn. split_and!; [done|done|]. by apply removed_nil. }
  cbn [ds_files tick ds_dirs]. destruct (ds_files s !! Clean p) as [data|] eqn:E.
  - cbn. split_and!; [done|done|]. intros q. cbn. rewrite lookup_delete.
    repeat case_decide; rewrite list_elem_of_singleton in *; congruence.
  - assert (Hnone : forall s', ds_files s' = ds_files s -> removed s s' [p]).
    { intros s' Hs' q. rewrite Hs'. cbn [map]. case_decide as Hq; [|done]. apply list_elem_of_singleton in Hq as ->. done. }
    case_decide; [destruct (is_empty_dir _ _)|]; cbn; (split_and!; [done|done|]); auto; by apply removed_nil.
Qed.

Lemma removeChunks_spec (paths : list string) (s : DiskStore) :
  runs (removeChunks paths) s (fun r s' => keeps s s' /\ ds_tx s' = ds_tx s /\
    exists gone, gone `prefix_of` paths /\ removed s s' gone /\ (r = Ok tt -> gone = paths)).
Proof.
  revert s. induction paths as [|p paths IH]; intros s.
  - apply runs_ret. split_and!; [done|done|]. exists []. split_and!; [done|by apply removed_nil|done].
  - apply runs_bind. eapply runs_mono; [apply remove_if_there_spec|]. intros r s1 (Hk & Ht & Hr). destruct r as [e|[]].
    + split_and!; [done|done|]. exists []. split_and!; [apply prefix_nil|done|done].
    + eapply runs_mono; [apply IH|]. intros r s2 (Hk2 & Ht2 & gone & Hg & Hr2 & Ho). split_and!; [by etrans|congruence|].
      exists (p :: gone). split_and!; [by apply prefix_cons|exact (removed_app _ _ _ [p] _ Hr Hr2)|intros ->; by rewrite Ho].
Qed.

Lemma reset_chunks_spec (h : string) (paths : list string) (s : DiskStore) (t : Tables) :
  ds_tx s = Some t ->
  runs (reset_chunks h paths) s (fun r s' => keeps s s' /\
    exists gone, gone `prefix_of` paths /\ removed s s' gone /\
    (r = Ok tt -> gone = paths /\ ds_tx s' = Some (set_chunks (delete h (tbl_chunks t)) t))).
Proof.
  intros Ht. apply runs_bind. eapply runs_mono; [apply removeChunks_spec|].
  intros [e|[]] s1 (Hk & Ht1 & gone & Hg & Hr & Ho).
  - split; [done|]. exists gone. by split_and!.
  - eapply runs_tx_exec; [by rewrite Ht1|..].
    + intros e. split; [by destruct Hk|]. exists gone. by split_and!.
    + intros u [= <-]. split; [by destruct Hk|]. exists gone. split_and!; [done|done|]. intros _. auto.
Qed.

(** ** Writing a chunk *)

Lemma chunk_name_plain (seq : Z) : 0 <= seq -> seq < 1000000 ->
  plain (chunk_name seq) = true /\ plain (chunk_name seq +:+ ".tmp") = true.
Proof.
  intros H0 Hs. assert (Hl : String.length (chunk_name seq) = 11%nat).
  { unfold chunk_name. by rewrite length_app_str, format_06_length. }
  assert (Hc : contains_byte slash (chunk_name seq) = false).
  { unfold chunk_name. rewrite contains_byte_app. unfold format_06. destruct (Z.ltb_spec seq 1000000); [|lia].
    by rewrite pad_digits_free. }
  assert (Hshort : forall x, (2 < String.length x)%nat -> contains_byte slash x = false -> plain x = true).
  { intros x Hx Hf. apply plain_spec. split_and!; try done; intros ->; simpl in Hx; lia. }
  split; apply Hshort; [lia|done| |].
  - rewrite length_app_str. lia.
  - by rewrite contains_byte_app, Hc.
Qed.

Lemma marshal_raws_ok (l : list raw) :
  Forall message_ok l -> exists js, marshal_raws l = Ok js /\ l = map RawJson js /\ Forall (fun j => json_ok message_depth j = true /\ reread j = j) js.
Proof.
  induction 1 as [|r l Hr _ (js & E & -> & Hjs)]; [by exists []|]. destruct r as [|j|]; try done.
  exists (j :: js). cbn. rewrite E. split_and!; [done|done|by constructor].
Qed.

(** What is written is read back. *)
Lemma encode_decode_chunk (l : list raw) :
  Forall message_ok l -> exists data, encode_chunk l = Ok data /\ decode_chunk data = Ok l.
Proof.
  intros (js & E & -> & Hjs)%marshal_raws_ok. unfold encode_chunk. rewrite E. eexists. split; [done|].
  unfold decode_chunk. rewrite (parse_print (Datatypes.S message_depth)).
  - cbn [reread]. f_equal. f_equal. rewrite <- (map_id js) at 2. apply map_ext_Forall. eapply Forall_impl; [exact Hjs|]. by intros j [_ ?].
  - apply forallb_forall. intros j Hj%list_elem_of_In. rewrite Forall_forall in Hjs. by apply Hjs.
  - done.
Qed.

Lemma ancestors_self (d : string) : clean_dir d -> d ∈ ancestors d.
Proof.
  intros (root & parts & Hn & Hne & ->). unfold ancestors. rewrite rooted_text, parts_text by done.
  destruct parts; [done|]. by left.
Qed.

Lemma runs_WriteFile (p data : string) (s : DiskStore) (Q : result diskError unit -> DiskStore -> Prop) :
  path_parent (Clean p) ∈ ds_dirs s ->
  (forall t, Q (Err (ErrDevice t)) (tick s)) ->
  (forall t part, Q (Err (ErrDevice t)) (set_files (<[Clean p := part]> (ds_files s)) (tick s))) ->
  Q (Ok tt) (set_files (<[Clean p := data]> (ds_files s)) (tick s)) -> runs (os_WriteFile p data) s Q.
Proof.
  intros Hp H1 H2 H3. unfold runs, os_WriteFile. rewrite decide_True by done.
  destruct (fault_at _) as [f|]; [|done]. destruct (fault_written f); [apply H2|apply H1].
Qed.

(** The paths of a chunk: all are clean, and the temporary file is another. *)
Lemma chunk_paths (d h : string) (seq : Z) :
  clean_dir d -> 0 <= seq -> seq < 1000000 ->
  let dir := d +:+ "/" +:+ sanitizePath h in
  clean_dir dir /\ Join d (sanitizePath h) = dir /\
  Join dir (chunk_name seq) = chunk_file d h seq /\
  Clean (chunk_file d h seq) = chunk_file d h seq /\
  Clean (chunk_file d h seq +:+ ".tmp") = chunk_file d h seq +:+ ".tmp" /\
  path_parent (chunk_file d h seq +:+ ".tmp") = dir /\
  chunk_file d h seq +:+ ".tmp" <> chunk_file d h seq.
Proof.
  intros Hd H0 Hs dir. destruct (child_dir d (sanitizePath h) Hd (sanitizePath_plain h)) as (H1 & H2 & _).
  destruct (chunk_name_plain seq H0 Hs) as [Hn Ht].
  destruct (child_dir dir _ H1 Hn) as (H3 & H4 & _), (child_dir dir _ H1 Ht) as (H5 & _ & H6).
  assert (E1 : dir +:+ "/" +:+ chunk_name seq = chunk_file d h seq) by (unfold dir, chunk_file; by rewrite !app_assoc_str).
  assert (E2 : dir +:+ "/" +:+ chunk_name seq +:+ ".tmp" = chunk_file d h seq +:+ ".tmp") by (rewrite <- E1; by rewrite !app_assoc_str).
  rewrite E1 in *. rewrite E2 in *. split_and!; try done; [by apply Clean_dir..|].
  intros E. apply (f_equal String.length) in E. rewrite length_app_str in E. simpl in E. lia.
Qed.

Lemma writeChunk_spec (h : string) (seq : Z) (l : list raw) (s : DiskStore) :
  clean_dir (ds_chunkDir s) -> 0 <= seq -> seq < 1000000 ->
  runs (writeChunk h seq l) s (fun r s' => keeps s s' /\ ds_tx s' = ds_tx s /\
    let path := chunk_file (ds_chunkDir s) h seq in
    (forall q, q <> path -> q <> path +:+ ".tmp" -> ds_files s' !! q = ds_files s !! q) /\
    match r with
    | Ok p => p = path /\ (Forall message_ok l -> exists data, ds_files s' !! path = Some data /\ decode_chunk data = Ok l)
    | Err _ => ds_files s' !! path = ds_files s !! path
    end).
Proof.
  intros Hd H0 Hs. destruct (chunk_paths _ h seq Hd H0 Hs) as (C1 & J1 & J2 & C2 & C3 & P & N).
  apply runs_with_store. cbv zeta. rewrite J1, J2.
  set (path := chunk_file (ds_chunkDir s) h seq) in *. apply runs_bind, runs_attempt; [by intros t|]. cbn [fst snd].
  apply runs_bind. unfold of_result, runs at 1. cbn [fst snd]. destruct (encode_chunk l) as [e|encoded] eqn:He; [done|].
  apply runs_bind, runs_WriteFile; rewrite ?C3, ?P.
  - apply elem_of_union_r, elem_of_list_to_set. by apply ancestors_self.
  - by intros t.
  - intros t part. split_and!; [done|done|..].
    + intros q Hq Hqt. cbn. by rewrite lookup_insert_ne.
    + cbn. by rewrite lookup_insert_ne.
  - apply runs_bind, runs_attempt.
    + intros t. split_and!; [done|done|..].
      * intros q Hq Hqt. cbn. by rewrite lookup_insert_ne.
      * cbn. by rewrite lookup_insert_ne.
    + cbn [ds_files set_files tick set_dirs]. rewrite C2, C3, lookup_insert_eq. cbn [fst snd]. apply runs_ret. split_and!; [done|done|..].
      * intros q Hq Hqt. cbn. by rewrite lookup_insert_ne, lookup_delete_ne, lookup_insert_ne.
      * done.
      * intros Hl. destruct (encode_decode_chunk l Hl) as (data & He' & Hdec). rewrite He in He'. injection He' as <-.
        exists encoded. split; [|done]. cbn. by rewrite lookup_insert_eq.
Qed.

(** ** The paths of the chunks *)

Lemma chunk_file_inj (d h k : string) (i j : Z) (u v : string) :
  chunk_file d h i +:+ u = chunk_file d k j +:+ v -> sanitizePath h = sanitizePath k /\ chunk_name i +:+ u = chunk_name j +:+ v.
Proof.
  unfold chunk_file. rewrite !app_assoc_str. intros E%child_inj.
  assert (Hf : forall x, contains_byte slash (sanitizePath x) = false) by (intros x; by apply plain_spec, sanitizePath_plain).
  pose proof (cut_byte_app slash (sanitizePath h) (chunk_name i +:+ u) (Hf h)) as H1.
  pose proof (cut_byte_app slash (sanitizePath k) (chunk_name j +:+ v) (Hf k)) as H2.
  change ("/" +:+ ?x) with (String slash x) in E. rewrite E in H1. rewrite H1 in H2. by injection H2.
Qed.

Lemma chunk_file_shape (d h k : string) (i j : Z) : chunk_file d h i = chunk_file d k j -> sanitizePath h = sanitizePath k.
Proof. intros E. apply (chunk_file_inj d h k i j "" ""). by rewrite E. Qed.

Lemma chunk_name_lt (m n : Z) : 0 <= m -> m < n -> n < 1000000 -> String.compare (chunk_name m) (chunk_name n) = Lt.
Proof.
  intros H0 Hmn Hn. apply compare_app_lt; [by rewrite !format_06_length by lia|]. by apply format_06_lt.
Qed.

Lemma chunk_file_le (d h : string) (m n : Z) : 0 <= m -> m < n -> n < 1000000 ->
  String.le (chunk_file d h m) (chunk_file d h n) /\ chunk_file d h m <> chunk_file d h n.
Proof.
  intros H0 Hmn Hn. assert (E : String.compare (chunk_file d h m) (chunk_file d h n) = Lt).
  { unfold chunk_file. rewrite !compare_app_eq. by apply chunk_name_lt. }
  split; [unfold String.le, String.leb; by rewrite E|]. intros He. rewrite He in E. by rewrite compare_refl_str in E.
Qed.

Section chunks.
Context (d h : string) (rows : list chunkRow).
Context (Hrows : forall i r, rows !! i = Some r -> chunk_seq r = Z.of_nat i /\ chunk_path r = chunk_file d h (Z.of_nat i)).
Context (Hbound : (length rows <= max_chunks)%nat).

Lemma rows_sorted : sort_strings (map chunk_path rows) = map chunk_path rows.
Proof.
  apply sort_strings_id, StronglySorted_lookup_2. intros i j x y Hij Hx Hy.
  change (map chunk_path rows) with (chunk_path <$> rows) in *. rewrite list_lookup_fmap in Hx, Hy.
  destruct (rows !! i) as [ri|] eqn:Ei; [|done]. destruct (rows !! j) as [rj|] eqn:Ej; [|done]. injection Hx as <-. injection Hy as <-.
  destruct (Hrows _ _ Ei) as [_ ->], (Hrows _ _ Ej) as [_ ->]. apply lookup_lt_Some in Ej. unfold max_chunks in Hbound.
  apply chunk_file_le; lia.
Qed.

Lemma rows_next : fold_left next_seq rows 0 = Z.of_nat (length rows).
Proof using Hrows.
  clear Hbound.
  assert (G : forall l n, (forall i r, l !! i = Some r -> chunk_seq r = n + Z.of_nat i) -> fold_left next_seq l n = n + Z.of_nat (length l)).
  { induction l as [|r l IH]; intros n Hl; [simpl; lia|]. cbn [fold_left]. pose proof (Hl O r eq_refl) as Hr.
    unfold next_seq at 2. destruct (Z.leb_spec n (chunk_seq r)); [|lia]. rewrite IH; [cbn [length]; lia|].
    intros i x Hx. specialize (Hl (Datatypes.S i) x Hx). lia. }
  rewrite G; [done|]. intros i r Hr. by apply Hrows in Hr as [-> _].
Qed.

Lemma rows_insert (r : chunkRow) : chunk_seq r = Z.of_nat (length rows) -> insert_row r rows = Ok (rows ++ [r]).
Proof using Hrows.
  clear Hbound.
  intros Hr. assert (Hlt : Forall (fun x => chunk_seq x < chunk_seq r) rows).
  { apply Forall_lookup. intros i x Hx. pose proof (lookup_lt_Some _ _ _ Hx). apply Hrows in Hx as [-> _]. lia. }
  revert Hlt. generalize rows as l. clear. intros l Hlt. induction Hlt as [|x l Hx _ IH]; [done|]. cbn [insert_row app].
  destruct (Z.eqb_spec (chunk_seq r) (chunk_seq x)); [lia|]. destruct (Z.ltb_spec (chunk_seq r) (chunk_seq x)); [lia|]. by rewrite IH.
Qed.

Lemma rows_paths (q : string) : q ∈ map chunk_path rows <-> exists i, (i < length rows)%nat /\ q = chunk_file d h (Z.of_nat i).
Proof using Hrows.
  clear Hbound.
  change (map chunk_path rows) with (chunk_path <$> rows). rewrite list_elem_of_fmap. split.
  - intros (r & -> & [i Hi]%list_elem_of_lookup_1). exists i. split; [by eapply lookup_lt_Some|]. by apply Hrows.
  - intros (i & [r Hr]%lookup_lt_is_Some_2 & ->). exists r. split; [by apply Hrows in Hr as [_ ->]|]. by eapply list_elem_of_lookup_2.
Qed.
End chunks.

(** ** Reading *)

Lemma read_all_ext (f g : gmap string string) (paths : list string) :
  (forall p, p ∈ paths -> f !! Clean p = g !! Clean p) -> read_all f paths = read_all g paths.
Proof.
  induction paths as [|p paths IH]; intros Hp; [done|]. cbn [read_all]. rewrite Hp by (by left). rewrite IH; [done|].
  intros q Hq. apply Hp. by right.
Qed.

Lemma read_all_last (f : gmap string string) (paths : list string) (p data : string) (l : list raw) :
  f !! Clean p = Some data -> decode_chunk data = Ok l ->
  read_all f (paths ++ [p]) = match read_all f paths with Ok l' => Ok (l' ++ l) | Err e => Err e end.
Proof.
  intros Hf Hd. induction paths as [|q paths IH]; cbn [app read_all]; [by rewrite Hf, Hd, app_nil_r|].
  destruct (f !! Clean q) as [x|]; [|done]. rewrite IH. destruct (decode_chunk x); [done|].
  destruct (read_all f paths); [done|]. by rewrite app_assoc.
Qed.

Lemma read_all_missing (f : gmap string string) (paths : list string) (p : string) :
  p ∈ paths -> f !! Clean p = None -> exists e, read_all f paths = Err e.
Proof.
  intros Hp Hf. induction paths as [|q paths IH]; [by apply not_elem_of_nil in Hp|]. cbn [read_all].
  apply elem_of_cons in Hp as [<-|Hp]; [rewrite Hf; eauto|]. destruct (IH Hp) as [e ->]. destruct (f !! Clean q); [|eauto]. destruct (decode_chunk _); eauto.
Qed.

(** ** A transaction *)

Lemma runs_in_tx {A} (body : Io A) (s : DiskStore) (Q : result diskError A -> DiskStore -> Prop) :
  (forall t, Q (Err (ErrDevice t)) (tick s)) ->
  runs body (set_tables (ds_tables s) (Some (ds_tables s)) (tick s)) (fun r s' => Q r (set_tables (ds_tables s') None s')) ->
  runs (in_tx body) s Q.
Proof.
  intros He Hb. apply runs_bind, runs_attempt; [done|]. cbn [fst snd ds_tables tick]. unfold runs, rollback_after in *.
  by destruct (body _).
Qed.

(** What a save may leave: a failed one has its changes undone in the tables. *)
Lemma save_spec (body : Io unit) (s : DiskStore) (P : result diskError unit -> DiskStore -> Prop)
    (Q : result diskError unit -> DiskStore -> Prop) :
  runs body (set_tables (ds_tables s) (Some (ds_tables s)) (tick s)) P ->
  (forall t, Q (Err (ErrDevice t)) (tick s)) ->
  (forall e s', P (Err e) s' -> Q (Err e) (set_tables (ds_tables s') None s')) ->
  (forall s' e, P (Ok tt) s' -> Q (Err e) (set_tables (ds_tables s') None (tick s'))) ->
  (forall s', P (Ok tt) s' -> exists t, ds_tx s' = Some t /\ Q (Ok tt) (set_tables t None (tick s'))) ->
  runs (in_tx (_ ← body; commit)) s Q.
Proof.
  intros Hb H1 H2 H3 H4. apply runs_in_tx; [done|]. apply runs_bind. eapply runs_mono; [exact Hb|].
  intros [e|[]] s' HP; [by apply H2|]. apply runs_attempt; [intros t; exact (H3 s' _ HP)|].
  destruct (H4 s' HP) as (t & Ht & HQ). cbn [ds_tx tick]. by rewrite Ht.
Qed.

(** ** The two ways of a save *)

Lemma loadChunkMetadata_spec (h : string) (s : DiskStore) (t : Tables) :
  ds_tx s = Some t ->
  runs (loadChunkMetadata h) s (fun r s' => keeps s s' /\ ds_tx s' = Some t /\ ds_files s' = ds_files s /\
    forall v, r = Ok v -> v = (default 0 (row_change_count <$> tbl_shapes t !! h),
      fold_left next_seq (chunk_rows h t) 0, map chunk_path (chunk_rows h t))).
Proof.
  intros Ht. apply runs_bind. eapply runs_tx_query; [exact Ht|intros e; by split_and!|].
  apply runs_bind. eapply runs_tx_query; [exact Ht|intros e; by split_and!|].
  apply runs_ret. split_and!; [done|done|done|]. by intros v [= <-].
Qed.

Section saving.
Context (p : PersistedShape) (s : DiskStore) (t : Tables).
#[local] Abbreviation h := (ps_Handle p).
#[local] Abbreviation count := (default 0 (row_change_count <$> tbl_shapes t !! h)).
#[local] Abbreviation len := (Z.of_nat (length (ps_Changes p))).
#[local] Abbreviation rows := (chunk_rows h t).
#[local] Abbreviation path := (chunk_file (ds_chunkDir s) h (Z.of_nat (length rows))).
Context (Htx : ds_tx s = Some t) (Hdir : clean_dir (ds_chunkDir s)).
Context (Hrows : forall i r, rows !! i = Some r -> chunk_seq r = Z.of_nat i /\ chunk_path r = chunk_file (ds_chunkDir s) h (Z.of_nat i)).

Definition extended (row : shapeRow) : Tables :=
  let t' := set_shapes (<[h := row]> (tbl_shapes t)) t in
  if count <? len then set_chunks (<[h := rows ++ [mkChunkRow (Z.of_nat (length rows)) path (len - count)]]> (tbl_chunks t)) t' else t'.

Lemma append_body :
  ps_Deleted p = false -> count <= len -> (length rows < max_chunks)%nat ->
  runs (save_body p) s (fun r s' => keeps s s' /\
    (forall q, q <> path -> q <> path +:+ ".tmp" -> ds_files s' !! q = ds_files s !! q) /\
    (r = Ok tt -> exists row, shape_row p len = Ok row /\ ds_tx s' = Some (extended row) /\
      (Forall message_ok (ps_Changes p) -> count < len ->
       exists data, ds_files s' !! path = Some data /\ decode_chunk data = Ok (drop (Z.to_nat count) (ps_Changes p))))).
Proof.
  intros Hd Hle Hroom. apply runs_bind. eapply runs_mono; [by apply (loadChunkMetadata_spec h s t)|].
  intros [e|v] s1 (K1 & T1 & F1 & Hv); [split_and!; [done|by intros; rewrite F1|done]|].
  rewrite (Hv _ eq_refl), (rows_next _ _ _ Hrows). cbv iota beta. rewrite Hd.
  apply runs_bind, runs_ret. cbv iota beta. destruct (Z.ltb_spec len count); [lia|]. apply runs_bind, runs_ret. cbv iota beta.
  apply runs_bind. eapply runs_tx_exec; [exact T1|intros e; split_and!; [by destruct K1|by intros; cbn; rewrite F1|done]|].
  intros u Hu. unfold upsert_shape in Hu. destruct (shape_row p len) as [e|row] eqn:Er; [done|]. injection Hu as <-.
  unfold extended. destruct (Z.ltb_spec count len) as [Hlt|Hge].
  2: { apply runs_ret. split_and!; [by destruct K1|by intros; cbn; rewrite F1|]. intros _. exists row. split_and!; [done|done|]. intros _. lia. }
  set (s2 := set_tables _ _ _). assert (K2 : keeps s s2) by (by destruct K1). assert (F2 : ds_files s2 = ds_files s) by (by cbn).
  apply runs_bind. eapply runs_mono.
  { apply (writeChunk_spec h (Z.of_nat (length rows)) _ s2); [by rewrite (keeps_chunkDir _ _ K2)|lia|unfold max_chunks in *; lia]. }
  intros r s3 (K3 & T3 & G3 & R3). rewrite (keeps_chunkDir _ _ K2), F2 in *.
  assert (K : keeps s s3) by (by etrans). destruct r as [e|pa]; [by split_and!|]. destruct R3 as [-> Hdata].
  eapply runs_tx_exec; [exact T3|intros e; split_and!; [by destruct K|done|done]|].
  intros u Hu. unfold insert_chunk in Hu. change (chunk_rows h (set_shapes ?m t)) with rows in Hu.
  rewrite (rows_insert (ds_chunkDir s) h rows Hrows) in Hu by done. injection Hu as <-.
  split_and!; [by destruct K|done|]. intros _. exists row. split_and!; [done|done|]. intros Hm _. by apply Hdata, Forall_drop.
Qed.

Definition dropped (row : shapeRow) : Tables :=
  set_shapes (<[h := row]> (tbl_shapes t)) (set_chunks (delete h (tbl_chunks t)) t).

Lemma reset_body :
  ps_Deleted p = true \/ (ps_Changes p = [] /\ 0 < count) ->
  runs (save_body p) s (fun r s' => keeps s s' /\ exists gone, gone `prefix_of` map chunk_path rows /\ removed s s' gone /\
    (r = Ok tt -> gone = map chunk_path rows /\ exists row, shape_row p 0 = Ok row /\ ds_tx s' = Some (dropped row))).
Proof.
  intros Hreset. apply runs_bind. eapply runs_mono; [by apply (loadChunkMetadata_spec h s t)|].
  assert (Hno : forall s' : DiskStore, ds_files s' = ds_files s ->
    exists gone, gone `prefix_of` map chunk_path rows /\ removed s s' gone) by (intros s' Hs'; exists []; split; [apply prefix_nil|by apply removed_nil]).
  intros [e|v] s1 (K1 & T1 & F1 & Hv); [split; [done|]; by destruct (Hno s1 F1) as (g & ? & ?); exists g|].
  rewrite (Hv _ eq_refl). cbv iota beta.
  assert (Hfinish : forall s2, keeps s s2 -> removed s s2 (map chunk_path rows) -> ds_tx s2 = Some (set_chunks (delete h (tbl_chunks t)) t) ->
    runs (_ ← tx_exec (upsert_shape p 0); mret tt) s2 (fun r s' => keeps s s' /\ exists gone, gone `prefix_of` map chunk_path rows /\ removed s s' gone /\
    (r = Ok tt -> gone = map chunk_path rows /\ exists row, shape_row p 0 = Ok row /\ ds_tx s' = Some (dropped row)))).
  { intros s2 K2 R2 T2. apply runs_bind. eapply runs_tx_exec; [exact T2|..].
    - intros e. split; [by destruct K2|]. exists (map chunk_path rows). by split_and!.
    - intros u Hu. unfold upsert_shape in Hu. destruct (shape_row p 0) as [e|row] eqn:Er; [done|]. injection Hu as <-.
      apply runs_ret. split; [by destruct K2|]. exists (map chunk_path rows). split_and!; [done|done|]. intros _. split; [done|]. by exists row. }
  assert (Hr1 : forall s2 gone, removed s1 s2 gone -> removed s s2 gone) by (intros s2 gone Hr q; by rewrite Hr, F1).
  destruct (ps_Deleted p) eqn:Ed.
  - apply runs_bind, runs_bind. eapply runs_mono; [by apply reset_chunks_spec|].
    intros [e|[]] s2 (K2 & gone & Hg & Hr & Ho); [split; [by etrans|]; exists gone; by split_and!; auto|].
    destruct (Ho eq_refl) as [-> T2]. apply runs_ret. cbv iota beta.
    apply runs_bind, runs_ret. apply Hfinish; [by etrans|by apply Hr1|done].
  - destruct Hreset as [|[Hnil Hpos]]; [done|]. apply runs_bind, runs_ret. cbv iota beta. rewrite Hnil. change (Z.of_nat (length (@nil raw))) with 0.
    destruct (Z.ltb_spec 0 count); [|lia].
    apply runs_bind, runs_bind. eapply runs_mono; [by apply reset_chunks_spec|].
    intros [e|[]] s2 (K2 & gone & Hg & Hr & Ho); [split; [by etrans|]; exists gone; by split_and!; auto|].
    destruct (Ho eq_refl) as [-> T2]. apply runs_ret. cbv iota beta. apply Hfinish; [by etrans|by apply Hr1|done].
Qed.
End saving.

(** ** What a save leaves *)

Lemma save_append_spec (p : PersistedShape) (s : DiskStore) :
  let count := default 0 (row_change_count <$> tbl_shapes (ds_tables s) !! ps_Handle p) in
  let len := Z.of_nat (length (ps_Changes p)) in
  let rows := chunk_rows (ps_Handle p) (ds_tables s) in
  let path := chunk_file (ds_chunkDir s) (ps_Handle p) (Z.of_nat (length rows)) in
  disk_ok s -> placed s p -> ps_Deleted p = false -> count <= len ->
  runs (disk_SaveShape p) s (fun r s' => ds_dir s' = ds_dir s /\ ds_chunkDir s' = ds_chunkDir s /\ ds_tx s' = None /\
    (forall q, q <> path -> q <> path +:+ ".tmp" -> ds_files s' !! q = ds_files s !! q) /\
    match r with
    | Err _ => ds_tables s' = ds_tables s
    | Ok _ => exists row, shape_row p len = Ok row /\ ds_tables s' = extended p s (ds_tables s) row /\
        (Forall message_ok (ps_Changes p) -> count < len ->
         exists data, ds_files s' !! path = Some data /\ decode_chunk data = Ok (drop (Z.to_nat count) (ps_Changes p)))
    end).
Proof.
  intros count len rows path Hok (_ & Hroom) Hd Hle. apply (save_spec _ _ _ _
    (append_body p (set_tables (ds_tables s) (Some (ds_tables s)) (tick s)) (ds_tables s) eq_refl (ok_dir s Hok) (ok_rows s Hok (ps_Handle p)) Hd Hle Hroom)).
  - intros t. split_and!; try done. exact (ok_tx s Hok).
  - intros e s' ([E1 E2 E3] & F & _). by split_and!.
  - intros s' e ([E1 E2 E3] & F & _). by split_and!.
  - intros s' ([E1 E2 E3] & F & R). destruct (R eq_refl) as (row & Hrow & Ht & Hdata). exists (extended p s (ds_tables s) row).
    split; [done|]. split_and!; try done. by exists row.
Qed.

Lemma save_reset_spec (p : PersistedShape) (s : DiskStore) :
  let paths := map chunk_path (chunk_rows (ps_Handle p) (ds_tables s)) in
  disk_ok s -> ps_Deleted p = true \/ (ps_Changes p = [] /\ 0 < default 0 (row_change_count <$> tbl_shapes (ds_tables s) !! ps_Handle p)) ->
  runs (disk_SaveShape p) s (fun r s' => ds_dir s' = ds_dir s /\ ds_chunkDir s' = ds_chunkDir s /\ ds_tx s' = None /\
    exists gone, gone `prefix_of` paths /\ removed s s' gone /\
    match r with
    | Err _ => ds_tables s' = ds_tables s
    | Ok _ => gone = paths /\ exists row, shape_row p 0 = Ok row /\ ds_tables s' = dropped p (ds_tables s) row
    end).
Proof.
  intros paths Hok Hr. apply (save_spec _ _ _ _
    (reset_body p (set_tables (ds_tables s) (Some (ds_tables s)) (tick s)) (ds_tables s) eq_refl Hr)).
  - intros t. split_and!; [done|done|exact (ok_tx s Hok)|]. exists []. split_and!; [apply prefix_nil|by apply removed_nil|done].
  - intros e s' ([E1 E2 E3] & gone & Hg & Hrem & _). split_and!; try done. by exists gone.
  - intros s' e ([E1 E2 E3] & gone & Hg & Hrem & _). split_and!; try done. by exists gone.
  - intros s' ([E1 E2 E3] & gone & Hg & Hrem & R). destruct (R eq_refl) as (-> & row & Hrow & Ht).
    exists (dropped p (ds_tables s) row). split; [done|]. split_and!; try done. exists paths. split_and!; [done|done|done|]. by exists row.
Qed.

(** ** The map of shapes *)

Lemma disk_shapes_lookup (s : DiskStore) (h : string) :
  disk_shapes s !! h = (fun row => row_shape h row (or_invalid (stored_changes s h))) <$> tbl_shapes (ds_tables s) !! h.
Proof. unfold disk_shapes. rewrite map_lookup_imap. by destruct (tbl_shapes _ !! h). Qed.

Lemma stored_rows (s : DiskStore) (h : string) :
  disk_ok s -> stored_changes s h = read_all (ds_files s) (map chunk_path (chunk_rows h (ds_tables s))).
Proof.
  intros Hok. unfold stored_changes. by rewrite (rows_sorted _ _ _ (ok_rows s Hok h) (ok_bound s Hok h)).
Qed.

Lemma stored_none (s : DiskStore) (h : string) : chunk_rows h (ds_tables s) = [] -> stored_changes s h = Ok [].
Proof. intros Hr. unfold stored_changes. by rewrite Hr. Qed.

Lemma no_shape_no_rows (s : DiskStore) (h : string) :
  disk_ok s -> tbl_shapes (ds_tables s) !! h = None -> chunk_rows h (ds_tables s) = [].
Proof.
  intros Hok Hn. destruct (chunk_rows h (ds_tables s)) eqn:E; [done|].
  destruct (ok_shape s Hok h) as (row & Hr & _); [by rewrite E|congruence].
Qed.

Lemma row_count_ok (s : DiskStore) (h : string) (l : list raw) :
  disk_ok s -> stored_changes s h = Ok l -> default 0 (row_change_count <$> tbl_shapes (ds_tables s) !! h) = Z.of_nat (length l).
Proof.
  intros Hok Hl. destruct (tbl_shapes (ds_tables s) !! h) as [row|] eqn:E; cbn; [by eapply ok_count|].
  rewrite stored_none in Hl by (by apply no_shape_no_rows). by injection Hl as <-.
Qed.

(** Every chunk of the tables is at a clean path of its shape. *)
Lemma row_path (s : DiskStore) (h q : string) :
  disk_ok s -> q ∈ map chunk_path (chunk_rows h (ds_tables s)) ->
  exists i, (i < length (chunk_rows h (ds_tables s)))%nat /\ (i < max_chunks)%nat /\ q = chunk_file (ds_chunkDir s) h (Z.of_nat i) /\ Clean q = q.
Proof.
  intros Hok Hq. apply (rows_paths _ _ _ (ok_rows s Hok h)) in Hq as (i & Hi & ->). pose proof (ok_bound s Hok h) as Hb.
  exists i. split_and!; [done|lia|done|]. apply chunk_paths; [by apply ok_dir|lia|unfold max_chunks in Hb; lia].
Qed.

Lemma row_shape_exists (s : DiskStore) (h q : string) :
  disk_ok s -> q ∈ map chunk_path (chunk_rows h (ds_tables s)) -> is_Some (tbl_shapes (ds_tables s) !! h).
Proof.
  intros Hok Hq. destruct (ok_shape s Hok h) as (row & Hr & _); [|eauto]. intros E. rewrite E in Hq. by apply not_elem_of_nil in Hq.
Qed.

(** The path of the next chunk is the path of no chunk. *)
Lemma next_path_fresh (p : PersistedShape) (s : DiskStore) (h q : string) :
  let path := chunk_file (ds_chunkDir s) (ps_Handle p) (Z.of_nat (length (chunk_rows (ps_Handle p) (ds_tables s)))) in
  disk_ok s -> placed s p -> q ∈ map chunk_path (chunk_rows h (ds_tables s)) -> q <> path /\ q <> path +:+ ".tmp".
Proof.
  intros path Hok (Hdist & Hroom) Hq. pose proof (row_shape_exists s h q Hok Hq) as Hsome.
  destruct (row_path s h q Hok Hq) as (i & Hi & Hb & -> & _). unfold max_chunks in *. split; intros E.
  - assert (h = ps_Handle p) as ->.
    { apply Hdist; [done|]. by eapply chunk_file_shape. }
    destruct (chunk_file_le (ds_chunkDir s) (ps_Handle p) (Z.of_nat i) (Z.of_nat (length (chunk_rows (ps_Handle p) (ds_tables s))))) as [_ Hne]; [lia..|]. by apply Hne.
  - rewrite <- (app_nil_r_str (chunk_file (ds_chunkDir s) h (Z.of_nat i))) in E. apply chunk_file_inj in E as [_ E]. apply (f_equal String.length) in E.
    unfold chunk_name in E. rewrite !length_app_str, !format_06_length in E by lia. simpl in E. lia.
Qed.

(** The files of two shapes are apart. *)
Lemma other_path (p : PersistedShape) (s : DiskStore) (h q : string) :
  disk_ok s -> placed s p -> h <> ps_Handle p -> q ∈ map chunk_path (chunk_rows h (ds_tables s)) ->
  q ∉ map chunk_path (chunk_rows (ps_Handle p) (ds_tables s)).
Proof.
  intros Hok (Hdist & _) Hh Hq Hp. pose proof (row_shape_exists s h q Hok Hq) as Hsome.
  destruct (row_path s h q Hok Hq) as (i & _ & _ & -> & _). destruct (row_path s _ _ Hok Hp) as (j & _ & _ & E & _).
  apply Hh, Hdist; [done|]. by eapply chunk_file_shape.
Qed.

Lemma stored_same (s s' : DiskStore) (h : string) :
  disk_ok s -> chunk_rows h (ds_tables s') = chunk_rows h (ds_tables s) ->
  (forall q, q ∈ map chunk_path (chunk_rows h (ds_tables s)) -> ds_files s' !! q = ds_files s !! q) ->
  stored_changes s' h = stored_changes s h.
Proof.
  intros Hok Hr Hf. unfold stored_changes. rewrite Hr. apply read_all_ext. intros q Hq. rewrite elem_of_sort_strings in Hq.
  destruct (row_path s h q Hok Hq) as (_ & _ & _ & _ & ->). by apply Hf.
Qed.

(** The same tables over files of which some may be missing. *)
Lemma disk_ok_files (s s' : DiskStore) :
  disk_ok s -> ds_chunkDir s' = ds_chunkDir s -> ds_tables s' = ds_tables s -> ds_tx s' = None ->
  (forall h, stored_changes s' h = stored_changes s h \/ exists e, stored_changes s' h = Err e) ->
  (forall q, is_Some (ds_files s' !! q) -> Clean q = q) -> disk_ok s'.
Proof.
  intros [] Ed Et Ex Hst Hcl. constructor; rewrite ?Ed, ?Et; try done.
  intros h row l Hr Hl. destruct (Hst h) as [E|[e E]]; rewrite E in Hl; [by eapply ok_count0|done].
Qed.
End device.
