(* ===== verification/DiskRefine.v ===== *)
(** The disk store refines a map of shapes: the theorems on
    [src/internal/storage/disk.go], over the lemmas of DiskLaws.v. *)

From Stdlib Require Import Ascii String ZArith NArith Lia.
From S2P Require Import Prelude GoValue JsonText Storage Paths DiskStore DiskLaws.

#[local] Set Warnings "-clear-no-such-hyp".

(** * Lemmas *)

Section device.
Context `{Device}.

Lemma shape_row_Ok (p : PersistedShape) (n : Z) (row : shapeRow) (changes : list raw) :
  shape_row p n = Ok row ->
  row_deleted row = boolToInt (ps_Deleted p) /\ row_change_count row = n /\
  row_shape (ps_Handle p) row changes = with_changes (on_disk p) changes.
Proof.
  unfold shape_row. destruct (_ <? _); [done|]. destruct (_ && _); [|done]. intros [= <-].
  split_and!; [done|done|]. unfold row_shape, with_changes, on_disk. cbn. by destruct (ps_Deleted p).
Qed.

Lemma on_disk_changes (p : PersistedShape) (changes : list raw) :
  changes = (if ps_Deleted p then [] else ps_Changes p) -> with_changes (on_disk p) changes = on_disk p.
Proof. by intros ->. Qed.

(** ** A save that extends the log *)

Section append.
Context (p : PersistedShape) (s s' : DiskStore) (row : shapeRow).
#[local] Abbreviation h := (ps_Handle p).
#[local] Abbreviation count := (default 0 (row_change_count <$> tbl_shapes (ds_tables s) !! h)).
#[local] Abbreviation len := (Z.of_nat (length (ps_Changes p))).
#[local] Abbreviation rows := (chunk_rows h (ds_tables s)).
#[local] Abbreviation path := (chunk_file (ds_chunkDir s) h (Z.of_nat (length rows))).
Context (Hok : disk_ok s) (Hacc : placed s p).
Context (Hdir : ds_chunkDir s' = ds_chunkDir s).
Context (Hfiles : forall q, q <> path -> q <> path +:+ ".tmp" -> ds_files s' !! q = ds_files s !! q).

Lemma append_files (k q : string) :
  q ∈ map chunk_path (chunk_rows k (ds_tables s)) -> ds_files s' !! q = ds_files s !! q.
Proof using Hok Hacc Hfiles. intros Hq. destruct (next_path_fresh p s k q Hok Hacc Hq). by apply Hfiles. Qed.

Lemma append_clean (q : string) : is_Some (ds_files s' !! q) -> Clean q = q.
Proof using Hok Hacc Hfiles.
  destruct Hacc as (_ & Hroom). unfold max_chunks in Hroom.
  destruct (chunk_paths (ds_chunkDir s) h (Z.of_nat (length rows))) as (_ & _ & _ & C1 & C2 & _); [by apply ok_dir|lia|lia|].
  destruct (decide (q = path)) as [->|H1]; [done|]. destruct (decide (q = path +:+ ".tmp")) as [->|H2]; [done|].
  rewrite Hfiles by done. by apply ok_files.
Qed.

Context (Htables : ds_tables s' = extended p s (ds_tables s) row) (Hlt : count < len -> exists data, ds_files s' !! path = Some data /\
  decode_chunk data = Ok (drop (Z.to_nat count) (ps_Changes p))).

Lemma append_shapes : tbl_shapes (ds_tables s') = <[h := row]> (tbl_shapes (ds_tables s)).
Proof using Htables. rewrite Htables. unfold extended. by destruct (count <? len). Qed.

Lemma append_checkpoint : tbl_checkpoint (ds_tables s') = tbl_checkpoint (ds_tables s).
Proof using Htables. rewrite Htables. unfold extended. by destruct (count <? len). Qed.

Lemma append_other_rows (k : string) : k <> h -> chunk_rows k (ds_tables s') = chunk_rows k (ds_tables s).
Proof using Htables.
  intros Hk. rewrite Htables. unfold extended. destruct (count <? len); [|done]. unfold chunk_rows. cbn. by rewrite lookup_insert_ne.
Qed.

Lemma append_own_rows :
  chunk_rows h (ds_tables s') = if count <? len then rows ++ [mkChunkRow (Z.of_nat (length rows)) path (len - count)] else rows.
Proof using Htables.
  rewrite Htables. unfold extended. destruct (count <? len); [|done]. unfold chunk_rows at 1. cbn. by rewrite lookup_insert_eq.
Qed.

Lemma append_rows_ok (k : string) :
  (length (chunk_rows k (ds_tables s')) <= max_chunks)%nat /\
  forall i r, chunk_rows k (ds_tables s') !! i = Some r -> chunk_seq r = Z.of_nat i /\ chunk_path r = chunk_file (ds_chunkDir s) k (Z.of_nat i).
Proof using Hok Hacc Htables.
  destruct (decide (k = h)) as [->|Hk].
  2: { rewrite append_other_rows by done. split; [by apply ok_bound|by apply ok_rows]. }
  rewrite append_own_rows. destruct Hacc as (_ & Hroom).
  destruct (count <? len); [|split; [by apply ok_bound|by apply ok_rows]]. split.
  - rewrite length_app. cbn [length]. lia.
  - intros i r [Hi|[Hi Hr]]%lookup_app_Some; [by apply ok_rows|]. apply list_lookup_singleton_Some in Hr as [Hi' <-].
    cbn. by replace i with (length rows) by lia.
Qed.

Lemma append_stored (k : string) :
  stored_changes s' k =
  if decide (k = h) then match stored_changes s h with
    | Ok l => Ok (if count <? len then l ++ drop (Z.to_nat count) (ps_Changes p) else l) | Err e => Err e end
  else stored_changes s k.
Proof using Hok Hacc Hfiles Htables Hlt.
  case_decide as Hk.
  2: { apply stored_same; [done|by apply append_other_rows|by apply append_files]. }
  subst k. destruct (Z.ltb_spec count len) as [Hl|Hl].
  2: { rewrite <- (stored_same s s' h).
       - by destruct (stored_changes s' h).
       - done.
       - rewrite append_own_rows. destruct (Z.ltb_spec count len); [lia|done].
       - by apply append_files. }
  destruct (append_rows_ok h) as [Hb Hr]. unfold stored_changes at 1. rewrite (rows_sorted _ _ _ Hr Hb).
  rewrite append_own_rows. destruct (Z.ltb_spec count len); [|lia]. rewrite map_app. cbn [map chunk_path].
  destruct (Hlt Hl) as (data & Hf & Hd). rewrite (read_all_last _ _ _ data _) by (rewrite ?append_clean; eauto).
  rewrite stored_rows by done. erewrite read_all_ext; [done|]. intros q Hq.
  destruct (row_path s h q Hok Hq) as (_ & _ & _ & _ & ->). by eapply append_files.
Qed.

Lemma append_disk_ok :
  ds_tx s' = None -> ps_Deleted p = false -> count <= len -> shape_row p len = Ok row -> disk_ok s'.
Proof using Hok Hacc Hfiles Hdir Htables Hlt.
  intros Htx Hdel Hle Hrow. pose proof (shape_row_Ok p len row [] Hrow) as (Ed & Ec & _). rewrite Hdel in Ed. cbn in Ed.
  constructor.
  - rewrite Hdir. by apply ok_dir.
  - done.
  - intros k. by apply append_rows_ok.
  - rewrite Hdir. intros k. by apply append_rows_ok.
  - intros k Hk. rewrite append_shapes. destruct (decide (k = h)) as [->|Hne].
    + rewrite lookup_insert_eq. exists row. split_and!; [done|done|]. rewrite Ec, append_own_rows. rewrite append_own_rows in Hk.
      assert (Hrows : Z.of_nat (length rows) <= count).
      { destruct (decide (rows = [])) as [E|E]; [|destruct (ok_shape s Hok h E) as (r & -> & _ & Hr); exact Hr].
        rewrite (row_count_ok s h [] Hok (stored_none s h E)), E. done. }
      destruct (Z.ltb_spec count len) as [Hl|Hl]; [rewrite length_app; cbn [length]; lia|lia].
    + rewrite lookup_insert_ne by done. rewrite append_other_rows in Hk |- * by done. by apply ok_shape.
  - destruct Hacc as (Hdist & _). intros k1 k2. rewrite append_shapes, !lookup_insert_is_Some. intros [<-|[N1 H1]] [<-|[N2 H2]] E.
    + done.
    + symmetry. by apply Hdist.
    + by apply Hdist.
    + by eapply ok_distinct.
  - intros k r l. rewrite append_shapes, append_stored. destruct (decide (k = h)) as [->|Hne].
    + rewrite lookup_insert_eq. intros [= <-]. destruct (stored_changes s h) as [e|l0] eqn:El; [done|]. intros [= <-].
      pose proof (row_count_ok s h l0 Hok El) as Ecount. rewrite Ec. destruct (Z.ltb_spec count len) as [Hl|Hl]; [|lia].
      rewrite length_app, length_drop. lia.
    + rewrite lookup_insert_ne by done. by apply ok_count.
  - by apply append_clean.
Qed.

Lemma append_refines (l : list raw) :
  ps_Deleted p = false -> shape_row p len = Ok row -> stored_changes s h = Ok l -> l `prefix_of` ps_Changes p ->
  disk_shapes s' = <[h := on_disk p]> (disk_shapes s).
Proof using Hok Hacc Hfiles Htables Hlt.
  intros Hdel Hrow Hl Hpre. apply map_eq. intros k. rewrite disk_shapes_lookup, append_shapes, append_stored.
  destruct (decide (k = h)) as [->|Hne].
  2: { rewrite !lookup_insert_ne by done. by rewrite disk_shapes_lookup. }
  rewrite !lookup_insert_eq, Hl. cbn [fmap option_fmap option_map or_invalid]. f_equal.
  pose proof (row_count_ok s h l Hok Hl) as Ecount.
  destruct (shape_row_Ok p len row (if count <? len then l ++ drop (Z.to_nat count) (ps_Changes p) else l) Hrow) as (_ & _ & ->).
  apply on_disk_changes. rewrite Hdel. destruct Hpre as [u Hu]. rewrite Hu in *. rewrite Ecount. rewrite length_app, Nat2Z.id, drop_app_length.
  destruct (Z.ltb_spec (Z.of_nat (length l)) (Z.of_nat (length l + length u))) as [_|Hge]; [done|].
  assert (u = []) as -> by (apply nil_length_inv; lia). by rewrite app_nil_r.
Qed.

Lemma append_lost (e : diskError) :
  shape_row p len = Ok row -> stored_changes s h = Err e -> disk_shapes s' = <[h := unreadable (on_disk p)]> (disk_shapes s).
Proof using Hok Hacc Hfiles Htables Hlt.
  intros Hrow He. apply map_eq. intros k. rewrite disk_shapes_lookup, append_shapes, append_stored.
  destruct (decide (k = h)) as [->|Hne].
  2: { rewrite !lookup_insert_ne by done. by rewrite disk_shapes_lookup. }
  rewrite !lookup_insert_eq, He. cbn [fmap option_fmap option_map or_invalid]. f_equal.
  by destruct (shape_row_Ok p len row invalid_changes Hrow) as (_ & _ & ->).
Qed.
End append.

(** ** A save that drops the log *)

Section reset.
Context (p : PersistedShape) (s s' : DiskStore).
#[local] Abbreviation h := (ps_Handle p).
#[local] Abbreviation paths := (map chunk_path (chunk_rows h (ds_tables s))).
Context (Hok : disk_ok s) (Hacc : placed s p) (gone : list string).
Context (Hgone : gone `prefix_of` paths) (Hremoved : removed s s' gone).

Lemma gone_clean (q : string) : q ∈ map Clean gone -> q ∈ paths.
Proof using Hok Hgone.
  change (map Clean gone) with (Clean <$> gone). intros (x & -> & Hx)%list_elem_of_fmap.
  assert (Hp : x ∈ paths) by (destruct Hgone as [u ->]; apply elem_of_app; by left).
  by destruct (row_path s h x Hok Hp) as (_ & _ & _ & _ & ->).
Qed.

Lemma reset_other_files (k q : string) :
  k <> h -> q ∈ map chunk_path (chunk_rows k (ds_tables s)) -> ds_files s' !! q = ds_files s !! q.
Proof using Hok Hacc Hgone Hremoved.
  intros Hk Hq. rewrite Hremoved, decide_False; [done|]. intros Hin%gone_clean.
  by apply (other_path p s k q Hok Hacc Hk Hq).
Qed.

Lemma reset_clean (q : string) : is_Some (ds_files s' !! q) -> Clean q = q.
Proof using Hok Hremoved. rewrite Hremoved. case_decide; [by intros []|]. by apply ok_files. Qed.

(** When it fails: nothing is removed, or the log cannot be read. *)
Lemma reset_failed (k : string) :
  ds_tables s' = ds_tables s ->
  stored_changes s' k = stored_changes s k \/ (k = h /\ exists e, stored_changes s' k = Err e).
Proof using Hok Hacc Hgone Hremoved.
  intros Ht. destruct (decide (k = h)) as [->|Hk].
  2: { left. apply stored_same; [done|by rewrite Ht|intros q; by apply reset_other_files]. }
  destruct gone as [|x rest] eqn:Eg.
  - left. apply stored_same; [done|by rewrite Ht|]. intros q _. rewrite Hremoved, decide_False; [done|]. apply not_elem_of_nil.
  - right. split; [done|]. unfold stored_changes. rewrite Ht. apply (read_all_missing _ _ x).
    + apply elem_of_sort_strings. destruct Hgone as [u ->]. by left.
    + rewrite Hremoved, decide_True; [done|]. cbn [map]. by left.
Qed.

Context (row : shapeRow) (Htables : ds_tables s' = dropped p (ds_tables s) row) (Hrow : shape_row p 0 = Ok row).
Context (Hdir : ds_chunkDir s' = ds_chunkDir s).

Lemma reset_rows (k : string) :
  chunk_rows k (ds_tables s') = if decide (k = h) then [] else chunk_rows k (ds_tables s).
Proof using Htables.
  rewrite Htables. unfold chunk_rows at 1. cbn. case_decide as Hk; [by subst; rewrite lookup_delete_eq|by rewrite lookup_delete_ne].
Qed.

Lemma reset_stored (k : string) : stored_changes s' k = if decide (k = h) then Ok [] else stored_changes s k.
Proof using Hok Hacc Hgone Hremoved Htables.
  pose proof (reset_rows k) as Hr. case_decide as Hk; [by apply stored_none|].
  apply stored_same; [done|done|intros q; by apply reset_other_files].
Qed.

Lemma reset_disk_ok : ds_tx s' = None -> disk_ok s'.
Proof using All.
  intros Htx. destruct (shape_row_Ok p 0 row [] Hrow) as (_ & Ec & _).
  assert (Hsh : tbl_shapes (ds_tables s') = <[h := row]> (tbl_shapes (ds_tables s))) by (by rewrite Htables).
  constructor.
  - rewrite Hdir. by apply ok_dir.
  - done.
  - intros k. rewrite reset_rows. case_decide; [cbn; lia|by apply ok_bound].
  - rewrite Hdir. intros k i r. rewrite reset_rows. case_decide; [done|by apply ok_rows].
  - intros k. rewrite reset_rows, Hsh. case_decide; [done|]. rewrite lookup_insert_ne by done. by apply ok_shape.
  - destruct Hacc as (Hdist & _). intros k1 k2. rewrite Hsh, !lookup_insert_is_Some. intros [<-|[N1 H1]] [<-|[N2 H2]] E.
    + done.
    + symmetry. by apply Hdist.
    + by apply Hdist.
    + by eapply ok_distinct.
  - intros k r l. rewrite Hsh, reset_stored. case_decide as Hk.
    + subst k. rewrite lookup_insert_eq. intros [= <-] [= <-]. done.
    + rewrite lookup_insert_ne by done. by apply ok_count.
  - by apply reset_clean.
Qed.

Lemma reset_refines :
  ps_Deleted p = true \/ ps_Changes p = [] -> disk_shapes s' = <[h := on_disk p]> (disk_shapes s).
Proof using All.
  intros Hp. apply map_eq. intros k. rewrite disk_shapes_lookup, reset_stored.
  assert (Hsh : tbl_shapes (ds_tables s') = <[h := row]> (tbl_shapes (ds_tables s))) by (by rewrite Htables). rewrite Hsh.
  case_decide as Hk; [subst k; rewrite !lookup_insert_eq|by rewrite !lookup_insert_ne, disk_shapes_lookup].
  cbn [fmap option_fmap option_map or_invalid]. f_equal. destruct (shape_row_Ok p 0 row [] Hrow) as (_ & _ & ->).
  apply on_disk_changes. destruct (ps_Deleted p); [done|]. by destruct Hp.
Qed.
End reset.

(** ** A save *)

(** The shapes after a save that failed: as they were, but that a save that
    drops the log may leave it unreadable. *)
Definition failed_save (p : PersistedShape) (s s' : DiskStore) : Prop :=
  ds_tables s' = ds_tables s /\
  forall k, disk_shapes s' !! k = disk_shapes s !! k \/
    (k = ps_Handle p /\ (ps_Deleted p = true \/ ps_Changes p = []) /\ disk_shapes s' !! k = unreadable <$> disk_shapes s !! k).

Lemma disk_shapes_same (s s' : DiskStore) (k : string) :
  ds_tables s' = ds_tables s -> stored_changes s' k = stored_changes s k -> disk_shapes s' !! k = disk_shapes s !! k.
Proof. intros Ht Hs. by rewrite !disk_shapes_lookup, Ht, Hs. Qed.

Lemma disk_shapes_unreadable (s s' : DiskStore) (k : string) (e : diskError) :
  ds_tables s' = ds_tables s -> stored_changes s' k = Err e -> disk_shapes s' !! k = unreadable <$> disk_shapes s !! k.
Proof. intros Ht Hs. rewrite !disk_shapes_lookup, Ht, Hs. by destruct (tbl_shapes _ !! k). Qed.

(** The log goes on from what is stored, or it cannot be read and is no longer
    than its count. *)
Definition goes_on (s : DiskStore) (p : PersistedShape) : Prop :=
  (exists l, stored_changes s (ps_Handle p) = Ok l /\ l `prefix_of` ps_Changes p) \/
  (exists e, stored_changes s (ps_Handle p) = Err e /\
     default 0 (row_change_count <$> tbl_shapes (ds_tables s) !! ps_Handle p) <= Z.of_nat (length (ps_Changes p))).

(** Without a count there is no log. *)
Lemma no_count (h : string) (s : DiskStore) :
  disk_ok s -> default 0 (row_change_count <$> tbl_shapes (ds_tables s) !! h) <= 0 -> stored_changes s h = Ok [].
Proof.
  intros Hok Hle. apply stored_none. destruct (chunk_rows h (ds_tables s)) as [|r l] eqn:E; [done|]. exfalso.
  destruct (ok_shape s Hok h) as (row & Er & _ & Hr); [by rewrite E|]. rewrite Er in Hle. rewrite E in Hr. cbn in Hr, Hle. lia.
Qed.

(** Either way of a save. *)
Lemma save_cases (p : PersistedShape) (s : DiskStore) :
  disk_ok s -> ps_Deleted p = true \/ ps_Changes p = [] \/ goes_on s p ->
  (ps_Deleted p = true \/ (ps_Changes p = [] /\ 0 < default 0 (row_change_count <$> tbl_shapes (ds_tables s) !! ps_Handle p))) \/
  (ps_Deleted p = false /\ goes_on s p).
Proof.
  intros Hok Hf. destruct (ps_Deleted p) eqn:Ed; [left; by left|]. destruct Hf as [?|[Hn|Hl]]; [congruence| |by right].
  destruct (decide (0 < default 0 (row_change_count <$> tbl_shapes (ds_tables s) !! ps_Handle p))) as [Hpos|Hpos]; [left; by right|].
  right. split; [done|]. left. exists []. split; [|apply prefix_nil]. apply no_count; [done|lia].
Qed.

(** The rows of the other shapes stay. *)
Definition others_stay (p : PersistedShape) (s s' : DiskStore) : Prop :=
  forall k, k <> ps_Handle p -> tbl_shapes (ds_tables s') !! k = tbl_shapes (ds_tables s) !! k.

(** What a save that returns puts at its handle: a log that could not be read
    still cannot. *)
Definition saved (p : PersistedShape) (s s' : DiskStore) : Prop :=
  disk_shapes s' = <[ps_Handle p := on_disk p]> (disk_shapes s) \/
  (ps_Deleted p = false /\ (exists e, stored_changes s (ps_Handle p) = Err e) /\
   disk_shapes s' = <[ps_Handle p := unreadable (on_disk p)]> (disk_shapes s) /\
   default 0 (row_change_count <$> tbl_shapes (ds_tables s') !! ps_Handle p) = Z.of_nat (length (ps_Changes p))).

Lemma save_reset_outcome (p : PersistedShape) (s : DiskStore) :
  disk_ok s -> placed s p ->
  ps_Deleted p = true \/ (ps_Changes p = [] /\ 0 < default 0 (row_change_count <$> tbl_shapes (ds_tables s) !! ps_Handle p)) ->
  runs (disk_SaveShape p) s (fun r s' => disk_ok s' /\
    match r with
    | Ok _ => others_stay p s s' /\ disk_shapes s' = <[ps_Handle p := on_disk p]> (disk_shapes s)
    | Err _ => failed_save p s s'
    end).
Proof.
  intros Hok Hacc Hreset. assert (Hp : ps_Deleted p = true \/ ps_Changes p = []) by tauto.
  eapply runs_mono; [by apply save_reset_spec|]. intros r s' (_ & Edir & Etx & gone & Hg & Hrem & Hr).
  destruct r as [e|[]].
  - pose proof (fun k => reset_failed p s s' Hok Hacc gone Hg Hrem k Hr) as Hst. split.
    + apply (disk_ok_files s); try done; [|by eapply reset_clean]. intros k. destruct (Hst k) as [?|[_ ?]]; auto.
    + split; [done|]. intros k. destruct (Hst k) as [E|[-> [e' E]]]; [left; by apply disk_shapes_same|].
      right. split_and!; [done|done|]. by eapply disk_shapes_unreadable.
  - destruct Hr as (-> & row & Hrow & Ht). split_and!; [by eapply (reset_disk_ok p s s')| |by eapply (reset_refines p s s')].
    intros k Hk. rewrite Ht. cbn. by rewrite lookup_insert_ne.
Qed.

(** The messages matter only to a save that returns. *)
Lemma save_append_outcome (p : PersistedShape) (s : DiskStore) :
  disk_ok s -> placed s p -> ps_Deleted p = false -> goes_on s p ->
  runs (disk_SaveShape p) s (fun r s' =>
    match r with
    | Ok _ => Forall message_ok (ps_Changes p) -> disk_ok s' /\ others_stay p s s' /\ saved p s s'
    | Err _ => disk_ok s' /\ failed_save p s s'
    end).
Proof.
  intros Hok Hacc Hd Hlog.
  assert (Hle : default 0 (row_change_count <$> tbl_shapes (ds_tables s) !! ps_Handle p) <= Z.of_nat (length (ps_Changes p))).
  { destruct Hlog as [(l & Hl & Hpre)|(e & _ & Hle)]; [|done]. rewrite (row_count_ok s _ l Hok Hl). apply prefix_length in Hpre. lia. }
  eapply runs_mono; [by apply save_append_spec|]. intros r s' (_ & Edir & Etx & Hfiles & Hr).
  destruct r as [e|[]].
  - assert (Hst : forall k, stored_changes s' k = stored_changes s k).
    { intros k. apply stored_same; [done|by rewrite Hr|]. intros q. by apply (append_files p s s'). }
    split.
    + apply (disk_ok_files s); try done; [intros k; left; apply Hst|by eapply append_clean].
    + split; [done|]. intros k. left. by apply disk_shapes_same.
  - intros Hm. destruct Hr as (row & Hrow & Ht & Hdata). specialize (Hdata Hm). split; [by eapply (append_disk_ok p s s')|].
    pose proof (append_shapes p s s' row Ht) as Hsh. split; [intros k Hk; by rewrite Hsh, lookup_insert_ne|].
    destruct Hlog as [(l & Hl & Hpre)|(e & He & _)]; [left; by eapply (append_refines p s s')|right].
    split_and!; [done|eauto|by eapply (append_lost p s s')|]. rewrite Hsh, lookup_insert_eq.
    destruct (shape_row_Ok p _ row [] Hrow) as (_ & Ec & _). exact Ec.
Qed.

(** Every save that drops the log or goes on with it. *)
Lemma save_torn (p : PersistedShape) (s : DiskStore) :
  disk_ok s -> placed s p -> ps_Deleted p = true \/ ps_Changes p = [] \/ goes_on s p ->
  runs (disk_SaveShape p) s (fun r s' =>
    match r with
    | Ok _ => Forall message_ok (ps_Changes p) -> disk_ok s' /\ others_stay p s s' /\ saved p s s'
    | Err _ => disk_ok s' /\ failed_save p s s'
    end).
Proof.
  intros Hok Hacc Hf. destruct (save_cases p s Hok Hf) as [Hreset|[Hd Hlog]]; [|by apply save_append_outcome].
  eapply runs_mono; [by apply save_reset_outcome|]. intros [e|[]] s' [H1 H2]; [done|]. intros _. destruct H2. split_and!; [done|done|by left].
Qed.

Lemma save_outcome (p : PersistedShape) (s : DiskStore) :
  disk_ok s -> accepts s p -> follows s p ->
  runs (disk_SaveShape p) s (fun r s' => disk_ok s' /\
    match r with
    | Ok _ => disk_shapes s' = <[ps_Handle p := on_disk p]> (disk_shapes s)
    | Err _ => failed_save p s s'
    end).
Proof.
  intros Hok [Hm Hacc] Hf. assert (Hf' : ps_Deleted p = true \/ ps_Changes p = [] \/ goes_on s p).
  { destruct Hf as [?|[?|Hl]]; [by left|by right; left|]. right; right. by left. }
  destruct (save_cases p s Hok Hf') as [Hreset|[Hd Hlog]].
  - eapply runs_mono; [by apply save_reset_outcome|]. intros [e|[]] s' [H1 H2]; [done|]. by destruct H2.
  - eapply runs_mono; [by apply save_append_outcome|]. intros [e|[]] s' H1; [done|]. destruct (H1 Hm) as (H2 & _ & [H3|(_ & [e He] & H3 & _)]); [done|].
    split; [done|]. exfalso. destruct Hf as [?|[Hn|(l & Hl & _)]]; [congruence| |congruence].
    destruct Hlog as [(l & Hl & _)|(e' & _ & Hle)]; [congruence|]. rewrite Hn in Hle. cbn in Hle.
    by rewrite (no_count _ s Hok Hle) in He.
Qed.

(** ** A load *)

Lemma read_chunks_spec (paths : list string) (s : DiskStore) :
  runs (read_chunks paths) s (fun r s' => ds_files s' = ds_files s /\ ds_tables s' = ds_tables s /\ ds_tx s' = ds_tx s /\
    (r = read_all (ds_files s) paths \/ ((exists n, is_Some (fault_at n)) /\ exists e, r = Err e))).
Proof.
  revert s. induction paths as [|q paths IH]; intros s; [apply runs_ret; auto|]. apply runs_bind.
  unfold os_ReadFile, attempt, runs at 1. destruct (fault_at (ds_step s)) as [f|] eqn:Ef; [cbn; eauto 10|].
  cbn [read_all ds_files tick]. destruct (ds_files s !! Clean q) as [data|] eqn:E; cbn [fst snd]; [|cbn; auto].
  apply runs_bind. unfold of_result, runs at 1. cbn [fst snd]. destruct (decode_chunk data) as [e|c]; [cbn; auto|].
  apply runs_bind. eapply runs_mono; [apply IH|]. intros r s' (E1 & E2 & E3 & Hr). cbn in *.
  destruct Hr as [->|(Hn & e & ->)]; [|by eauto 10]. destruct (read_all (ds_files s) paths); [by auto|]. apply runs_ret. auto.
Qed.

(** How a shape is loaded: as it is, or as one whose chunks cannot be read when
    something fails. *)
Definition loaded_as (p q : PersistedShape) : Prop := q = p \/ (q = unreadable p /\ exists n, is_Some (fault_at n)).

Definition read_as (s : DiskStore) (kr : string * shapeRow) (q : PersistedShape) : Prop :=
  loaded_as (row_shape kr.1 kr.2 (or_invalid (stored_changes s kr.1))) q.

Lemma read_as_ext (s s' : DiskStore) (kr : string * shapeRow) (q : PersistedShape) :
  ds_files s' = ds_files s -> ds_tables s' = ds_tables s -> read_as s' kr q -> read_as s kr q.
Proof. intros Ef Et. unfold read_as, stored_changes. by rewrite Ef, Et. Qed.

Lemma load_rows_spec (rows : list (string * shapeRow)) (s : DiskStore) :
  ds_tx s = None ->
  runs (load_rows rows) s (fun r s' => exists l, r = Ok l /\ Forall2 (read_as s) rows l).
Proof.
  revert s. induction rows as [|[h row] rows IH]; intros s Htx; [apply runs_ret; by exists []|].
  cbn [load_rows]. apply runs_bind, runs_catch. unfold loadShapeChanges. apply runs_bind.
  assert (Hgo : forall s1 c, ds_files s1 = ds_files s -> ds_tables s1 = ds_tables s -> ds_tx s1 = None ->
    read_as s (h, row) (row_shape h row c) ->
    runs (shapes ← load_rows rows; mret (row_shape h row c :: shapes)) s1 (fun r s' => exists l, r = Ok l /\ Forall2 (read_as s) ((h, row) :: rows) l)).
  { intros s1 c Ef Et Ex Hc. apply runs_bind. eapply runs_mono; [by apply IH|]. intros r s2 (l & -> & Hl). apply runs_ret.
    exists (row_shape h row c :: l). split; [done|]. constructor; [done|]. eapply Forall2_impl; [exact Hl|]. intros kr q. by apply read_as_ext. }
  unfold query, attempt, runs at 1. destruct (fault_at (ds_step s)) as [f|] eqn:Ef; cbn [fst snd].
  - apply Hgo; [done|done|done|]. right. split; [done|]. exists (ds_step s). by rewrite Ef.
  - cbn [ds_tables tick]. eapply runs_mono; [apply read_chunks_spec|]. intros r s' (E1 & E2 & E3 & Hr). cbn [ds_files tick ds_tables ds_tx] in *.
    apply Hgo; [done|done|congruence|]. change (read_all (ds_files s) _) with (stored_changes s h) in Hr.
    destruct Hr as [->|[Hn [e ->]]]; [left|right; split; done]. cbn. by destruct (stored_changes s h).
Qed.

(** The rows in the order of their handles give the shapes in that order. *)
Lemma shape_rows_sorted (s : DiskStore) :
  map (fun kr => row_shape kr.1 kr.2 (or_invalid (stored_changes s kr.1))) (shape_rows (ds_tables s)) = sorted_values (disk_shapes s).
Proof.
  unfold shape_rows, sorted_values. assert (Hk : sorted_keys (disk_shapes s) = sorted_keys (tbl_shapes (ds_tables s))).
  { unfold sorted_keys. apply sort_strings_unique. apply NoDup_Permutation; [apply NoDup_fst_map_to_list..|].
    intros k. rewrite !elem_of_map_keys, disk_shapes_lookup. by rewrite fmap_is_Some. }
  rewrite Hk. clear Hk. induction (sorted_keys (tbl_shapes (ds_tables s))) as [|k l IH]; [done|]. rewrite !omap_cons_eq, disk_shapes_lookup.
  destruct (tbl_shapes (ds_tables s) !! k); cbn [mbind option_bind fmap option_fmap option_map]; [|exact IH]. cbn [map fst snd]. by f_equal.
Qed.

(** ** A compaction *)

(** What a compaction leaves of the tables. *)
Definition compacted_tables (t : Tables) : Tables :=
  let t := set_chunks (filter (fun kv => has_live_shape t kv.1 = true) (tbl_chunks t)) t in
  set_shapes (reset_count <$> tbl_shapes t) t.

Lemma compacted_tables_same (s : DiskStore) :
  disk_ok s ->
  tbl_shapes (compacted_tables (ds_tables s)) = tbl_shapes (ds_tables s) /\
  tbl_checkpoint (compacted_tables (ds_tables s)) = tbl_checkpoint (ds_tables s) /\
  forall k, chunk_rows k (compacted_tables (ds_tables s)) = chunk_rows k (ds_tables s).
Proof.
  intros Hok. split_and!; [|done|].
  - cbn. rewrite <- (map_fmap_id (tbl_shapes (ds_tables s))) at 2. apply map_fmap_ext. intros k row Hk. unfold reset_count, id.
    destruct (Z.eqb_spec (row_deleted row) 1) as [Hd|]; [|done].
    assert (Hn : chunk_rows k (ds_tables s) = []).
    { destruct (chunk_rows k (ds_tables s)) eqn:E; [done|]. destruct (ok_shape s Hok k) as (r & Hr & H0 & _); [by rewrite E|].
      rewrite Hk in Hr. injection Hr as <-. lia. }
    pose proof (ok_count s Hok k row [] Hk (stored_none s k Hn)) as Hc. destruct row. cbn in Hc, Hd |- *. by rewrite Hc.
  - intros k. unfold chunk_rows at 1, compacted_tables. cbn [tbl_chunks set_shapes set_chunks].
    rewrite (lookup_filter_key (fun k => has_live_shape (ds_tables s) k = true) k). case_decide as Hl; [done|].
    destruct (chunk_rows k (ds_tables s)) eqn:E; [done|]. destruct (ok_shape s Hok k) as (r & Hr & H0 & _); [by rewrite E|].
    exfalso. apply Hl. unfold has_live_shape. by rewrite Hr, H0.
Qed.

Lemma all_chunks_rows (t : Tables) (r : chunkRow) : r ∈ all_chunks t <-> exists k, r ∈ chunk_rows k t.
Proof.
  unfold all_chunks, chunk_rows. rewrite list_elem_of_join. split.
  - intros (l & Hr & Hl). apply list_elem_of_fmap in Hl as ([k l'] & -> & Hk). apply elem_of_map_to_list in Hk.
    exists k. by rewrite Hk.
  - intros [k Hk]. destruct (tbl_chunks t !! k) as [l|] eqn:E; [|by apply not_elem_of_nil in Hk]. exists l. split; [done|].
    apply list_elem_of_fmap. exists (k, l). split; [done|]. by apply elem_of_map_to_list.
Qed.

Definition live_paths (t : Tables) : gset string := list_to_set (map (fun r => Clean (chunk_path r)) (all_chunks t)).

Lemma live_paths_rows (s : DiskStore) (q : string) :
  disk_ok s -> q ∈ live_paths (ds_tables s) <-> exists k, q ∈ map chunk_path (chunk_rows k (ds_tables s)).
Proof.
  intros Hok. unfold live_paths. rewrite elem_of_list_to_set.
  change (map (fun r => Clean (chunk_path r)) ?l) with ((fun r => Clean (chunk_path r)) <$> l). rewrite list_elem_of_fmap. split.
  - intros (r & -> & Hr). apply all_chunks_rows in Hr as [k Hk]. exists k.
    assert (Hp : chunk_path r ∈ map chunk_path (chunk_rows k (ds_tables s))) by (by apply (list_elem_of_fmap_2 chunk_path)).
    by destruct (row_path s k _ Hok Hp) as (_ & _ & _ & _ & ->).
  - intros [k Hq]. destruct (row_path s k q Hok Hq) as (_ & _ & _ & _ & Hc).
    change (map chunk_path ?l) with (chunk_path <$> l) in Hq. apply list_elem_of_fmap in Hq as (r & -> & Hr). exists r.
    split; [done|]. apply all_chunks_rows. by exists k.
Qed.

Lemma walk_files_spec (d : string) (files : gmap string string) :
  NoDup (walk_files d files) /\ forall q, q ∈ walk_files d files <-> below d q = true /\ is_Some (files !! q).
Proof.
  unfold walk_files. split.
  - rewrite merge_sort_Permutation. apply NoDup_filter, NoDup_fst_map_to_list.
  - intros q. rewrite merge_sort_Permutation, list_elem_of_filter. by rewrite elem_of_map_keys.
Qed.

(** The walk removes what has no row, and counts it. *)
Lemma remove_unreferenced_spec (live : gset string) (paths : list string) (res : CompactionResult) (s : DiskStore) :
  NoDup paths -> Forall (fun q => Clean q = q /\ is_Some (ds_files s !! q)) paths ->
  runs (remove_unreferenced live paths res) s (fun r s' => keeps s s' /\ ds_tx s' = ds_tx s /\
    exists gone, Forall (fun q => q ∈ paths /\ q ∉ live) gone /\ removed s s' gone /\
    match r with
    | Ok res' => (forall q, q ∈ paths -> q ∉ live -> q ∈ gone) /\
        Z.of_nat (size (ds_files s')) + RemovedChunks res' = Z.of_nat (size (ds_files s)) + RemovedChunks res
    | Err _ => True
    end).
Proof.
  revert res s. induction paths as [|q paths IH]; intros res s Hnd Hin.
  { apply runs_ret. split_and!; [done|done|]. exists []. split_and!; [done|by apply removed_nil| |done].
    intros q Hq. by apply not_elem_of_nil in Hq. }
  apply NoDup_cons in Hnd as [Hq Hnd]. inversion_clear Hin as [|?? [Hc Hs] Hrest]. cbn [remove_unreferenced]. rewrite Hc.
  case_decide as Hl.
  - eapply runs_mono; [by apply IH|]. intros r s' (K & T & gone & Hg & Hr & Ho). split_and!; [done|done|]. exists gone.
    split_and!; [|done|].
    + eapply Forall_impl; [exact Hg|]. intros y [Hy ?]. split; [by right|done].
    + destruct r as [|res']; [done|]. destruct Ho as [Ho Hsize]. split; [|done]. intros y [->|Hy]%elem_of_cons; [done|auto].
  - apply runs_with_store. cbv zeta. apply runs_bind. eapply runs_mono; [apply remove_if_there_spec|].
    intros [e|[]] s1 (K1 & T1 & R1).
    { split_and!; [done|done|]. exists []. by split_and!. }
    assert (Hf : ds_files s1 = delete q (ds_files s)).
    { apply map_eq. intros y. rewrite R1. cbn [map]. rewrite Hc, lookup_delete.
      repeat case_decide; rewrite ?list_elem_of_singleton in *; congruence. }
    eapply runs_mono; [apply IH; [done|]|].
    { apply Forall_forall. intros y Hy. rewrite Forall_forall in Hrest. destruct (Hrest y Hy) as [Hxc Hxs]. split; [done|].
      rewrite Hf, lookup_delete_ne; [done|]. intros ->. done. }
    intros r s' (K & T & gone & Hg & Hr & Ho). split_and!; [by etrans|congruence|]. exists (q :: gone). split_and!.
    + constructor; [split; [by left|done]|]. eapply Forall_impl; [exact Hg|]. intros y [Hy ?]. split; [by right|done].
    + exact (removed_app _ _ _ [q] _ R1 Hr).
    + destruct r as [|res']; [done|]. destruct Ho as [Ho Hsize]. split.
      * intros y [->|Hy]%elem_of_cons Hn; [by left|right; auto].
      * rewrite Hsize, Hf. cbn [RemovedChunks]. destruct Hs as [data Hs]. pose proof (map_size_delete_Some q (ds_files s)) as Hd.
        rewrite Hd by eauto. assert (size (ds_files s) <> 0%nat) by (rewrite map_size_non_empty_iff; intros He; by rewrite He in Hs). lia.
Qed.

(** Files without a row do not matter. *)
Lemma unreferenced_removed (s s' : DiskStore) (gone : list string) :
  disk_ok s -> ds_chunkDir s' = ds_chunkDir s -> ds_tx s' = None ->
  tbl_shapes (ds_tables s') = tbl_shapes (ds_tables s) ->
  (forall k, chunk_rows k (ds_tables s') = chunk_rows k (ds_tables s)) ->
  removed s s' gone -> Forall (fun q => Clean q = q /\ q ∉ live_paths (ds_tables s)) gone ->
  disk_ok s' /\ disk_shapes s' = disk_shapes s.
Proof.
  intros Hok Ed Ex Es Er Hrem Hg.
  assert (Hst : forall k, stored_changes s' k = stored_changes s k).
  { intros k. apply stored_same; [done|done|]. intros q Hq. rewrite Hrem. case_decide as Hin; [|done]. exfalso.
    change (map Clean gone) with (Clean <$> gone) in Hin. apply list_elem_of_fmap in Hin as (x & -> & Hx).
    rewrite Forall_forall in Hg. destruct (Hg x Hx) as [Hc Hn]. rewrite Hc in Hq. apply Hn, live_paths_rows; eauto. }
  split.
  - constructor; rewrite ?Ed, ?Es.
    + by apply ok_dir.
    + done.
    + intros k. rewrite Er. by apply ok_bound.
    + intros k. rewrite Er. by apply ok_rows.
    + intros k. rewrite Er. by apply ok_shape.
    + by apply ok_distinct.
    + intros k row l. rewrite Hst. by apply ok_count.
    + intros q. rewrite Hrem. case_decide; [by intros []|by apply ok_files].
  - apply map_eq. intros k. by rewrite !disk_shapes_lookup, Es, Hst.
Qed.

(** A directory is no file, when all files are those of rows. *)
Lemma child_no_file (s : DiskStore) (q : string) :
  disk_ok s -> (forall x, below (ds_chunkDir s) x = true -> is_Some (ds_files s !! x) -> x ∈ live_paths (ds_tables s)) ->
  is_child (ds_chunkDir s) q = true -> Clean q = q /\ ds_files s !! q = None.
Proof.
  intros Hok Hlive Hq. unfold is_child in Hq. destruct (strip_prefix (ds_chunkDir s +:+ "/") q) as [name|] eqn:E; [|done].
  assert (Hb : below (ds_chunkDir s) q = true) by (unfold below, has_prefix; by rewrite E).
  apply strip_prefix_Some in E. rewrite app_assoc_str in E. split.
  - rewrite E. apply Clean_dir. by apply child_dir; [apply ok_dir|].
  - destruct (ds_files s !! q) as [data|] eqn:Ef; [|done]. exfalso.
    assert (Hl : q ∈ live_paths (ds_tables s)) by (apply Hlive; [done|by rewrite Ef]).
    apply live_paths_rows in Hl as [k Hk]; [|done]. destruct (row_path s k q Hok Hk) as (i & _ & _ & Eq & _).
    rewrite E in Eq. unfold chunk_file in Eq. apply child_inj in Eq. apply plain_spec in Hq as (_ & _ & _ & Hs).
    rewrite Eq, contains_byte_app in Hs. apply orb_false_iff in Hs as [_ Hs]. done.
Qed.

Lemma remove_dirs_spec (l : list string) (s : DiskStore) :
  Forall (fun q => Clean q = q /\ ds_files s !! q = None) l ->
  runs (for_each remove_if_empty l) s (fun _ s' => keeps s s' /\ ds_tx s' = ds_tx s /\ ds_files s' = ds_files s).
Proof.
  revert s. induction l as [|q l IH]; intros s Hl; [by apply runs_ret|]. inversion_clear Hl as [|?? [Hc Hf] Hrest].
  cbn [for_each]. apply runs_bind. unfold remove_if_empty. apply runs_bind, runs_catch.
  eapply (runs_mono _ _ (fun r s' => keeps s s' /\ ds_tx s' = ds_tx s /\ ds_files s' = ds_files s)).
  - apply runs_attempt; [done|]. cbn [ds_files tick ds_dirs]. rewrite Hc, Hf.
    case_decide; [destruct (is_empty_dir _ _)|]; done.
  - intros r s1 (K & T & F).
    assert (Hnext : runs (for_each remove_if_empty l) s1 (fun _ s' => keeps s s' /\ ds_tx s' = ds_tx s /\ ds_files s' = ds_files s)).
    { eapply runs_mono; [apply IH; by rewrite F|]. intros _ s2 (K2 & T2 & F2). split_and!; [by etrans|congruence|congruence]. }
    destruct r as [[]|[]]; done.
Qed.

(** What no compaction changes. *)
Record intact (s s' : DiskStore) : Prop := {
  intact_ok : disk_ok s';
  intact_home : ds_dir s' = ds_dir s;
  intact_dir : ds_chunkDir s' = ds_chunkDir s;
  intact_shapes : disk_shapes s' = disk_shapes s;
  intact_rows : tbl_shapes (ds_tables s') = tbl_shapes (ds_tables s);
  intact_checkpoint : tbl_checkpoint (ds_tables s') = tbl_checkpoint (ds_tables s);
  intact_files q : below (ds_chunkDir s) q = false -> ds_files s' !! q = ds_files s !! q
}.

Lemma intact_removed (s s1 s' : DiskStore) (gone : list string) :
  intact s s1 -> keeps s1 s' -> ds_tx s' = None -> removed s1 s' gone ->
  Forall (fun q => Clean q = q /\ below (ds_chunkDir s) q = true /\ q ∉ live_paths (ds_tables s1)) gone -> intact s s'.
Proof.
  intros [] [E1 E2 E3] Ex Hrem Hg. destruct (unreferenced_removed s1 s' gone) as [Hok Hsh]; rewrite ?E3; try done.
  - eapply Forall_impl; [exact Hg|]. by intros q (Hc & _ & Hl).
  - constructor; [done|congruence|congruence|congruence|by rewrite E3|by rewrite E3|]. intros q Hq. rewrite Hrem, decide_False; [auto|].
    change (map Clean gone) with (Clean <$> gone). intros (x & -> & Hx)%list_elem_of_fmap.
    rewrite Forall_forall in Hg. destruct (Hg x Hx) as (Hc & Hb & _). rewrite Hc in Hq. congruence.
Qed.

Lemma intact_same (s s1 s' : DiskStore) :
  intact s s1 -> keeps s1 s' -> ds_tx s' = ds_tx s1 -> ds_files s' = ds_files s1 -> intact s s'.
Proof.
  intros Hi K T F. apply (intact_removed s s1 s' []); try done; [|by apply removed_nil].
  rewrite T. apply ok_tx, Hi.
Qed.

Lemma compact_tx_spec (s : DiskStore) :
  disk_ok s ->
  runs (in_tx (_ ← tx_exec delete_dead_chunks; _ ← tx_exec (fun t => Ok (set_shapes (reset_count <$> tbl_shapes t) t)); commit)) s
    (fun _ s' => intact s s' /\ ds_files s' = ds_files s).
Proof.
  intros Hok. destruct (compacted_tables_same s Hok) as (Es & Ec & Er).
  eapply (runs_mono _ _ (fun r s' => ds_dir s' = ds_dir s /\ ds_chunkDir s' = ds_chunkDir s /\ ds_files s' = ds_files s /\ ds_tx s' = None /\
    (ds_tables s' = ds_tables s \/ ds_tables s' = compacted_tables (ds_tables s)))).
  - apply runs_in_tx; [intros t; split_and!; try done; [exact (ok_tx s Hok)|by left]|].
    apply runs_bind. eapply runs_tx_exec; [done|intros e; split_and!; auto|]. intros u [= <-].
    apply runs_bind. eapply runs_tx_exec; [done|intros e; split_and!; auto|]. intros u [= <-].
    apply runs_attempt; [intros t; split_and!; auto|]. cbn. split_and!; auto.
  - intros r s1 (Eh1 & Ed1 & Ef1 & Ex1 & Et1).
    assert (Hs1 : disk_ok s1 /\ disk_shapes s1 = disk_shapes s).
    { apply (unreferenced_removed s s1 []); try done; [| |by apply removed_nil]; destruct Et1 as [->| ->]; done. }
    split; [|done]. destruct Hs1. constructor; try done; [by destruct Et1 as [->| ->]..|]. intros q _. by rewrite Ef1.
Qed.

Lemma compact_outcome (s : DiskStore) :
  disk_ok s ->
  runs disk_Compact s (fun r s' => intact s s' /\
    match r with
    | Ok res => (forall q, below (ds_chunkDir s) q = true -> is_Some (ds_files s' !! q) -> q ∈ live_paths (ds_tables s')) /\
        Z.of_nat (size (ds_files s')) + RemovedChunks res = Z.of_nat (size (ds_files s))
    | Err _ => True
    end).
Proof.
  intros Hok. unfold disk_Compact. apply runs_bind. eapply runs_mono; [by apply compact_tx_spec|].
  intros [e|[]] s1 [I1 F1]; [done|]. pose proof (ok_tx s1 (intact_ok _ _ I1)) as X1.
  apply runs_bind, runs_query; [intros t; split; [by apply (intact_same s s1)|done]|].
  change (list_to_set _) with (live_paths (ds_tables s1)).
  assert (I2 : intact s (tick s1)) by (by apply (intact_same s s1)).
  apply runs_bind, runs_bind, runs_attempt; [intros t; split; [by apply (intact_same s s1)|done]|].
  cbn [fst snd ds_chunkDir ds_files tick]. rewrite (intact_dir _ _ I1), F1.
  destruct (walk_files_spec (ds_chunkDir s) (ds_files s)) as [Hnd Hwalk].
  eapply runs_mono.
  { apply remove_unreferenced_spec; [done|]. apply Forall_forall. intros q [_ Hq]%Hwalk. cbn. rewrite F1. split; [|done]. by apply (ok_files s). }
  intros r s3 (K3 & T3 & gone & Hg & Hrem & Hr). cbn [ds_tables tick] in *.
  assert (I3 : intact s s3).
  { apply (intact_removed s s1 s3 gone); [done|by destruct K3|by rewrite T3|exact Hrem|]. eapply Forall_impl; [exact Hg|].
    intros q [[Hb Hq]%Hwalk Hl]. split_and!; [by apply (ok_files s)|done|done]. }
  destruct r as [e|res]; [done|]. destruct Hr as [Hall Hsize].
  assert (Hlive : forall q, below (ds_chunkDir s) q = true -> is_Some (ds_files s3 !! q) -> q ∈ live_paths (ds_tables s3)).
  { intros q Hb Hq. rewrite (keeps_tables _ _ K3). cbn [ds_tables tick]. destruct (decide (q ∈ live_paths (ds_tables s1))) as [|Hn]; [done|].
    exfalso. rewrite Hrem in Hq. case_decide as Hin; [by destruct Hq|]. apply Hin. cbn in Hq. rewrite F1 in Hq.
    assert (Hc : Clean q = q) by (by apply (ok_files s)). rewrite <- Hc. apply (list_elem_of_fmap_2 Clean). apply Hall; [|done]. by apply Hwalk. }
  assert (Hsize3 : Z.of_nat (size (ds_files s3)) + RemovedChunks res = Z.of_nat (size (ds_files s))).
  { rewrite Hsize. cbn. rewrite F1. lia. }
  apply runs_bind, runs_catch.
  eapply (runs_mono _ _ (fun _ s' => keeps s3 s' /\ ds_tx s' = ds_tx s3 /\ ds_files s' = ds_files s3)).
  - apply runs_bind, runs_attempt; [done|]. cbn [fst snd]. eapply runs_mono; [apply remove_dirs_spec|].
    + apply Forall_forall. intros q Hq. unfold child_dirs in Hq. rewrite elem_of_sort_strings, list_elem_of_filter in Hq.
      destruct Hq as [Hq _]. cbn [ds_chunkDir ds_files tick] in *. apply (child_no_file s3); [apply I3| |done].
      rewrite (intact_dir _ _ I3). exact Hlive.
    + intros _ s4 (K4 & T4 & F4). split_and!; [by destruct K4|done|done].
  - intros r' s4 (K4 & T4 & F4). apply runs_ret. split; [by apply (intact_same s s3)|]. rewrite F4, (keeps_tables _ _ K4). done.
Qed.

(** ** The result of a load *)

Lemma load_outcome (s : DiskStore) :
  disk_ok s ->
  runs disk_LoadShapes s (fun r _ =>
    match r with
    | Ok l => Forall2 loaded_as (sorted_values (disk_shapes s)) l
    | Err _ => exists n, is_Some (fault_at n)
    end).
Proof.
  intros Hok. apply runs_bind. unfold query, attempt, runs at 1. destruct (fault_at (ds_step s)) as [f|] eqn:Ef; [exists (ds_step s); by rewrite Ef|].
  cbn [fst snd]. eapply runs_mono; [apply load_rows_spec; exact (ok_tx s Hok)|]. intros r _ (l & -> & Hl).
  rewrite <- shape_rows_sorted. apply Forall2_fmap_l. eapply Forall2_impl; [exact Hl|]. intros kr q Hq. exact Hq.
Qed.

Lemma loaded_list (s : DiskStore) :
  disk_ok s -> forall l, LoadShapes s = Ok l ->
  Forall2 loaded_as (sorted_values (disk_shapes s)) l.
Proof.
  intros Hok l. pose proof (load_outcome s Hok) as Hl. unfold runs in Hl. cbn.
  destruct (disk_LoadShapes s) as [[e|l'] s1]; [done|]. by intros [= <-].
Qed.

Lemma loaded_all (s : DiskStore) :
  disk_ok s -> (forall n, fault_at n = None) -> LoadShapes s = Ok (sorted_values (disk_shapes s)).
Proof.
  intros Hok Hn. pose proof (load_outcome s Hok) as Hl. unfold runs in Hl. cbn.
  destruct (disk_LoadShapes s) as [[e|l'] s1]; cbn [fst snd text_result] in *.
  - destruct Hl as [n Hf]. rewrite Hn in Hf. by destruct Hf.
  - f_equal. symmetry. apply list_eq_Forall2. eapply Forall2_impl; [exact Hl|].
    intros p q [->|[_ [n Hf]]]; [done|]. rewrite Hn in Hf. by destruct Hf.
Qed.

(** ** Opening *)

Lemma open_store_spec (dir : string) (databases : gmap string Tables) (s : DiskStore) :
  let d := if is_blank dir then ".postgres-sync-go" else dir in
  runs (open_store dir databases) s (fun r s' =>
    (r = Ok tt -> ds_dir s' = d /\ ds_chunkDir s' = Join d "chunks" /\ ds_files s' = ds_files s /\ ds_tx s' = None /\
      ds_tables s' = default empty_tables (databases !! database_path d)) /\
    ((forall n, fault_at n = None) -> r = Ok tt)).
Proof.
  intros d. unfold open_store. fold d. cbv zeta.
  assert (Hfail : forall (A : Type) (f : DiskStore -> result diskError A * DiskStore) (s : DiskStore) (Q : result diskError A -> DiskStore -> Prop),
    (forall t n, fault_at n <> None -> Q (Err (ErrDevice t)) (tick s)) -> Q (f (tick s)).1 (f (tick s)).2 -> runs (attempt f) s Q).
  { intros A f s0 Q He Hf. unfold runs, attempt. destruct (fault_at (ds_step s0)) eqn:E; [|done]. apply (He _ (ds_step s0)). by rewrite E. }
  apply runs_bind, Hfail; [by intros t n Hn; split; [|intros Hr; destruct (Hn (Hr n))]|].
  apply runs_bind, Hfail; [by intros t n Hn; split; [|intros Hr; destruct (Hn (Hr n))]|].
  apply runs_bind, Hfail; [by intros t n Hn; split; [|intros Hr; destruct (Hn (Hr n))]|].
  cbn [fst snd]. set (t0 := default empty_tables _).
  assert (Hloop : forall l s1, ds_dir s1 = d -> ds_chunkDir s1 = Join d "chunks" -> ds_files s1 = ds_files s -> ds_tx s1 = None -> ds_tables s1 = t0 ->
    runs (for_each (fun _ : nat => exec Ok) l) s1 (fun r s' =>
    (r = Ok tt -> ds_dir s' = d /\ ds_chunkDir s' = Join d "chunks" /\ ds_files s' = ds_files s /\ ds_tx s' = None /\ ds_tables s' = t0) /\
    ((forall n, fault_at n = None) -> r = Ok tt))).
  { induction l as [|n l IH]; intros s1 E1 E2 E3 E4 E5; [by apply runs_ret|]. cbn [for_each].
    apply runs_bind, Hfail; [by intros t k Hn; split; [|intros Hr; destruct (Hn (Hr k))]|]. by apply IH. }
  by apply Hloop.
Qed.

(** A store that is opened on what another has left holds the same shapes. *)
Lemma reopened (dir : string) (s s' : DiskStore) :
  disk_ok s -> ds_dir s = dir -> is_blank dir = false -> ds_chunkDir s = Join dir "chunks" ->
  NewDiskStore dir (disk_Close s) = Ok s' ->
  ds_dir s' = dir /\ ds_chunkDir s' = Join dir "chunks" /\
  disk_ok s' /\ disk_shapes s' = disk_shapes s /\ tbl_shapes (ds_tables s') = tbl_shapes (ds_tables s) /\
  tbl_checkpoint (ds_tables s') = tbl_checkpoint (ds_tables s).
Proof.
  intros Hok Hdir Hb Hch E. unfold NewDiskStore in E. cbn [md_databases md_files md_dirs disk_Close] in E.
  pose proof (open_store_spec dir {[database_path (ds_dir s) := ds_tables s]} (mkDiskStore "" "" empty_tables None (ds_files s) (ds_dirs s) 0)) as Hspec.
  cbv zeta in Hspec. unfold runs in Hspec. destruct (open_store _ _ _) as [[e|[]] s1]; [done|]. injection E as <-.
  destruct Hspec as [Hspec _]. destruct (Hspec eq_refl) as (E1 & E2 & E3 & E4 & E5). rewrite Hb in *. cbn [fst snd ds_files] in *.
  rewrite Hdir, lookup_singleton_eq in E5. cbn in E5.
  destruct (unreferenced_removed s s1 []) as [Hok1 Hsh]; try done; [congruence|by rewrite E5|by rewrite E5|by apply removed_nil|].
  split_and!; [done|done|done|done|by rewrite E5..].
Qed.

(** A store in a new place is empty. *)
Lemma new_store_ok (dir : string) (m : Medium) (s : DiskStore) :
  (forall q, md_databases m !! q = None) -> (forall q, is_Some (md_files m !! q) -> Clean q = q) ->
  NewDiskStore dir m = Ok s ->
  ds_dir s = (if is_blank dir then ".postgres-sync-go" else dir) /\
  ds_chunkDir s = Join (if is_blank dir then ".postgres-sync-go" else dir) "chunks" /\ disk_ok s /\ disk_shapes s = ∅.
Proof.
  intros Hnone Hclean E. unfold NewDiskStore in E.
  pose proof (open_store_spec dir (md_databases m) (mkDiskStore "" "" empty_tables None (md_files m) (md_dirs m) 0)) as Hspec.
  cbv zeta in Hspec. unfold runs in Hspec. destruct (open_store _ _ _) as [[e|[]] s1]; [done|]. injection E as <-.
  destruct Hspec as [Hspec _]. destruct (Hspec eq_refl) as (E1 & E2 & E3 & E4 & E5). cbn [fst snd ds_files] in *.
  rewrite Hnone in E5. cbn in E5. split_and!; [exact E1|exact E2|..].
  - constructor; rewrite ?E2, ?E4, ?E5.
    + apply Join_clean_dir; [|done]. destruct (is_blank dir) eqn:Hb; [done|]. by intros ->.
    + done.
    + intros h. apply Nat.le_0_l.
    + intros h i r. done.
    + intros h. done.
    + intros h k [? Hh]. done.
    + intros h row l Hh. done.
    + rewrite E3. done.
  - apply map_eq. intros k. by rewrite disk_shapes_lookup, E5.
Qed.

(** ** The checkpoint and the place are not those of a save *)

(** The checkpoint of the tables, in and out of a transaction, and the
    directories of the store. *)
Definition checkpointed (c : option RuntimeCheckpoint * (string * string)) (s : DiskStore) : Prop :=
  tbl_checkpoint (ds_tables s) = c.1 /\ (forall t, ds_tx s = Some t -> tbl_checkpoint t = c.1) /\ (ds_dir s, ds_chunkDir s) = c.2.

Definition keeps_checkpoint {A} (m : Io A) : Prop := forall c s, checkpointed c s -> checkpointed c (m s).2.

Lemma kept_by_bind {A B} (m : Io A) (f : A -> Io B) :
  keeps_checkpoint m -> (forall a, keeps_checkpoint (f a)) -> keeps_checkpoint (m ≫= f).
Proof.
  intros Hm Hf c s Hs. specialize (Hm c s Hs). unfold mbind, io_bind. destruct (m s) as [[e|a] s']; [done|]. by apply Hf.
Qed.

Lemma keeps_attempt {A} (f : DiskStore -> result diskError A * DiskStore) :
  (forall c s, checkpointed c s -> checkpointed c (f s).2) -> keeps_checkpoint (attempt f).
Proof. intros Hf c s Hs. unfold attempt. destruct (fault_at _); [done|]. by apply Hf. Qed.

Lemma keeps_tx_exec (f : Tables -> result diskError Tables) :
  (forall t u, f t = Ok u -> tbl_checkpoint u = tbl_checkpoint t) -> keeps_checkpoint (tx_exec f).
Proof.
  intros Hf. apply keeps_attempt. intros c s Hs. destruct (ds_tx s) as [t|] eqn:Et; [|exact Hs].
  destruct (f t) as [e|u] eqn:E; [exact Hs|]. destruct Hs as (H1 & H2 & H3). split_and!; [done| |done]. intros t' [= <-]. rewrite (Hf _ _ E). by apply H2.
Qed.

Lemma keeps_for_each {A} (f : A -> Io unit) (l : list A) : (forall x, keeps_checkpoint (f x)) -> keeps_checkpoint (for_each f l).
Proof. intros Hf. induction l as [|x l IH]; [by intros c s Hs|]. by apply kept_by_bind. Qed.

Lemma keeps_ret {A} (a : A) : keeps_checkpoint (mret a).
Proof. by intros c s Hs. Qed.

Lemma keeps_of_result {A} (r : result diskError A) : keeps_checkpoint (of_result r).
Proof. by intros c s Hs. Qed.

Lemma keeps_tx_query {A} (f : Tables -> A) : keeps_checkpoint (tx_query f).
Proof. apply keeps_attempt. intros c s Hs. by destruct (ds_tx s) eqn:E. Qed.

Lemma keeps_remove (p : string) : keeps_checkpoint (remove_if_there p).
Proof.
  intros c s Hs. pose proof (remove_if_there_spec p s) as ([] & Ht & _). destruct Hs as (H1 & H2 & H3).
  split_and!; [by rewrite keeps_tables|by rewrite Ht|congruence].
Qed.

Lemma keeps_reset (h : string) (paths : list string) : keeps_checkpoint (reset_chunks h paths).
Proof. apply kept_by_bind; [by apply keeps_for_each, keeps_remove|]. intros []. apply keeps_tx_exec. by intros t u [= <-]. Qed.

Lemma keeps_write (p data : string) : keeps_checkpoint (os_WriteFile p data).
Proof.
  intros c s Hs. unfold os_WriteFile. case_decide; [|done]. destruct (fault_at _) as [f|]; [|done]. by destruct (fault_written f).
Qed.

Lemma keeps_writeChunk (h : string) (n : Z) (l : list raw) : keeps_checkpoint (writeChunk h n l).
Proof.
  intros c s. unfold writeChunk, with_store. revert c s. cbv zeta.
  intros c s. apply (kept_by_bind (os_MkdirAll _)).
  - by apply keeps_attempt.
  - intros []. apply kept_by_bind; [apply keeps_of_result|]. intros data. apply kept_by_bind; [apply keeps_write|]. intros [].
    apply kept_by_bind; [|intros []; apply keeps_ret]. apply keeps_attempt. intros c' s' Hs. by destruct (ds_files s' !! _).
Qed.

Lemma keeps_save_body (p : PersistedShape) : keeps_checkpoint (save_body p).
Proof.
  apply kept_by_bind.
  { apply kept_by_bind; [apply keeps_tx_query|]. intros n. apply kept_by_bind; [apply keeps_tx_query|]. intros rows. apply keeps_ret. }
  intros [[n k] paths]. apply kept_by_bind.
  { destruct (ps_Deleted p); [|apply keeps_ret]. apply kept_by_bind; [apply keeps_reset|]. intros []. apply keeps_ret. }
  intros [[n' k'] changes]. apply kept_by_bind.
  { destruct (_ <? _); [|apply keeps_ret]. apply kept_by_bind; [apply keeps_reset|]. intros []. apply keeps_ret. }
  intros [n'' k'']. apply kept_by_bind.
  { apply keeps_tx_exec. intros t u. unfold upsert_shape. destruct (shape_row _ _); [done|]. by intros [= <-]. }
  intros []. destruct (_ <? _); [|apply keeps_ret]. apply kept_by_bind; [apply keeps_writeChunk|]. intros path.
  apply keeps_tx_exec. intros t u. unfold insert_chunk. destruct (insert_row _ _); [done|]. by intros [= <-].
Qed.

Lemma save_keeps (p : PersistedShape) (s : DiskStore) :
  tbl_checkpoint (ds_tables (disk_SaveShape p s).2) = tbl_checkpoint (ds_tables s) /\
  (ds_dir (disk_SaveShape p s).2, ds_chunkDir (disk_SaveShape p s).2) = (ds_dir s, ds_chunkDir s).
Proof.
  apply (runs_in_tx _ s (fun _ s' => tbl_checkpoint (ds_tables s') = tbl_checkpoint (ds_tables s) /\
    (ds_dir s', ds_chunkDir s') = (ds_dir s, ds_chunkDir s))); [done|].
  cbn. unfold runs.
  assert (Hk : keeps_checkpoint (_ ← save_body p; commit)).
  { apply kept_by_bind; [apply keeps_save_body|]. intros []. apply keeps_attempt. intros c s' Hs.
    destruct (ds_tx s') as [t|] eqn:E; [|exact Hs]. destruct Hs as (_ & H2 & H3). split_and!; [by apply H2|done|done]. }
  edestruct (Hk (tbl_checkpoint (ds_tables s), (ds_dir s, ds_chunkDir s))) as (H1 & _ & H3); [|split; [exact H1|exact H3]].
  split_and!; [done| |done]. by intros t [= <-].
Qed.

#[export] Instance disk_CheckpointLaws : CheckpointLaws DiskStore.
Proof.
  refine {| checkpoint_of := fun s => tbl_checkpoint (ds_tables s) |}.
  - intros s p s' e E. cbn in E. pose proof (save_keeps p s) as [Hk _]. destruct (disk_SaveShape p s). by injection E as <- _.
  - intros s c. cbn. unfold disk_LoadRuntimeCheckpoint, query, attempt. destruct (fault_at _); [done|]. by intros [= <-].
  - intros s c s'. cbn. unfold disk_SaveRuntimeCheckpoint, exec, attempt. destruct (fault_at _); [done|]. by intros [= <-].
Defined.
End device.

(** ** Examples *)

(** A device that never fails, and one that fails at the [n]-th operation. *)
Definition quiet : Device := {|
  fault_at := fun _ => None; metadata_bytes := fun _ => 0;
  error_text := fun e => match e with ErrDevice t => t | _ => "error" end |}.

Definition failing (n : nat) : Device := {|
  fault_at := fun k => if decide (k = n) then Some (mkFault "input/output error" (Some 3%nat)) else None; metadata_bytes := fun _ => 0;
  error_text := fun e => match e with ErrDevice t => t | _ => "error" end |}.

Definition demo_disk : DiskStore :=
  match NewDiskStore (H := quiet) "data" (mkMedium ∅ ∅ ∅) with Ok s => s | Err _ => mkDiskStore "" "" empty_tables None ∅ ∅ 0 end.

Definition demo_change (key : string) : raw := RawJson (JObj [("key", JStr key)]).

Definition demo_shape (deleted : bool) (changes : list raw) : PersistedShape :=
  mkPersisted "5f3a-17" "hash" (RawJson (JObj [])) (RawJson (JObj [])) (RawJson (JArr [])) (RawJson (JObj [])) "0_0" 5000000007 1 deleted changes.

(** The store after one save of two changes. *)
Definition demo_saved : DiskStore := (disk_SaveShape (H := quiet) (demo_shape false [demo_change "a"; demo_change "b"]) demo_disk).2.

Lemma demo_disk_ok : disk_ok demo_disk.
Proof. apply (@new_store_ok quiet "data" (mkMedium ∅ ∅ ∅) demo_disk); [done| |reflexivity]. by intros q [? Hq]. Qed.

Lemma demo_accepts (deleted : bool) (changes : list raw) (s : DiskStore) :
  Forall message_ok changes -> dom (tbl_shapes (ds_tables s)) ⊆ {["5f3a-17"]} ->
  bool_decide (length (chunk_rows "5f3a-17" (ds_tables s)) < 3)%nat = true -> accepts s (demo_shape deleted changes).
Proof.
  intros Hc Hd Hl%bool_decide_eq_true. split; [done|]. split.
  - intros k Hk%elem_of_dom _. apply Hd in Hk. by apply elem_of_singleton in Hk.
  - cbn [demo_shape ps_Handle]. unfold max_chunks. lia.
Qed.

Lemma demo_message_ok (key : string) : coerce_utf8 key = key -> message_ok (demo_change key).
Proof. intros Hk. split; [done|]. cbn. by rewrite Hk. Qed.

Lemma demo_saved_ok : disk_ok demo_saved.
Proof.
  assert (Hacc : accepts demo_disk (demo_shape false [demo_change "a"; demo_change "b"])).
  { apply demo_accepts; [|by vm_compute|reflexivity]. repeat constructor; by apply demo_message_ok. }
  assert (Hf : follows demo_disk (demo_shape false [demo_change "a"; demo_change "b"])).
  { right. right. exists []. split; [reflexivity|apply prefix_nil]. }
  destruct (@save_outcome quiet _ demo_disk demo_disk_ok Hacc Hf) as [Hok _]. exact Hok.
Qed.

(** A deletion removes the files before it is committed: when it fails in
    between, the shape is still there for the manager, and its log is lost. *)
Example failed_delete_loses_log :
  let result := SaveShape (Store := disk_Store (H := failing 20)) (demo_shape true []) demo_saved in
  result.2 = Some "input/output error" /\
  disk_shapes result.1 !! "5f3a-17" = Some (unreadable (on_disk (demo_shape false [demo_change "a"; demo_change "b"]))).
Proof. by vm_compute. Qed.

(** The paths of chunks are sorted as text: the one after 999999 comes before
    it. *)
Example million_chunks_misordered :
  sort_strings [chunk_file "d" "h" 999999; chunk_file "d" "h" 1000000] = [chunk_file "d" "h" 1000000; chunk_file "d" "h" 999999].
Proof. by vm_compute. Qed.

(** * Properties *)

(** C22. The disk store is a map of shapes: a save that returns puts the shape
    into the map, with its time to the second and without the changes of a
    deleted shape; one that fails, at whatever statement or file operation,
    changes no other shape, and its own only when it was to drop the log, which
    it may leave unreadable.  The invariant of the store is kept either way. *)
Theorem disk_save_refines `{Device} (p : PersistedShape) (s s' : DiskStore) (e : option string) :
  disk_ok s -> accepts s p -> follows s p -> SaveShape p s = (s', e) ->
  disk_ok s' /\
  match e with
  | None => disk_shapes s' = <[ps_Handle p := on_disk p]> (disk_shapes s)
  | Some _ => failed_save p s s'
  end.
Proof.
  intros Hok Hacc Hf E. pose proof (save_outcome p s Hok Hacc Hf) as Ho. unfold runs in Ho. cbn in E.
  destruct (disk_SaveShape p s) as [[err|[]] s1]; by injection E as <- <-.
Qed.

(** A load lists the map: the shapes come in the order of their handles,
    each with the changes of all its chunks in order; a shape whose chunks
    cannot be read comes with changes that are not JSON, and no shape is left
    out.  Without failures a load returns. *)
Theorem disk_load_lists `{Device} (s : DiskStore) :
  disk_ok s ->
  (forall l, LoadShapes s = Ok l ->
    Forall2 loaded_as (sorted_values (disk_shapes s)) l) /\
  ((forall n, fault_at n = None) -> LoadShapes s = Ok (sorted_values (disk_shapes s))).
Proof. intros Hok. split; [by apply loaded_list|by apply loaded_all]. Qed.

(** C28. A compaction loses nothing: whether it succeeds or fails on its way,
    every shape is loaded as before, the checkpoint stays, and no file outside
    the directory of chunks is touched; when it succeeds, the files below that
    directory are those of chunks in the tables, and its result is the number
    of the others. *)
Theorem disk_compact_keeps `{Device} (s s' : DiskStore) (r : result string CompactionResult) :
  disk_ok s -> Compact s = (s', r) ->
  intact s s' /\
  forall res, r = Ok res ->
    (forall q, below (ds_chunkDir s) q = true -> is_Some (ds_files s' !! q) ->
      exists h, q ∈ map chunk_path (chunk_rows h (ds_tables s'))) /\
    Z.of_nat (size (ds_files s')) + RemovedChunks res = Z.of_nat (size (ds_files s)).
Proof.
  intros Hok E. pose proof (compact_outcome s Hok) as Ho. unfold runs in Ho. cbn in E.
  destruct (disk_Compact s) as [[err|res] s1]; injection E as <- <-; destruct Ho as [Hi Ho]; (split; [done|]); [done|].
  intros res' [= <-]. destruct Ho as [Hlive Hsize]. split; [|done]. intros q Hb Hq. apply live_paths_rows; [apply Hi|by apply Hlive].
Qed.

(** ** Witnesses *)

(** Saving a third change, and a deletion that fails when it has removed the
    file. *)
Lemma disk_save_refines_witness :
  disk_shapes (SaveShape (Store := disk_Store (H := quiet)) (demo_shape false [demo_change "a"; demo_change "b"; demo_change "c"]) demo_saved).1 !! "5f3a-17" =
    Some (on_disk (demo_shape false [demo_change "a"; demo_change "b"; demo_change "c"])) /\
  failed_save (demo_shape true []) demo_saved (SaveShape (Store := disk_Store (H := failing 20)) (demo_shape true []) demo_saved).1.
Proof.
  split.
  - destruct (@disk_save_refines quiet (demo_shape false [demo_change "a"; demo_change "b"; demo_change "c"]) demo_saved
      (SaveShape (Store := disk_Store (H := quiet)) (demo_shape false [demo_change "a"; demo_change "b"; demo_change "c"]) demo_saved).1 None) as [_ E].
    + exact demo_saved_ok.
    + apply demo_accepts; [|by vm_compute|reflexivity]. repeat constructor; by apply demo_message_ok.
    + right. right. exists [demo_change "a"; demo_change "b"]. split; [by vm_compute|]. by exists [demo_change "c"].
    + by vm_compute.
    + rewrite E. apply lookup_insert_eq.
  - destruct (@disk_save_refines (failing 20) (demo_shape true []) demo_saved
      (SaveShape (Store := disk_Store (H := failing 20)) (demo_shape true []) demo_saved).1 (Some "input/output error")) as [_ E].
    + exact demo_saved_ok.
    + apply demo_accepts; [constructor|by vm_compute|reflexivity].
    + by left.
    + by vm_compute.
    + exact E.
Defined.

Lemma disk_load_lists_witness : LoadShapes (Store := disk_Store (H := quiet)) demo_saved = Ok (sorted_values (disk_shapes demo_saved)).
Proof. apply (@disk_load_lists quiet demo_saved); [exact demo_saved_ok|done]. Defined.

Lemma disk_compact_keeps_witness :
  intact demo_saved (Compact (Store := disk_Store (H := quiet)) demo_saved).1.
Proof.
  apply (@disk_compact_keeps quiet demo_saved _ (Ok (mkCompaction 0 0))); [exact demo_saved_ok|]. by vm_compute.
Defined.
