(* ===== verification/Persist.v ===== *)
(** Definitions and states as JSON: [Canonicalize], [marshalState] and
    [unmarshalState] of [src/internal/shapes/manager.go].

    A document is built and read as abstract syntax; [json_print] gives the
    bytes that are hashed.  A nil and an empty slice are one list here: the
    code writes null for a nil snapshot and this model writes an empty array,
    and both are read back as no message.  The values of a row are text or
    null, as everywhere in the model. *)

From Stdlib Require Import Ascii String ZArith NArith Lia.
From S2P Require Import Prelude GoValue Crypto ShapeTypes Storage.

(** * Definitions *)

(** ** The canonical form of a definition *)

Definition relation_json (r : Relation) : json :=
  JObj [("schema", JStr (rel_Schema r)); ("table", JStr (rel_Table r))].

Definition canonicalizeMap (values : gmap string string) : list (string * string) :=
  omap (fun k => v ← values !! k; Some (k, v)) (sorted_keys values).

Definition canonicalizeStrings (values : list string) : list string := sort_strings values.

Definition canonicalKV_json (kv : string * string) : json :=
  JObj [("key", JStr kv.1); ("value", JStr kv.2)].

(** A slice field with omitempty. *)
Definition field_slice {A} (name : string) (f : A -> json) (l : list A) : list (string * json) :=
  match l with [] => [] | _ => [(name, JArr (map f l))] end.

Definition canonicalSubset_json (s : Subset) : json :=
  JObj (field_nonempty "where" (sub_Where s) ++
        field_slice "params" canonicalKV_json (canonicalizeMap (sub_Params s)) ++
        field_int_ptr "limit" (sub_Limit s) ++ field_int_ptr "offset" (sub_Offset s) ++
        field_nonempty "order_by" (sub_OrderBy s) ++ field_nonempty "where_expr" (sub_WhereExpr s) ++
        field_nonempty "order_by_expr" (sub_OrderByExpr s)).

Definition canonicalDefinition_json (def : Definition_) : json :=
  JObj (field "relation" (relation_json (def_Relation def)) ++
        field_nonempty "where" (def_Where def) ++
        field_slice "params" canonicalKV_json (canonicalizeMap (def_Params def)) ++
        field_slice "columns" JStr (canonicalizeStrings (def_Columns def)) ++
        field_nonempty "replica" (def_Replica def) ++ field_nonempty "log" (def_Log def) ++
        match def_Subset def with
        | Some s => field "subset" (canonicalSubset_json s)
        | None => []
        end).

Definition Canonicalize (def : Definition_) : string * string :=
  let bytes := json_print (canonicalDefinition_json def) in (bytes, sha256_hex bytes).

Definition definition_hash (def : Definition_) : string := (Canonicalize def).2.

(** ** json.Marshal *)

Definition subset_json (s : Subset) : json :=
  JObj (field_nonempty "where" (sub_Where s) ++
        field_if (negb (bool_decide (sub_Params s = ∅))) "params" (map_json JStr (sub_Params s)) ++
        field_int_ptr "limit" (sub_Limit s) ++ field_int_ptr "offset" (sub_Offset s) ++
        field_nonempty "order_by" (sub_OrderBy s) ++ field_nonempty "where_expr" (sub_WhereExpr s) ++
        field_nonempty "order_by_expr" (sub_OrderByExpr s)).

Definition definition_json (def : Definition_) : json :=
  JObj (field "relation" (relation_json (def_Relation def)) ++
        field_nonempty "where" (def_Where def) ++
        field_if (negb (bool_decide (def_Params def = ∅))) "params" (map_json JStr (def_Params def)) ++
        field_slice "columns" JStr (def_Columns def) ++
        field_nonempty "replica" (def_Replica def) ++ field_nonempty "log" (def_Log def) ++
        match def_Subset def with
        | Some s => field "subset" (subset_json s)
        | None => []
        end).

Definition column_json (c : ColumnSchema) : json :=
  JObj (field "type" (JStr (col_Type c)) ++ field "not_null" (JBool (col_NotNull c)) ++
        field_int_ptr "pk_index" (col_PKIndex c)).

(** The clone functions turn an empty map into a nil one, written null. *)
Definition nil_if_empty {A} (f : A -> json) (m : gmap string A) : json :=
  if decide (m = ∅) then JNull else map_json f m.

Definition schema_json (schema : Schema) : json := nil_if_empty column_json schema.

Definition cell_json (v : option string) : json :=
  match v with Some s => JStr s | None => JNull end.

Definition row_json (row : Row) : json := nil_if_empty cell_json row.

Definition field_row (name : string) (row : Row) : list (string * json) :=
  field_if (negb (bool_decide (row = ∅))) name (row_json row).

(** The fields of [Message] that are not tagged json:"-". *)
Definition message_fields (m : Message) : list (string * json) :=
  field "headers" (map_json to_json (msg_Headers m)) ++ field_nonempty "key" (msg_Key m) ++
  field_row "value" (msg_Value m) ++ field_row "old_value" (msg_OldValue m).

Definition message_json (m : Message) : json := JObj (message_fields m).

Definition persistedMessage_json (m : Message) : json :=
  JObj (message_fields m ++ field_nonempty "offset" (msg_Offset m)).

Definition materialized_json (m : gmap string Row) : json := map_json row_json m.

Definition marshalState (st : State) : PersistedShape :=
  mkPersisted (st_Handle st) (st_Hash st)
    (RawJson (definition_json (st_Definition st)))
    (RawJson (schema_json (st_Schema st)))
    (RawJson (JArr (map message_json (st_Snapshot st))))
    (RawJson (materialized_json (st_Materialized st)))
    (st_CurrentOffset st) (st_LastAccess st) (st_Generation st) (st_Deleted st)
    (map (fun m => RawJson (persistedMessage_json m)) (st_Changes st)).

(** ** json.Unmarshal: [None] is an error *)

Definition zero_definition : Definition_ := mkDefinition zero_relation "" ∅ [] "" "" None.

Definition dec_relation (j : option json) : option Relation :=
  match j with
  | None | Some JNull => Some zero_relation
  | Some (JObj l) =>
      s ← dec_string (json_field "schema" l); t ← dec_string (json_field "table" l);
      Some (mkRelation s t)
  | Some _ => None
  end.

Definition dec_text (j : json) : option string := dec_string (Some j).

Definition dec_subset (j : option json) : option (option Subset) :=
  match j with
  | None | Some JNull => Some None
  | Some (JObj l) =>
      w ← dec_string (json_field "where" l);
      p ← dec_map dec_text (json_field "params" l);
      lim ← dec_int_ptr (json_field "limit" l);
      off ← dec_int_ptr (json_field "offset" l);
      ob ← dec_string (json_field "order_by" l);
      we ← dec_string (json_field "where_expr" l);
      oe ← dec_string (json_field "order_by_expr" l);
      Some (Some (mkSubset w p lim off ob we oe))
  | Some _ => None
  end.

Definition dec_definition (j : json) : option Definition_ :=
  match j with
  | JNull => Some zero_definition
  | JObj l =>
      r ← dec_relation (json_field "relation" l);
      w ← dec_string (json_field "where" l);
      p ← dec_map dec_text (json_field "params" l);
      c ← dec_slice dec_text (json_field "columns" l);
      re ← dec_string (json_field "replica" l);
      lo ← dec_string (json_field "log" l);
      s ← dec_subset (json_field "subset" l);
      Some (mkDefinition r w p c re lo s)
  | _ => None
  end.

Definition dec_column (j : json) : option ColumnSchema :=
  match j with
  | JNull => Some (mkColumn "" false None)
  | JObj l =>
      t ← dec_string (json_field "type" l);
      n ← dec_bool (json_field "not_null" l);
      p ← dec_int_ptr (json_field "pk_index" l);
      Some (mkColumn t n p)
  | _ => None
  end.

Definition dec_cell (j : json) : option (option string) :=
  match j with
  | JNull => Some None
  | JStr s => Some (Some (coerce_utf8 s))
  | _ => None
  end.

Definition dec_row (j : option json) : option Row := dec_map dec_cell j.

Definition dec_message (with_offset : bool) (j : json) : option Message :=
  match j with
  | JNull => Some (mkMessage ∅ "" ∅ ∅ "" "")
  | JObj l =>
      h ← dec_map (fun v => Some (of_json v)) (json_field "headers" l);
      k ← dec_string (json_field "key" l);
      v ← dec_row (json_field "value" l);
      o ← dec_row (json_field "old_value" l);
      off ← (if with_offset then dec_string (json_field "offset" l) else Some "");
      Some (mkMessage h k v o off "")
  | _ => None
  end.

(** json.Unmarshal of a raw message that is skipped when it is empty. *)
Definition dec_raw {A} (zero : A) (f : json -> option A) (r : raw) : option A :=
  match r with RawEmpty => Some zero | RawJson j => f j | RawInvalid _ => None end.

(** A raw change is never skipped: no bytes is a syntax error. *)
Definition dec_change (r : raw) : option Message :=
  match r with RawJson j => dec_message true j | _ => None end.

Definition unmarshalState (p : PersistedShape) : option State :=
  definition ← dec_raw zero_definition dec_definition (ps_Definition p);
  schema ← dec_raw ∅ (fun j => dec_map dec_column (Some j)) (ps_Schema p);
  snapshot ← dec_raw [] (fun j => dec_slice (dec_message false) (Some j)) (ps_Snapshot p);
  materialized ← dec_raw ∅ (fun j => dec_map (fun r => dec_row (Some r)) (Some j)) (ps_Materialized p);
  changes ← mapM dec_change (ps_Changes p);
  Some (mkState (ps_Handle p) (ps_Hash p) definition schema snapshot changes materialized
          (ps_CurrentOffset p) (ps_LastAccess p) (ps_Generation p) (ps_Deleted p)).

(** ** What survives storage *)

(** What a stored message is read back as: the internal key is lost, the
    offset is kept for changes only, and headers lose their Go types. *)
Definition reloaded_message (with_offset : bool) (m : Message) : Message :=
  mkMessage (reloaded <$> msg_Headers m) (msg_Key m) (msg_Value m) (msg_OldValue m)
    (if with_offset then msg_Offset m else "") "".

Definition reloaded_state (st : State) : State :=
  mkState (st_Handle st) (st_Hash st) (st_Definition st) (st_Schema st)
    (map (reloaded_message false) (st_Snapshot st)) (map (reloaded_message true) (st_Changes st))
    (st_Materialized st) (st_CurrentOffset st) (st_LastAccess st) (st_Generation st) (st_Deleted st).

Definition utf8 (s : string) : Prop := valid_utf8 s = true.
Definition int64_ptr (p : option Z) : Prop :=
  match p with Some z => int64_min <= z <= int64_max | None => True end.
Definition cell_utf8 (v : option string) : Prop :=
  match v with Some s => utf8 s | None => True end.
Definition keys_utf8 {A} (m : gmap string A) : Prop := map_Forall (fun k _ => utf8 k) m.

Definition row_storable (row : Row) : Prop := map_Forall (fun k v => utf8 k /\ cell_utf8 v) row.

Definition message_storable (m : Message) : Prop :=
  keys_utf8 (msg_Headers m) /\ utf8 (msg_Key m) /\ row_storable (msg_Value m) /\
  row_storable (msg_OldValue m) /\ utf8 (msg_Offset m).

Definition params_storable (p : gmap string string) : Prop := map_Forall (fun k v => utf8 k /\ utf8 v) p.

Definition subset_storable (s : Subset) : Prop :=
  utf8 (sub_Where s) /\ params_storable (sub_Params s) /\ int64_ptr (sub_Limit s) /\
  int64_ptr (sub_Offset s) /\ utf8 (sub_OrderBy s) /\ utf8 (sub_WhereExpr s) /\ utf8 (sub_OrderByExpr s).

Definition definition_storable (d : Definition_) : Prop :=
  utf8 (rel_Schema (def_Relation d)) /\ utf8 (rel_Table (def_Relation d)) /\ utf8 (def_Where d) /\
  params_storable (def_Params d) /\ Forall utf8 (def_Columns d) /\ utf8 (def_Replica d) /\
  utf8 (def_Log d) /\ match def_Subset d with Some s => subset_storable s | None => True end.

Definition schema_storable (s : Schema) : Prop :=
  map_Forall (fun k c => utf8 k /\ utf8 (col_Type c) /\ int64_ptr (col_PKIndex c)) s.

#[export] Instance utf8_dec (s : string) : Decision (utf8 s).
Proof. unfold utf8. apply _. Defined.

#[export] Instance int64_ptr_dec (p : option Z) : Decision (int64_ptr p).
Proof. destruct p; simpl; apply _. Defined.

#[export] Instance cell_utf8_dec (v : option string) : Decision (cell_utf8 v).
Proof. destruct v; simpl; apply _. Defined.

#[export] Instance row_storable_dec (row : Row) : Decision (row_storable row).
Proof. unfold row_storable. apply _. Defined.

#[export] Instance message_storable_dec (m : Message) : Decision (message_storable m).
Proof. unfold message_storable, keys_utf8. apply _. Defined.

#[export] Instance params_storable_dec (p : gmap string string) : Decision (params_storable p).
Proof. unfold params_storable. apply _. Defined.

#[export] Instance subset_storable_dec (s : Subset) : Decision (subset_storable s).
Proof. unfold subset_storable. apply _. Defined.

#[export] Instance definition_storable_dec (d : Definition_) : Decision (definition_storable d).
Proof. unfold definition_storable. destruct (def_Subset d); apply _. Defined.

#[export] Instance schema_storable_dec (s : Schema) : Decision (schema_storable s).
Proof. unfold schema_storable. apply _. Defined.

(** All text is UTF-8, as PostgreSQL sends it, and integers fit 64 bits. *)
Definition state_storable (st : State) : Prop :=
  definition_storable (st_Definition st) /\ schema_storable (st_Schema st) /\
  Forall message_storable (st_Snapshot st) /\ Forall message_storable (st_Changes st) /\
  map_Forall (fun k r => utf8 k /\ row_storable r) (st_Materialized st).

#[export] Instance state_storable_dec (st : State) : Decision (state_storable st).
Proof. unfold state_storable. apply _. Defined.

Definition json_members (j : json) : list (string * json) :=
  match j with JObj l => l | _ => [] end.

(** Two definitions that differ at most in the order of their columns. *)
Definition same_definition (d1 d2 : Definition_) : Prop :=
  def_Relation d1 = def_Relation d2 /\ def_Where d1 = def_Where d2 /\ def_Params d1 = def_Params d2 /\
  def_Columns d1 ≡ₚ def_Columns d2 /\ def_Replica d1 = def_Replica d2 /\ def_Log d1 = def_Log d2 /\
  def_Subset d1 = def_Subset d2.

(** * Lemmas *)

(** ** Text that survives *)

Lemma valid_coerce (k : nat) (s : string) : valid_from k s = true -> coerce_from k s = s.
Proof.
  revert k. induction s as [|a s IH]; intros k H; [done|]. cbn [valid_from coerce_from] in *.
  destruct k as [|k]; [|by rewrite IH]. destruct (utf8_width (String a s)); [|done]. by rewrite IH.
Qed.

Lemma coerce_utf8_id (s : string) : utf8 s -> coerce_utf8 s = s.
Proof. apply valid_coerce. Qed.

#[export] Hint Rewrite coerce_utf8_id using assumption : go.

(** [any] has lists of itself below its constructors. *)
Lemma any_ind' (P : any -> Prop) :
  P ANil -> (forall b, P (ABool b)) -> (forall z, P (AInt z)) -> (forall l, P (AFloat l)) ->
  (forall s, P (AString s)) -> (forall l, P (AStrings l)) -> (forall l, P (AUint32s l)) ->
  (forall l, Forall P l -> P (ASlice l)) -> (forall l, Forall (fun kv => P kv.2) l -> P (AMap l)) ->
  (forall l, Forall (Forall (fun kv => P kv.2)) l -> P (AMaps l)) -> forall a, P a.
Proof.
  intros H1 H2 H3 H4 H5 H6 H7 H8 H9 H10. fix IH 1.
  intros [| | | | | | |l|l|l]; [apply H1|apply H2|apply H3|apply H4|apply H5|apply H6|apply H7|..].
  - apply H8. induction l; constructor; auto.
  - apply H9. induction l as [|[k v] l IHl]; constructor; [apply IH|exact IHl].
  - apply H10. induction l as [|m l IHl]; constructor; [|exact IHl].
    induction m as [|[k v] m IHm]; constructor; [apply IH|exact IHm].
Qed.

Lemma map_ext_Forall' {A B} (f g : A -> B) (l : list A) : Forall (fun x => f x = g x) l -> map f l = map g l.
Proof. induction 1 as [|x l Hx _ IH]; simpl; congruence. Qed.

(** A header read back from its document. *)
Lemma of_to_json (a : any) : of_json (to_json a) = reloaded a.
Proof.
  assert (Ho : forall l, Forall (fun kv => of_json (to_json kv.2) = reloaded kv.2) l ->
    map (fun kv : string * json => (coerce_utf8 kv.1, of_json kv.2))
      (map (fun kv : string * any => (kv.1, to_json kv.2)) l) =
    map (fun kv => (coerce_utf8 kv.1, reloaded kv.2)) l).
  { intros l Hl. rewrite map_map. apply map_ext_Forall'. eapply Forall_impl; [exact Hl|].
    intros [k v] Hv. simpl in *. by rewrite Hv. }
  induction a as [| | | | |l|l|l IH|l IH|l IH] using any_ind'; try done; cbn [to_json of_json reloaded]; f_equal.
  - rewrite map_map. done.
  - rewrite map_map. done.
  - rewrite map_map. by apply map_ext_Forall'.
  - by apply Ho.
  - rewrite map_map. apply map_ext_Forall'. eapply Forall_impl; [exact IH|].
    intros m Hm. simpl. f_equal. by apply Ho.
Qed.

(** ** Fields *)

Lemma json_field_app (name : string) (l1 l2 : list (string * json)) :
  json_field name (l1 ++ l2) =
  match json_field name l2 with Some v => Some v | None => json_field name l1 end.
Proof.
  induction l1 as [|[k v] l1 IH]; simpl; [by destruct (json_field name l2)|].
  rewrite IH. by destruct (json_field name l2).
Qed.

Lemma json_field_one (name k : string) (j : json) :
  json_field name (field k j) = if ascii_equal_fold k name then Some j else None.
Proof. done. Qed.

Lemma json_field_nonempty (name k s : string) :
  json_field name (field_nonempty k s) =
  if ascii_equal_fold k name then if decide (s = "") then None else Some (JStr s) else None.
Proof. unfold field_nonempty. case_decide; simpl; [|done]. by destruct (ascii_equal_fold k name). Qed.

Lemma json_field_if (name k : string) (b : bool) (j : json) :
  json_field name (field_if b k j) =
  if ascii_equal_fold k name then if b then Some j else None else None.
Proof. destruct b; simpl; [done|]. by destruct (ascii_equal_fold k name). Qed.

Lemma json_field_int_ptr (name k : string) (p : option Z) :
  json_field name (field_int_ptr k p) =
  if ascii_equal_fold k name then (fun z => JNum (format_Z z)) <$> p else None.
Proof. destruct p; simpl; [done|]. by destruct (ascii_equal_fold k name). Qed.

Lemma json_field_slice {A} (name k : string) (f : A -> json) (l : list A) :
  json_field name (field_slice k f l) =
  if ascii_equal_fold k name then match l with [] => None | _ => Some (JArr (map f l)) end else None.
Proof. destruct l; simpl; [|done]. by destruct (ascii_equal_fold k name). Qed.

Create Rewrite HintDb json.
#[export] Hint Rewrite json_field_app json_field_one json_field_nonempty json_field_if json_field_int_ptr
  @json_field_slice : json.

(** Look every field up in the document that was written. *)
Ltac read_fields :=
  autorewrite with json;
  repeat match goal with
  | |- context [ascii_equal_fold ?a ?b] =>
      let v := eval vm_compute in (ascii_equal_fold a b) in change (ascii_equal_fold a b) with v
  end; cbv beta iota.

Lemma dec_string_nonempty (s : string) :
  utf8 s -> dec_string (if decide (s = "") then None else Some (JStr s)) = Some s.
Proof. intros H. case_decide; [by subst|]. simpl. by rewrite coerce_utf8_id. Qed.

Lemma dec_string_str (s : string) : utf8 s -> dec_string (Some (JStr s)) = Some s.
Proof. intros H. simpl. by rewrite coerce_utf8_id. Qed.

Lemma dec_int_ptr_format (p : option Z) :
  int64_ptr p -> dec_int_ptr ((fun z => JNum (format_Z z)) <$> p) = Some p.
Proof. destruct p; simpl; [|done]. intros H. by rewrite parse_int64_format. Qed.

Lemma dec_slice_map {A B} (f : json -> option B) (g : A -> json) (h : A -> B) (l : list A) :
  Forall (fun x => f (g x) = Some (h x)) l ->
  dec_slice f (Some (JArr (map g l))) = Some (map h l).
Proof.
  intros Hl. simpl. induction Hl as [|x l Hx _ IH]; [done|]. simpl. rewrite Hx. simpl. by rewrite IH.
Qed.

(** ** Maps *)

Lemma map_json_to_map {A B} (h : A -> B) (m : gmap string A) :
  (list_to_map (reverse (omap (fun k => v ← m !! k; Some (k, h v)) (sorted_keys m))) : gmap string B) = h <$> m.
Proof.
  set (l := omap _ _). assert (Hnd : NoDup l.*1).
  { assert (Hl : l.*1 = sorted_keys m); [|rewrite Hl; apply NoDup_sorted_keys]. unfold l.
    assert (Hk : Forall (fun k => is_Some (m !! k)) (sorted_keys m))
      by (apply Forall_forall; intros k; apply elem_of_sorted_keys).
    induction Hk as [|k ks [v Hv] _ IH]; [done|]. rewrite omap_cons_eq, Hv.
    cbn [mbind option_bind]. rewrite fmap_cons. by f_equal. }
  apply map_eq. intros i. apply option_eq. intros x.
  rewrite <- elem_of_list_to_map.
  2: { by rewrite fmap_reverse, reverse_Permutation. }
  rewrite reverse_Permutation. unfold l. rewrite list_elem_of_omap, lookup_fmap, fmap_Some. split.
  - intros (k & _ & Hk). destruct (m !! k) as [v|] eqn:E; [|done]. simpl in Hk. inv_all. eauto.
  - intros (v & Hv & ->). exists i. rewrite Hv. split; [apply elem_of_sorted_keys; eauto|done].
Qed.

Lemma dec_map_json {A B} (f : json -> option B) (g : A -> json) (h : A -> B) (m : gmap string A) :
  map_Forall (fun k v => utf8 k /\ f (g v) = Some (h v)) m ->
  dec_map f (Some (map_json g m)) = Some (h <$> m).
Proof.
  intros Hm. unfold dec_map, map_json.
  assert (He : mapM (fun kv => v ← f kv.2; Some (coerce_utf8 kv.1, v))
      (omap (fun k => v ← m !! k; Some (k, g v)) (sorted_keys m)) =
    Some (omap (fun k => v ← m !! k; Some (k, h v)) (sorted_keys m))).
  { induction (sorted_keys m) as [|k ks IH]; [done|]. rewrite !omap_cons_eq.
    destruct (m !! k) as [v|] eqn:E; cbn [mbind option_bind]; [|exact IH].
    destruct (Hm _ _ E) as [Hk Hv]. cbn [mapM fst snd]. rewrite Hv, IH, coerce_utf8_id by done. done. }
  rewrite He. cbn [mbind option_bind]. by rewrite map_json_to_map.
Qed.

Lemma dec_map_nil_if_empty {A} (f : json -> option A) (g : A -> json) (m : gmap string A) :
  map_Forall (fun k v => utf8 k /\ f (g v) = Some v) m ->
  dec_map f (Some (nil_if_empty g m)) = Some m.
Proof.
  intros Hm. unfold nil_if_empty. case_decide; [by subst|].
  rewrite (dec_map_json f g id) by done. by rewrite map_fmap_id.
Qed.

Lemma dec_params (p : gmap string string) :
  params_storable p ->
  dec_map dec_text (if negb (bool_decide (p = ∅)) then Some (map_json JStr p) else None) = Some p.
Proof.
  intros Hp. case_bool_decide as He; [by subst|]. cbn [negb].
  rewrite (dec_map_json dec_text JStr id); [by rewrite map_fmap_id|].
  intros k v Hv. destruct (Hp k v Hv) as [Hk Hu]. split; [done|]. unfold dec_text, id. by rewrite dec_string_str.
Qed.

Lemma dec_row_json (row : Row) : row_storable row -> dec_row (Some (row_json row)) = Some row.
Proof.
  intros Hr. apply dec_map_nil_if_empty. intros k v Hv. destruct (Hr k v Hv) as [Hk Hc]. split; [done|].
  destruct v; [|done]. simpl. by rewrite coerce_utf8_id.
Qed.

Lemma dec_field_row (row : Row) :
  row_storable row -> dec_row (if negb (bool_decide (row = ∅)) then Some (row_json row) else None) = Some row.
Proof. intros Hr. case_bool_decide; [by subst|]. by apply dec_row_json. Qed.

(** ** Documents read back *)

Lemma option_eta {A} (o : option A) : match o with Some v => Some v | None => None end = o.
Proof. by destruct o. Qed.

(** Decode one field after the other. *)
Ltac decode_fields :=
  repeat first
    [ progress cbn [mbind option_bind]
    | rewrite option_eta
    | rewrite dec_string_nonempty by done
    | rewrite dec_string_str by done
    | rewrite dec_int_ptr_format by done
    | rewrite dec_params by done
    | rewrite dec_field_row by done
    | match goal with H : ?d = Some _ |- context [?d] => rewrite H end ].

Lemma dec_relation_json (r : Relation) :
  utf8 (rel_Schema r) -> utf8 (rel_Table r) -> dec_relation (Some (relation_json r)) = Some r.
Proof. destruct r. simpl. intros H1 H2. by rewrite !coerce_utf8_id. Qed.

Lemma dec_subset_json (s : option Subset) :
  match s with Some s => subset_storable s | None => True end -> dec_subset (subset_json <$> s) = Some s.
Proof.
  destruct s as [[w p lim off ob we oe]|]; [|done]. intros (H1 & H2 & H3 & H4 & H5 & H6 & H7).
  unfold dec_subset, subset_json. simpl in *. read_fields. by decode_fields.
Qed.

Lemma dec_columns (c : list string) :
  Forall utf8 c ->
  dec_slice dec_text match c with [] => None | _ :: _ => Some (JArr (map JStr c)) end = Some c.
Proof.
  intros Hc. destruct c as [|x c]; [done|]. rewrite (dec_slice_map _ _ id); [by rewrite map_id|].
  eapply Forall_impl; [exact Hc|]. intros y Hy. unfold dec_text, id. by apply dec_string_str.
Qed.

Lemma json_field_subset (name : string) (s : option Subset) :
  json_field name match s with Some s => field "subset" (subset_json s) | None => [] end =
  if ascii_equal_fold "subset" name then subset_json <$> s else None.
Proof. destruct s; simpl; [done|]. by destruct (ascii_equal_fold _ _). Qed.

Lemma dec_definition_json (d : Definition_) :
  definition_storable d -> dec_definition (definition_json d) = Some d.
Proof.
  intros (H1 & H2 & H3 & H4 & H5 & H6 & H7 & H8). unfold dec_definition, definition_json.
  destruct d as [r w p c re lo s]; simpl in *.
  pose proof (dec_relation_json r H1 H2) as Hr. pose proof (dec_subset_json s H8) as Hs.
  pose proof (dec_columns c H5) as Hc.
  read_fields. rewrite !json_field_subset. read_fields.
  destruct s as [s|]; cbn [fmap option_fmap option_map] in *; by decode_fields.
Qed.

Lemma dec_column_json (c : ColumnSchema) :
  utf8 (col_Type c) -> int64_ptr (col_PKIndex c) -> dec_column (column_json c) = Some c.
Proof.
  intros Ht Hp. destruct c as [t n p]. unfold dec_column, column_json. simpl in Ht, Hp. cbn [col_Type col_NotNull col_PKIndex].
  read_fields. assert (Hpk := dec_int_ptr_format p Hp). destruct p; cbn [fmap option_fmap option_map] in *; by decode_fields.
Qed.

Lemma dec_schema_json (s : Schema) : schema_storable s -> dec_map dec_column (Some (schema_json s)) = Some s.
Proof.
  intros Hs. apply dec_map_nil_if_empty. intros k c Hc. destruct (Hs k c Hc) as (Hk & Ht & Hp).
  split; [done|]. by apply dec_column_json.
Qed.

Lemma dec_materialized_json (m : gmap string Row) :
  map_Forall (fun k r => utf8 k /\ row_storable r) m ->
  dec_map (fun r => dec_row (Some r)) (Some (materialized_json m)) = Some m.
Proof.
  intros Hm. unfold materialized_json. rewrite (dec_map_json _ row_json id); [by rewrite map_fmap_id|].
  intros k r Hr. destruct (Hm k r Hr). split; [done|]. by apply dec_row_json.
Qed.

Lemma dec_headers_json (h : gmap string any) :
  keys_utf8 h -> dec_map (fun v => Some (of_json v)) (Some (map_json to_json h)) = Some (reloaded <$> h).
Proof. intros Hh. apply dec_map_json. intros k v Hv. split; [by eapply Hh|]. by rewrite of_to_json. Qed.

Lemma dec_message_json (with_offset : bool) (m : Message) :
  message_storable m ->
  dec_message with_offset (if with_offset then persistedMessage_json m else message_json m) =
  Some (reloaded_message with_offset m).
Proof.
  intros (H1 & H2 & H3 & H4 & H5). pose proof (dec_headers_json _ H1) as Hh.
  unfold dec_message, persistedMessage_json, message_json, message_fields, field_row, reloaded_message.
  destruct with_offset; read_fields; by decode_fields.
Qed.

Lemma dec_snapshot_json (l : list Message) :
  Forall message_storable l ->
  dec_slice (dec_message false) (Some (JArr (map message_json l))) = Some (map (reloaded_message false) l).
Proof.
  intros Hl. apply dec_slice_map. eapply Forall_impl; [exact Hl|]. intros m Hm.
  exact (dec_message_json false m Hm).
Qed.

Lemma dec_changes_json (l : list Message) :
  Forall message_storable l ->
  mapM dec_change (map (fun m => RawJson (persistedMessage_json m)) l) = Some (map (reloaded_message true) l).
Proof.
  induction 1 as [|m l Hm _ IH]; [done|]. cbn [map mapM dec_change].
  by rewrite (dec_message_json true m Hm), IH.
Qed.

Lemma unmarshal_marshal (st : State) :
  state_storable st -> unmarshalState (marshalState st) = Some (reloaded_state st).
Proof.
  intros (Hd & Hs & Hsn & Hch & Hm). unfold unmarshalState, marshalState.
  cbn [dec_raw ps_Definition ps_Schema ps_Snapshot ps_Materialized ps_Changes ps_Handle ps_Hash
    ps_CurrentOffset ps_LastAccess ps_Generation ps_Deleted].
  rewrite dec_definition_json by done. cbn [mbind option_bind].
  rewrite dec_schema_json by done. cbn [mbind option_bind].
  rewrite dec_snapshot_json by done. cbn [mbind option_bind].
  rewrite dec_materialized_json by done. cbn [mbind option_bind].
  by rewrite dec_changes_json by done.
Qed.

(** ** The canonical form *)

Lemma canonicalizeMap_inj (m1 m2 : gmap string string) :
  canonicalizeMap m1 = canonicalizeMap m2 -> m1 = m2.
Proof.
  intros H. rewrite <- (map_fmap_id m1), <- (map_fmap_id m2), <- (map_json_to_map id m1), <- (map_json_to_map id m2).
  unfold canonicalizeMap in H. unfold id. by rewrite H.
Qed.

Lemma canonicalizeMap_empty (m : gmap string string) : canonicalizeMap m = [] <-> m = ∅.
Proof.
  split; [intros H; apply canonicalizeMap_inj; by rewrite H|]. intros ->. unfold canonicalizeMap.
  by rewrite sorted_keys_empty.
Qed.

Lemma field_slice_inj {A} (f : A -> json) (l1 l2 : list A) :
  (forall x y, f x = f y -> x = y) ->
  match l1 with [] => None | _ => Some (JArr (map f l1)) end =
  match l2 with [] => None | _ => Some (JArr (map f l2)) end -> l1 = l2.
Proof.
  intros Hf. assert (Hm : forall l l', map f l = map f l' -> l = l').
  { induction l as [|x l IH]; intros [|y l'] H; try done. injection H as Hx H. f_equal; auto. }
  destruct l1, l2; intros H; try done. injection H as Hx H. f_equal; auto.
Qed.

Lemma field_nonempty_inj (s1 s2 : string) :
  (if decide (s1 = "") then None else Some (JStr s1)) =
  (if decide (s2 = "") then None else Some (JStr s2)) -> s1 = s2.
Proof. repeat case_decide; congruence. Qed.

Lemma format_Z_ptr_inj (p1 p2 : option Z) :
  int64_ptr p1 -> int64_ptr p2 ->
  (fun z => JNum (format_Z z)) <$> p1 = (fun z => JNum (format_Z z)) <$> p2 -> p1 = p2.
Proof.
  intros H1 H2 H. destruct p1 as [z1|], p2 as [z2|]; try done. injection H as H. f_equal.
  apply parse_int64_format in H1, H2. rewrite H in H1. congruence.
Qed.

Lemma canonicalKV_inj (x y : string * string) : canonicalKV_json x = canonicalKV_json y -> x = y.
Proof. destruct x, y. by intros [= -> ->]. Qed.

(** Compare two documents field by field. *)
Ltac compare_field H name :=
  let E := fresh "E" in
  pose proof (f_equal (json_field name) H) as E; revert E; read_fields; rewrite ?option_eta; intros E.

Lemma canonicalSubset_inj (s1 s2 : Subset) :
  int64_ptr (sub_Limit s1) -> int64_ptr (sub_Limit s2) -> int64_ptr (sub_Offset s1) -> int64_ptr (sub_Offset s2) ->
  canonicalSubset_json s1 = canonicalSubset_json s2 -> s1 = s2.
Proof.
  destruct s1 as [w1 p1 l1 o1 ob1 we1 oe1], s2 as [w2 p2 l2 o2 ob2 we2 oe2].
  unfold canonicalSubset_json. cbn [sub_Where sub_Params sub_Limit sub_Offset sub_OrderBy sub_WhereExpr sub_OrderByExpr].
  intros Hl1 Hl2 Ho1 Ho2 H. apply (f_equal json_members) in H. cbn [json_members] in H.
  compare_field H "where". compare_field H "params". compare_field H "limit". compare_field H "offset".
  compare_field H "order_by". compare_field H "where_expr". compare_field H "order_by_expr".
  f_equal; try (by apply field_nonempty_inj); try (by apply format_Z_ptr_inj).
  apply canonicalizeMap_inj. eapply field_slice_inj; [apply canonicalKV_inj|done].
Qed.

Lemma json_field_canonicalSubset (name : string) (s : option Subset) :
  json_field name match s with Some s => field "subset" (canonicalSubset_json s) | None => [] end =
  if ascii_equal_fold "subset" name then canonicalSubset_json <$> s else None.
Proof. destruct s; simpl; [done|]. by destruct (ascii_equal_fold _ _). Qed.

#[export] Hint Rewrite json_field_canonicalSubset : json.

Lemma canonicalDefinition_inj (d1 d2 : Definition_) :
  definition_storable d1 -> definition_storable d2 ->
  canonicalDefinition_json d1 = canonicalDefinition_json d2 -> same_definition d1 d2.
Proof.
  destruct d1 as [r1 w1 p1 c1 re1 lo1 s1], d2 as [r2 w2 p2 c2 re2 lo2 s2].
  intros (_ & _ & _ & _ & _ & _ & _ & Hs1) (_ & _ & _ & _ & _ & _ & _ & Hs2).
  unfold canonicalDefinition_json, same_definition in *.
  cbn [def_Relation def_Where def_Params def_Columns def_Replica def_Log def_Subset] in *.
  intros H. apply (f_equal json_members) in H. cbn [json_members] in H.
  compare_field H "relation". compare_field H "where". compare_field H "params". compare_field H "columns".
  compare_field H "replica". compare_field H "log". compare_field H "subset".
  split_and!; try (by apply field_nonempty_inj).
  - destruct r1, r2. unfold relation_json in E. simpl in E. congruence.
  - apply canonicalizeMap_inj. eapply field_slice_inj; [apply canonicalKV_inj|done].
  - apply (field_slice_inj JStr) in E2; [|congruence]. unfold canonicalizeStrings in E2.
    by rewrite <- (sort_strings_perm c1), E2, sort_strings_perm.
  - destruct s1 as [s1|], s2 as [s2|]; try done. f_equal.
    assert (E' : canonicalSubset_json s1 = canonicalSubset_json s2) by exact (f_equal (default JNull) E5).
    destruct Hs1 as (_ & _ & ? & ? & _), Hs2 as (_ & _ & ? & ? & _). by apply canonicalSubset_inj.
Qed.

Lemma canonicalDefinition_same (d1 d2 : Definition_) :
  same_definition d1 d2 -> canonicalDefinition_json d1 = canonicalDefinition_json d2.
Proof.
  intros (H1 & H2 & H3 & H4 & H5 & H6 & H7). unfold canonicalDefinition_json, canonicalizeStrings.
  by rewrite H1, H2, H3, H5, H6, H7, (sort_strings_unique _ _ H4).
Qed.

(** * Properties *)

(** C26. A shape survives a restart: a state whose text is UTF-8 is read back
    from what was stored with its handle, hash, definition, schema, rows,
    offset, generation and deletion mark; its messages keep their keys,
    values and, for the changes, their offsets.  A stored part that is not
    JSON is an error. *)
Theorem stored_state_roundtrip (st : State) :
  state_storable st ->
  unmarshalState (marshalState st) = Some (reloaded_state st) /\
  forall p text, ps_Materialized p = RawInvalid text \/ ps_Definition p = RawInvalid text \/ RawEmpty ∈ ps_Changes p ->
    unmarshalState p = None.
Proof.
  intros Hs. split; [by apply unmarshal_marshal|]. intros p text Hp. unfold unmarshalState.
  destruct (dec_raw zero_definition _ (ps_Definition p)) eqn:Ed; cbn [mbind option_bind]; [|done].
  destruct (dec_raw ∅ _ (ps_Schema p)); cbn [mbind option_bind]; [|done].
  destruct (dec_raw [] _ (ps_Snapshot p)); cbn [mbind option_bind]; [|done].
  destruct (dec_raw ∅ _ (ps_Materialized p)) eqn:Em; cbn [mbind option_bind]; [|done].
  destruct Hp as [Hp|[Hp|Hp]]; [rewrite Hp in Em; discriminate Em|rewrite Hp in Ed; discriminate Ed|].
  destruct (mapM dec_change (ps_Changes p)) eqn:Ec; [|done]. exfalso.
  apply mapM_Some_1 in Ec. apply list_elem_of_lookup in Hp as [i Hi].
  by destruct (Forall2_lookup_l _ _ _ _ _ Ec Hi) as (y & _ & Hy).
Qed.


Definition demo_stored_state : State :=
  mkState "h" "hash" (mkDefinition (mkRelation "public" "items") "id > 1" {["1" := "x"]} ["id"; "v"] "full" "" None)
    demo_schema [] [mkMessage {["operation" := AString "insert"]} "k" (demo_row "1" "x" "new") ∅ "0_1" "k1"]
    {["k1" := demo_row "1" "x" "new"]} "0_1" 5 1 false.

Lemma stored_state_roundtrip_witness :
  unmarshalState (marshalState demo_stored_state) = Some (reloaded_state demo_stored_state).
Proof.
  apply stored_state_roundtrip. apply (bool_decide_unpack _). vm_compute. exact I.
Defined.

