(* ===== verification/Manager.v ===== *)
(** The shape manager: the type [Manager] and its methods in
    [src/internal/shapes/manager.go].

    A method that takes the lock runs to its end before another one starts,
    so it is one transition of the state.  The clock is read where the code
    reads it: every reading is an argument, in nanoseconds.  A method returns
    the manager it leaves and its results.  [WaitForChange] gives up the lock
    while it waits; its three phases are here and their interleaving is in
    Waiting.v. *)

From Stdlib Require Import Ascii String ZArith NArith Lia.
From S2P Require Import Prelude GoValue Offset ShapeTypes Diff Storage Persist.

#[local] Set Warnings "-clear-no-such-hyp".



(** * Definitions *)

Inductive ManagerError : Type :=
| ErrShapeNotFound
| ErrShapeDeleted
| ErrOffsetOutOfRange
| ErrStore (message : string)
| ErrContext.

Definition zero_state : State :=
  mkState "" "" zero_definition ∅ [] [] ∅ "" 0 0 false.

Section manager.
Context {S : Type} {store_ops : Store S}.

(** [mgr_closed] holds the channels that were closed. *)
Record Manager : Type := mkManager {
  mgr_store : S;
  mgr_byHandle : gmap string State;
  mgr_byHash : gmap string string;
  mgr_byRelation : gmap string (gset string);
  mgr_generation : Z;
  mgr_waiters : gmap string (list nat);
  mgr_closed : gset nat
}.

Definition set_store (s : S) (m : Manager) : Manager :=
  mkManager s (mgr_byHandle m) (mgr_byHash m) (mgr_byRelation m) (mgr_generation m) (mgr_waiters m) (mgr_closed m).
Definition set_byHandle (x : gmap string State) (m : Manager) : Manager :=
  mkManager (mgr_store m) x (mgr_byHash m) (mgr_byRelation m) (mgr_generation m) (mgr_waiters m) (mgr_closed m).
Definition set_byHash (x : gmap string string) (m : Manager) : Manager :=
  mkManager (mgr_store m) (mgr_byHandle m) x (mgr_byRelation m) (mgr_generation m) (mgr_waiters m) (mgr_closed m).
Definition set_byRelation (x : gmap string (gset string)) (m : Manager) : Manager :=
  mkManager (mgr_store m) (mgr_byHandle m) (mgr_byHash m) x (mgr_generation m) (mgr_waiters m) (mgr_closed m).
Definition set_generation (g : Z) (m : Manager) : Manager :=
  mkManager (mgr_store m) (mgr_byHandle m) (mgr_byHash m) (mgr_byRelation m) g (mgr_waiters m) (mgr_closed m).
Definition set_waiters (w : gmap string (list nat)) (c : gset nat) (m : Manager) : Manager :=
  mkManager (mgr_store m) (mgr_byHandle m) (mgr_byHash m) (mgr_byRelation m) (mgr_generation m) w c.

(** ** The indices *)

Definition put_state (h : string) (st : State) (m : Manager) : Manager :=
  set_byHandle (<[h := st]> (mgr_byHandle m)) m.
Definition put_hash (hash h : string) (m : Manager) : Manager :=
  set_byHash (<[hash := h]> (mgr_byHash m)) m.
Definition delete_hash (hash : string) (m : Manager) : Manager :=
  set_byHash (delete hash (mgr_byHash m)) m.

(** The handles listed under a relation key. *)
Definition related (key : string) (m : Manager) : gset string :=
  default ∅ (mgr_byRelation m !! key).

Definition addRelationLocked (relation : Relation) (h : string) (m : Manager) : Manager :=
  let key := relationKey relation in
  set_byRelation (<[key := {[h]} ∪ related key m]> (mgr_byRelation m)) m.

Definition removeRelationLocked (relation : Relation) (h : string) (m : Manager) : Manager :=
  let key := relationKey relation in
  let handles := related key m in
  if decide (handles = ∅) then m
  else
    let handles := handles ∖ {[h]} in
    if decide (handles = ∅) then set_byRelation (delete key (mgr_byRelation m)) m
    else set_byRelation (<[key := handles]> (mgr_byRelation m)) m.

(** Closing a channel twice panics: Waiting.v proves it never happens. *)
Definition notifyLocked (h : string) (m : Manager) : Manager :=
  match mgr_waiters m !! h with
  | None | Some [] => m
  | Some waiters => set_waiters (delete h (mgr_waiters m)) (list_to_set waiters ∪ mgr_closed m) m
  end.

(** The first occurrence is removed. *)
Fixpoint remove_first (x : nat) (l : list nat) : list nat :=
  match l with
  | [] => []
  | y :: l' => if decide (y = x) then l' else y :: remove_first x l'
  end.

Definition removeWaiter (h : string) (waiter : nat) (m : Manager) : Manager :=
  match remove_first waiter (default [] (mgr_waiters m !! h)) with
  | [] => set_waiters (delete h (mgr_waiters m)) (mgr_closed m) m
  | waiters => set_waiters (<[h := waiters]> (mgr_waiters m)) (mgr_closed m) m
  end.

Definition persistStateLocked (st : State) (m : Manager) : Manager * option string :=
  let '(s, err) := SaveShape (marshalState st) (mgr_store m) in (set_store s m, err).

(** ** Creating and replacing shapes *)

(** [hash[:10] + "-" + strconv.FormatInt(now.UnixMicro(), 10)]. *)
Definition new_handle (hash : string) (now : Z) : string :=
  take_bytes 10 hash +:+ "-" +:+ format_Z (now / 1000).

Definition snapshot_messages (h : string) (def : Definition_) (snapshot : SnapshotResult) : list Message :=
  decorateDependentSnapshotMessages h def (buildSnapshotMessages def snapshot).

Definition replaced_state (existing : State) (def : Definition_) (snapshot : SnapshotResult)
    (currentOffset : string) (now : Z) : State :=
  mkState (st_Handle existing) (st_Hash existing) def (cloneSchema (snap_Schema snapshot))
    (snapshot_messages (st_Handle existing) def snapshot) []
    (materializedRows (snap_Schema snapshot) (snap_Rows snapshot)) currentOffset now
    (st_Generation existing) false.

Definition created_state (h hash : string) (def : Definition_) (snapshot : SnapshotResult)
    (currentOffset : string) (now generation : Z) : State :=
  mkState h hash def (cloneSchema (snap_Schema snapshot)) (snapshot_messages h def snapshot) []
    (materializedRows (snap_Schema snapshot) (snap_Rows snapshot)) currentOffset now generation false.

(** Both creations end alike: the generation counts up, the state is saved,
    and on success it enters the indices. *)
Definition create_state (st : State) (m : Manager) : Manager * result ManagerError State :=
  let m := set_generation (wrapu64 (mgr_generation m + 1)) m in
  match persistStateLocked st m with
  | (m, Some e) => (set_generation (wrapu64 (mgr_generation m - 1)) m, Err (ErrStore e))
  | (m, None) =>
      (addRelationLocked (def_Relation (st_Definition st)) (st_Handle st)
        (put_hash (st_Hash st) (st_Handle st) (put_state (st_Handle st) st m)), Ok st)
  end.

Definition UpsertSnapshotAtOffset (def : Definition_) (snapshot : SnapshotResult) (currentOffset : string)
    (now : Z) (m : Manager) : Manager * result ManagerError State :=
  let hash := definition_hash def in
  match mgr_byHash m !! hash with
  | Some h =>
      let existing := default zero_state (mgr_byHandle m !! h) in
      let updated := replaced_state existing def snapshot currentOffset now in
      match persistStateLocked updated m with
      | (m, Some e) => (m, Err (ErrStore e))
      | (m, None) =>
          let m := removeRelationLocked (def_Relation (st_Definition existing)) h m in
          let m := put_hash hash h (put_state h updated m) in
          (notifyLocked h (addRelationLocked (def_Relation def) h m), Ok updated)
      end
  | None =>
      create_state (created_state (new_handle hash now) hash def snapshot currentOffset now
        (wrapu64 (mgr_generation m + 1))) m
  end.

Definition UpsertSnapshot (def : Definition_) (snapshot : SnapshotResult) (now : Z) (m : Manager) :
    Manager * result ManagerError State :=
  UpsertSnapshotAtOffset def snapshot InitialOffset now m.

Definition touched (st : State) (now : Z) : State :=
  mkState (st_Handle st) (st_Hash st) (st_Definition st) (st_Schema st) (st_Snapshot st) (st_Changes st)
    (st_Materialized st) (st_CurrentOffset st) now (st_Generation st) (st_Deleted st).

Definition empty_state (h hash : string) (def : Definition_) (now generation : Z) : State :=
  mkState h hash def ∅ [] [] ∅ InitialOffset now generation false.

(** The clock is read twice when the shape is created. *)
Definition LookupOrCreateDefinition (def : Definition_) (now1 now2 : Z) (m : Manager) :
    Manager * result ManagerError State :=
  let hash := definition_hash def in
  match mgr_byHash m !! hash with
  | Some h =>
      let st := touched (default zero_state (mgr_byHandle m !! h)) now1 in
      match persistStateLocked st m with
      | (m, Some e) => (m, Err (ErrStore e))
      | (m, None) => (put_state h st m, Ok st)
      end
  | None =>
      create_state (empty_state (new_handle hash now1) hash def now2 (wrapu64 (mgr_generation m + 1))) m
  end.

(** ** Lookups *)

Definition LookupByHandle (h : string) (m : Manager) : option State :=
  match mgr_byHandle m !! h with
  | Some st => if st_Deleted st then None else Some st
  | None => None
  end.

Definition LookupByDefinition (def : Definition_) (m : Manager) : option State :=
  match mgr_byHash m !! definition_hash def with
  | Some h => LookupByHandle h m
  | None => None
  end.

Definition handle_le (a b : State) : Prop := String.le (st_Handle a) (st_Handle b).

#[export] Instance handle_le_dec : RelDecision handle_le.
Proof. intros a b. unfold handle_le. apply _. Defined.

Definition sort_states (l : list State) : list State := merge_sort handle_le l.

Definition is_active (st : State) : bool := negb (st_Deleted st).

Definition ActiveByRelation (relation : Relation) (m : Manager) : list State :=
  sort_states (filter (fun st => is_active st = true)
    (omap (fun h => mgr_byHandle m !! h) (elements (related (relationKey relation) m)))).

Definition ActiveStates (m : Manager) : list State :=
  sort_states (filter (fun st => is_active st = true) (map_to_list (mgr_byHandle m)).*2).

Definition Count (m : Manager) : nat := size (mgr_byHandle m).

(** ** Deletion *)

Definition deleted_state (st : State) (now : Z) : State :=
  mkState (st_Handle st) (st_Hash st) (st_Definition st) (st_Schema st) (st_Snapshot st) (st_Changes st)
    (st_Materialized st) (st_CurrentOffset st) now (st_Generation st) true.

Definition Delete (h : string) (now : Z) (m : Manager) : Manager * result ManagerError bool :=
  match mgr_byHandle m !! h with
  | None => (m, Ok false)
  | Some st =>
      let updated := deleted_state st now in
      match persistStateLocked updated m with
      | (m, Some e) => (m, Err (ErrStore e))
      | (m, None) =>
          let m := removeRelationLocked (def_Relation (st_Definition st)) h (delete_hash (st_Hash st) m) in
          (notifyLocked h (put_state h updated m), Ok true)
      end
  end.

(** The first loop of [InvalidateByRelation]: the states it saved, or the
    error it stopped at.  [clock n] is the [n]-th reading of the clock. *)
Fixpoint invalidate_save (handles : list string) (clock : nat -> Z) (n : nat) (updated : gmap string State)
    (m : Manager) : Manager * result ManagerError (gmap string State) :=
  match handles with
  | [] => (m, Ok updated)
  | h :: rest =>
      match mgr_byHandle m !! h with
      | Some st =>
          if st_Deleted st then invalidate_save rest clock n updated m
          else
            let u := deleted_state st (clock n) in
            match persistStateLocked u m with
            | (m, Some e) => (m, Err (ErrStore e))
            | (m, None) => invalidate_save rest clock (n + 1) (<[h := u]> updated) m
            end
      | None => invalidate_save rest clock n updated m
      end
  end.

Definition invalidate_apply (updated : gmap string State) (m : Manager) (h : string) : Manager :=
  match updated !! h with
  | None => m
  | Some u => notifyLocked h (put_state h u (delete_hash (st_Hash u) m))
  end.

Definition InvalidateByRelation (relation : Relation) (clock : nat -> Z) (m : Manager) :
    Manager * result ManagerError (list string) :=
  let handles := related (relationKey relation) m in
  if decide (handles = ∅) then (m, Ok [])
  else
    let sortedHandles := sort_strings (elements handles) in
    match invalidate_save sortedHandles clock 0 ∅ m with
    | (m, Err e) => (m, Err e)
    | (m, Ok updated) =>
        let m := fold_left (invalidate_apply updated) sortedHandles m in
        (set_byRelation (delete (relationKey relation) (mgr_byRelation m)) m,
         Ok (filter (fun h => is_Some (updated !! h)) sortedHandles))
    end.

(** The handles invalidated before an error are returned with it. *)
Fixpoint invalidate_all_loop (handles : list string) (clock : nat -> Z) (n : nat) (invalidated : list string)
    (m : Manager) : Manager * (list string * option ManagerError) :=
  match handles with
  | [] => (m, (invalidated, None))
  | h :: rest =>
      let st := default zero_state (mgr_byHandle m !! h) in
      if st_Deleted st then invalidate_all_loop rest clock n invalidated m
      else
        let u := deleted_state st (clock n) in
        match persistStateLocked u m with
        | (m, Some e) => (m, (invalidated, Some (ErrStore e)))
        | (m, None) =>
            let m := delete_hash (st_Hash u) (removeRelationLocked (def_Relation (st_Definition st)) h m) in
            invalidate_all_loop rest clock (n + 1) (invalidated ++ [h]) (notifyLocked h (put_state h u m))
        end
  end.

Definition InvalidateAll (clock : nat -> Z) (m : Manager) : Manager * (list string * option ManagerError) :=
  invalidate_all_loop (sorted_keys (mgr_byHandle m)) clock 0 [] m.

(** ** Reading *)

Definition readLocked (h offset : string) (m : Manager) : State * list Message * option ManagerError :=
  match mgr_byHandle m !! h with
  | None => (zero_state, [], Some ErrShapeNotFound)
  | Some st =>
      if st_Deleted st then (st, [], Some ErrShapeDeleted)
      else if negb (ParseOffset offset).2 then (st, [], Some ErrOffsetOutOfRange)
      else
        let comparison := CompareOffsets offset (st_CurrentOffset st) in
        if 0 <? comparison then (st, [], Some ErrOffsetOutOfRange)
        else if comparison =? 0 then (st, [], None)
        else (st, map cloneMessage
                (filter (fun msg => CompareOffsets (msg_Offset msg) offset > 0) (st_Changes st)), None)
  end.

Definition Read (h offset : string) (m : Manager) : State * list Message * option ManagerError :=
  readLocked h offset m.

(** ** Changes *)

(** One iteration of the loop of [Append]. *)
Definition append_message (st : State) (index : nat) (message : Message) : State :=
  let cloned := cloneMessage message in
  let cloned := if decide (msg_Offset cloned = "")
    then set_offset (NextGeneratedOffset (st_CurrentOffset st) (Z.of_nat index)) cloned else cloned in
  mkState (st_Handle st) (st_Hash st) (st_Definition st) (st_Schema st) (st_Snapshot st)
    (st_Changes st ++ [cloned]) (applyMessageToMaterialized (st_Materialized st) cloned)
    (if 0 <? CompareOffsets (msg_Offset cloned) (st_CurrentOffset st) then msg_Offset cloned else st_CurrentOffset st)
    (st_LastAccess st) (st_Generation st) (st_Deleted st).

Fixpoint append_messages (st : State) (index : nat) (messages : list Message) : State :=
  match messages with
  | [] => st
  | message :: rest => append_messages (append_message st index message) (index + 1) rest
  end.

(** Save an updated state, then install it. *)
Definition install {A} (h : string) (updated : State) (notify : bool) (result : A) (m : Manager) :
    Manager * Prelude.result ManagerError A :=
  match persistStateLocked updated m with
  | (m, Some e) => (m, Err (ErrStore e))
  | (m, None) =>
      let m := put_state h updated m in
      (if notify then notifyLocked h m else m, Ok result)
  end.

(** The state a change is made on. *)
Definition live_state (h : string) (m : Manager) : result ManagerError State :=
  match mgr_byHandle m !! h with
  | None => Err ErrShapeNotFound
  | Some st => if st_Deleted st then Err ErrShapeDeleted else Ok st
  end.

Definition Append (h : string) (messages : list Message) (now : Z) (m : Manager) :
    Manager * result ManagerError State :=
  match live_state h m with
  | Err e => (m, Err e)
  | Ok st =>
      let updated := touched (append_messages st 0 messages) now in
      install h updated true updated m
  end.

(** The updated state of a refresh: new schema and rows, and the messages with
    their offsets appended to the log. *)
Definition refreshed_state (st : State) (schema : Schema) (rows : gmap string Row) (now : Z)
    (messages : list Message) (metadata : ChangeMetadata) : State * list Message :=
  let base currentOffset changes :=
    mkState (st_Handle st) (st_Hash st) (st_Definition st) (cloneSchema schema) (st_Snapshot st)
      changes rows currentOffset now (st_Generation st) (st_Deleted st) in
  match messages with
  | [] => (base (st_CurrentOffset st) (st_Changes st), [])
  | _ =>
      let '(messages, currentOffset) := applyChangeOffsets (st_CurrentOffset st) messages metadata in
      (base currentOffset (st_Changes st ++ map cloneMessage messages), messages)
  end.

Definition refresh_messages (st : State) (snapshot : SnapshotResult) (rows : gmap string Row)
    (metadata : ChangeMetadata) : list Message :=
  let messages := diffRows (st_Definition st) (snap_Schema snapshot) (st_Materialized st) rows
    (def_Relation (st_Definition st)) in
  if DependentRefresh metadata then
    decorateDependentRefreshMessages (st_Handle st) (st_Definition st) messages metadata
  else messages.

Definition RefreshWithMetadata (h : string) (snapshot : SnapshotResult) (metadata : ChangeMetadata)
    (now : Z) (m : Manager) : Manager * result ManagerError (State * list Message) :=
  match live_state h m with
  | Err e => (m, Err e)
  | Ok st =>
      let rows := materializedRows (snap_Schema snapshot) (snap_Rows snapshot) in
      let '(updated, messages) := refreshed_state st (snap_Schema snapshot) rows now
        (refresh_messages st snapshot rows metadata) metadata in
      install h updated (negb (bool_decide (messages = []))) (updated, cloneMessages messages) m
  end.

Definition Refresh (h : string) (snapshot : SnapshotResult) (now : Z) (m : Manager) :
    Manager * result ManagerError (State * list Message) :=
  RefreshWithMetadata h snapshot zero_change_metadata now m.

(** The rows after a targeted refresh: the targeted keys are replaced by the
    rows the snapshot returned for them. *)
Definition targeted_rows (st : State) (snapshot : SnapshotResult) (targetedKeys : gset string) : gmap string Row :=
  let currentRows := materializedRows (snap_Schema snapshot) (snap_Rows snapshot) in
  (cloneRow <$> filter (fun kr => kr.1 ∈ targetedKeys) currentRows) ∪
  filter (fun kr => kr.1 ∉ targetedKeys) (cloneMaterialized (st_Materialized st)).

Definition targeted_messages (st : State) (snapshot : SnapshotResult) (rows : gmap string Row)
    (targetedKeys : gset string) (metadata : ChangeMetadata) : list Message :=
  let keyRelation := if decide (KeyRelation metadata = zero_relation)
    then def_Relation (st_Definition st) else KeyRelation metadata in
  let messages := diffRows (st_Definition st) (snap_Schema snapshot)
    (subsetRows (st_Materialized st) targetedKeys) (subsetRows rows targetedKeys) keyRelation in
  if 0 <? CommitLSN metadata then applyLiveWireFormat (snap_Schema snapshot) messages else messages.

Definition RefreshKeysWithMetadata (h : string) (snapshot : SnapshotResult) (keyRows : list Row)
    (metadata : ChangeMetadata) (now : Z) (m : Manager) : Manager * result ManagerError (State * list Message) :=
  match live_state h m with
  | Err e => (m, Err e)
  | Ok st =>
      let targetedKeys := targetedKeySet (snap_Schema snapshot) keyRows (snap_Rows snapshot) in
      if decide (targetedKeys = ∅) then (m, Ok (st, []))
      else
        let rows := targeted_rows st snapshot targetedKeys in
        let '(updated, messages) := refreshed_state st (snap_Schema snapshot) rows now
          (targeted_messages st snapshot rows targetedKeys metadata) metadata in
        install h updated (negb (bool_decide (messages = []))) (updated, cloneMessages messages) m
  end.

Definition RefreshKeys (h : string) (snapshot : SnapshotResult) (keyRows : list Row) (now : Z) (m : Manager) :
    Manager * result ManagerError (State * list Message) :=
  RefreshKeysWithMetadata h snapshot keyRows zero_change_metadata now m.

(** ** WaitForChange *)

(** The first check, without registering: [None] is "go on". *)
Definition wait_check (h offset : string) (m : Manager) : option (State * list Message * option ManagerError) :=
  let '(st, messages, err) := readLocked h offset m in
  if bool_decide (err <> None) || negb (bool_decide (messages = [])) || st_Deleted st
  then Some (st, messages, err) else None.

(** The second check under the lock: the waiter is registered when there is
    still nothing to return. *)
Definition wait_register (h offset : string) (waiter : nat) (m : Manager) :
    Manager * option (State * list Message * option ManagerError) :=
  match wait_check h offset m with
  | Some outcome => (m, Some outcome)
  | None =>
      (set_waiters (<[h := default [] (mgr_waiters m !! h) ++ [waiter]]> (mgr_waiters m)) (mgr_closed m) m, None)
  end.

(** ** Starting *)

(** What is kept of a shape that cannot be read back. *)
Definition unreadable_state (p : PersistedShape) : State :=
  mkState (ps_Handle p) (ps_Hash p) zero_definition ∅ [] [] ∅ (ps_CurrentOffset p) (ps_LastAccess p)
    (ps_Generation p) true.

Definition load_state (st : State) (m : Manager) : Manager :=
  let m := put_state (st_Handle st) st m in
  let m := if st_Deleted st then m
    else addRelationLocked (def_Relation (st_Definition st)) (st_Handle st) (put_hash (st_Hash st) (st_Handle st) m) in
  if mgr_generation m <? st_Generation st then set_generation (st_Generation st) m else m.

Fixpoint load_shapes (shapes : list PersistedShape) (m : Manager) : Manager * option string :=
  match shapes with
  | [] => (m, None)
  | p :: rest =>
      match unmarshalState p with
      | Some st => load_shapes rest (load_state st m)
      | None =>
          match persistStateLocked (unreadable_state p) m with
          | (m, Some e) => (m, Some e)
          | (m, None) => load_shapes rest (load_state (unreadable_state p) m)
          end
      end
  end.

Definition loadPersisted (m : Manager) : Manager * option string :=
  match LoadShapes (mgr_store m) with
  | Err e => (m, Some e)
  | Ok shapes => load_shapes shapes m
  end.

Definition NewManager (store : S) : result string Manager :=
  match loadPersisted (mkManager store ∅ ∅ ∅ 0 ∅ ∅) with
  | (_, Some e) => Err e
  | (m, None) => Ok m
  end.

(** ** The invariant and the transitions *)

(** [st] is at [h] and live. *)
Definition live_at (h : string) (st : State) (m : Manager) : Prop :=
  mgr_byHandle m !! h = Some st /\ st_Deleted st = false.

(** Every entry of an index leads to a live shape and every live shape is in
    both indices; a live shape's hash is that of its definition. *)
Record well_formed (m : Manager) : Prop := {
  wf_handle h st : mgr_byHandle m !! h = Some st -> st_Handle st = h;
  wf_hash hash h : mgr_byHash m !! hash = Some h <-> exists st, live_at h st m /\ st_Hash st = hash;
  wf_related key h : h ∈ related key m <->
    exists st, live_at h st m /\ relationKey (def_Relation (st_Definition st)) = key;
  wf_definition h st : live_at h st m -> st_Hash st = definition_hash (st_Definition st)
}.

(** The handle made for a new shape is not in use. *)
Definition handle_unused (def : Definition_) (now : Z) (m : Manager) : Prop :=
  mgr_byHash m !! definition_hash def = None ->
  mgr_byHandle m !! new_handle (definition_hash def) now = None.

(** A deletion by handle names a shape that is not already deleted. *)
Definition not_stale (h : string) (m : Manager) : Prop :=
  forall st, mgr_byHandle m !! h = Some st -> st_Deleted st = false.

(** The operations that change shapes. *)
Inductive ostep (m : Manager) : Manager -> Prop :=
| step_upsert def snapshot offset now :
    handle_unused def now m -> ostep m (UpsertSnapshotAtOffset def snapshot offset now m).1
| step_lookup_or_create def now1 now2 :
    handle_unused def now1 m -> ostep m (LookupOrCreateDefinition def now1 now2 m).1
| step_delete h now : not_stale h m -> ostep m (Delete h now m).1
| step_invalidate_relation relation clock : ostep m (InvalidateByRelation relation clock m).1
| step_invalidate_all clock : ostep m (InvalidateAll clock m).1
| step_append h messages now : ostep m (Append h messages now m).1
| step_refresh h snapshot md now : ostep m (RefreshWithMetadata h snapshot md now m).1
| step_refresh_keys h snapshot keyRows md now : ostep m (RefreshKeysWithMetadata h snapshot keyRows md now m).1.

(** The transitions of the manager. *)
Inductive mstep (m : Manager) : Manager -> Prop :=
| step_operation m' : ostep m m' -> mstep m m'
| step_register h offset waiter : mstep m (wait_register h offset waiter m).1
| step_remove_waiter h waiter : mstep m (removeWaiter h waiter m).

(** The three indices of the manager. *)
Definition same_indices (m1 m2 : Manager) : Prop :=
  mgr_byHandle m1 = mgr_byHandle m2 /\ mgr_byHash m1 = mgr_byHash m2 /\ mgr_byRelation m1 = mgr_byRelation m2.

(** Everything but the store. *)
Definition same_memory (m1 m2 : Manager) : Prop :=
  same_indices m1 m2 /\ mgr_generation m1 = mgr_generation m2 /\
  mgr_waiters m1 = mgr_waiters m2 /\ mgr_closed m1 = mgr_closed m2.

(** The messages above an offset, whatever the offset of the shape is. *)
Definition newer (offset : string) (l : list Message) : list Message :=
  filter (fun msg => offset_lt offset (msg_Offset msg)) l.

(** The identity of a shape: what a change never touches. *)
Definition same_identity (st st' : State) : Prop :=
  st_Handle st' = st_Handle st /\ st_Hash st' = st_Hash st /\ st_Deleted st' = st_Deleted st /\
  st_Definition st' = st_Definition st /\ st_Generation st' = st_Generation st /\ st_Snapshot st' = st_Snapshot st.

(** ** The specification

    What the manager promises to its callers is a map from definition hashes
    to live shapes. *)
Definition shapes_by_hash (m : Manager) : gmap string State :=
  omap (fun h => LookupByHandle h m) (mgr_byHash m).

Definition in_relation (relation : Relation) (st : State) : Prop :=
  relationKey (def_Relation (st_Definition st)) = relationKey relation.

#[export] Instance in_relation_dec (relation : Relation) (st : State) : Decision (in_relation relation st).
Proof. unfold in_relation. apply _. Defined.

End manager.
Arguments Manager S : clear implicits.

(** * Lemmas *)

(** Compute the fields of an updated manager. *)
Ltac mgr_simpl :=
  cbn [mgr_store mgr_byHandle mgr_byHash mgr_byRelation mgr_generation mgr_waiters mgr_closed
    set_store set_byHandle set_byHash set_byRelation set_generation set_waiters put_state put_hash
    delete_hash addRelationLocked fst snd] in *.

Section lemmas.
Context {S : Type} {store_ops : Store S}.
#[local] Abbreviation Manager := (Manager S).

#[export] Instance same_indices_equiv : Equivalence (@same_indices S).
Proof.
  split; unfold same_indices; [done|intros ?? (?&?&?); done|].
  intros ??? (H1&H2&H3) (H4&H5&H6). by rewrite H1, H2, H3.
Qed.

Lemma well_formed_same (m1 m2 : Manager) : same_indices m1 m2 -> well_formed m1 -> well_formed m2.
Proof.
  intros (H1 & H2 & H3) [W1 W2 W3 W4].
  split; unfold live_at, related in *; rewrite <- ?H1, <- ?H2, <- ?H3; done.
Qed.

Lemma notify_same (h : string) (m : Manager) : same_indices (notifyLocked h m) m.
Proof. unfold notifyLocked. by destruct (mgr_waiters m !! h) as [[|??]|]. Qed.

Lemma removeWaiter_same (h : string) (w : nat) (m : Manager) : same_indices (removeWaiter h w m) m.
Proof. unfold removeWaiter. by destruct (remove_first _ _). Qed.

Lemma wait_register_same (h offset : string) (w : nat) (m : Manager) :
  same_indices (wait_register h offset w m).1 m.
Proof. unfold wait_register. by destruct (wait_check h offset m). Qed.

Lemma persist_frame (st : State) (m m' : Manager) (e : option string) :
  persistStateLocked st m = (m', e) -> same_memory m' m.
Proof. unfold persistStateLocked. destruct (SaveShape _ _). intros H. by inv_all. Qed.

Lemma persist_same (st : State) (m m' : Manager) (e : option string) :
  persistStateLocked st m = (m', e) -> same_indices m' m.
Proof. intros H. by apply persist_frame in H as [? _]. Qed.

(** *** The indices after a change *)

Lemma related_add (r : Relation) (h key : string) (m : Manager) :
  related key (addRelationLocked r h m) =
  if decide (relationKey r = key) then {[h]} ∪ related key m else related key m.
Proof.
  unfold related, addRelationLocked. cbn [mgr_byRelation set_byRelation]. rewrite lookup_insert.
  by case_decide; subst.
Qed.

Lemma related_remove (r : Relation) (h key : string) (m : Manager) :
  related key (removeRelationLocked r h m) =
  if decide (relationKey r = key) then related key m ∖ {[h]} else related key m.
Proof.
  unfold removeRelationLocked.
  destruct (decide (related (relationKey r) m = ∅)) as [He|He].
  { case_decide; [|done]. subst. rewrite He. set_solver. }
  destruct (decide (related (relationKey r) m ∖ {[h]} = ∅)) as [Hd|Hd].
  - unfold related at 1. cbn [mgr_byRelation set_byRelation]. rewrite lookup_delete.
    case_decide as Hk; [|done]. rewrite <- Hk. simpl. by rewrite Hd.
  - unfold related at 1. cbn [mgr_byRelation set_byRelation]. rewrite lookup_insert.
    case_decide as Hk; [by rewrite <- Hk|done].
Qed.

Lemma removeRelation_byHandle (r : Relation) (h : string) (m : Manager) :
  mgr_byHandle (removeRelationLocked r h m) = mgr_byHandle m.
Proof. unfold removeRelationLocked. by repeat case_decide. Qed.

Lemma removeRelation_byHash (r : Relation) (h : string) (m : Manager) :
  mgr_byHash (removeRelationLocked r h m) = mgr_byHash m.
Proof. unfold removeRelationLocked. by repeat case_decide. Qed.

Lemma live_at_put (h h' : string) (st st' : State) (m : Manager) :
  live_at h' st' (put_state h st m) <->
  (h = h' /\ st = st' /\ st_Deleted st' = false) \/ (h <> h' /\ live_at h' st' m).
Proof.
  unfold live_at, put_state. cbn [mgr_byHandle set_byHandle]. rewrite lookup_insert_Some. naive_solver.
Qed.

Lemma live_hash_unique (h h' : string) (st st' : State) (m : Manager) :
  well_formed m -> live_at h st m -> live_at h' st' m -> st_Hash st = st_Hash st' -> h = h'.
Proof.
  intros Hwf H1 H2 He. assert (G1 : mgr_byHash m !! st_Hash st = Some h) by (apply wf_hash; eauto).
  assert (G2 : mgr_byHash m !! st_Hash st' = Some h') by (apply wf_hash; eauto). congruence.
Qed.

(** A live shape is replaced by a live one with the same hash, moving in the
    relation index. *)
Lemma wf_replace (h : string) (st st' : State) (m m' : Manager) :
  well_formed m -> live_at h st m ->
  st_Handle st' = h -> st_Hash st' = st_Hash st -> st_Deleted st' = false ->
  st_Hash st = definition_hash (st_Definition st') ->
  mgr_byHandle m' = <[h := st']> (mgr_byHandle m) -> mgr_byHash m' = mgr_byHash m ->
  (forall key, related key m' =
     if decide (relationKey (def_Relation (st_Definition st')) = key) then {[h]} ∪ (related key m ∖ {[h]})
     else related key m ∖ {[h]}) ->
  well_formed m'.
Proof.
  intros Hwf Hl Hh Hhash Hd Hdef H1 H2 H3.
  assert (Hlive : forall x s, live_at x s m' <-> (h = x /\ st' = s) \/ (h <> x /\ live_at x s m)).
  { intros x s. unfold live_at. rewrite H1, lookup_insert_Some. naive_solver. }
  split.
  - intros x s. rewrite H1, lookup_insert_Some. intros [[<- <-]|[? Hx]]; [done|]. by eapply wf_handle.
  - intros hash x. rewrite H2, (wf_hash _ Hwf). setoid_rewrite Hlive. split.
    + intros (s & Hs & Hx). destruct (decide (h = x)) as [->|Hne]; [|by eauto 6].
      exists st'. split; [by left|]. unfold live_at in *. rewrite Hhash. naive_solver congruence.
    + intros (s & [[<- <-]|[Hne Hs]] & Hx); [|by eauto]. exists st. rewrite <- Hx. auto.
  - intros key x. rewrite H3. setoid_rewrite Hlive.
    assert (Hr : x ∈ related key m ∖ {[h]} <->
      exists s, (h <> x /\ live_at x s m) /\ relationKey (def_Relation (st_Definition s)) = key).
    { rewrite elem_of_difference, not_elem_of_singleton, (wf_related _ Hwf). naive_solver. }
    case_decide as Hk.
    + rewrite elem_of_union, elem_of_singleton, Hr. naive_solver.
    + rewrite Hr. naive_solver.
  - intros x s Hs. apply Hlive in Hs as [[<- <-]|[_ Hs]]; [congruence|]. by eapply wf_definition.
Qed.

(** The same when the relation stays. *)
Lemma wf_put_live (h : string) (st st' : State) (m m1 : Manager) :
  same_indices m1 m -> well_formed m -> live_at h st m ->
  st_Handle st' = st_Handle st -> st_Hash st' = st_Hash st -> st_Deleted st' = st_Deleted st ->
  st_Definition st' = st_Definition st -> well_formed (put_state h st' m1).
Proof.
  intros (E1 & E2 & E3) Hwf Hl Hh Hhash Hd Hdef. destruct Hl as [Hm Hnd].
  assert (Hlive : live_at h st m) by done.
  eapply (wf_replace h st); try done; cbn [put_state set_byHandle mgr_byHandle mgr_byHash]; rewrite ?E1, ?E2; try done.
  - rewrite Hh. by eapply wf_handle.
  - congruence.
  - rewrite Hdef. by eapply wf_definition.
  - intros key. assert (Hr : related key (put_state h st' m1) = related key m)
      by (unfold related; cbn [put_state set_byHandle mgr_byRelation]; by rewrite E3).
    rewrite Hr, Hdef. case_decide as Hk.
    + rewrite <- union_difference_singleton_L; [done|]. apply (wf_related _ Hwf). eauto.
    + rewrite difference_disjoint_L; [done|]. apply disjoint_singleton_r.
      rewrite (wf_related _ Hwf). intros (s & [Hs _] & He). rewrite Hm in Hs. congruence.
Qed.

(** Live shapes are deleted. *)
Lemma wf_remove_set (X : gset string) (m m' : Manager) :
  well_formed m ->
  (forall h st, mgr_byHandle m' !! h = Some st -> st_Handle st = h) ->
  (forall h st, live_at h st m' <-> live_at h st m /\ h ∉ X) ->
  (forall hash h, mgr_byHash m' !! hash = Some h <-> mgr_byHash m !! hash = Some h /\ h ∉ X) ->
  (forall key h, h ∈ related key m' <-> h ∈ related key m /\ h ∉ X) ->
  well_formed m'.
Proof.
  intros Hwf H1 Hlive H2 H3. split.
  - exact H1.
  - intros hash h. rewrite H2, (wf_hash _ Hwf). setoid_rewrite Hlive. naive_solver.
  - intros key h. rewrite H3, (wf_related _ Hwf). setoid_rewrite Hlive. naive_solver.
  - intros h st [Hs _]%Hlive. by eapply wf_definition.
Qed.

Lemma wf_remove (h : string) (st st' : State) (m m' : Manager) :
  well_formed m -> live_at h st m -> st_Handle st' = h -> st_Deleted st' = true ->
  mgr_byHandle m' = <[h := st']> (mgr_byHandle m) -> mgr_byHash m' = delete (st_Hash st) (mgr_byHash m) ->
  (forall key, related key m' = if decide (relationKey (def_Relation (st_Definition st)) = key)
     then related key m ∖ {[h]} else related key m) ->
  well_formed m'.
Proof.
  intros Hwf Hl Hh Hd H1 H2 H3. apply (wf_remove_set {[h]} m); [done|..].
  - intros x s. rewrite H1, lookup_insert_Some. intros [[<- <-]|[? Hx]]; [done|]. by eapply wf_handle.
  - intros x s. unfold live_at. rewrite H1, lookup_insert_Some, not_elem_of_singleton. naive_solver congruence.
  - intros hash x. rewrite H2, lookup_delete_Some, not_elem_of_singleton, (wf_hash _ Hwf). split.
    + intros (Hne & s & Hs & <-). split; [by eauto|]. intros ->. destruct Hl, Hs. congruence.
    + intros ((s & Hs & <-) & Hne). split; [|by eauto]. intros He. apply Hne.
      symmetry. by eapply live_hash_unique.
  - intros key x. rewrite H3, not_elem_of_singleton. case_decide as Hk; [by rewrite elem_of_difference, not_elem_of_singleton|].
    split; [|by intros [? _]]. intros Hx. split; [done|]. intros ->.
    apply (wf_related _ Hwf) in Hx as (s & [Hs _] & He). destruct Hl. congruence.
Qed.

(** A shape is added at an unused handle, for a hash without a shape. *)
Lemma wf_add (st : State) (m m' : Manager) :
  well_formed m -> mgr_byHandle m !! st_Handle st = None -> mgr_byHash m !! st_Hash st = None ->
  st_Deleted st = false -> st_Hash st = definition_hash (st_Definition st) ->
  mgr_byHandle m' = <[st_Handle st := st]> (mgr_byHandle m) ->
  mgr_byHash m' = <[st_Hash st := st_Handle st]> (mgr_byHash m) ->
  (forall key, related key m' =
     if decide (relationKey (def_Relation (st_Definition st)) = key) then {[st_Handle st]} ∪ related key m
     else related key m) ->
  well_formed m'.
Proof.
  intros Hwf Hn Hnh Hd Hdef H1 H2 H3.
  assert (Hlive : forall x s, live_at x s m' <-> (st_Handle st = x /\ st = s) \/ live_at x s m).
  { intros x s. unfold live_at. rewrite H1, lookup_insert_Some. naive_solver congruence. }
  split.
  - intros x s. rewrite H1, lookup_insert_Some. intros [[<- <-]|[? Hx]]; [done|]. by eapply wf_handle.
  - intros hash x. rewrite H2, lookup_insert_Some, (wf_hash _ Hwf). setoid_rewrite Hlive. split.
    + intros [[<- <-]|(Hne & s & Hs & <-)]; [by eauto|]. eauto.
    + intros (s & [[<- <-]|Hs] & <-); [by left|]. right. split; [|by eauto]. intros He.
      assert (mgr_byHash m !! st_Hash s = Some x) by (apply wf_hash; eauto). congruence.
  - intros key x. rewrite H3. setoid_rewrite Hlive. case_decide as Hk.
    + rewrite elem_of_union, elem_of_singleton, (wf_related _ Hwf). naive_solver.
    + rewrite (wf_related _ Hwf). naive_solver.
  - intros x s Hs. apply Hlive in Hs as [[<- <-]|Hs]; [done|]. by eapply wf_definition.
Qed.

(** *** Every transition keeps the indices consistent *)

Lemma well_formed_notify (h : string) (m : Manager) : well_formed m -> well_formed (notifyLocked h m).
Proof. apply well_formed_same. symmetry. apply notify_same. Qed.

Lemma related_same (m1 m2 : Manager) (key : string) : same_indices m1 m2 -> related key m1 = related key m2.
Proof. intros (_ & _ & He). unfold related. by rewrite He. Qed.

Lemma live_at_same (m1 m2 : Manager) (h : string) (st : State) :
  same_indices m1 m2 -> live_at h st m1 <-> live_at h st m2.
Proof. intros (He & _). unfold live_at. by rewrite He. Qed.

Lemma wf_create (st : State) (m : Manager) :
  well_formed m -> mgr_byHandle m !! st_Handle st = None -> mgr_byHash m !! st_Hash st = None ->
  st_Deleted st = false -> st_Hash st = definition_hash (st_Definition st) ->
  well_formed (create_state st m).1.
Proof.
  intros Hwf Hn Hnh Hd Hdef. unfold create_state.
  destruct (persistStateLocked st _) as [m1 [e|]] eqn:Ep; apply persist_same in Ep;
    destruct Ep as (E1 & E2 & E3); cbn [fst].
  - by apply (well_formed_same m).
  - apply (wf_add st m); try done.
    + mgr_simpl. by rewrite E1.
    + mgr_simpl. by rewrite E2.
    + intros key. rewrite related_add. unfold related. mgr_simpl. by rewrite E3.
Qed.

Lemma byHash_live (m : Manager) (hash h : string) :
  well_formed m -> mgr_byHash m !! hash = Some h ->
  exists st, live_at h st m /\ st_Hash st = hash /\ mgr_byHandle m !! h = Some st /\ st_Handle st = h.
Proof.
  intros Hwf Hh. apply (wf_hash _ Hwf) in Hh as (st & Hl & He). exists st.
  split_and!; [done|done|by destruct Hl|]. destruct Hl. by eapply wf_handle.
Qed.

Lemma wf_upsert (def : Definition_) (snapshot : SnapshotResult) (offset : string) (now : Z) (m : Manager) :
  well_formed m -> handle_unused def now m -> well_formed (UpsertSnapshotAtOffset def snapshot offset now m).1.
Proof.
  intros Hwf Hu. unfold UpsertSnapshotAtOffset.
  destruct (mgr_byHash m !! definition_hash def) as [h|] eqn:Eh.
  - destruct (byHash_live _ _ _ Hwf Eh) as (st & Hl & Hs & Hm & Hh). rewrite Hm. cbn [default from_option id].
    destruct (persistStateLocked _ m) as [m1 [e|]] eqn:Ep; apply persist_same in Ep; cbn [fst].
    + by eapply well_formed_same; [symmetry|].
    + apply well_formed_notify. destruct Ep as (E1 & E2 & E3).
      apply (wf_replace h st (replaced_state st def snapshot offset now) m); try done; mgr_simpl.
      * by rewrite removeRelation_byHandle, E1.
      * rewrite removeRelation_byHash, E2. by apply insert_id.
      * intros key. rewrite related_add.
        change (related key (put_hash _ _ (put_state _ _ ?x))) with (related key x).
        rewrite related_remove. assert (Hr : related key m1 = related key m) by (unfold related; by rewrite E3).
        rewrite Hr. assert (Hnr : relationKey (def_Relation (st_Definition st)) <> key -> related key m ∖ {[h]} = related key m).
        { intros Hk. apply difference_disjoint_L. apply disjoint_singleton_r.
          rewrite (wf_related _ Hwf). intros (s & [Hs1 _] & He). rewrite Hm in Hs1. congruence. }
        repeat case_decide; try done; by rewrite Hnr.
  - apply wf_create; try done. apply Hu, Eh.
Qed.

Lemma wf_lookup_or_create (def : Definition_) (now1 now2 : Z) (m : Manager) :
  well_formed m -> handle_unused def now1 m -> well_formed (LookupOrCreateDefinition def now1 now2 m).1.
Proof.
  intros Hwf Hu. unfold LookupOrCreateDefinition.
  destruct (mgr_byHash m !! definition_hash def) as [h|] eqn:Eh.
  - destruct (byHash_live _ _ _ Hwf Eh) as (st & Hl & Hs & Hm & Hh). rewrite Hm. cbn [default from_option id].
    destruct (persistStateLocked _ m) as [m1 [e|]] eqn:Ep; apply persist_same in Ep; cbn [fst].
    + by eapply well_formed_same; [symmetry|].
    + eapply wf_put_live; try done.
  - apply wf_create; try done. apply Hu, Eh.
Qed.

Lemma wf_delete_live (h : string) (st u : State) (m m1 : Manager) :
  same_indices m1 m -> well_formed m -> live_at h st m ->
  st_Handle u = st_Handle st -> st_Hash u = st_Hash st -> st_Deleted u = true ->
  well_formed (notifyLocked h (put_state h u
    (removeRelationLocked (def_Relation (st_Definition st)) h (delete_hash (st_Hash st) m1)))).
Proof.
  intros (E1 & E2 & E3) Hwf Hl Hh Hhash Hd. apply well_formed_notify.
  assert (Hx : mgr_byHandle m !! h = Some st) by apply Hl.
  apply (wf_remove h st u m); try done.
  - rewrite Hh. by eapply wf_handle.
  - mgr_simpl. rewrite removeRelation_byHandle. mgr_simpl. by rewrite E1.
  - mgr_simpl. rewrite removeRelation_byHash. mgr_simpl. by rewrite E2.
  - intros key. change (related key (put_state h u ?x)) with (related key x). rewrite related_remove.
    assert (Hr : related key (delete_hash (st_Hash st) m1) = related key m)
      by (unfold related; mgr_simpl; by rewrite E3).
    by rewrite Hr.
Qed.

Lemma removeRelation_delete_hash (r : Relation) (h hash : string) (m : Manager) :
  removeRelationLocked r h (delete_hash hash m) = delete_hash hash (removeRelationLocked r h m).
Proof.
  unfold removeRelationLocked. change (related _ (delete_hash hash m)) with (related (relationKey r) m).
  by repeat case_decide.
Qed.

Lemma wf_delete (h : string) (now : Z) (m : Manager) :
  well_formed m -> not_stale h m -> well_formed (Delete h now m).1.
Proof.
  intros Hwf Hst. unfold Delete. destruct (mgr_byHandle m !! h) as [st|] eqn:Eh; [|done].
  destruct (persistStateLocked _ m) as [m1 [e|]] eqn:Ep; apply persist_same in Ep; cbn [fst].
  - by eapply well_formed_same; [symmetry|].
  - apply (wf_delete_live h st (deleted_state st now) m m1); try done. split; [done|]. by apply Hst.
Qed.

Lemma wf_invalidate_all_loop (handles : list string) (clock : nat -> Z) (n : nat) (acc : list string) (m : Manager) :
  well_formed m -> Forall (fun h => is_Some (mgr_byHandle m !! h)) handles ->
  well_formed (invalidate_all_loop handles clock n acc m).1.
Proof.
  revert n acc m. induction handles as [|h rest IH]; intros n acc m Hwf Hin; [done|].
  inversion_clear Hin as [|?? [st Hst] Hrest]. cbn [invalidate_all_loop]. rewrite Hst. cbn [default from_option id].
  destruct (st_Deleted st) eqn:Ed; [by apply IH|].
  destruct (persistStateLocked _ m) as [m1 [e|]] eqn:Ep; apply persist_same in Ep; cbn [fst].
  - by eapply well_formed_same; [symmetry|].
  - cbn [deleted_state st_Hash]. rewrite <- removeRelation_delete_hash. apply IH.
    + apply (wf_delete_live h st (deleted_state st (clock n)) m m1); done.
    + destruct Ep as (E1 & E2 & E3). eapply Forall_impl; [exact Hrest|]. intros y [s Hy].
      destruct (notify_same h (put_state h (deleted_state st (clock n))
        (removeRelationLocked (def_Relation (st_Definition st)) h (delete_hash (st_Hash st) m1)))) as [He _].
      rewrite He. mgr_simpl. rewrite removeRelation_byHandle. mgr_simpl. rewrite E1, lookup_insert.
      case_decide; eauto.
Qed.

Lemma wf_invalidate_all (clock : nat -> Z) (m : Manager) : well_formed m -> well_formed (InvalidateAll clock m).1.
Proof.
  intros Hwf. apply wf_invalidate_all_loop; [done|]. apply Forall_forall. intros h. apply elem_of_sorted_keys.
Qed.

(** What the two loops of [InvalidateByRelation] do. *)
Lemma invalidate_save_spec (handles : list string) (clock : nat -> Z) (n : nat) (updated : gmap string State)
    (m m' : Manager) (r : result ManagerError (gmap string State)) :
  invalidate_save handles clock n updated m = (m', r) ->
  same_memory m' m /\
  match r with
  | Err e => exists msg, e = ErrStore msg
  | Ok updated' => forall h,
      (forall st, h ∈ handles -> live_at h st m -> exists t, updated' !! h = Some (deleted_state st t)) /\
      ((h ∉ handles \/ forall st, ~ live_at h st m) -> updated' !! h = updated !! h)
  end.
Proof.
  revert n updated m. induction handles as [|h rest IH]; intros n updated m; cbn [invalidate_save].
  { intros [= <- <-]. split; [done|]. intros h. split; [|done]. intros st Hh. by apply elem_of_nil in Hh. }
  assert (Hskip : (forall st, ~ live_at h st m) -> invalidate_save rest clock n updated m = (m', r) ->
    same_memory m' m /\ match r with
    | Err e => exists msg, e = ErrStore msg
    | Ok updated' => forall x,
      (forall st, x ∈ h :: rest -> live_at x st m -> exists t, updated' !! x = Some (deleted_state st t)) /\
      ((x ∉ h :: rest \/ forall st, ~ live_at x st m) -> updated' !! x = updated !! x)
    end).
  { intros Hn [Hm Hr]%IH. split; [done|]. destruct r as [e|u]; [done|]. intros x. destruct (Hr x) as [G1 G2]. split.
    - intros st [->|Hx]%elem_of_cons Hl; [by apply Hn in Hl|]. eauto.
    - intros Hx. apply G2. rewrite elem_of_cons in Hx. tauto. }
  destruct (mgr_byHandle m !! h) as [st|] eqn:Eh.
  2: { apply Hskip. intros st [Hst _]. congruence. }
  destruct (st_Deleted st) eqn:Ed.
  { apply Hskip. intros s [Hs Hd]. congruence. }
  destruct (persistStateLocked _ m) as [m1 [e|]] eqn:Ep; apply persist_frame in Ep.
  { intros [= <- <-]. split; [done|]. eauto. }
  assert (Hs1 : same_indices m1 m) by apply Ep. intros [Hm Hr]%IH. split.
  { unfold same_memory, same_indices in *. destruct Hm as ((?&?&?)&?&?&?), Ep as ((?&?&?)&?&?&?). split_and!; congruence. }
  destruct r as [e|u]; [done|]. intros x. destruct (Hr x) as [G1 G2].
  setoid_rewrite (live_at_same _ _ x _ Hs1) in G1. setoid_rewrite (live_at_same _ _ x _ Hs1) in G2. split.
  - intros s Hx Hl. destruct (decide (x ∈ rest)) as [Hin|Hin]; [by apply G1|].
    apply elem_of_cons in Hx as [->|Hx]; [|done]. destruct Hl as [Hl _]. assert (s = st) as -> by congruence.
    exists (clock n). rewrite G2 by auto. by rewrite lookup_insert_eq.
  - intros Hx. assert (Hne : x <> h).
    { intros ->. destruct Hx as [Hx|Hx]; [apply Hx, list_elem_of_here|by apply (Hx st)]. }
    rewrite G2; [by rewrite lookup_insert_ne|]. rewrite elem_of_cons in Hx. tauto.
Qed.

Lemma invalidate_apply_spec (updated : gmap string State) (l : list string) (m : Manager) :
  let m' := fold_left (invalidate_apply updated) l m in
  (forall h, mgr_byHandle m' !! h =
     if decide (h ∈ l /\ is_Some (updated !! h)) then updated !! h else mgr_byHandle m !! h) /\
  (forall hash h, mgr_byHash m' !! hash = Some h <->
     mgr_byHash m !! hash = Some h /\ ~ exists x u, x ∈ l /\ updated !! x = Some u /\ st_Hash u = hash) /\
  mgr_byRelation m' = mgr_byRelation m /\ mgr_store m' = mgr_store m /\ mgr_generation m' = mgr_generation m.
Proof.
  revert m. induction l as [|x l IH]; intros m; cbv zeta; cbn [fold_left].
  { split_and!; try done.
    - intros hash h. split; [|by intros [? _]]. intros Hh. split; [done|]. intros (y & u & Hy & _). by apply elem_of_nil in Hy. }
  specialize (IH (invalidate_apply updated m x)). cbv zeta in IH. destruct IH as (H1 & H2 & H3 & H4 & H5).
  unfold invalidate_apply in *. destruct (updated !! x) as [u|] eqn:Ex.
  - assert (Hn : forall m : Manager, same_indices (notifyLocked x m) m) by apply notify_same.
    assert (Hg : forall m : Manager, mgr_store (notifyLocked x m) = mgr_store m /\ mgr_generation (notifyLocked x m) = mgr_generation m)
      by (intros m0; unfold notifyLocked; by destruct (mgr_waiters m0 !! x) as [[|??]|]).
    set (m1 := put_state x u (delete_hash (st_Hash u) m)) in *.
    destruct (Hn m1) as (E1 & E2 & E3), (Hg m1) as (E4 & E5).
    split_and!; [|..|by rewrite H3, E3|by rewrite H4, E4|by rewrite H5, E5].
    + intros h. rewrite H1, E1. unfold m1. mgr_simpl. rewrite lookup_insert. destruct (decide (x = h)) as [<-|Hne].
      * rewrite Ex, (decide_True (P := x ∈ x :: l /\ _)) by (split; [apply list_elem_of_here|eauto]). by case_decide.
      * destruct (decide (h ∈ l /\ is_Some (updated !! h))) as [[? ?]|Hd].
        -- rewrite decide_True; [done|]. rewrite elem_of_cons. tauto.
        -- rewrite decide_False; [done|]. rewrite elem_of_cons. intros [[->|?] ?]; tauto.
    + intros hash h. rewrite H2, E2. unfold m1. mgr_simpl. rewrite lookup_delete_Some. split.
      * intros [[Hne Hh] Hno]. split; [done|]. intros (y & v & [->|Hy]%elem_of_cons & Hv & He); [congruence|]. eauto 6.
      * intros [Hh Hno]. split_and!; [|done|].
        -- intros He. apply Hno. exists x, u. split_and!; [apply list_elem_of_here|done|done].
        -- intros (y & v & Hy & Hv & He). apply Hno. exists y, v. split_and!; [by apply list_elem_of_further|done|done].
  - split_and!; try done.
    + intros h. rewrite H1. destruct (decide (h ∈ l /\ is_Some (updated !! h))) as [[? ?]|Hd].
      * rewrite decide_True; [done|]. rewrite elem_of_cons. tauto.
      * rewrite decide_False; [done|]. rewrite elem_of_cons. intros [[->|?] [v Hv]]; [congruence|]. apply Hd. eauto.
    + intros hash h. rewrite H2. split; intros [Hh Hno]; (split; [done|]); intros (y & v & Hy & Hv & He); apply Hno.
      * apply elem_of_cons in Hy as [->|Hy]; [congruence|]. eauto 6.
      * exists y, v. split_and!; [by apply list_elem_of_further|done|done].
Qed.

(** What [InvalidateByRelation] does when every save succeeds: exactly the
    shapes listed under the relation's key are deleted. *)
Lemma invalidate_relation_spec (relation : Relation) (clock : nat -> Z) (m m' : Manager) (handles : list string) :
  well_formed m -> InvalidateByRelation relation clock m = (m', Ok handles) ->
  let key := relationKey relation in
  (forall h, mgr_byHandle m' !! h = mgr_byHandle m !! h \/
     h ∈ related key m /\ exists st t, live_at h st m /\ mgr_byHandle m' !! h = Some (deleted_state st t)) /\
  (forall h st, live_at h st m' <-> live_at h st m /\ h ∉ related key m) /\
  (forall hash h, mgr_byHash m' !! hash = Some h <-> mgr_byHash m !! hash = Some h /\ h ∉ related key m) /\
  (forall k h, h ∈ related k m' <-> h ∈ related k m /\ h ∉ related key m) /\
  handles = sort_strings (elements (related key m)).
Proof.
  intros Hwf. unfold InvalidateByRelation. case_decide as He.
  { intros [= <- <-]. rewrite He. split_and!; try set_solver; try done. }
  destruct (invalidate_save _ _ _ _ _) as [m1 [e|updated]] eqn:Es; [done|].
  apply invalidate_save_spec in Es as [((E1 & E2 & E3) & _) Hu]. cbn zeta.
  set (key := relationKey relation) in *. set (l := sort_strings (elements (related key m))) in *.
  assert (Hl : forall h, h ∈ l <-> h ∈ related key m)
    by (intros h; unfold l; by rewrite elem_of_sort_strings, elem_of_elements).
  destruct (invalidate_apply_spec updated l m1) as (H1 & H2 & H3 & _). cbv zeta in *.
  set (m2 := fold_left _ l m1) in *. intros [= <- <-].
  assert (Hlive : forall h, h ∈ related key m -> exists st t, live_at h st m /\ updated !! h = Some (deleted_state st t)).
  { intros h Hh. pose proof Hh as (st & Hs & _)%(wf_related _ Hwf). destruct (Hu h) as [G _].
    destruct (G st) as [t Ht]; [by apply Hl|done|]. eauto. }
  assert (Hnone : forall h, h ∉ related key m -> updated !! h = None).
  { intros h Hh. destruct (Hu h) as [_ G]. apply G. left. by rewrite Hl. }
  assert (HbH : forall h, mgr_byHandle m2 !! h = if decide (h ∈ related key m) then updated !! h else mgr_byHandle m !! h).
  { intros h. rewrite H1, E1. destruct (decide (h ∈ related key m)) as [Hh|Hh].
    - destruct (Hlive h Hh) as (st & t & _ & Hup). by rewrite decide_True by (rewrite Hl; eauto).
    - rewrite decide_False; [done|]. rewrite Hl. tauto. }
  split_and!.
  - intros h. mgr_simpl. rewrite HbH. case_decide as Hh; [|by left]. right.
    destruct (Hlive h Hh) as (st & t & ? & ?). eauto 6.
  - intros h st. unfold live_at at 1. mgr_simpl. rewrite HbH. case_decide as Hh.
    + destruct (Hlive h Hh) as (s & t & _ & ->). split; [|tauto]. intros [[= <-] Hd]. done.
    + unfold live_at. tauto.
  - intros hash h. mgr_simpl. rewrite H2, E2. split; intros [Hh Hno]; (split; [done|]).
    + intros Hr. destruct (Hlive h Hr) as (st & t & Hs & Hup). apply Hno. exists h, (deleted_state st t).
      split_and!; [by apply Hl|done|]. apply (wf_hash _ Hwf) in Hh as (s & Hs' & <-). destruct Hs, Hs'. simpl. congruence.
    + intros (x & u & Hx & Hux & Hhash). apply Hl in Hx. destruct (Hlive x Hx) as (st & t & Hs & Hup).
      rewrite Hux in Hup. injection Hup as ->. simpl in Hhash.
      assert (mgr_byHash m !! hash = Some x) by (apply (wf_hash _ Hwf); eauto). apply Hno. congruence.
  - intros k h. unfold related at 1. mgr_simpl. rewrite H3, E3, lookup_delete. case_decide as Hk.
    + subst k. split; [by intros ?%elem_of_empty|]. intros [Ha Hb]. by destruct Hb.
    + fold (related k m). split; [|by intros [? _]]. intros Hh. split; [done|]. intros Hr.
      apply (wf_related _ Hwf) in Hh as (s1 & [G1 _] & F1). apply (wf_related _ Hwf) in Hr as (s2 & [G2 _] & F2).
      congruence.
  - apply filter_all, Forall_forall. intros h Hh%Hl. destruct (Hlive h Hh) as (st & t & _ & ->). eauto.
Qed.

Lemma invalidate_relation_error (relation : Relation) (clock : nat -> Z) (m m' : Manager) (e : ManagerError) :
  InvalidateByRelation relation clock m = (m', Err e) -> same_memory m' m.
Proof.
  unfold InvalidateByRelation. case_decide; [done|].
  destruct (invalidate_save _ _ _ _ _) as [m1 [e'|updated]] eqn:Es; [|done].
  intros [= <- <-]. by apply invalidate_save_spec in Es as [? _].
Qed.

Lemma wf_invalidate_relation (relation : Relation) (clock : nat -> Z) (m : Manager) :
  well_formed m -> well_formed (InvalidateByRelation relation clock m).1.
Proof.
  intros Hwf. destruct (InvalidateByRelation relation clock m) as [m' [e|handles]] eqn:E; cbn [fst].
  - apply invalidate_relation_error in E as [E _]. by apply (well_formed_same m).
  - apply invalidate_relation_spec in E as (H1 & H2 & H3 & H4 & _); [|done].
    apply (wf_remove_set (related (relationKey relation) m) m); try done.
    intros h st Hst. destruct (H1 h) as [Hx|(_ & s & t & [Hs _] & Hx)]; rewrite Hx in Hst.
    + by eapply wf_handle.
    + injection Hst as <-. simpl. by eapply wf_handle.
Qed.

(** *** Changes of one shape *)

Lemma append_messages_identity (st : State) (i : nat) (l : list Message) : same_identity st (append_messages st i l).
Proof.
  revert st i. induction l as [|x l IH]; intros st i; [done|]. cbn [append_messages].
  destruct (IH (append_message st i x) (i + 1)%nat) as (?&?&?&?&?&?). unfold same_identity. simpl in *. auto 7.
Qed.

Lemma refreshed_state_identity (st : State) (schema : Schema) (rows : gmap string Row) (now : Z) (l : list Message)
    (md : ChangeMetadata) :
  same_identity st (refreshed_state st schema rows now l md).1.
Proof. unfold refreshed_state. destruct l; [done|]. by destruct (applyChangeOffsets _ _ _). Qed.

Lemma live_state_Ok (h : string) (m : Manager) (st : State) : live_state h m = Ok st <-> live_at h st m.
Proof.
  unfold live_state, live_at. destruct (mgr_byHandle m !! h) as [s|]; [|naive_solver].
  destruct (st_Deleted s) eqn:Ed; split; intros Hx; [done|naive_solver congruence|inv_all; auto|].
  destruct Hx as [[= ->] _]. done.
Qed.

Lemma wf_install {A} (h : string) (st updated : State) (notify : bool) (r : A) (m : Manager) :
  well_formed m -> live_at h st m -> same_identity st updated -> well_formed (install h updated notify r m).1.
Proof.
  intros Hwf Hl (H1 & H2 & H3 & H4 & _). unfold install.
  destruct (persistStateLocked _ m) as [m1 [e|]] eqn:Ep; apply persist_same in Ep; cbn [fst].
  - by eapply well_formed_same; [symmetry|].
  - assert (Hp : well_formed (put_state h updated m1)) by by eapply wf_put_live.
    destruct notify; cbn [fst]; [by apply well_formed_notify|done].
Qed.

Lemma wf_append (h : string) (l : list Message) (now : Z) (m : Manager) :
  well_formed m -> well_formed (Append h l now m).1.
Proof.
  intros Hwf. unfold Append. destruct (live_state h m) as [e|st] eqn:El; [done|]. apply live_state_Ok in El.
  eapply wf_install; [done..|]. exact (append_messages_identity st 0 l).
Qed.

Lemma wf_refresh (h : string) (snapshot : SnapshotResult) (md : ChangeMetadata) (now : Z) (m : Manager) :
  well_formed m -> well_formed (RefreshWithMetadata h snapshot md now m).1.
Proof.
  intros Hwf. unfold RefreshWithMetadata. destruct (live_state h m) as [e|st] eqn:El; [done|]. apply live_state_Ok in El.
  match goal with |- context [refreshed_state ?a ?b ?c ?d ?e ?f] =>
    pose proof (refreshed_state_identity a b c d e f) as Hi; destruct (refreshed_state a b c d e f) as [u l] end.
  by eapply wf_install.
Qed.

Lemma wf_refresh_keys (h : string) (snapshot : SnapshotResult) (keyRows : list Row) (md : ChangeMetadata) (now : Z) (m : Manager) :
  well_formed m -> well_formed (RefreshKeysWithMetadata h snapshot keyRows md now m).1.
Proof.
  intros Hwf. unfold RefreshKeysWithMetadata. destruct (live_state h m) as [e|st] eqn:El; [done|].
  apply live_state_Ok in El. case_decide; [done|].
  match goal with |- context [refreshed_state ?a ?b ?c ?d ?e ?f] =>
    pose proof (refreshed_state_identity a b c d e f) as Hi; destruct (refreshed_state a b c d e f) as [u l] end.
  by eapply wf_install.
Qed.

Lemma ostep_well_formed (m m' : Manager) : well_formed m -> ostep m m' -> well_formed m'.
Proof.
  intros Hwf Hs. destruct Hs.
  - by apply wf_upsert.
  - by apply wf_lookup_or_create.
  - by apply wf_delete.
  - by apply wf_invalidate_relation.
  - by apply wf_invalidate_all.
  - by apply wf_append.
  - by apply wf_refresh.
  - by apply wf_refresh_keys.
Qed.

Lemma mstep_well_formed (m m' : Manager) : well_formed m -> mstep m m' -> well_formed m'.
Proof.
  intros Hwf Hs. destruct Hs.
  - by eapply ostep_well_formed.
  - eapply well_formed_same; [symmetry; apply wait_register_same|done].
  - eapply well_formed_same; [symmetry; apply removeWaiter_same|done].
Qed.

Lemma empty_well_formed (s : S) : well_formed (mkManager s ∅ ∅ ∅ 0 ∅ ∅).
Proof.
  assert (Hn : forall h st, ~ live_at h st (mkManager s ∅ ∅ ∅ 0 ∅ ∅))
    by (intros h st [Hs _]; discriminate Hs).
  split.
  - intros h st Hs. discriminate Hs.
  - intros hash h. split; [discriminate|]. intros (st & Hs & _). by apply Hn in Hs.
  - intros key h. split; [by intros ?%elem_of_empty|]. intros (st & Hs & _). by apply Hn in Hs.
  - intros h st Hs. by apply Hn in Hs.
Qed.

(** *** The specification *)

Lemma LookupByHandle_live (h : string) (st : State) (m : Manager) : LookupByHandle h m = Some st <-> live_at h st m.
Proof.
  unfold LookupByHandle, live_at. destruct (mgr_byHandle m !! h) as [s|]; [|naive_solver].
  destruct (st_Deleted s) eqn:Ed; split; intros Hx; [done|naive_solver congruence|inv_all; auto|].
  by destruct Hx as [[= ->] _].
Qed.

Lemma shapes_by_hash_lookup (m : Manager) (hash : string) (st : State) :
  well_formed m -> shapes_by_hash m !! hash = Some st <-> exists h, live_at h st m /\ st_Hash st = hash.
Proof.
  intros Hwf. unfold shapes_by_hash. rewrite lookup_omap, bind_Some. setoid_rewrite LookupByHandle_live. split.
  - intros (h & Hh & Hl). exists h. split; [done|]. apply (wf_hash _ Hwf) in Hh as (s & [Hs _] & <-).
    destruct Hl. congruence.
  - intros (h & Hl & <-). exists h. split; [|done]. apply (wf_hash _ Hwf). eauto.
Qed.

(** The shape at one hash is new, the others are as before. *)
Lemma shapes_by_hash_put (h : string) (st : State) (m m' : Manager) :
  well_formed m -> well_formed m' ->
  (forall x s, live_at x s m' <-> (h = x /\ st = s) \/ (h <> x /\ live_at x s m)) ->
  (forall x s, live_at x s m -> st_Hash s = st_Hash st -> x = h) ->
  (forall s, live_at h s m -> st_Hash s = st_Hash st) ->
  shapes_by_hash m' = <[st_Hash st := st]> (shapes_by_hash m).
Proof.
  intros Hwf Hwf' Hlive Hx Hown. apply map_eq. intros hash. apply option_eq. intros s.
  rewrite shapes_by_hash_lookup, lookup_insert_Some, shapes_by_hash_lookup by done. setoid_rewrite Hlive. split.
  - intros (x & [[<- <-]|[Hne Hl]] & <-); [by left|]. right. split; [|by eauto].
    intros He. apply Hne. symmetry. by eapply Hx.
  - intros [[<- <-]|(Hne & x & Hl & <-)]; [by eauto|]. exists x. split; [|done]. right. split; [|done].
    intros <-. apply Hne. symmetry. by apply Hown.
Qed.

Lemma shapes_by_hash_remove (X : gset string) (m m' : Manager) (P : State -> Prop)
    `{!forall kv : string * State, Decision (P kv.2)} :
  well_formed m -> well_formed m' ->
  (forall h st, live_at h st m' <-> live_at h st m /\ h ∉ X) ->
  (forall h st, live_at h st m -> h ∉ X <-> P st) ->
  shapes_by_hash m' = filter (fun kv => P kv.2) (shapes_by_hash m).
Proof.
  intros Hwf Hwf' Hlive HX. apply map_eq. intros hash. apply option_eq. intros s.
  rewrite map_lookup_filter_Some, !shapes_by_hash_lookup by done. setoid_rewrite Hlive. split.
  - intros (x & [Hl Hx] & <-). split; [by eauto|]. simpl. by apply (HX x s Hl).
  - intros [(x & Hl & <-) Hp]. exists x. split; [|done]. split; [done|]. by apply (HX x s Hl).
Qed.

Lemma live_at_frame (m m' : Manager) (h : string) (st : State) (x : string) (s : State) :
  mgr_byHandle m' = <[h := st]> (mgr_byHandle m) -> st_Deleted st = false ->
  live_at x s m' <-> (h = x /\ st = s) \/ (h <> x /\ live_at x s m).
Proof. intros He Hd. unfold live_at. rewrite He, lookup_insert_Some. naive_solver congruence. Qed.

Lemma create_state_ok (st st' : State) (m m' : Manager) :
  create_state st m = (m', Ok st') -> st' = st /\ mgr_byHandle m' = <[st_Handle st := st]> (mgr_byHandle m).
Proof.
  unfold create_state. destruct (persistStateLocked st _) as [m1 [e|]] eqn:Ep; [done|].
  apply persist_same in Ep as (E1 & _). intros [= <- <-]. mgr_simpl. by rewrite E1.
Qed.

Lemma create_refines (st st' : State) (m m' : Manager) :
  well_formed m -> mgr_byHandle m !! st_Handle st = None -> mgr_byHash m !! st_Hash st = None ->
  st_Deleted st = false -> st_Hash st = definition_hash (st_Definition st) ->
  create_state st m = (m', Ok st') ->
  st' = st /\ shapes_by_hash m' = <[st_Hash st := st]> (shapes_by_hash m).
Proof.
  intros Hwf Hn Hnh Hd Hdef Hc. pose proof (wf_create st m Hwf Hn Hnh Hd Hdef) as Hwf'.
  rewrite Hc in Hwf'. apply create_state_ok in Hc as [-> Hm]. split; [done|].
  apply (shapes_by_hash_put (st_Handle st)); try done.
  - intros x s. by apply live_at_frame.
  - intros x s Hl He. exfalso. assert (mgr_byHash m !! st_Hash st = Some x) by (apply (wf_hash _ Hwf); eauto). congruence.
  - intros s [Hs _]. congruence.
Qed.

Lemma upsert_refines (def : Definition_) (snapshot : SnapshotResult) (offset : string) (now : Z) (m m' : Manager) (st : State) :
  well_formed m -> handle_unused def now m ->
  UpsertSnapshotAtOffset def snapshot offset now m = (m', Ok st) ->
  st_Hash st = definition_hash def /\ st_Definition st = def /\ st_CurrentOffset st = offset /\ st_Changes st = [] /\
  st_Materialized st = materializedRows (snap_Schema snapshot) (snap_Rows snapshot) /\
  shapes_by_hash m' = <[definition_hash def := st]> (shapes_by_hash m).
Proof.
  intros Hwf Hu E. pose proof (wf_upsert def snapshot offset now m Hwf Hu) as Hwf'. rewrite E in Hwf'.
  unfold UpsertSnapshotAtOffset in E. destruct (mgr_byHash m !! definition_hash def) as [h|] eqn:Eh.
  - destruct (byHash_live _ _ _ Hwf Eh) as (s & Hl & Hs & Hm & Hh). rewrite Hm in E. cbn [default from_option id] in E.
    destruct (persistStateLocked _ m) as [m1 [e|]] eqn:Ep; [done|]. apply persist_same in Ep as (E1 & E2 & E3).
    injection E as <- <-. split_and!; try done.
    transitivity (<[st_Hash (replaced_state s def snapshot offset now) := replaced_state s def snapshot offset now]>
      (shapes_by_hash m)); [|by rewrite <- Hs].
    apply (shapes_by_hash_put h); [done|done|..].
    + intros x s'. apply live_at_frame; [|done].
      destruct (notify_same h (addRelationLocked (def_Relation def) h (put_hash (definition_hash def) h
        (put_state h (replaced_state s def snapshot offset now) (removeRelationLocked (def_Relation (st_Definition s)) h m1))))) as [He _].
      cbn [fst] in *. rewrite He. mgr_simpl. by rewrite removeRelation_byHandle, E1.
    + intros x s' Hl' He. exact (live_hash_unique x h s' s m Hwf Hl' Hl He).
    + intros s' [Hl' _]. simpl. congruence.
  - apply create_refines in E as [-> Hr]; try done. apply Hu, Eh.
Qed.

Lemma delete_refines (h : string) (now : Z) (m m' : Manager) (st : State) :
  well_formed m -> live_at h st m -> Delete h now m = (m', Ok true) ->
  shapes_by_hash m' = delete (st_Hash st) (shapes_by_hash m).
Proof.
  intros Hwf Hl E. assert (Hwf' : well_formed m').
  { replace m' with (Delete h now m).1 by (by rewrite E). apply wf_delete; [done|]. intros s Hs. destruct Hl. congruence. }
  unfold Delete in E. pose proof Hl as [Hm Hd]. rewrite Hm in E.
  destruct (persistStateLocked _ m) as [m1 [e|]] eqn:Ep; [done|]. apply persist_same in Ep as (E1 & E2 & E3).
  injection E as E.
  assert (HbH : mgr_byHandle m' = <[h := deleted_state st now]> (mgr_byHandle m)).
  { rewrite <- E. destruct (notify_same h (put_state h (deleted_state st now)
      (removeRelationLocked (def_Relation (st_Definition st)) h (delete_hash (st_Hash st) m1)))) as [He _].
    rewrite He. mgr_simpl. rewrite removeRelation_byHandle. mgr_simpl. by rewrite E1. }
  assert (Hlive : forall x s, live_at x s m' <-> live_at x s m /\ h <> x).
  { intros x s. unfold live_at. rewrite HbH, lookup_insert_Some. naive_solver congruence. }
  apply map_eq. intros hash. apply option_eq. intros s.
  rewrite lookup_delete_Some, !shapes_by_hash_lookup by done. setoid_rewrite Hlive. split.
  - intros (x & [Hx Hne] & <-). split; [|by eauto]. intros He. apply Hne. exact (live_hash_unique h x st s m Hwf Hl Hx He).
  - intros (Hne & x & Hx & <-). exists x. split; [|done]. split; [done|]. intros ->. destruct Hx. congruence.
Qed.

Lemma invalidate_refines (relation : Relation) (clock : nat -> Z) (m m' : Manager) (handles : list string) :
  well_formed m -> InvalidateByRelation relation clock m = (m', Ok handles) ->
  shapes_by_hash m' = filter (fun kv => ~ in_relation relation kv.2) (shapes_by_hash m).
Proof.
  intros Hwf E. pose proof (wf_invalidate_relation relation clock m Hwf) as Hwf'. rewrite E in Hwf'.
  apply invalidate_relation_spec in E as (_ & H2 & _); [|done].
  apply (shapes_by_hash_remove (related (relationKey relation) m) m m' (fun st => ~ in_relation relation st)); [done|done|exact H2|].
  intros h st Hl. rewrite (wf_related _ Hwf). unfold in_relation. split; [eauto|].
  intros Hn (s & [Hs _] & He). destruct Hl. congruence.
Qed.

Lemma install_refines {A} (h : string) (st updated : State) (notify : bool) (r r' : A) (m m' : Manager) :
  well_formed m -> live_at h st m -> same_identity st updated -> install h updated notify r m = (m', Ok r') ->
  r' = r /\ shapes_by_hash m' = <[st_Hash st := updated]> (shapes_by_hash m) /\
  mgr_byHandle m' = <[h := updated]> (mgr_byHandle m).
Proof.
  intros Hwf Hl Hi E. pose proof (wf_install h st updated notify r m Hwf Hl Hi) as Hwf'. rewrite E in Hwf'.
  destruct Hi as (H1 & H2 & H3 & _). unfold install in E.
  destruct (persistStateLocked _ m) as [m1 [e|]] eqn:Ep; [done|]. apply persist_same in Ep as (E1 & E2 & E3).
  injection E as E <-. split; [done|].
  assert (HbH : mgr_byHandle m' = <[h := updated]> (mgr_byHandle m)).
  { rewrite <- E. destruct notify; [|mgr_simpl; by rewrite E1].
    destruct (notify_same h (put_state h updated m1)) as [He _]. rewrite He. mgr_simpl. by rewrite E1. }
  split; [|done]. rewrite <- H2. apply (shapes_by_hash_put h); [done|done|..].
  - intros x s. apply live_at_frame; [done|]. destruct Hl. congruence.
  - intros x s Hx He. apply (live_hash_unique x h s st m); [done..|]. congruence.
  - intros s [Hs _]. destruct Hl. congruence.
Qed.

(** *** Failed saves *)

Lemma same_memory_refl (m : Manager) : same_memory m m.
Proof. done. Qed.

Lemma create_error (st : State) (m m' : Manager) (e : ManagerError) :
  0 <= mgr_generation m <= uint64_max -> create_state st m = (m', Err e) ->
  same_memory m' m /\ exists msg, e = ErrStore msg.
Proof.
  intros Hg. unfold create_state. destruct (persistStateLocked st _) as [m1 [x|]] eqn:Ep; [|done].
  apply persist_frame in Ep as ((E1 & E2 & E3) & E4 & E5 & E6). intros [= <- <-]. split; [|by eauto].
  unfold same_memory, same_indices. mgr_simpl. rewrite E1, E2, E3, E4, E5, E6. split_and!; try done.
  unfold wrapu64, uint64_max in *. rewrite Zminus_mod_idemp_l.
  replace (mgr_generation m + 1 - 1) with (mgr_generation m) by lia. apply Z.mod_small. lia.
Qed.

Lemma install_error {A} (h : string) (updated : State) (notify : bool) (r : A) (m m' : Manager) (e : ManagerError) :
  install h updated notify r m = (m', Err e) -> same_memory m' m /\ exists msg, e = ErrStore msg.
Proof.
  unfold install. destruct (persistStateLocked updated m) as [m1 [x|]] eqn:Ep; [|done].
  apply persist_frame in Ep. intros [= <- <-]. eauto.
Qed.

Lemma live_state_error (h : string) (m : Manager) (e : ManagerError) :
  live_state h m = Err e -> e = match mgr_byHandle m !! h with None => ErrShapeNotFound | Some _ => ErrShapeDeleted end.
Proof. unfold live_state. destruct (mgr_byHandle m !! h) as [s|]; [destruct (st_Deleted s)|]; congruence. Qed.

(** *** Listings *)

#[local] Instance handle_le_total : Total handle_le.
Proof. intros a b. apply String.le_total. Qed.

#[local] Instance handle_le_trans : Transitive handle_le.
Proof. intros a b c. unfold handle_le. apply transitivity. Qed.

Lemma sort_states_perm (l : list State) : sort_states l ≡ₚ l.
Proof. apply merge_sort_Permutation. Qed.

Lemma sort_states_sorted (l : list State) : StronglySorted String.le (map st_Handle (sort_states l)).
Proof. apply (StronglySorted_fmap st_Handle handle_le); [done|]. apply StronglySorted_merge_sort; apply _. Qed.

Lemma elem_of_active_states (m : Manager) (st : State) :
  well_formed m -> st ∈ ActiveStates m <-> live_at (st_Handle st) st m.
Proof.
  intros Hwf. unfold ActiveStates. rewrite sort_states_perm, list_elem_of_filter, list_elem_of_fmap. unfold is_active, live_at.
  split.
  - intros [Ha ([h s] & -> & Hx)]. apply elem_of_map_to_list in Hx. simpl in *.
    assert (st_Handle s = h) as -> by (by eapply wf_handle). split; [done|]. by apply negb_true_iff.
  - intros [Hx Hd]. rewrite Hd. split; [done|]. exists (st_Handle st, st). split; [done|]. by apply elem_of_map_to_list.
Qed.

Lemma NoDup_sort_active (l : list State) :
  NoDup (map st_Handle l) -> NoDup (map st_Handle (sort_states (filter (fun st => is_active st = true) l))).
Proof.
  intros Hl. change (map st_Handle) with (fmap st_Handle : list State -> list string).
  rewrite (sort_states_perm (filter (fun st => is_active st = true) l)).
  apply (sublist_NoDup _ _ Hl), fmap_sublist, sublist_filter.
Qed.

Lemma NoDup_active_states (m : Manager) : well_formed m -> NoDup (map st_Handle (ActiveStates m)).
Proof.
  intros Hwf. apply NoDup_sort_active.
  assert (He : map st_Handle (map_to_list (mgr_byHandle m)).*2 = (map_to_list (mgr_byHandle m)).*1).
  { assert (Hk : Forall (fun hs => st_Handle hs.2 = hs.1) (map_to_list (mgr_byHandle m))).
    { apply Forall_forall. intros [h s] Hs. apply elem_of_map_to_list in Hs. by eapply wf_handle. }
    induction Hk as [|hs l Hh _ IH]; [done|]. cbn. f_equal; [exact Hh|exact IH]. }
  rewrite He. apply NoDup_fst_map_to_list.
Qed.

Lemma NoDup_active_by_relation (relation : Relation) (m : Manager) :
  well_formed m -> NoDup (map st_Handle (ActiveByRelation relation m)).
Proof.
  intros Hwf. apply NoDup_sort_active. apply (sublist_NoDup _ _ (NoDup_elements (related (relationKey relation) m))).
  induction (elements (related (relationKey relation) m)) as [|h l IH]; [done|]. rewrite omap_cons_eq.
  destruct (mgr_byHandle m !! h) as [s|] eqn:E; [|by apply sublist_cons]. cbn [map].
  rewrite (wf_handle m Hwf h s E). by apply sublist_skip.
Qed.

Lemma elem_of_active_by_relation (relation : Relation) (m : Manager) (st : State) :
  well_formed m -> st ∈ ActiveByRelation relation m <-> live_at (st_Handle st) st m /\ in_relation relation st.
Proof.
  intros Hwf. unfold ActiveByRelation. rewrite sort_states_perm, list_elem_of_filter, list_elem_of_omap.
  setoid_rewrite elem_of_elements. unfold is_active. split.
  - intros [Ha (h & Hr & Hm)]. apply (wf_related _ Hwf) in Hr as (s & [Hs Hd] & He).
    assert (s = st) as -> by congruence. assert (st_Handle st = h) as -> by (by eapply wf_handle). done.
  - intros [[Hm Hd] Hr]. rewrite Hd. split; [done|]. exists (st_Handle st). split; [|done].
    apply (wf_related _ Hwf). exists st. done.
Qed.

(** *** Reading *)

Lemma readLocked_live (h offset : string) (st : State) (m : Manager) :
  live_at h st m ->
  readLocked h offset m =
    if negb (offset_ok offset) || (0 <? CompareOffsets offset (st_CurrentOffset st))
    then (st, [], Some ErrOffsetOutOfRange)
    else if CompareOffsets offset (st_CurrentOffset st) =? 0 then (st, [], None)
    else (st, filter (fun msg => CompareOffsets (msg_Offset msg) offset > 0) (st_Changes st), None).
Proof.
  intros [Hm Hd]. unfold readLocked, offset_ok. rewrite Hm, Hd. destruct (ParseOffset offset).2; simpl; [|done].
  destruct (0 <? _); [done|]. by destruct (_ =? 0); rewrite ?cloneMessages_id_map.
Qed.

End lemmas.

(** * Properties *)


Definition demo_snapshot : SnapshotResult :=
  mkSnapshot demo_schema [demo_row "1" "x" "old"; demo_row "2" "y" "gone"] None.

Definition demo_empty : Manager MemoryStore := mkManager NewMemoryStore ∅ ∅ ∅ 0 ∅ ∅.

Definition demo_manager : Manager MemoryStore := (UpsertSnapshot demo_def demo_snapshot 1700000000000000 demo_empty).1.



Lemma demo_manager_wf : well_formed demo_manager.
Proof. apply wf_upsert; [apply empty_well_formed|]. intros _. reflexivity. Qed.




(** Listings are complete and ordered: [ActiveStates] is exactly the live
    shapes and [ActiveByRelation] exactly those of the relation's key, each
    once, in the order of their handles. *)
Theorem active_listings {S} `{Store S} (m : Manager S) (relation : Relation) (st : State) :
  well_formed m ->
  (st ∈ ActiveStates m <-> LookupByHandle (st_Handle st) m = Some st) /\
  (st ∈ ActiveByRelation relation m <-> LookupByHandle (st_Handle st) m = Some st /\ in_relation relation st) /\
  StronglySorted String.le (map st_Handle (ActiveStates m)) /\ NoDup (map st_Handle (ActiveStates m)) /\
  StronglySorted String.le (map st_Handle (ActiveByRelation relation m)) /\ NoDup (map st_Handle (ActiveByRelation relation m)).
Proof.
  intros Hwf. rewrite elem_of_active_states, elem_of_active_by_relation, LookupByHandle_live by done.
  split_and!; [done|done|apply sort_states_sorted|by apply NoDup_active_states|apply sort_states_sorted|by apply NoDup_active_by_relation].
Qed.

Lemma active_listings_witness :
  zero_state ∈ ActiveStates demo_empty <-> LookupByHandle (st_Handle zero_state) demo_empty = Some zero_state.
Proof. apply (active_listings demo_empty zero_relation zero_state (empty_well_formed NewMemoryStore)). Defined.

(** A read is exact: from a live shape whose log does not run ahead of its
    offset, a well-formed offset that is not above the shape's returns exactly
    the logged messages above it, in log order, and any other offset is out of
    range. *)
Theorem read_returns_newer {S} `{Store S} (h offset : string) (st : State) (m : Manager S) :
  LookupByHandle h m = Some st ->
  Forall (fun msg => offset_le (msg_Offset msg) (st_CurrentOffset st)) (st_Changes st) ->
  Read h offset m =
    if offset_ok offset && (CompareOffsets offset (st_CurrentOffset st) <=? 0)
    then (st, newer offset (st_Changes st), None) else (st, [], Some ErrOffsetOutOfRange).
Proof.
  intros Hl%LookupByHandle_live Hlog. unfold Read. rewrite (readLocked_live h offset st m Hl).
  destruct (offset_ok offset); [|done]. cbn [negb orb andb].
  destruct (Z.ltb_spec 0 (CompareOffsets offset (st_CurrentOffset st))) as [Hc|Hc].
  { destruct (Z.leb_spec (CompareOffsets offset (st_CurrentOffset st)) 0); [lia|done]. }
  destruct (Z.leb_spec (CompareOffsets offset (st_CurrentOffset st)) 0); [|lia].
  destruct (Z.eqb_spec (CompareOffsets offset (st_CurrentOffset st)) 0) as [He|He].
  - apply CompareOffsets_zero in He. unfold newer.
    assert (Hn : filter (fun msg => offset_lt offset (msg_Offset msg)) (st_Changes st) = []); [|by rewrite Hn].
    induction Hlog as [|x l Hx _ IH]; [done|]. rewrite filter_cons, decide_False; [done|].
    unfold offset_le, offset_lt in *. by rewrite He.
  - unfold newer. f_equal. f_equal. apply list_filter_iff. intros x. apply CompareOffsets_gt.
Qed.

Definition demo_message (offset : string) : Message :=
  mkMessage (operation_headers "insert" (def_Relation demo_def)) "" (demo_row "1" "x" "new") ∅ offset "k1".

Definition demo_state : State :=
  mkState "h" "hash" demo_def demo_schema [] [demo_message "0_1"; demo_message "0_2"] ∅ "0_2" 0 1 false.

Definition demo_reader : Manager MemoryStore := mkManager NewMemoryStore {["h" := demo_state]} ∅ ∅ 1 ∅ ∅.

Lemma read_returns_newer_witness :
  Read "h" "0_1" demo_reader = (demo_state, [demo_message "0_2"], None).
Proof.
  etransitivity; [apply (read_returns_newer "h" "0_1" demo_state demo_reader)|vm_compute; reflexivity].
  - vm_compute. reflexivity.
  - repeat constructor; apply (bool_decide_unpack _); vm_compute; exact I.
Defined.

(** A deletion that names a handle whose shape is already deleted breaks the
    index of the shape that replaced it: the new shape stays live and is
    refreshed, and its definition no longer finds it. *)
Definition stale_delete_run : Manager MemoryStore :=
  let '(m, r1) := UpsertSnapshot demo_def demo_snapshot 1000000 demo_empty in
  let old := match r1 with Ok st => st_Handle st | Err _ => "" end in
  let m := (Delete old 2000000 m).1 in
  let m := (UpsertSnapshot demo_def demo_snapshot 3000000 m).1 in
  (Delete old 4000000 m).1.

Example stale_delete_orphans_shape :
  map st_Deleted (ActiveByRelation (def_Relation demo_def) stale_delete_run) = [false] /\
  LookupByDefinition demo_def stale_delete_run = None.
Proof. vm_compute. split; reflexivity. Qed.
