(* ===== verification/ShapeLog.v ===== *)
(** The change log of a shape: what refreshes append and what readers get.

    A state [grows] when its log is extended by messages above its offset that
    rebuild its new rows.  Every successful refresh of
    [src/internal/shapes/manager.go] grows its shape, growth composes, and a
    reader that starts from a state's offset receives exactly the messages
    that take it to the current rows. *)

From Stdlib Require Import Ascii String ZArith NArith Lia.
From S2P Require Import Prelude GoValue Offset ShapeTypes Diff Storage Persist Manager.

#[local] Set Warnings "-clear-no-such-hyp".

(** * Definitions *)

(** The log of a state is in order and does not run ahead of its offset. *)
Definition log_ordered (st : State) : Prop :=
  StronglySorted (fun a b => offset_lt (msg_Offset a) (msg_Offset b)) (st_Changes st) /\
  Forall (fun m => offset_le (msg_Offset m) (st_CurrentOffset st)) (st_Changes st).

(** [messages] extend the log of [st] to that of [st']: they are in order,
    above the old offset and not above the new one, and replayed on the old
    rows they give the new ones up to the spelling of booleans. *)
Record extends (schema : Schema) (st st' : State) (messages : list Message) : Prop := {
  ext_changes : st_Changes st' = st_Changes st ++ messages;
  ext_above : Forall (fun m => offset_lt (st_CurrentOffset st) (msg_Offset m)) messages;
  ext_below : Forall (fun m => offset_le (msg_Offset m) (st_CurrentOffset st')) messages;
  ext_sorted : StronglySorted (fun a b => offset_lt (msg_Offset a) (msg_Offset b)) messages;
  ext_offset : offset_le (st_CurrentOffset st) (st_CurrentOffset st');
  ext_identity : same_identity st st';
  ext_rows : wire_equiv schema
    (replay (def_Replica (st_Definition st)) (st_Materialized st) messages) (st_Materialized st')
}.

Definition grows (schema : Schema) (st st' : State) : Prop := exists messages, extends schema st st' messages.

(** The inputs of a full refresh fit the shape: the rows keep their columns and
    the batch starts above the shape's offset. *)
Definition refresh_ready (schema : Schema) (st : State) (snapshot : SnapshotResult) (md : ChangeMetadata) : Prop :=
  let rows := materializedRows (snap_Schema snapshot) (snap_Rows snapshot) in
  snap_Schema snapshot = schema /\ same_columns (st_Materialized st) rows /\
  batch_in_range (st_CurrentOffset st) md (length (refresh_messages st snapshot rows md)) = true.

(** The same for a targeted refresh. *)
Definition refresh_keys_ready (schema : Schema) (st : State) (snapshot : SnapshotResult) (keyRows : list Row)
    (md : ChangeMetadata) : Prop :=
  let targeted := targetedKeySet (snap_Schema snapshot) keyRows (snap_Rows snapshot) in
  let rows := targeted_rows st snapshot targeted in
  snap_Schema snapshot = schema /\ same_columns (st_Materialized st) rows /\
  batch_in_range (st_CurrentOffset st) md (length (targeted_messages st snapshot rows targeted md)) = true.

(** A successful refresh of the shape at [h]. *)
Inductive refresh_step {S} `{Store S} (schema : Schema) (h : string) (m m' : Manager S) : Prop :=
| refresh_full snapshot md now st u l :
    live_at h st m -> refresh_ready schema st snapshot md ->
    RefreshWithMetadata h snapshot md now m = (m', Ok (u, l)) -> refresh_step schema h m m'
| refresh_targeted snapshot keyRows md now st u l :
    live_at h st m -> refresh_keys_ready schema st snapshot keyRows md ->
    RefreshKeysWithMetadata h snapshot keyRows md now m = (m', Ok (u, l)) -> refresh_step schema h m m'.

(** * Lemmas *)

#[export] Instance same_identity_preorder : PreOrder same_identity.
Proof.
  split; unfold same_identity; [done|]. intros ??? (?&?&?&?&?&?) (?&?&?&?&?&?). split_and!; congruence.
Qed.

Lemma StronglySorted_app {A} (R : A -> A -> Prop) (l1 l2 : list A) :
  StronglySorted R l1 -> StronglySorted R l2 -> (forall x y, x ∈ l1 -> y ∈ l2 -> R x y) ->
  StronglySorted R (l1 ++ l2).
Proof.
  intros H1 H2 Hr. induction H1 as [|x l1 H1 IH Hx]; [done|]. simpl. constructor.
  - apply IH. intros y z Hy. apply Hr. by apply list_elem_of_further.
  - apply Forall_app. split; [done|]. apply Forall_forall. intros z Hz. apply Hr; [apply list_elem_of_here|done].
Qed.

Lemma extends_trans (schema : Schema) (s1 s2 s3 : State) (l1 l2 : list Message) :
  extends schema s1 s2 l1 -> extends schema s2 s3 l2 -> extends schema s1 s3 (l1 ++ l2).
Proof.
  intros [A1 A2 A3 A4 A5 A6 A7] [B1 B2 B3 B4 B5 B6 B7].
  assert (Hb : Forall (fun m => offset_lt (st_CurrentOffset s1) (msg_Offset m)) l2)
    by (eapply Forall_impl; [exact B2|]; intros m Hm; by eapply offset_le_lt_trans).
  split.
  - by rewrite B1, A1, app_assoc.
  - apply Forall_app. done.
  - apply Forall_app. split; [|done]. eapply Forall_impl; [exact A3|]. intros m Hm. exact (offset_le_trans _ _ _ Hm B5).
  - apply StronglySorted_app; [done|done|]. intros x y Hx Hy. rewrite Forall_forall in A3, B2.
    eapply offset_le_lt_trans; [by apply A3|by apply B2].
  - exact (offset_le_trans _ _ _ A5 B5).
  - by transitivity s2.
  - rewrite replay_app, A7. destruct A6 as (_ & _ & _ & <- & _). exact B7.
Qed.

Lemma extends_refl (schema : Schema) (st : State) : extends schema st st [].
Proof. split; try done; [by rewrite app_nil_r|constructor|apply offset_le_refl]. Qed.

#[export] Instance grows_preorder (schema : Schema) : PreOrder (grows schema).
Proof.
  split.
  - intros st. exists []. apply extends_refl.
  - intros s1 s2 s3 [l1 H1] [l2 H2]. exists (l1 ++ l2). by eapply extends_trans.
Qed.

(** Growth keeps the log in order. *)
Lemma log_ordered_extends (schema : Schema) (st st' : State) (l : list Message) :
  log_ordered st -> extends schema st st' l -> log_ordered st'.
Proof.
  intros [Hs Hb] [A1 A2 A3 A4 A5 A6 A7]. unfold log_ordered. rewrite A1. split.
  - apply StronglySorted_app; [done|done|]. intros x y Hx Hy. rewrite Forall_forall in Hb, A2.
    eapply offset_le_lt_trans; [by apply Hb|by apply A2].
  - apply Forall_app. split; [|done]. eapply Forall_impl; [exact Hb|]. intros m Hm. exact (offset_le_trans _ _ _ Hm A5).
Qed.

(** The messages above the old offset are exactly the new ones. *)
Lemma newer_extends (schema : Schema) (st st' : State) (l : list Message) :
  log_ordered st -> extends schema st st' l -> newer (st_CurrentOffset st) (st_Changes st') = l.
Proof.
  intros [_ Hb] [A1 A2 _ _ _ _ _]. unfold newer. rewrite A1, filter_app, (filter_all _ l) by done.
  assert (Hn : filter (fun m => offset_lt (st_CurrentOffset st) (msg_Offset m)) (st_Changes st) = []); [|by rewrite Hn].
  clear A1. induction Hb as [|x k Hx _ IH]; [done|]. by rewrite filter_cons_False by exact Hx.
Qed.

(** A batch of fresh messages with the right effect extends the log. *)
Lemma extends_batch (schema : Schema) (st u : State) (rows : gmap string Row) (now : Z) (l out : list Message)
    (md : ChangeMetadata) :
  Forall (fun m => msg_Offset m = "") l -> batch_in_range (st_CurrentOffset st) md (length l) = true ->
  wire_equiv schema (replay (def_Replica (st_Definition st)) (st_Materialized st) l) rows ->
  refreshed_state st schema rows now l md = (u, out) -> extends schema st u out /\ st_Materialized u = rows.
Proof.
  intros Hl Hr Hw E. pose proof (refreshed_state_identity st schema rows now l md) as Hi. rewrite E in Hi.
  unfold refreshed_state in E. destruct l as [|m0 l0] eqn:El.
  { injection E as <- <-. split; [|done]. split; try done; [by rewrite app_nil_r|constructor|apply offset_le_refl]. }
  rewrite <- El in *. destruct (applyChangeOffsets _ _ _) as [msgs o] eqn:Ea. injection E as <- <-. split; [|done].
  apply applyChangeOffsets_spec in Ea as (He & Ho & Hcur); [|done].
  assert (Hlen : length msgs = length l) by by eapply Forall2_length.
  assert (Hcur' : o = batch_offset (st_CurrentOffset st) md (pred (length l))) by (by rewrite Hcur, El).
  assert (Hpos : (0 < length l)%nat) by (rewrite El; simpl; lia).
  assert (Hin : forall m, m ∈ msgs -> exists i, (i < length l)%nat /\ msg_Offset m = batch_offset (st_CurrentOffset st) md i).
  { intros m [i Hi']%list_elem_of_lookup_1. exists i. split; [|by apply Ho]. rewrite <- Hlen. by eapply lookup_lt_Some. }
  assert (Hle : forall i, (i < length l)%nat -> offset_le (batch_offset (st_CurrentOffset st) md i) o).
  { intros i Hi'. rewrite Hcur'. destruct (decide (i = pred (length l))) as [->|Hne]; [apply offset_le_refl|].
    apply offset_lt_le. eapply batch_offset_ok; [done|lia|lia]. }
  split; try done.
  - cbn [st_Changes]. f_equal. apply cloneMessages_id_map.
  - apply Forall_forall. intros m Hm. destruct (Hin m Hm) as (i & Hi' & ->). by eapply batch_offset_ok.
  - apply Forall_forall. intros m Hm. destruct (Hin m Hm) as (i & Hi' & ->). by apply Hle.
  - apply StronglySorted_lookup_2. intros i j a b Hij Ha Hb. rewrite (Ho _ _ Ha), (Ho _ _ Hb).
    apply lookup_lt_Some in Ha, Hb. eapply batch_offset_ok; [done|lia|lia].
  - cbn [st_CurrentOffset]. rewrite Hcur'. apply offset_lt_le. eapply batch_offset_ok; [done|lia].
  - cbn [st_Materialized]. by rewrite (replay_same_effect _ _ _ _ He).
Qed.

Lemma lookup_targeted_rows (st : State) (snapshot : SnapshotResult) (K : gset string) (k : string) :
  targeted_rows st snapshot K !! k =
  if decide (k ∈ K) then materializedRows (snap_Schema snapshot) (snap_Rows snapshot) !! k
  else st_Materialized st !! k.
Proof.
  unfold targeted_rows. rewrite cloneMaterialized_id, lookup_union, lookup_fmap.
  rewrite (lookup_filter_key (fun x => x ∈ K) k), (lookup_filter_key (fun x => x ∉ K) k).
  destruct (decide (k ∈ K)) as [Hk|Hk].
  - rewrite decide_False by tauto. destruct (materializedRows _ _ !! k); simpl; by rewrite ?cloneRow_id.
  - rewrite decide_True by done. simpl. by destruct (st_Materialized st !! k).
Qed.

(** A diff of the targeted keys, replayed on all the rows, gives all the new
    rows when the other keys did not change. *)
Lemma replay_targeted (def : Definition_) (schema : Schema) (previous current : gmap string Row) (K : gset string)
    (r : Relation) :
  same_columns previous current -> (forall k, k ∉ K -> current !! k = previous !! k) ->
  replay (def_Replica def) previous
    (diffRows def schema (subsetRows previous K) (subsetRows current K) r) = current.
Proof.
  intros Hc Hout. rewrite !subsetRows_filter.
  assert (Hlook : forall (v : gmap string Row) k, filter (fun kr => kr.1 ∈ K) v !! k = if decide (k ∈ K) then v !! k else None).
  { intros v k. apply (lookup_filter_key (fun x => x ∈ K)). }
  assert (Hc' : same_columns (filter (fun kr => kr.1 ∈ K) previous) (filter (fun kr => kr.1 ∈ K) current)).
  { intros k r1 r2. rewrite !Hlook. case_decide; [apply Hc|done]. }
  apply map_eq. intros k. unfold diffRows.
  rewrite replay_lookup_omap; [|intros x m Hm; by apply diffKey_key in Hm as [? _]|apply NoDup_diff_keys].
  destruct (decide (k ∈ K)) as [Hk|Hk].
  - assert (Hp : filter (fun kr => kr.1 ∈ K) previous !! k = previous !! k) by (by rewrite Hlook, decide_True).
    assert (Hq : filter (fun kr => kr.1 ∈ K) current !! k = current !! k) by (by rewrite Hlook, decide_True).
    case_decide as Hd.
    + destruct (diffKey _ _ _ _ _ k) as [m|] eqn:E.
      * rewrite <- Hp, <- Hq. by eapply diffKey_effect.
      * apply diffKey_None in E; [|done]. congruence.
    + rewrite elem_of_diff_keys, Hp, Hq in Hd. destruct (previous !! k), (current !! k); try done; naive_solver.
  - rewrite decide_False; [by rewrite Hout|]. rewrite elem_of_diff_keys, !Hlook, !decide_False by done.
    by intros [[? ?]|[? ?]].
Qed.

Lemma refresh_messages_fresh (st : State) (snapshot : SnapshotResult) (rows : gmap string Row) (md : ChangeMetadata) :
  Forall (fun m => msg_Offset m = "") (refresh_messages st snapshot rows md).
Proof.
  unfold refresh_messages. destruct (DependentRefresh md); [apply decorate_offsets|]; apply diffRows_fresh.
Qed.

Lemma replay_refresh_messages (st : State) (snapshot : SnapshotResult) (rows : gmap string Row) (md : ChangeMetadata) :
  same_columns (st_Materialized st) rows ->
  replay (def_Replica (st_Definition st)) (st_Materialized st) (refresh_messages st snapshot rows md) = rows.
Proof.
  intros Hc. unfold refresh_messages. destruct (DependentRefresh md); [|by apply replay_diff].
  rewrite replay_decorate by apply diffRows_fresh. by apply replay_diff.
Qed.

Lemma targeted_messages_fresh (st : State) (snapshot : SnapshotResult) (rows : gmap string Row) (K : gset string)
    (md : ChangeMetadata) :
  Forall (fun m => msg_Offset m = "") (targeted_messages st snapshot rows K md).
Proof.
  unfold targeted_messages. destruct (0 <? CommitLSN md); [apply wire_offsets|]; apply diffRows_fresh.
Qed.

Lemma replay_targeted_messages (st : State) (snapshot : SnapshotResult) (rows : gmap string Row) (K : gset string)
    (md : ChangeMetadata) :
  same_columns (st_Materialized st) rows -> (forall k, k ∉ K -> rows !! k = st_Materialized st !! k) ->
  wire_equiv (snap_Schema snapshot)
    (replay (def_Replica (st_Definition st)) (st_Materialized st) (targeted_messages st snapshot rows K md)) rows.
Proof.
  intros Hc Hout. unfold targeted_messages. destruct (0 <? CommitLSN md).
  - by rewrite replay_live, replay_targeted.
  - by rewrite replay_targeted.
Qed.

Lemma install_live {S} `{Store S} {A} (h : string) (st u : State) (notify : bool) (r r' : A) (m m' : Manager S) :
  live_at h st m -> same_identity st u -> install h u notify r m = (m', Ok r') ->
  r' = r /\ live_at h u m' /\ (forall x s, x <> h -> live_at x s m' <-> live_at x s m).
Proof.
  intros [Hm Hd] (H1 & H2 & H3 & _) E. unfold install in E.
  destruct (persistStateLocked _ m) as [m1 [e|]] eqn:Ep; [done|]. apply persist_same in Ep as (E1 & E2 & E3).
  injection E as E <-. split; [done|].
  assert (HbH : mgr_byHandle m' = <[h := u]> (mgr_byHandle m)).
  { rewrite <- E. destruct notify; [|cbn; by rewrite E1].
    destruct (notify_same h (put_state h u m1)) as [He _]. rewrite He. cbn. by rewrite E1. }
  unfold live_at. rewrite HbH, lookup_insert_eq. split; [split; [done|congruence]|].
  intros x s Hne. by rewrite lookup_insert_ne.
Qed.

(** A refresh extends the log of its shape, and touches no other shape. *)
Lemma refresh_step_extends {S} `{Store S} (schema : Schema) (h : string) (m m' : Manager S) :
  refresh_step schema h m m' ->
  (exists st u l, live_at h st m /\ live_at h u m' /\ extends schema st u l) /\
  (forall x s, x <> h -> live_at x s m' <-> live_at x s m).
Proof.
  intros [snapshot md now st u l Hl (<- & Hc & Hr) E|snapshot keyRows md now st u l Hl (<- & Hc & Hr) E].
  - unfold RefreshWithMetadata in E. rewrite (proj2 (live_state_Ok h m st) Hl) in E.
    destruct (refreshed_state _ _ _ _ _ _) as [u' out] eqn:Er.
    pose proof Er as Hx. eapply extends_batch in Hx as [Hx _];
      [|apply refresh_messages_fresh|exact Hr|by rewrite replay_refresh_messages].
    apply (install_live h st u') in E as (_ & Hu & Ho); [|done|by eapply ext_identity]. eauto 8.
  - unfold RefreshKeysWithMetadata in E. rewrite (proj2 (live_state_Ok h m st) Hl) in E. case_decide.
    { injection E as <- <- <-. split; [|done]. exists st, st, []. split_and!; [done|done|apply extends_refl]. }
    destruct (refreshed_state _ _ _ _ _ _) as [u' out] eqn:Er.
    pose proof Er as Hx. eapply extends_batch in Hx as [Hx _];
      [|apply targeted_messages_fresh|exact Hr|].
    2: { apply replay_targeted_messages; [done|]. intros k Hk. by rewrite lookup_targeted_rows, decide_False. }
    apply (install_live h st u') in E as (_ & Hu & Ho); [|done|by eapply ext_identity]. eauto 8.
Qed.

Lemma live_at_fun {S} `{Store S} (h : string) (s1 s2 : State) (m : Manager S) : live_at h s1 m -> live_at h s2 m -> s1 = s2.
Proof. intros [H1 _] [H2 _]. congruence. Qed.

Lemma refresh_steps_extend {S} `{Store S} (schema : Schema) (h : string) (st : State) (m m' : Manager S) :
  live_at h st m -> rtc (refresh_step schema h) m m' -> exists u, live_at h u m' /\ grows schema st u.
Proof.
  intros Hl Hr. revert st Hl. induction Hr as [m|m m1 m' Hs _ IH]; intros st Hl; [by exists st|].
  apply refresh_step_extends in Hs as [(st' & u & l & Hl' & Hu & Hx) _].
  rewrite (live_at_fun h st' st m Hl' Hl) in Hx. destruct (IH u Hu) as (v & Hv & Hg).
  exists v. split; [done|]. transitivity u; [by exists l|done].
Qed.

(** ** Snapshots *)

Lemma replay_inserts (replica : string) (schema : Schema) (rows : list Row) (l : list Message) (view : gmap string Row) :
  Forall2 (fun m row => header_string m "operation" = "insert" /\ msg_Value m = row /\
    msg_InternalKey m = PrimaryKeySignature schema row) l rows ->
  replay replica view l = fold_left (fun v row => <[PrimaryKeySignature schema row := cloneRow row]> v) rows view.
Proof.
  intros Hl. revert view. induction Hl as [|m row l rows (Ho & Hv & Hk) _ IH]; intros view; [done|].
  unfold replay in *. cbn [fold_left]. rewrite IH. f_equal. unfold client_apply. rewrite Hk.
  apply map_eq. intros k. rewrite lookup_partial_alter, lookup_insert. case_decide; [|done].
  by rewrite client_row_insert, Hv, cloneRow_id.
Qed.

Lemma addDependentTag_fields (h : string) (m : Message) :
  msg_Value (addDependentTag h m) = msg_Value m /\ msg_InternalKey (addDependentTag h m) = msg_InternalKey m.
Proof. unfold addDependentTag. by case_decide. Qed.

Lemma replay_snapshot (replica h : string) (def : Definition_) (snapshot : SnapshotResult) :
  def_Log def <> "changes_only" ->
  replay replica ∅ (snapshot_messages h def snapshot) = materializedRows (snap_Schema snapshot) (snap_Rows snapshot).
Proof.
  intros Hlog. unfold materializedRows, snapshot_messages, decorateDependentSnapshotMessages, buildSnapshotMessages.
  rewrite decide_False by done. apply replay_inserts.
  destruct (negb (definitionHasDependencyKeyword def)).
  - induction (snap_Rows snapshot) as [|row rows IH]; constructor; [|exact IH].
    unfold snapshotMessage. rewrite header_operation. cbn [msg_Value msg_InternalKey]. by rewrite cloneRow_id.
  - induction (snap_Rows snapshot) as [|row rows IH]; constructor; [|exact IH].
    rewrite addDependentTag_operation. destruct (addDependentTag_fields h (snapshotMessage def (snap_Schema snapshot) row)) as [-> ->].
    unfold snapshotMessage. rewrite header_operation. cbn [msg_Value msg_InternalKey]. by rewrite cloneRow_id.
Qed.

(** A reader at the offset of a past state reads what was appended since. *)
Lemma extends_read {S} `{Store S} (schema : Schema) (h : string) (st u : State) (l : list Message) (m : Manager S) :
  live_at h u m -> log_ordered st -> offset_ok (st_CurrentOffset st) = true -> extends schema st u l ->
  readLocked h (st_CurrentOffset st) m = (u, l, None).
Proof.
  intros Hu Ho Hok Hx. pose proof (log_ordered_extends _ _ _ _ Ho Hx) as [_ Hb].
  rewrite (readLocked_live h _ u m Hu), Hok. cbn [negb orb].
  destruct (Z.ltb_spec 0 (CompareOffsets (st_CurrentOffset st) (st_CurrentOffset u))) as [Hc|Hc].
  { exfalso. assert (Hg : CompareOffsets (st_CurrentOffset st) (st_CurrentOffset u) > 0) by lia.
    apply CompareOffsets_gt in Hg. by apply (ext_offset _ _ _ _ Hx). }
  assert (Hn : newer (st_CurrentOffset st) (st_Changes u) = l) by by eapply newer_extends.
  destruct (Z.eqb_spec (CompareOffsets (st_CurrentOffset st) (st_CurrentOffset u)) 0) as [He|He].
  - apply CompareOffsets_zero in He. assert (Hnil : l = []); [|by rewrite Hnil].
    pose proof (ext_above _ _ _ _ Hx) as Ha. pose proof (ext_below _ _ _ _ Hx) as Hbl.
    destruct l as [|x l]; [done|]. exfalso. inversion_clear Ha as [|?? Hx1 _]. inversion_clear Hbl as [|?? Hx2 _].
    apply Hx2. unfold offset_lt in *. by rewrite <- He.
  - rewrite <- Hn. unfold newer. f_equal. f_equal. apply list_filter_iff. intros x. apply CompareOffsets_gt.
Qed.

Lemma catch_up_read {S} `{Store S} (schema : Schema) (h : string) (st : State) (m m' : Manager S) :
  live_at h st m -> log_ordered st -> offset_ok (st_CurrentOffset st) = true ->
  rtc (refresh_step schema h) m m' ->
  exists u l, Read h (st_CurrentOffset st) m' = (u, l, None) /\ LookupByHandle h m' = Some u /\
    wire_equiv schema (replay (def_Replica (st_Definition st)) (st_Materialized st) l) (st_Materialized u).
Proof.
  intros Hl Ho Hok Hr. destruct (refresh_steps_extend schema h st m m' Hl Hr) as (u & Hu & l & Hx).
  exists u, l. split; [by eapply extends_read|]. split; [by apply LookupByHandle_live|by apply Hx].
Qed.

(** A successful upsert installs the snapshot's state. *)
Lemma upsert_installs {S} `{Store S} (def : Definition_) (snapshot : SnapshotResult) (offset : string) (now : Z) (m m' : Manager S) (st : State) :
  well_formed m -> handle_unused def now m -> UpsertSnapshotAtOffset def snapshot offset now m = (m', Ok st) ->
  well_formed m' /\ live_at (st_Handle st) st m' /\ st_Schema st = snap_Schema snapshot /\
  st_Snapshot st = snapshot_messages (st_Handle st) def snapshot.
Proof.
  intros Hwf Hu E. destruct (upsert_refines def snapshot offset now m m' st Hwf Hu E) as (Hh & _ & _ & _ & _ & Hs).
  assert (Hwf1 : well_formed m') by (replace m' with (UpsertSnapshotAtOffset def snapshot offset now m).1 by (by rewrite E); by apply wf_upsert).
  split; [done|]. split.
  { assert (Hx : shapes_by_hash m' !! definition_hash def = Some st) by (by rewrite Hs, lookup_insert_eq).
    apply shapes_by_hash_lookup in Hx as (h & Hl & _); [|done].
    assert (st_Handle st = h) as -> by (eapply wf_handle; [exact Hwf1|by apply Hl]). done. }
  unfold UpsertSnapshotAtOffset, create_state in E. destruct (mgr_byHash m !! _) as [h|]; cbn zeta in E;
    destruct (persistStateLocked _ _) as [m1 [e|]]; try done; injection E as _ <-; (split; [apply cloneSchema_id|reflexivity]).
Qed.

(** * Properties *)


Definition demo_refresh := RefreshWithMetadata "h" demo_snapshot zero_change_metadata 5 demo_reader.

Lemma demo_log_ordered : log_ordered demo_state.
Proof. split; repeat constructor; apply (bool_decide_unpack _); vm_compute; exact I. Qed.

Lemma demo_refresh_step : refresh_step demo_schema "h" demo_reader demo_refresh.1.
Proof.
  destruct demo_refresh as [m' [e|[u l]]] eqn:E; [vm_compute in E; discriminate E|].
  apply (refresh_full demo_schema "h" demo_reader m' demo_snapshot zero_change_metadata 5 demo_state u l); [| |exact E].
  - split; reflexivity.
  - split; [reflexivity|]. split; [|vm_compute; reflexivity]. intros k r1 r2 Hr. discriminate Hr.
Qed.


(** A reader catches up: a client that holds the rows of a shape at some
    offset and reads from that offset after any number of refreshes gets
    messages, and replaying them on its rows gives the shape's rows at the
    time of the read, up to the spelling of booleans. *)
Theorem reader_catches_up {S} `{Store S} (schema : Schema) (h : string) (st : State) (m m' : Manager S) :
  LookupByHandle h m = Some st -> log_ordered st -> offset_ok (st_CurrentOffset st) = true ->
  rtc (refresh_step schema h) m m' ->
  exists u l, Read h (st_CurrentOffset st) m' = (u, l, None) /\ LookupByHandle h m' = Some u /\
    wire_equiv schema (replay (def_Replica (st_Definition st)) (st_Materialized st) l) (st_Materialized u).
Proof. intros Hl%LookupByHandle_live. by apply catch_up_read. Qed.

Lemma reader_catches_up_witness :
  exists u l, Read "h" "0_2" demo_refresh.1 = (u, l, None) /\
    wire_equiv demo_schema (replay "" ∅ l) (st_Materialized u).
Proof.
  destruct (reader_catches_up demo_schema "h" demo_state demo_reader demo_refresh.1) as (u & l & Hr & _ & Hw).
  - reflexivity.
  - exact demo_log_ordered.
  - reflexivity.
  - apply rtc_once. exact demo_refresh_step.
  - exists u, l. split; [exact Hr|exact Hw].
Defined.



(** ** Behaviours at the edge of these theorems *)

(** Two targeted refreshes of one shape with one commit position, as two
    partitions of its table produce them, hand out the same offsets: a client
    that has read the first batch is told there is nothing newer. *)
Definition demo_commit : ChangeMetadata := mkChangeMetadata (mkRelation "public" "items_1") 77 5 false.

Definition same_commit_run : Manager MemoryStore :=
  let refresh a m :=
    (RefreshKeysWithMetadata "h" (mkSnapshot demo_schema [demo_row a "x" "new"] None) [demo_row a "x" "new"]
      demo_commit 5 m).1 in
  refresh "2" (refresh "1" demo_reader).

Example same_commit_twice_repeats_offsets :
  option_map (fun st => (map msg_Offset (st_Changes st), st_CurrentOffset st, size (st_Materialized st)))
    (LookupByHandle "h" same_commit_run) = Some (["0_1"; "0_2"; "77_0"; "77_0"], "77_0", 2%nat) /\
  (Read "h" "77_0" same_commit_run).1.2 = [].
Proof. vm_compute. split; reflexivity. Qed.

(** A second initial request for a shape empties its log and sets its offset
    back without changing the handle: a client that was at a later offset is
    out of range, and one still at the first offset misses the changes. *)
Definition second_request_run : Manager MemoryStore * string :=
  let '(m, r) := UpsertSnapshot demo_def demo_snapshot 1000000 demo_empty in
  let h := match r with Ok st => st_Handle st | Err _ => "" end in
  let m := (Refresh h (mkSnapshot demo_schema [demo_row "3" "z" "fresh"] None) 2000000 m).1 in
  ((UpsertSnapshot demo_def (mkSnapshot demo_schema [demo_row "3" "z" "fresh"] None) 3000000 m).1, h).

Example second_request_resets_log :
  let '(m, h) := second_request_run in
  (Read h "0_3" m).2 = Some ErrOffsetOutOfRange /\ (Read h "0_0" m).1.2 = [] /\ (Read h "0_0" m).2 = None.
Proof. vm_compute. split; [|split]; reflexivity. Qed.
