(* ===== verification/Waiting.v ===== *)
(** Waiting for changes: the interleaving of [WaitForChange] calls with the
    operations of the manager, in [src/internal/shapes/manager.go].

    A call checks once without the lock, checks again and registers a channel
    under the lock, then blocks until the channel is closed or its context
    ends.  Every call makes one channel, so a call and its channel share a
    number.  Any operation may run between two steps of a call. *)

From Stdlib Require Import Ascii String ZArith NArith Lia.
From S2P Require Import Prelude GoValue Offset ShapeTypes Diff Storage Persist Manager.

#[local] Set Warnings "-clear-no-such-hyp".

(** * Definitions *)

Definition outcome : Type := State * list Message * option ManagerError.

(** Where a call is. *)
Inductive wait_pc : Type :=
| AtCheck
| AtRegister
| AtSelect
| AtWake
| Finished (o : outcome).

Record wait_call : Type := mkCall {
  call_handle : string;
  call_offset : string;
  call_pc : wait_pc
}.

Definition set_pc (c : wait_call) (pc : wait_pc) : wait_call := mkCall (call_handle c) (call_offset c) pc.

Section waiting.
Context {S : Type} {store_ops : Store S}.

Record system : Type := mkSystem {
  sys_mgr : Manager S;
  sys_calls : gmap nat wait_call
}.

Definition set_call (n : nat) (c : wait_call) (pc : wait_pc) (calls : gmap nat wait_call) : gmap nat wait_call :=
  <[n := set_pc c pc]> calls.

Inductive sstep : system -> system -> Prop :=
| sys_operation m m' calls : ostep m m' -> sstep (mkSystem m calls) (mkSystem m' calls)
| sys_call m calls n h offset :
    calls !! n = None -> sstep (mkSystem m calls) (mkSystem m (<[n := mkCall h offset AtCheck]> calls))
| sys_check m calls n c :
    calls !! n = Some c -> call_pc c = AtCheck ->
    sstep (mkSystem m calls)
      (mkSystem m (set_call n c
        (match wait_check (call_handle c) (call_offset c) m with Some o => Finished o | None => AtRegister end) calls))
| sys_register m calls n c m' r :
    calls !! n = Some c -> call_pc c = AtRegister ->
    wait_register (call_handle c) (call_offset c) n m = (m', r) ->
    sstep (mkSystem m calls)
      (mkSystem m' (set_call n c (match r with Some o => Finished o | None => AtSelect end) calls))
| sys_wake m calls n c :
    calls !! n = Some c -> call_pc c = AtSelect -> n ∈ mgr_closed m ->
    sstep (mkSystem m calls) (mkSystem m (set_call n c AtWake calls))
| sys_read m calls n c :
    calls !! n = Some c -> call_pc c = AtWake ->
    sstep (mkSystem m calls)
      (mkSystem m (set_call n c (Finished (Read (call_handle c) (call_offset c) m)) calls))
| sys_cancel m calls n c :
    calls !! n = Some c -> call_pc c = AtSelect ->
    sstep (mkSystem m calls)
      (mkSystem (removeWaiter (call_handle c) n m)
        (set_call n c (Finished (zero_state, [], Some ErrContext)) calls)).

Definition waiting (h : string) (m : Manager S) : list nat := default [] (mgr_waiters m !! h).

(** What an operation owes the waiters: a handle's waiters are either all
    released, or all kept with still nothing to return. *)
Record notifies (m m' : Manager S) : Prop := {
  ntf_handle h :
    (waiting h m' = waiting h m /\
     forall offset, wait_check h offset m = None -> wait_check h offset m' = None) \/
    (waiting h m' = [] /\ forall n, n ∈ waiting h m -> n ∈ mgr_closed m');
  ntf_closed n : n ∈ mgr_closed m' <-> n ∈ mgr_closed m \/ exists h, n ∈ waiting h m /\ waiting h m' = []
}.

(** A blocked call is released or registered with nothing to return; a
    registered channel is open and belongs to one blocked call. *)
Record waiting_ok (s : system) : Prop := {
  wok_blocked n c : sys_calls s !! n = Some c -> call_pc c = AtSelect ->
    n ∈ mgr_closed (sys_mgr s) \/
    (n ∈ waiting (call_handle c) (sys_mgr s) /\
     wait_check (call_handle c) (call_offset c) (sys_mgr s) = None);
  wok_registered h n : n ∈ waiting h (sys_mgr s) ->
    (n ∉ mgr_closed (sys_mgr s)) /\
    exists c, sys_calls s !! n = Some c /\ call_pc c = AtSelect /\ call_handle c = h;
  wok_nodup h : NoDup (waiting h (sys_mgr s));
  wok_closed n : n ∈ mgr_closed (sys_mgr s) ->
    exists c, sys_calls s !! n = Some c /\ call_pc c <> AtCheck /\ call_pc c <> AtRegister
}.

(** * Lemmas *)

(** ** Nothing to return *)

(** Whether a call has something to return depends on three fields only. *)
Lemma wait_check_None (h offset : string) (m : Manager S) :
  wait_check h offset m = None <->
  exists st, live_at h st m /\ offset_ok offset = true /\
    (CompareOffsets offset (st_CurrentOffset st) = 0 \/
     CompareOffsets offset (st_CurrentOffset st) < 0 /\
     filter (fun msg => CompareOffsets (msg_Offset msg) offset > 0) (st_Changes st) = []).
Proof.
  unfold wait_check, readLocked, live_at, offset_ok. destruct (mgr_byHandle m !! h) as [st|] eqn:Em.
  2: { split; [done|]. intros (st & [Hs _] & _). done. }
  destruct (st_Deleted st) eqn:Ed.
  { split; [done|]. intros (s & [[= <-] Hd] & _). congruence. }
  destruct (ParseOffset offset).2 eqn:Eo; cbn [negb].
  2: { split; [done|]. intros (s & _ & Hx & _). done. }
  destruct (Z.ltb_spec 0 (CompareOffsets offset (st_CurrentOffset st))) as [Hc|Hc].
  { split; [done|]. intros (s & [[= <-] _] & _ & [Hx|[Hx _]]); lia. }
  destruct (Z.eqb_spec (CompareOffsets offset (st_CurrentOffset st)) 0) as [He|He].
  { rewrite Ed. split; [intros _; eauto 6|done]. }
  rewrite cloneMessages_id_map. case_bool_decide; [done|]. rewrite Ed, orb_false_r. cbn [orb].
  case_bool_decide as Hf; cbn [negb]; split; try done.
  - intros _. exists st. split; [done|]. split; [done|]. right. split; [lia|done].
  - intros (s & [[= <-] _] & _ & [Hx|[_ Hx]]); done.
Qed.

Lemma wait_check_same (h offset : string) (m m' : Manager S) (st st' : State) :
  live_at h st m -> live_at h st' m' -> st_CurrentOffset st' = st_CurrentOffset st -> st_Changes st' = st_Changes st ->
  wait_check h offset m = None -> wait_check h offset m' = None.
Proof.
  intros Hl Hl' Ho Hc. rewrite !wait_check_None. intros (s & Hs & Hok & Hx). exists st'.
  destruct Hl as [Hl _], Hs as [Hs _]. assert (s = st) as -> by congruence. by rewrite Ho, Hc.
Qed.

Lemma wait_check_lookup (h offset : string) (m m' : Manager S) :
  mgr_byHandle m' !! h = mgr_byHandle m !! h -> wait_check h offset m' = wait_check h offset m.
Proof. intros He. unfold wait_check, readLocked. by rewrite He. Qed.

(** ** Every operation notifies *)

Lemma notifies_frame (m m' : Manager S) :
  mgr_byHandle m' = mgr_byHandle m -> mgr_waiters m' = mgr_waiters m -> mgr_closed m' = mgr_closed m -> notifies m m'.
Proof.
  intros H1 H2 H3. split.
  - intros h. left. unfold waiting. rewrite H2. split; [done|]. intros offset.
    by rewrite (wait_check_lookup h offset m m') by by rewrite H1.
  - intros n. rewrite H3. unfold waiting. rewrite H2. split; [auto|]. intros [?|(h & Hn & He)]; [done|].
    rewrite He in Hn. by apply elem_of_nil in Hn.
Qed.

Lemma notifies_memory (m m' : Manager S) : same_memory m' m -> notifies m m'.
Proof. intros ((H1 & _) & _ & H2 & H3). by apply notifies_frame. Qed.

Lemma notifies_trans (m1 m2 m3 : Manager S) : notifies m1 m2 -> notifies m2 m3 -> notifies m1 m3.
Proof.
  intros [A1 A2] [B1 B2]. split.
  - intros h. destruct (A1 h) as [[Ha1 Ha2]|[Ha1 Ha2]], (B1 h) as [[Hb1 Hb2]|[Hb1 Hb2]].
    + left. split; [congruence|auto].
    + right. split; [done|]. rewrite <- Ha1. done.
    + right. split; [congruence|]. intros n Hn. apply B2. left. auto.
    + right. split; [done|]. intros n Hn. apply B2. left. auto.
  - intros n. rewrite B2, A2. split.
    + intros [[Hn|(h & Hn & He)]|(h & Hn & He)].
      * by left.
      * right. exists h. split; [done|]. destruct (B1 h) as [[Hb _]|[Hb _]]; congruence.
      * right. exists h. split; [|done]. destruct (A1 h) as [[Ha _]|[Ha _]]; [by rewrite <- Ha|].
        rewrite Ha in Hn. by apply elem_of_nil in Hn.
    + intros [Hn|(h & Hn & He)]; [by left; left|]. destruct (A1 h) as [[Ha _]|[Ha _]].
      * right. exists h. by rewrite Ha.
      * left. right. eauto.
Qed.

Lemma waiting_notify (h x : string) (m : Manager S) :
  waiting x (notifyLocked h m) = if decide (x = h) then [] else waiting x m.
Proof.
  unfold notifyLocked, waiting. destruct (mgr_waiters m !! h) as [[|n l]|] eqn:E; cbn [mgr_waiters set_waiters].
  - case_decide; [subst; by rewrite E|done].
  - rewrite lookup_delete. case_decide as H1; case_decide as H2; subst; done.
  - case_decide; [subst; by rewrite E|done].
Qed.

Lemma closed_notify (h : string) (n : nat) (m : Manager S) :
  n ∈ mgr_closed (notifyLocked h m) <-> n ∈ waiting h m \/ n ∈ mgr_closed m.
Proof.
  unfold notifyLocked, waiting. destruct (mgr_waiters m !! h) as [[|x l]|] eqn:E; cbn [mgr_closed set_waiters default from_option id].
  - rewrite elem_of_nil. tauto.
  - by rewrite elem_of_union, elem_of_list_to_set.
  - rewrite elem_of_nil. tauto.
Qed.

(** The state at [h] changes and [h] is notified. *)
Lemma notifies_put (h : string) (m m1 : Manager S) :
  (forall x, x <> h -> mgr_byHandle m1 !! x = mgr_byHandle m !! x) -> mgr_waiters m1 = mgr_waiters m ->
  mgr_closed m1 = mgr_closed m -> notifies m (notifyLocked h m1).
Proof.
  intros H1 H2 H3. assert (Hw : forall x, waiting x m1 = waiting x m) by (intros x; unfold waiting; by rewrite H2).
  split.
  - intros x. rewrite waiting_notify, Hw. destruct (decide (x = h)) as [->|Hne].
    + right. split; [done|]. intros n Hn. apply closed_notify. left. by rewrite Hw.
    + left. split; [done|]. intros offset. rewrite (wait_check_lookup x offset m (notifyLocked h m1)); [done|].
      destruct (notify_same h m1) as (-> & _). auto.
  - intros n. rewrite closed_notify, Hw, H3. split.
    + intros [Hn|Hn]; [|by left]. right. exists h. rewrite waiting_notify, decide_True by done. done.
    + intros [Hn|(x & Hn & He)]; [by right|]. rewrite waiting_notify, Hw in He. case_decide; [subst; by left|].
      rewrite He in Hn. by apply elem_of_nil in Hn.
Qed.

(** The state at [h] changes quietly: the change gives no one anything. *)
Lemma notifies_quiet (h : string) (m m1 : Manager S) :
  (forall x, x <> h -> mgr_byHandle m1 !! x = mgr_byHandle m !! x) -> mgr_waiters m1 = mgr_waiters m ->
  mgr_closed m1 = mgr_closed m -> (forall offset, wait_check h offset m = None -> wait_check h offset m1 = None) ->
  notifies m m1.
Proof.
  intros H1 H2 H3 H4. split.
  - intros x. left. unfold waiting. rewrite H2. split; [done|]. intros offset.
    destruct (decide (x = h)) as [->|Hne]; [auto|]. by rewrite (wait_check_lookup x offset m m1) by auto.
  - intros n. rewrite H3. unfold waiting. rewrite H2. split; [auto|]. intros [?|(x & Hn & He)]; [done|].
    rewrite He in Hn. by apply elem_of_nil in Hn.
Qed.

Lemma removeRelation_frame (r : Relation) (h : string) (m : Manager S) :
  mgr_byHandle (removeRelationLocked r h m) = mgr_byHandle m /\
  mgr_waiters (removeRelationLocked r h m) = mgr_waiters m /\
  mgr_closed (removeRelationLocked r h m) = mgr_closed m.
Proof. unfold removeRelationLocked. by repeat case_decide. Qed.

Lemma notifies_create (st : State) (m : Manager S) :
  mgr_byHandle m !! st_Handle st = None -> notifies m (create_state st m).1.
Proof.
  intros Hn. unfold create_state. destruct (persistStateLocked st _) as [m1 [e|]] eqn:Ep;
    apply persist_frame in Ep as ((E1 & _) & _ & E2 & E3); mgr_simpl; [by apply notifies_frame|].
  apply (notifies_quiet (st_Handle st)); mgr_simpl; try done.
  - intros x Hne. by rewrite E1, lookup_insert_ne.
  - intros offset Hc. apply wait_check_None in Hc as (s & [Hs _] & _). congruence.
Qed.

Lemma notifies_install {A} (h : string) (st u : State) (notify : bool) (r : A) (m : Manager S) :
  live_at h st m -> st_Deleted u = false ->
  (notify = false -> st_CurrentOffset u = st_CurrentOffset st /\ st_Changes u = st_Changes st) ->
  notifies m (install h u notify r m).1.
Proof.
  intros Hl Hd Hq. unfold install. destruct (persistStateLocked u m) as [m1 [e|]] eqn:Ep;
    apply persist_frame in Ep; [by apply notifies_memory|]. destruct Ep as ((E1 & _) & _ & E2 & E3).
  assert (Hne : forall x, x <> h -> mgr_byHandle (put_state h u m1) !! x = mgr_byHandle m !! x)
    by (intros x Hx; mgr_simpl; by rewrite E1, lookup_insert_ne).
  cbn [fst]. destruct notify; [by apply notifies_put|]. destruct Hq as [Ho Hc]; [done|].
  apply (notifies_quiet h); try done. intros offset. eapply wait_check_same; [exact Hl| |done|done].
  split; [mgr_simpl; by rewrite lookup_insert_eq|done].
Qed.

Lemma refreshed_state_quiet (st : State) (schema : Schema) (rows : gmap string Row) (now : Z) (l : list Message)
    (md : ChangeMetadata) (u : State) (out : list Message) :
  refreshed_state st schema rows now l md = (u, out) -> out = [] ->
  st_CurrentOffset u = st_CurrentOffset st /\ st_Changes u = st_Changes st.
Proof.
  unfold refreshed_state. destruct l as [|x l]; [by intros [= <- <-]|].
  destruct (applyChangeOffsets _ (x :: l) md) as [msgs o] eqn:Ea. intros [= <- <-] ->. exfalso.
  unfold applyChangeOffsets in Ea. destruct (last _); injection Ea as Ea _; [|done].
  destruct ((0 <? CommitLSN md) && negb (DependentRefresh md)); [|done].
  pose proof (mark_last_Forall2 (imap (applyChangeOffset (st_CurrentOffset st) md) (x :: l))) as Hm.
  apply Forall2_length in Hm. pose proof (eq_trans (eq_sym Hm) (f_equal length Ea)) as Hx. discriminate Hx.
Qed.

Lemma negb_bool_decide_false (P : Prop) `{!Decision P} : negb (bool_decide P) = false -> P.
Proof. intros Hn. apply negb_false_iff in Hn. by apply bool_decide_eq_true in Hn. Qed.

Lemma notifies_refreshed {A} (h : string) (st : State) (schema : Schema) (rows : gmap string Row) (now : Z)
    (l out : list Message) (md : ChangeMetadata) (u : State) (r : A) (m : Manager S) :
  live_at h st m -> refreshed_state st schema rows now l md = (u, out) ->
  notifies m (install h u (negb (bool_decide (out = []))) r m).1.
Proof.
  intros Hl Er. eapply notifies_install; [done| |].
  - pose proof (refreshed_state_identity st schema rows now l md) as Hi. rewrite Er in Hi.
    destruct Hi as (_ & _ & Hd & _). cbn [fst] in Hd. rewrite Hd. by destruct Hl.
  - intros Hn. eapply refreshed_state_quiet; [exact Er|]. by apply negb_bool_decide_false in Hn.
Qed.

Lemma notifies_invalidate_apply (updated : gmap string State) (l : list string) (m : Manager S) :
  notifies m (fold_left (invalidate_apply updated) l m).
Proof.
  revert m. induction l as [|h l IH]; intros m; [by apply notifies_frame|]. cbn [fold_left].
  eapply notifies_trans; [|apply IH]. unfold invalidate_apply. destruct (updated !! h); [|by apply notifies_frame].
  apply notifies_put; try done. intros x Hx. mgr_simpl. by rewrite lookup_insert_ne.
Qed.

Lemma notifies_invalidate_all (l : list string) (clock : nat -> Z) (n : nat) (acc : list string) (m : Manager S) :
  notifies m (invalidate_all_loop l clock n acc m).1.
Proof.
  revert n acc m. induction l as [|h l IH]; intros n acc m; [by apply notifies_frame|]. cbn [invalidate_all_loop].
  destruct (st_Deleted _); [apply IH|]. destruct (persistStateLocked _ m) as [m1 [e|]] eqn:Ep;
    apply persist_frame in Ep; [by apply notifies_memory|]. destruct Ep as ((E1 & _) & _ & E2 & E3).
  eapply notifies_trans; [|apply IH].
  match goal with |- notifies _ (notifyLocked _ (put_state _ _ (delete_hash _ (removeRelationLocked ?r ?h ?m)))) =>
    destruct (removeRelation_frame r h m) as (F1 & F2 & F3) end.
  apply notifies_put; mgr_simpl; [|by rewrite F2|by rewrite F3].
  intros x Hx. by rewrite F1, E1, lookup_insert_ne.
Qed.

Lemma ostep_notifies (m m' : Manager S) : ostep m m' -> notifies m m'.
Proof.
  intros Hs. destruct Hs as [def snapshot offset now Hu|def now1 now2 Hu|h now Hst|r clock|clock|h l now|h sn md now|h sn kr md now].
  - unfold UpsertSnapshotAtOffset. destruct (mgr_byHash m !! _) as [h|] eqn:Eh; [|apply notifies_create; by apply Hu].
    destruct (persistStateLocked _ m) as [m1 [e|]] eqn:Ep; apply persist_frame in Ep; [by apply notifies_memory|].
    destruct Ep as ((E1 & _) & _ & E2 & E3). cbn [fst].
    match goal with |- context [removeRelationLocked ?r ?h ?m] => destruct (removeRelation_frame r h m) as (F1 & F2 & F3) end.
    apply notifies_put; mgr_simpl; [|by rewrite F2|by rewrite F3]. intros x Hx. by rewrite lookup_insert_ne, F1, E1.
  - unfold LookupOrCreateDefinition. destruct (mgr_byHash m !! _) as [h|] eqn:Eh; [|apply notifies_create; by apply Hu].
    destruct (persistStateLocked _ m) as [m1 [e|]] eqn:Ep; apply persist_frame in Ep; [by apply notifies_memory|].
    destruct Ep as ((E1 & _) & _ & E2 & E3). cbn [fst]. apply (notifies_quiet h); mgr_simpl; try done.
    + intros x Hx. by rewrite E1, lookup_insert_ne.
    + intros offset Hc. pose proof Hc as Hc'. apply wait_check_None in Hc as (s & [Hs Hd] & _). rewrite Hs.
      apply (wait_check_same h offset m _ s (touched s now1)); [by split| |done|done|done].
      split; [|done]. mgr_simpl. by rewrite lookup_insert_eq.
  - unfold Delete. destruct (mgr_byHandle m !! h) as [st|] eqn:Eh; [|by apply notifies_frame].
    destruct (persistStateLocked _ m) as [m1 [e|]] eqn:Ep; apply persist_frame in Ep; [by apply notifies_memory|].
    destruct Ep as ((E1 & _) & _ & E2 & E3). cbn [fst].
    match goal with |- context [removeRelationLocked ?r ?h ?m] => destruct (removeRelation_frame r h m) as (F1 & F2 & F3) end.
    apply notifies_put; mgr_simpl; [|by rewrite F2|by rewrite F3]. intros x Hx. by rewrite lookup_insert_ne, F1, E1.
  - unfold InvalidateByRelation. case_decide; [by apply notifies_frame|].
    destruct (invalidate_save _ _ _ _ _) as [m1 [e|u]] eqn:Es; apply invalidate_save_spec in Es as [Es _].
    + by apply notifies_memory.
    + cbn [fst]. eapply notifies_trans; [by apply notifies_memory|].
      eapply notifies_trans; [apply notifies_invalidate_apply|by apply notifies_frame].
  - apply notifies_invalidate_all.
  - unfold Append. destruct (live_state h m) as [e|st] eqn:El; [by apply notifies_frame|]. apply live_state_Ok in El.
    eapply notifies_install; [done| |done]. destruct (append_messages_identity st 0 l) as (_ & _ & Hd & _).
    destruct El. cbn. congruence.
  - unfold RefreshWithMetadata. destruct (live_state h m) as [e|st] eqn:El; [by apply notifies_frame|]. apply live_state_Ok in El.
    destruct (refreshed_state _ _ _ _ _ _) as [u out] eqn:Er. by eapply notifies_refreshed.
  - unfold RefreshKeysWithMetadata. destruct (live_state h m) as [e|st] eqn:El; [by apply notifies_frame|].
    apply live_state_Ok in El. case_decide; [by apply notifies_frame|].
    destruct (refreshed_state _ _ _ _ _ _) as [u out] eqn:Er. by eapply notifies_refreshed.
Qed.

(** ** The invariant of the interleaving *)

Lemma initial_waiting_ok (m : Manager S) : mgr_waiters m = ∅ -> mgr_closed m = ∅ -> waiting_ok (mkSystem m ∅).
Proof.
  intros Hw Hc. split; cbn [sys_mgr sys_calls]; unfold waiting; rewrite ?Hw, ?Hc.
  - intros n c Hn. discriminate Hn.
  - intros h n Hn. by apply elem_of_nil in Hn.
  - intros h. constructor.
  - intros n Hn. by apply elem_of_empty in Hn.
Qed.

Lemma operation_waiting_ok (m m' : Manager S) (calls : gmap nat wait_call) :
  notifies m m' -> waiting_ok (mkSystem m calls) -> waiting_ok (mkSystem m' calls).
Proof.
  intros [N1 N2] [W1 W2 W3 W4]. cbn [sys_mgr sys_calls] in *. split; cbn [sys_mgr sys_calls].
  - intros n c Hn Hpc. destruct (W1 n c Hn Hpc) as [Hx|[Hx Hq]]; [left; apply N2; by left|].
    destruct (N1 (call_handle c)) as [[He Hc]|[_ Hc]]; [|left; auto]. right. rewrite He. auto.
  - intros h n Hn. destruct (N1 h) as [[He _]|[He _]]; rewrite He in Hn; [|by apply elem_of_nil in Hn].
    destruct (W2 h n Hn) as (Ho & c & Hc & Hpc & Hh). split; [|by eauto]. rewrite N2. intros [Hx|(x & Hx & Hxe)]; [done|].
    destruct (W2 x n Hx) as (_ & c' & Hc' & _ & Hh'). assert (h = x) as <- by congruence. rewrite He in Hxe.
    rewrite Hxe in Hn. by apply elem_of_nil in Hn.
  - intros h. destruct (N1 h) as [[-> _]|[-> _]]; [done|constructor].
  - intros n Hn. apply N2 in Hn as [Hn|(h & Hn & _)]; [by apply W4|].
    destruct (W2 h n Hn) as (_ & c & Hc & Hpc & _). exists c. rewrite Hpc. done.
Qed.

(** A call that is not blocked moves to a place where it is not blocked. *)
Lemma move_waiting_ok (m : Manager S) (calls : gmap nat wait_call) (n : nat) (c : wait_call) (pc : wait_pc) :
  waiting_ok (mkSystem m calls) -> calls !! n = Some c ->
  (call_pc c <> AtSelect \/ n ∈ mgr_closed m) -> pc <> AtSelect -> (n ∈ mgr_closed m -> pc <> AtCheck /\ pc <> AtRegister) ->
  waiting_ok (mkSystem m (set_call n c pc calls)).
Proof.
  intros [W1 W2 W3 W4] Hn Hout Hpc Hcl. cbn [sys_mgr sys_calls] in *. unfold set_call. split; cbn [sys_mgr sys_calls].
  - intros x d. rewrite lookup_insert_Some. intros [[<- <-]|[Hne Hx]] Hd; [done|]. by apply W1.
  - intros h x Hx. destruct (W2 h x Hx) as (Ho & d & Hd & Hdpc & Hdh). split; [done|]. exists d.
    rewrite lookup_insert_ne; [done|]. intros <-. assert (d = c) as -> by congruence. destruct Hout; done.
  - done.
  - intros x Hx. rewrite lookup_insert. case_decide as He; [subst; eexists; split; [done|by apply Hcl]|]. by apply W4.
Qed.

Lemma remove_first_elem (x y : nat) (l : list nat) : NoDup l -> y ∈ remove_first x l <-> y ∈ l /\ y <> x.
Proof.
  induction 1 as [|z l Hz Hnd IH]; cbn [remove_first]; [rewrite !elem_of_nil; tauto|].
  case_decide as He; rewrite ?elem_of_cons, ?IH; subst.
  - split; [intros Hy; split; [by right|congruence]|]. intros [[->|Hy] Hne]; [done|done].
  - split; [intros [->|[? ?]]; auto|]. intros [[->|?] ?]; auto.
Qed.

Lemma remove_first_NoDup (x : nat) (l : list nat) : NoDup l -> NoDup (remove_first x l).
Proof.
  induction 1 as [|z l Hz Hnd IH]; cbn [remove_first]; [constructor|]. case_decide; [done|].
  constructor; [|done]. rewrite remove_first_elem by done. tauto.
Qed.

Lemma waiting_remove (h x : string) (n : nat) (m : Manager S) :
  waiting x (removeWaiter h n m) = if decide (x = h) then remove_first n (waiting h m) else waiting x m.
Proof.
  unfold removeWaiter, waiting. destruct (remove_first n (default [] (mgr_waiters m !! h))) as [|y l] eqn:E;
    cbn [mgr_waiters set_waiters].
  - rewrite lookup_delete. case_decide; case_decide; subst; done.
  - rewrite lookup_insert. case_decide; case_decide; subst; done.
Qed.

Lemma cancel_waiting_ok (m : Manager S) (calls : gmap nat wait_call) (n : nat) (c : wait_call) (o : outcome) :
  waiting_ok (mkSystem m calls) -> calls !! n = Some c -> call_pc c = AtSelect ->
  waiting_ok (mkSystem (removeWaiter (call_handle c) n m) (set_call n c (Finished o) calls)).
Proof.
  intros [W1 W2 W3 W4] Hn Hpc. cbn [sys_mgr sys_calls] in *. unfold set_call.
  assert (Hcl : mgr_closed (removeWaiter (call_handle c) n m) = mgr_closed m)
    by (unfold removeWaiter; by destruct (remove_first _ _)).
  assert (Hck : forall h offset, wait_check h offset (removeWaiter (call_handle c) n m) = wait_check h offset m)
    by (intros h offset; apply wait_check_lookup; by destruct (removeWaiter_same (call_handle c) n m) as (-> & _)).
  assert (Hin : forall h y, y ∈ waiting h (removeWaiter (call_handle c) n m) <-> y ∈ waiting h m /\ y <> n).
  { intros h y. rewrite waiting_remove. case_decide as Hh; [subst; by apply remove_first_elem|].
    split; [|by intros [? _]]. intros Hy. split; [done|]. intros ->.
    destruct (W2 h n Hy) as (_ & d & Hd & _ & Hdh). congruence. }
  split; cbn [sys_mgr sys_calls]; rewrite ?Hcl.
  - intros x d. rewrite lookup_insert_Some. intros [[<- <-]|[Hne Hx]] Hd; [done|]. rewrite Hin, Hck.
    destruct (W1 x d Hx Hd) as [?|[? ?]]; auto.
  - intros h x [Hx Hne]%Hin. destruct (W2 h x Hx) as (Ho & d & Hd & Hdp & Hdh). split; [done|]. exists d.
    by rewrite lookup_insert_ne.
  - intros h. rewrite waiting_remove. case_decide; [by apply remove_first_NoDup|done].
  - intros x Hx. rewrite lookup_insert. case_decide as He; [subst; by eexists|]. by apply W4.
Qed.

Lemma register_waiting_ok (m : Manager S) (calls : gmap nat wait_call) (n : nat) (c : wait_call) (h : string) (l : list nat) :
  waiting_ok (mkSystem m calls) -> calls !! n = Some c -> call_pc c = AtRegister -> call_handle c = h ->
  waiting h m = l -> wait_check h (call_offset c) m = None ->
  waiting_ok (mkSystem (set_waiters (<[h := l ++ [n]]> (mgr_waiters m)) (mgr_closed m) m) (set_call n c AtSelect calls)).
Proof.
  intros [W1 W2 W3 W4] Hn Hpc Hh Hl Hq. cbn [sys_mgr sys_calls] in *. unfold set_call.
  set (m' := set_waiters _ _ m).
  assert (Hopen : n ∉ mgr_closed m) by (intros Hx; destruct (W4 n Hx) as (d & Hd & _ & Hr); congruence).
  assert (Hfresh : forall x, n ∉ waiting x m)
    by (intros x Hx; destruct (W2 x n Hx) as (_ & d & Hd & Hr & _); congruence).
  assert (Hw : forall x, waiting x m' = if decide (x = h) then l ++ [n] else waiting x m).
  { intros x. unfold waiting, m'. cbn [mgr_waiters set_waiters]. rewrite lookup_insert. by case_decide; case_decide; subst. }
  assert (Hck : forall x offset, wait_check x offset m' = wait_check x offset m)
    by (intros x offset; by apply wait_check_lookup).
  split; cbn [sys_mgr sys_calls].
  - intros x d. rewrite lookup_insert_Some. intros [[<- <-]|[Hne Hx]] Hd.
    + right. cbn [call_handle set_pc call_offset]. rewrite Hh, Hw, decide_True, Hck by done. split; [|done].
      apply elem_of_app. right. apply list_elem_of_here.
    + destruct (W1 x d Hx Hd) as [?|[Hin ?]]; [by left|]. right. rewrite Hw, Hck. split; [|done].
      case_decide as He; [|done]. apply elem_of_app. left. by rewrite <- Hl, <- He.
  - intros x y. rewrite Hw. case_decide as He.
    + intros [Hy|Hy]%elem_of_app.
      * subst x. rewrite <- Hl in Hy. destruct (W2 h y Hy) as (Ho & d & Hd & Hdp & Hdh). split; [done|]. exists d.
        rewrite lookup_insert_ne; [done|]. intros ->. congruence.
      * apply list_elem_of_singleton in Hy as ->. split; [done|]. eexists. rewrite lookup_insert_eq. split; [done|].
        split; [done|]. cbn. congruence.
    + intros Hy. destruct (W2 x y Hy) as (Ho & d & Hd & Hdp & Hdh). split; [done|]. exists d.
      rewrite lookup_insert_ne; [done|]. intros ->. congruence.
  - intros x. rewrite Hw. case_decide as He; [|done]. apply NoDup_app. split_and!.
    + rewrite <- Hl. apply W3.
    + intros y Hy [= ->]%list_elem_of_singleton. rewrite <- Hl in Hy. by apply (Hfresh h).
    + apply NoDup_singleton.
  - intros x Hx. rewrite lookup_insert. case_decide as He; [subst; by destruct Hopen|]. by apply W4.
Qed.

Lemma sstep_waiting_ok (s s' : system) : waiting_ok s -> sstep s s' -> waiting_ok s'.
Proof.
  intros Hok Hs. destruct Hs as [m m' calls Ho|m calls n h offset Hn|m calls n c Hn Hpc|m calls n c m' r Hn Hpc Hr|
    m calls n c Hn Hpc Hcl|m calls n c Hn Hpc|m calls n c Hn Hpc].
  - eapply operation_waiting_ok; [by apply ostep_notifies|done].
  - destruct Hok as [W1 W2 W3 W4]. cbn [sys_mgr sys_calls] in *. split; cbn [sys_mgr sys_calls].
    + intros x d. rewrite lookup_insert_Some. intros [[<- <-]|[Hne Hx]] Hd; [done|]. by apply W1.
    + intros x y Hy. destruct (W2 x y Hy) as (Ho & d & Hd & ?). split; [done|]. exists d.
      rewrite lookup_insert_ne; [done|congruence].
    + done.
    + intros x Hx. destruct (W4 x Hx) as (d & Hd & ?). exists d. rewrite lookup_insert_ne; [done|congruence].
  - apply move_waiting_ok; try done; [rewrite Hpc; by left|by destruct (wait_check _ _ _)|].
    intros Hx. destruct (wok_closed _ Hok n Hx) as (d & Hd & Hr & _). cbn in Hd. congruence.
  - unfold wait_register in Hr. destruct (wait_check _ _ _) as [o|] eqn:Eq; injection Hr as <- <-.
    + apply move_waiting_ok; try done. rewrite Hpc. by left.
    + by apply register_waiting_ok.
  - apply move_waiting_ok; try done. by right.
  - apply move_waiting_ok; try done. rewrite Hpc. by left.
  - by apply cancel_waiting_ok.
Qed.

Lemma reachable_waiting_ok (m : Manager S) (s : system) :
  mgr_waiters m = ∅ -> mgr_closed m = ∅ -> rtc sstep (mkSystem m ∅) s -> waiting_ok s.
Proof.
  intros Hw Hc Hr. pose proof (initial_waiting_ok m Hw Hc) as Hok. revert Hok.
  induction Hr as [|x y z Hs _ IH]; [done|]. intros Hok. apply IH. by eapply sstep_waiting_ok.
Qed.

End waiting.
Arguments system S : clear implicits.

(** * Properties *)

(** C9. No wakeup is lost: however calls and operations interleave, a call
    that is blocked either has its channel closed, so it can go on and read,
    or has nothing to read: its shape is live, its offset is valid and no
    logged message is above it.  A change made between the call's check and
    its registration, or right after it, is never slept through. *)
Theorem no_lost_wakeup {S} `{Store S} (m : Manager S) (s : system S) (n : nat) (c : wait_call) :
  mgr_waiters m = ∅ -> mgr_closed m = ∅ -> rtc sstep (mkSystem m ∅) s ->
  sys_calls s !! n = Some c -> call_pc c = AtSelect ->
  n ∈ mgr_closed (sys_mgr s) \/
  (n ∈ waiting (call_handle c) (sys_mgr s) /\
   exists st, Read (call_handle c) (call_offset c) (sys_mgr s) = (st, [], None) /\ st_Deleted st = false).
Proof.
  intros Hw Hc Hr Hn Hpc. pose proof (reachable_waiting_ok m s Hw Hc Hr) as Hok.
  destruct (wok_blocked _ Hok n c Hn Hpc) as [?|[Hin Hq]]; [by left|]. right. split; [done|].
  unfold wait_check in Hq. unfold Read.
  destruct (readLocked (call_handle c) (call_offset c) (sys_mgr s)) as [[st l] e]. exists st.
  destruct (bool_decide (e <> None)) eqn:E1, (negb (bool_decide (l = []))) eqn:E2, (st_Deleted st); try done.
  apply negb_bool_decide_false in E2 as ->. apply bool_decide_eq_false in E1. destruct e; [by destruct E1|done].
Qed.

Definition demo_call : wait_call := mkCall "h" "0_2" AtCheck.

(** A call that checks, registers and blocks, and a refresh that releases it. *)
Lemma no_lost_wakeup_witness :
  exists s : system MemoryStore, rtc sstep (mkSystem demo_reader ∅) s /\
    (1%nat ∈ mgr_closed (sys_mgr s) \/
     1%nat ∈ waiting "h" (sys_mgr s) /\ exists st, Read "h" "0_2" (sys_mgr s) = (st, [], None) /\ st_Deleted st = false).
Proof.
  set (m2 := (wait_register "h" "0_2" 1%nat demo_reader).1).
  set (calls := set_call 1 demo_call AtSelect (set_call 1 demo_call AtRegister (<[1%nat := demo_call]> ∅))).
  assert (Hr : rtc sstep (mkSystem demo_reader ∅) (mkSystem m2 calls)).
  { eapply rtc_l; [apply (sys_call demo_reader ∅ 1 "h" "0_2"); reflexivity|].
    eapply rtc_l; [apply (sys_check demo_reader _ 1 demo_call); reflexivity|].
    eapply rtc_l; [apply (sys_register demo_reader _ 1 (set_pc demo_call AtRegister) m2 None); reflexivity|].
    apply rtc_refl. }
  exists (mkSystem m2 calls). split; [exact Hr|].
  apply (no_lost_wakeup demo_reader (mkSystem m2 calls) 1 (set_pc demo_call AtSelect)).
  - reflexivity.
  - reflexivity.
  - exact Hr.
  - reflexivity.
  - reflexivity.
Defined.

(** No channel is closed twice, which would panic: in every reachable
    system the channels registered for a handle are open, distinct, and each
    belongs to one call that is blocked on it. *)
Theorem waiters_closed_once {S} `{Store S} (m : Manager S) (s : system S) (h : string) (n : nat) :
  mgr_waiters m = ∅ -> mgr_closed m = ∅ -> rtc sstep (mkSystem m ∅) s ->
  NoDup (waiting h (sys_mgr s)) /\
  (n ∈ waiting h (sys_mgr s) -> (n ∉ mgr_closed (sys_mgr s)) /\
     (exists c, sys_calls s !! n = Some c /\ call_pc c = AtSelect) /\
     forall h', n ∈ waiting h' (sys_mgr s) -> h' = h).
Proof.
  intros Hw Hc Hr. pose proof (reachable_waiting_ok m s Hw Hc Hr) as Hok. split; [apply Hok|].
  intros Hn. destruct (wok_registered _ Hok h n Hn) as (Ho & c & Hcn & Hpc & Hh). split; [done|]. split; [by eauto|].
  intros h' Hn'. destruct (wok_registered _ Hok h' n Hn') as (_ & c' & Hc' & _ & Hh'). congruence.
Qed.

Lemma waiters_closed_once_witness : NoDup (waiting "h" (sys_mgr (mkSystem demo_reader ∅))).
Proof.
  apply (waiters_closed_once demo_reader (mkSystem demo_reader ∅) "h" 0).
  - reflexivity.
  - reflexivity.
  - apply rtc_refl.
Defined.
