(* ===== verification/Restart.v ===== *)
(** Restarts: the store mirrors the manager, and a manager started from the
    store of another has the same shapes.

    The code: [persistStateLocked], [loadPersisted] and [NewManager] of
    [src/internal/shapes/manager.go], over any store that satisfies the laws
    of Storage.v. *)

From Stdlib Require Import Ascii String ZArith NArith Lia.
From S2P Require Import Prelude GoValue Offset ShapeTypes Diff Storage Persist Manager.

#[local] Set Warnings "-clear-no-such-hyp".

(** * Definitions *)

(** The store holds every shape of the manager, as it is in memory. *)
Definition mirrors {S} `{StoreLaws S} (m : Manager S) : Prop :=
  forall h, shapes_of (mgr_store m) !! h = marshalState <$> mgr_byHandle m !! h.

(** An invalidation by relation stopped at an error, possibly after some of its
    saves. *)
Definition torn {S} `{Store S} (m m' : Manager S) : Prop :=
  exists relation clock e, InvalidateByRelation relation clock m = (m', Err e).

Definition all_storable {S} (m : Manager S) : Prop :=
  map_Forall (fun _ st => state_storable st) (mgr_byHandle m).

(** * Lemmas *)

Create Rewrite HintDb mgr.

Section restart.
Context {S : Type} {store_ops : Store S} {checkpoint_laws : CheckpointLaws S} {store_laws : StoreLaws S}.
#[local] Abbreviation Manager := (Manager S).

(** ** Saving *)

(** One save either fails and leaves the shapes of the store, or puts one. *)
Lemma persist_store (st : State) (m m' : Manager) (e : option string) :
  persistStateLocked st m = (m', e) ->
  shapes_of (mgr_store m') =
  match e with None => <[st_Handle st := marshalState st]> (shapes_of (mgr_store m)) | Some _ => shapes_of (mgr_store m) end.
Proof.
  unfold persistStateLocked. destruct (SaveShape _ _) as [s e'] eqn:E. intros [= <- <-]. mgr_simpl.
  destruct e'; [by apply save_error_law in E as ->|by apply save_law in E as ->].
Qed.

Lemma mirrors_failed (st : State) (m m' : Manager) (e : string) :
  mirrors m -> persistStateLocked st m = (m', Some e) -> mirrors m'.
Proof.
  intros Hm Ep. pose proof (persist_store _ _ _ _ Ep) as Hs. apply persist_same in Ep as (E1 & _).
  intros h. by rewrite Hs, E1, Hm.
Qed.

(** A save followed by the same state in memory. *)
Lemma mirrors_put (h : string) (st : State) (m m1 m' : Manager) :
  mirrors m -> persistStateLocked st m = (m1, None) -> st_Handle st = h ->
  mgr_store m' = mgr_store m1 -> mgr_byHandle m' = <[h := st]> (mgr_byHandle m) -> mirrors m'.
Proof.
  intros Hm Ep <- Es Eb x. rewrite Es, (persist_store _ _ _ _ Ep), Eb, !lookup_insert.
  case_decide; [done|]. by rewrite Hm.
Qed.

Lemma notify_store (h : string) (m : Manager) : mgr_store (notifyLocked h m) = mgr_store m.
Proof. unfold notifyLocked. by destruct (mgr_waiters m !! h) as [[|??]|]. Qed.

Lemma notify_byHandle (h : string) (m : Manager) : mgr_byHandle (notifyLocked h m) = mgr_byHandle m.
Proof. by destruct (notify_same h m) as (-> & _). Qed.

Lemma removeRelation_store (r : Relation) (h : string) (m : Manager) : mgr_store (removeRelationLocked r h m) = mgr_store m.
Proof. unfold removeRelationLocked. by repeat case_decide. Qed.

Lemma persist_byHandle (st : State) (m m' : Manager) (e : option string) :
  persistStateLocked st m = (m', e) -> mgr_byHandle m' = mgr_byHandle m.
Proof. by intros [? _]%persist_same. Qed.

#[local] Hint Rewrite notify_store notify_byHandle removeRelation_store @removeRelation_byHandle : mgr.

Ltac solve_put h st Ep :=
  eapply (mirrors_put h st); [eassumption|exact Ep|..]; repeat (autorewrite with mgr; mgr_simpl);
  rewrite ?(persist_byHandle _ _ _ _ Ep); try done.

Lemma mirrors_create (st : State) (m : Manager) : mirrors m -> mirrors (create_state st m).1.
Proof.
  intros Hm. unfold create_state. destruct (persistStateLocked st _) as [m1 [e|]] eqn:Ep.
  - by eapply (mirrors_failed st _ m1 e) in Ep.
  - assert (Hg : mirrors (set_generation (wrapu64 (mgr_generation m + 1)) m)) by done.
    solve_put (st_Handle st) st Ep.
Qed.

Lemma mirrors_install {A} (h : string) (u : State) (notify : bool) (r : A) (m : Manager) :
  mirrors m -> st_Handle u = h -> mirrors (install h u notify r m).1.
Proof.
  intros Hm Hh. unfold install. destruct (persistStateLocked u m) as [m1 [e|]] eqn:Ep; [by eapply mirrors_failed|].
  destruct notify; solve_put h u Ep.
Qed.

Lemma mirrors_memory (m m' : Manager) :
  mgr_store m' = mgr_store m -> mgr_byHandle m' = mgr_byHandle m -> mirrors m -> mirrors m'.
Proof. intros E1 E2 Hm h. by rewrite E1, E2, Hm. Qed.

Lemma mirrors_invalidate_all (l : list string) (clock : nat -> Z) (n : nat) (acc : list string) (m : Manager) :
  well_formed m -> Forall (fun h => is_Some (mgr_byHandle m !! h)) l -> mirrors m ->
  mirrors (invalidate_all_loop l clock n acc m).1.
Proof.
  revert n acc m. induction l as [|h l IH]; intros n acc m Hwf Hin Hm; [done|].
  inversion_clear Hin as [|?? [st Hst] Hrest]. cbn [invalidate_all_loop]. rewrite Hst. cbn [default from_option id].
  destruct (st_Deleted st) eqn:Ed; [by apply IH|].
  destruct (persistStateLocked _ m) as [m1 [e|]] eqn:Ep; [by eapply mirrors_failed|].
  cbn [deleted_state st_Hash]. rewrite <- removeRelation_delete_hash. apply IH.
  - apply (wf_delete_live h st (deleted_state st (clock n)) m m1); try done. by apply persist_same in Ep.
  - eapply Forall_impl; [exact Hrest|]. intros y [s Hy]. autorewrite with mgr. mgr_simpl. autorewrite with mgr. mgr_simpl.
    rewrite (persist_byHandle _ _ _ _ Ep), lookup_insert. case_decide; eauto.
  - solve_put h (deleted_state st (clock n)) Ep. simpl. by eapply wf_handle.
Qed.

(** What the store holds after the first loop of [InvalidateByRelation]. *)
Lemma invalidate_save_store (l : list string) (clock : nat -> Z) (n : nat) (updated updated' : gmap string State)
    (m m' : Manager) :
  well_formed m -> invalidate_save l clock n updated m = (m', Ok updated') ->
  (forall h, h ∉ l -> is_Some (updated !! h) -> updated' !! h = updated !! h) /\
  forall base : gmap string State, (forall h, shapes_of (mgr_store m) !! h =
     marshalState <$> (match updated !! h with Some u => Some u | None => base !! h end)) ->
   forall h, shapes_of (mgr_store m') !! h =
     marshalState <$> (match updated' !! h with Some u => Some u | None => base !! h end).
Proof.
  revert n updated m. induction l as [|h l IH]; intros n updated m Hwf; cbn [invalidate_save].
  { intros [= <- <-]. auto. }
  assert (Hskip : invalidate_save l clock n updated m = (m', Ok updated') ->
    (forall x, x ∉ h :: l -> is_Some (updated !! x) -> updated' !! x = updated !! x) /\
    forall base : gmap string State, (forall x, shapes_of (mgr_store m) !! x =
     marshalState <$> (match updated !! x with Some u => Some u | None => base !! x end)) ->
    forall x, shapes_of (mgr_store m') !! x =
     marshalState <$> (match updated' !! x with Some u => Some u | None => base !! x end)).
  { intros [G1 G2]%IH; [|done]. split; [|done]. intros x Hx. apply G1. rewrite elem_of_cons in Hx. tauto. }
  destruct (mgr_byHandle m !! h) as [st|] eqn:Eh; [|exact Hskip].
  destruct (st_Deleted st); [exact Hskip|].
  destruct (persistStateLocked _ m) as [m1 [e|]] eqn:Ep; [done|]. intros E. apply IH in E as [G1 G2].
  2: { eapply well_formed_same; [symmetry; by eapply persist_same|done]. }
  split.
  - intros x Hx Hs. rewrite elem_of_cons in Hx. rewrite G1; [|tauto|].
    + rewrite lookup_insert_ne; [done|]. intros ->. tauto.
    + rewrite lookup_insert_ne; [done|]. intros ->. tauto.
  - intros base Hb. apply G2. intros x. rewrite (persist_store _ _ _ _ Ep), !lookup_insert.
    assert (Hh : st_Handle (deleted_state st (clock n)) = h) by exact (wf_handle _ Hwf _ _ Eh).
    rewrite Hh. case_decide; [done|]. apply Hb.
Qed.

Lemma mirrors_invalidate (relation : Relation) (clock : nat -> Z) (m m' : Manager) (handles : list string) :
  well_formed m -> mirrors m -> InvalidateByRelation relation clock m = (m', Ok handles) -> mirrors m'.
Proof.
  intros Hwf Hm E. unfold InvalidateByRelation in E. case_decide; [by injection E as <- <-|].
  destruct (invalidate_save _ _ _ _ _) as [m1 [e|updated]] eqn:Es; [done|]. injection E as <- <-.
  pose proof (invalidate_save_store _ _ _ _ _ _ _ Hwf Es) as [_ Hst].
  pose proof (invalidate_save_spec _ _ _ _ _ _ _ Es) as [((E1 & _) & _) Hu].
  match goal with |- mirrors (set_byRelation _ (fold_left _ ?l _)) =>
    destruct (invalidate_apply_spec updated l m1) as (H1 & _ & _ & H4 & _); set (L := l) in * end.
  intros h. mgr_simpl. rewrite H4, H1, E1. rewrite (Hst (mgr_byHandle m) Hm h).
  destruct (updated !! h) as [u|] eqn:Eu.
  - rewrite decide_True; [done|]. split; [|eauto]. destruct (Hu h) as [_ G].
    destruct (decide (h ∈ L)) as [|Hn]; [done|]. rewrite G in Eu by auto. by rewrite lookup_empty in Eu.
  - rewrite decide_False; [done|]. by intros [_ [? ?]].
Qed.

Lemma ostep_mirrors (m m' : Manager) :
  well_formed m -> mirrors m -> ostep m m' -> torn m m' \/ mirrors m'.
Proof.
  intros Hwf Hm Hs.
  destruct Hs as [def snapshot offset now Hu|def now1 now2 Hu|h now Hst|r clock|clock|h l now|h sn md now|h sn kr md now].
  - right. unfold UpsertSnapshotAtOffset. destruct (mgr_byHash m !! _) as [h|] eqn:Eh; [|by apply mirrors_create].
    destruct (byHash_live _ _ _ Hwf Eh) as (st & _ & _ & Hst & Hh). rewrite Hst. cbn [default from_option id].
    destruct (persistStateLocked _ m) as [m1 [e|]] eqn:Ep; [by eapply mirrors_failed|].
    solve_put h (replaced_state st def snapshot offset now) Ep.
  - right. unfold LookupOrCreateDefinition. destruct (mgr_byHash m !! _) as [h|] eqn:Eh; [|by apply mirrors_create].
    destruct (byHash_live _ _ _ Hwf Eh) as (st & _ & _ & Hst & Hh). rewrite Hst. cbn [default from_option id].
    destruct (persistStateLocked _ m) as [m1 [e|]] eqn:Ep; [by eapply mirrors_failed|].
    solve_put h (touched st now1) Ep.
  - right. unfold Delete. destruct (mgr_byHandle m !! h) as [st|] eqn:Eh; [|done].
    destruct (persistStateLocked _ m) as [m1 [e|]] eqn:Ep; [by eapply mirrors_failed|].
    solve_put h (deleted_state st now) Ep. simpl. by eapply wf_handle.
  - destruct (InvalidateByRelation r clock m) as [m1 [e|handles]] eqn:E; [left; by exists r, clock, e|].
    right. by eapply mirrors_invalidate.
  - right. apply mirrors_invalidate_all; try done. apply Forall_forall. intros h. apply elem_of_sorted_keys.
  - right. unfold Append. destruct (live_state h m) as [e|st] eqn:El; [done|]. apply live_state_Ok in El as [El _].
    apply mirrors_install; [done|]. destruct (append_messages_identity st 0 l) as (Hh & _). cbn. rewrite Hh.
    by eapply wf_handle.
  - right. unfold RefreshWithMetadata. destruct (live_state h m) as [e|st] eqn:El; [done|]. apply live_state_Ok in El as [El _].
    match goal with |- context [refreshed_state ?a ?b ?c ?d ?e ?f] =>
      destruct (refreshed_state_identity a b c d e f) as (Hh & _); destruct (refreshed_state a b c d e f) as [u out] end.
    apply mirrors_install; [done|]. cbn [fst] in Hh. rewrite Hh. by eapply wf_handle.
  - right. unfold RefreshKeysWithMetadata. destruct (live_state h m) as [e|st] eqn:El; [done|]. apply live_state_Ok in El as [El _].
    case_decide; [done|].
    match goal with |- context [refreshed_state ?a ?b ?c ?d ?e ?f] =>
      destruct (refreshed_state_identity a b c d e f) as (Hh & _); destruct (refreshed_state a b c d e f) as [u out] end.
    apply mirrors_install; [done|]. cbn [fst] in Hh. rewrite Hh. by eapply wf_handle.
Qed.

(** ** Loading *)

Lemma load_state_byHandle (st : State) (m : Manager) :
  mgr_byHandle (load_state st m) = <[st_Handle st := st]> (mgr_byHandle m) /\
  mgr_store (load_state st m) = mgr_store m /\
  mgr_generation (load_state st m) = Z.max (mgr_generation m) (st_Generation st).
Proof.
  unfold load_state. destruct (st_Deleted st); mgr_simpl; destruct (Z.ltb_spec (mgr_generation m) (st_Generation st));
    mgr_simpl; split_and!; try done; lia.
Qed.

Lemma wf_load (st : State) (m : Manager) :
  well_formed m -> mgr_byHandle m !! st_Handle st = None ->
  (st_Deleted st = false -> mgr_byHash m !! st_Hash st = None /\ st_Hash st = definition_hash (st_Definition st)) ->
  well_formed (load_state st m).
Proof.
  intros Hwf Hn Hlive. unfold load_state.
  match goal with |- well_formed (if ?b then set_generation _ ?x else _) =>
    assert (Hx : well_formed x); [|by destruct b; [apply (well_formed_same x)|]] end.
  destruct (st_Deleted st) eqn:Ed.
  - apply (wf_remove_set ∅ m); [done|..].
    + intros h s. mgr_simpl. rewrite lookup_insert_Some. intros [[<- <-]|[_ Hs]]; [done|]. by eapply wf_handle.
    + intros h s. rewrite live_at_put. unfold live_at. split.
      * intros [(_ & <- & Hd)|[_ Hs]]; [congruence|]. split; [done|]. by apply not_elem_of_empty.
      * intros [[Hs Hd] _]. right. split; [|done]. intros <-. congruence.
    + intros hash h. split; [|by intros [? _]]. intros Hh. split; [done|]. by apply not_elem_of_empty.
    + intros key h. split; [|by intros [? _]]. intros Hh. split; [done|]. by apply not_elem_of_empty.
  - destruct (Hlive eq_refl) as [Hh Hdef]. apply (wf_add st m); try done. intros key. by rewrite related_add.
Qed.

Lemma load_shapes_ok (M : Manager) (l : list State) (m : Manager) :
  well_formed M -> well_formed m ->
  Forall (fun st => mgr_byHandle M !! st_Handle st = Some st /\ state_storable st) l ->
  NoDup (map st_Handle l) -> Forall (fun st => mgr_byHandle m !! st_Handle st = None) l ->
  (forall h s, live_at h s m -> exists s0, live_at h s0 M /\ st_Hash s0 = st_Hash s) ->
  exists m', load_shapes (map marshalState l) m = (m', None) /\ well_formed m' /\ mgr_store m' = mgr_store m /\
    mgr_generation m' = fold_left (fun g st => Z.max g (st_Generation st)) l (mgr_generation m) /\
    forall h, mgr_byHandle m' !! h =
      match (list_to_map (map (fun st => (st_Handle st, reloaded_state st)) l) : gmap string State) !! h with
      | Some st => Some st | None => mgr_byHandle m !! h end.
Proof.
  intros HM. revert m. induction l as [|st l IH]; intros m Hwf Hin Hnd Hnone Hhash.
  { exists m. split_and!; try done. }
  inversion_clear Hin as [|?? [Hst Hok] Hrest]. inversion_clear Hnd as [|?? Hnin Hnd'].
  inversion_clear Hnone as [|?? Hn Hnone']. cbn [map load_shapes]. rewrite unmarshal_marshal by done.
  destruct (load_state_byHandle (reloaded_state st) m) as (E1 & E2 & E3).
  cbn [reloaded_state st_Handle st_Generation] in E1, E3.
  destruct (IH (load_state (reloaded_state st) m)) as (m' & Hl & Hw & Hs & Hg & Hb).
  - apply wf_load; [done|done|]. cbn [reloaded_state st_Deleted st_Hash st_Definition]. intros Hd.
    assert (HlM : live_at (st_Handle st) st M) by done. split; [|exact (wf_definition _ HM _ _ HlM)].
    destruct (mgr_byHash m !! st_Hash st) as [k|] eqn:Eh; [|done]. exfalso.
    apply (wf_hash _ Hwf) in Eh as (s & Hs & He). destruct (Hhash k s Hs) as (s0 & Hs0 & He0).
    assert (k = st_Handle st) as -> by (apply (live_hash_unique k (st_Handle st) s0 st M HM Hs0 HlM); congruence).
    destruct Hs. congruence.
  - done.
  - done.
  - apply Forall_forall. intros s Hs. rewrite E1, lookup_insert_ne; [rewrite Forall_forall in Hnone'; auto|].
    intros He. apply Hnin. rewrite He. by apply (list_elem_of_fmap_2 st_Handle).
  - intros h s [Hs Hd]. rewrite E1, lookup_insert_Some in Hs. destruct Hs as [[<- <-]|[_ Hs]]; [|by apply Hhash].
    exists st. done.
  - exists m'. split_and!; [done|done|congruence| |].
    + rewrite Hg. cbn [fold_left]. by rewrite E3.
    + intros h. rewrite Hb, E1. cbn [map list_to_map fold_right fst snd]. rewrite !lookup_insert.
      case_decide as Hh; [|done]. subst h. rewrite not_elem_of_list_to_map_1; [done|].
      rewrite <- list_fmap_compose. exact Hnin.
Qed.

(** The states of a manager in the order of their handles. *)
Lemma sorted_states (m : Manager) :
  well_formed m ->
  map st_Handle (sorted_values (mgr_byHandle m)) = sorted_keys (mgr_byHandle m) /\
  forall h, (list_to_map (map (fun st => (st_Handle st, reloaded_state st)) (sorted_values (mgr_byHandle m))) : gmap string State) !! h =
    reloaded_state <$> mgr_byHandle m !! h.
Proof.
  intros Hwf. assert (Hk : map st_Handle (sorted_values (mgr_byHandle m)) = sorted_keys (mgr_byHandle m)).
  { apply sorted_values_keys. intros h st. by apply wf_handle. }
  split; [done|]. intros h. apply option_eq. intros u. rewrite <- elem_of_list_to_map.
  2: { rewrite <- list_fmap_compose. change (fst ∘ _) with st_Handle.
       change (st_Handle <$> ?l) with (map st_Handle l). rewrite Hk. apply NoDup_sorted_keys. }
  rewrite list_elem_of_fmap, fmap_Some. split.
  - intros (st & [= -> ->] & Hs). apply elem_of_sorted_values in Hs as [k Hs].
    assert (st_Handle st = k) as -> by (by eapply wf_handle). eauto.
  - intros (st & Hs & ->). exists st. assert (st_Handle st = h) as -> by (by eapply wf_handle).
    split; [done|]. apply elem_of_sorted_values. eauto.
Qed.

Lemma sorted_values_fmap {A B} (f : A -> B) (m1 : gmap string A) (m2 : gmap string B) :
  (forall k, m2 !! k = f <$> m1 !! k) -> sorted_values m2 = map f (sorted_values m1).
Proof.
  intros He. unfold sorted_values. assert (Hk : sorted_keys m2 = sorted_keys m1).
  { unfold sorted_keys. apply sort_strings_unique. apply NoDup_Permutation; [apply NoDup_fst_map_to_list..|].
    intros k. rewrite !elem_of_map_keys, He. by rewrite fmap_is_Some. }
  rewrite Hk. clear Hk. induction (sorted_keys m1) as [|k l IH]; [done|]. rewrite !omap_cons_eq, He.
  destruct (m1 !! k); cbn [fmap option_fmap option_map]; [|exact IH]. cbn [map]. by f_equal.
Qed.

Lemma restart_ok (m : Manager) (shapes : list PersistedShape) :
  well_formed m -> mirrors m -> all_storable m -> LoadShapes (mgr_store m) = Ok shapes ->
  exists m', NewManager (mgr_store m) = Ok m' /\ well_formed m' /\ mgr_store m' = mgr_store m /\
    (forall h, mgr_byHandle m' !! h = reloaded_state <$> mgr_byHandle m !! h) /\
    mgr_generation m' = fold_left Z.max (map st_Generation (sorted_values (mgr_byHandle m))) 0.
Proof.
  intros Hwf Hm Hst Hl. apply load_law in Hl as Hsh. rewrite (sorted_values_fmap marshalState (mgr_byHandle m)) in Hsh by exact Hm.
  destruct (sorted_states m Hwf) as [Hk Hlook].
  destruct (load_shapes_ok m (sorted_values (mgr_byHandle m)) (mkManager (mgr_store m) ∅ ∅ ∅ 0 ∅ ∅))
    as (m' & E & Hw & Hs & Hg & Hb).
  - done.
  - apply empty_well_formed.
  - apply Forall_forall. intros st [k Hs]%elem_of_sorted_values. split; [|by eapply Hst].
    assert (st_Handle st = k) as -> by (by eapply wf_handle). done.
  - rewrite Hk. apply NoDup_sorted_keys.
  - apply Forall_forall. intros st _. reflexivity.
  - intros h s [Hs _]. discriminate Hs.
  - exists m'. unfold NewManager, loadPersisted. mgr_simpl. rewrite Hl, Hsh, E. split_and!; [done|done|done| |].
    + intros h. rewrite Hb, Hlook. by destruct (mgr_byHandle m !! h).
    + rewrite Hg. mgr_simpl. clear. generalize 0. induction (sorted_values (mgr_byHandle m)) as [|st l IH]; intros g; [done|].
      simpl. apply IH.
Qed.

End restart.
#[export] Hint Rewrite @notify_store @notify_byHandle @removeRelation_store @removeRelation_byHandle : mgr.

(** ** What is found by definition and by relation *)

(** Consistent managers with the same shapes, up to what does not change the
    hash and the relation, find them alike. *)
Lemma found_alike {S1 S2} (f : State -> State) (m1 : Manager S1) (m2 : Manager S2) :
  (forall st, st_Hash (f st) = st_Hash st /\ st_Definition (f st) = st_Definition st) ->
  well_formed m1 -> well_formed m2 -> (forall h, LookupByHandle h m2 = f <$> LookupByHandle h m1) ->
  (forall def, LookupByDefinition def m2 = f <$> LookupByDefinition def m1) /\ (forall key, related key m2 = related key m1).
Proof.
  intros Hf H1 H2 Hl.
  assert (Hlive : forall h u, live_at h u m2 <-> exists st, live_at h st m1 /\ u = f st).
  { intros h u. rewrite <- LookupByHandle_live, Hl, fmap_Some. by setoid_rewrite LookupByHandle_live. }
  split.
  - intros def. unfold LookupByDefinition. assert (Hh : mgr_byHash m2 !! definition_hash def = mgr_byHash m1 !! definition_hash def).
    { apply option_eq. intros h. rewrite (wf_hash _ H2), (wf_hash _ H1). setoid_rewrite Hlive. split.
      - intros (u & (st & Hls & ->) & He). exists st. by rewrite (proj1 (Hf st)) in He.
      - intros (st & Hls & He). exists (f st). split; [eauto|]. by rewrite (proj1 (Hf st)). }
    rewrite Hh. destruct (mgr_byHash m1 !! _); [apply Hl|done].
  - intros key. apply leibniz_equiv. intros h. rewrite (wf_related _ H2), (wf_related _ H1). setoid_rewrite Hlive. split.
    + intros (u & (st & Hls & ->) & He). exists st. by rewrite (proj2 (Hf st)) in He.
    + intros (st & Hls & He). exists (f st). split; [eauto|]. by rewrite (proj2 (Hf st)).
Qed.

(** * Properties *)

(** The store mirrors the memory: every operation leaves in the store
    exactly the shapes the manager holds, whether its saves succeed or fail,
    except an invalidation by relation that stops at a failed save. *)
Theorem store_mirrors_manager {S} `{StoreLaws S} (m m' : Manager S) :
  well_formed m -> mirrors m -> ostep m m' -> torn m m' \/ mirrors m'.
Proof. apply ostep_mirrors. Qed.

Lemma store_mirrors_manager_witness : mirrors (InvalidateAll (fun _ => 7) demo_empty).1.
Proof.
  assert (He : mirrors demo_empty) by (intros h; reflexivity).
  destruct (store_mirrors_manager demo_empty (InvalidateAll (fun _ => 7) demo_empty).1) as [(r & clock & e & E)|Hm].
  - apply empty_well_formed.
  - exact He.
  - apply step_invalidate_all.
  - discriminate E.
  - exact Hm.
Defined.

(** A restart restores the shapes: a manager started from the store of a
    consistent manager has the same shapes under the same handles, each as
    it is read back from storage, and its lookups by definition answer alike. *)
Theorem restart_restores_shapes {S} `{StoreLaws S} (m : Manager S) (shapes : list PersistedShape) :
  well_formed m -> mirrors m -> all_storable m -> LoadShapes (mgr_store m) = Ok shapes ->
  exists m', NewManager (mgr_store m) = Ok m' /\ well_formed m' /\ mgr_store m' = mgr_store m /\
    (forall h, LookupByHandle h m' = reloaded_state <$> LookupByHandle h m) /\
    (forall def, LookupByDefinition def m' = reloaded_state <$> LookupByDefinition def m) /\
    (forall key, related key m' = related key m).
Proof.
  intros Hwf Hm Hst Hl. destruct (restart_ok m shapes Hwf Hm Hst Hl) as (m' & E & Hw & Hs & Hb & _).
  assert (Hlh : forall h, LookupByHandle h m' = reloaded_state <$> LookupByHandle h m).
  { intros h. unfold LookupByHandle. rewrite Hb. destruct (mgr_byHandle m !! h) as [st|]; [|done]. simpl.
    by destruct (st_Deleted st). }
  exists m'. destruct (found_alike reloaded_state m m') as [Hd Hr]; [done..|]. by split_and!.
Qed.

Lemma demo_manager_mirrors : mirrors demo_manager.
Proof. apply mirrors_create. intros h. reflexivity. Qed.

Lemma demo_manager_storable : all_storable demo_manager.
Proof. apply (bool_decide_unpack _). vm_compute. exact I. Qed.

Lemma restart_restores_shapes_witness :
  exists m', NewManager (mgr_store demo_manager) = Ok m' /\
    forall h, LookupByHandle h m' = reloaded_state <$> LookupByHandle h demo_manager.
Proof.
  destruct (restart_restores_shapes demo_manager (memory_LoadShapes (mgr_store demo_manager))) as (m' & E & _ & _ & Hl & _).
  - exact demo_manager_wf.
  - exact demo_manager_mirrors.
  - exact demo_manager_storable.
  - reflexivity.
  - exists m'. split; [exact E|exact Hl].
Defined.
