(* ===== verification/Handles.v ===== *)
(** Handles as names of directories: [UpsertSnapshotAtOffset] of
    [src/internal/shapes/manager.go] makes a handle, and [sanitizePath] of
    [src/internal/storage/disk.go] turns it into the directory of the shape.

    Distinct handles can have one directory; those the manager makes do not. *)

From Stdlib Require Import Ascii String ZArith NArith Lia.
From S2P Require Import Prelude GoValue Crypto ShapeTypes Persist Manager Paths.

(** * Definitions *)

Definition name_byte (c : ascii) : bool := is_alnum c || bool_decide (c = "-"%char).

(** A name of letters, digits and hyphens that neither starts nor ends with a
    hyphen. *)
Definition handle_name (h : string) : Prop :=
  exists x m y, h = x +:+ m +:+ y /\ x <> "" /\ y <> "" /\
    all_bytes is_alnum x = true /\ all_bytes name_byte m = true /\ all_bytes is_alnum y = true.

(** Its directory. *)
Fixpoint underscored (s : string) : string :=
  match s with
  | EmptyString => ""
  | String a s' => String (if is_alnum a then a else "_"%char) (underscored s')
  end.

(** * Lemmas *)

Lemma alnum_name (c : ascii) : is_alnum c = true -> name_byte c = true.
Proof. unfold name_byte. by intros ->. Qed.

Lemma name_bytes (h : string) : handle_name h -> all_bytes name_byte h = true.
Proof.
  intros (x & m & y & -> & _ & _ & Hx & Hm & Hy). rewrite !all_bytes_app, Hm.
  by rewrite !(all_bytes_impl is_alnum name_byte) by (done || exact alnum_name).
Qed.

Lemma map_alnum_name (s : string) : all_bytes name_byte s = true -> map_alnum 0 s = underscored s.
Proof.
  induction s as [|a s IH]; [done|]. cbn [all_bytes map_alnum underscored]. intros [Ha Hs]%andb_true_iff.
  destruct (is_alnum a) eqn:E; [by rewrite IH|]. unfold name_byte in Ha. rewrite E in Ha. apply bool_decide_eq_true in Ha as ->.
  cbn [utf8_width]. change (default 1%nat (if (code "-" <? 128)%N then Some 1%nat else _)) with 1%nat. cbn. by rewrite IH.
Qed.

Lemma underscored_app (s t : string) : underscored (s +:+ t) = underscored s +:+ underscored t.
Proof. induction s as [|a s IH]; [done|]. rewrite !app_cons_str. cbn [underscored]. by rewrite IH. Qed.

Lemma underscored_alnum (s : string) : all_bytes is_alnum s = true -> underscored s = s.
Proof. induction s as [|a s IH]; [done|]. cbn [all_bytes underscored]. intros [Ha Hs]%andb_true_iff. by rewrite Ha, IH. Qed.

Lemma underscored_inj (s t : string) :
  all_bytes name_byte s = true -> all_bytes name_byte t = true -> underscored s = underscored t -> s = t.
Proof.
  revert t. induction s as [|a s IH]; intros [|b t]; [done..|]. cbn [all_bytes underscored].
  intros [Ha Hs]%andb_true_iff [Hb Ht]%andb_true_iff [= E Es]. rewrite (IH t Hs Ht Es). f_equal. unfold name_byte in *.
  destruct (is_alnum a) eqn:Ea, (is_alnum b) eqn:Eb; [done|..|].
  - by rewrite E in Ea.
  - by rewrite <- E in Eb.
  - apply bool_decide_eq_true in Ha as ->. by apply bool_decide_eq_true in Hb.
Qed.

Lemma trim_left_alnum (x s : string) :
  x <> "" -> all_bytes is_alnum x = true -> trim_left ["_"] (x +:+ s) = x +:+ s.
Proof.
  destruct x as [|a x]; [done|]. cbn [all_bytes]. intros _ [Ha _]%andb_true_iff. apply trim_left_id. rewrite app_cons_str.
  cbn [strip_any strip_prefix]. case_decide as E; [by subst a|done].
Qed.

Lemma rev_app_str (s t : string) : String.rev (s +:+ t) = String.rev t +:+ String.rev s.
Proof.
  assert (H : forall s u v, String.rev_app (s +:+ u) v = String.rev_app u (String.rev_app s v)).
  { clear. induction s as [|a s IH]; intros u v; [done|]. rewrite app_cons_str. cbn. apply IH. }
  assert (H2 : forall u v w, String.rev_app u (v +:+ w) = String.rev_app u v +:+ w).
  { clear. induction u as [|a u IH]; intros v w; [done|]. cbn. by rewrite <- IH, app_cons_str. }
  unfold String.rev. rewrite H. apply (H2 t "" _).
Qed.

Lemma rev_empty (s : string) : String.rev s = "" -> s = "".
Proof. intros E. by rewrite <- (rev_rev_str s), E. Qed.

(** The directory of a name has its letters and digits. *)
Lemma sanitize_name (h : string) : handle_name h -> sanitizePath h = underscored h.
Proof.
  intros Hn. pose proof (name_bytes h Hn) as Hb. destruct Hn as (x & m & y & -> & Hx & Hy & Ax & _ & Ay).
  unfold sanitizePath. rewrite (map_alnum_name _ Hb), !underscored_app, (underscored_alnum x), (underscored_alnum y) by done.
  set (u := underscored m). assert (Ht : trim_byte "_"%char (x +:+ u +:+ y) = x +:+ u +:+ y).
  { unfold trim_byte. change (str1 "_"%char) with "_". rewrite trim_left_alnum by done.
    rewrite !rev_app_str, app_assoc_str. rewrite trim_left_alnum.
    - rewrite <- app_assoc_str, <- !rev_app_str, rev_rev_str. done.
    - intros E. by apply Hy, rev_empty.
    - by rewrite all_bytes_rev. }
  rewrite Ht. rewrite decide_False; [done|]. by destruct x.
Qed.

Lemma names_apart (h k : string) : handle_name h -> handle_name k -> sanitizePath h = sanitizePath k -> h = k.
Proof. intros Hh Hk. rewrite !sanitize_name by done. apply underscored_inj; by apply name_bytes. Qed.

(** ** The handle of a new shape *)

Lemma hex_digit_alnum (n : N) : (n < 16)%N -> is_alnum (hex_digit n) = true.
Proof.
  intros Hn. unfold hex_digit, is_alnum, is_lower, is_upper, is_digit, byte_between, code, byte_of.
  destruct (N.ltb_spec n 10); rewrite N_ascii_embedding by lia.
  - apply orb_true_intro. right. rewrite andb_true_iff, !N.leb_le. lia.
  - apply orb_true_intro. left. apply orb_true_intro. left. rewrite andb_true_iff, !N.leb_le. lia.
Qed.

Lemma hex_encode_alnum (l : list N) : Forall (fun b => b < 256)%N l -> all_bytes is_alnum (hex_encode l) = true.
Proof.
  induction 1 as [|b l Hb _ IH]; [done|]. cbn [hex_encode]. rewrite all_bytes_app, IH. unfold hex_byte, str1. cbn [all_bytes].
  rewrite !hex_digit_alnum; [done|apply N.mod_lt; lia|by apply N.Div0.div_lt_upper_bound].
Qed.

Lemma sha256_bytes (s : string) : Forall (fun b => b < 256)%N (sha256 s).
Proof.
  apply Forall_forall. intros b Hb. unfold sha256 in Hb. apply list_elem_of_join in Hb as (l & Hb & Hl).
  change (map ?f ?x) with (f <$> x) in Hl. apply list_elem_of_fmap in Hl as (w & -> & _). unfold be_bytes in Hb. rewrite elem_of_reverse in Hb.
  change (map ?f ?x) with (f <$> x) in Hb. apply list_elem_of_fmap in Hb as (i & -> & _).
  change 255%N with (N.ones 8). rewrite N.land_ones. by apply N.mod_lt.
Qed.

Lemma sha256_state (l : list (list N)) (st : list N) : length st = 8%nat -> length (fold_left sha256_block l st) = 8%nat.
Proof.
  assert (Hr : forall (l : list (N * N)) st, length st = 8%nat -> length (fold_left sha256_round l st) = 8%nat).
  { clear. induction l as [|kw l IH]; intros st H; [done|]. apply IH. destruct st as [|? [|? [|? [|? [|? [|? [|? [|? [|? ?]]]]]]]]]; done. }
  revert st. induction l as [|b l IH]; intros st H; [done|]. apply IH. unfold sha256_block. rewrite length_zip_with, H, (Hr _ st H). done.
Qed.

Lemma sha256_nonempty (s : string) : sha256 s <> [].
Proof.
  unfold sha256. pose proof (sha256_state (chunk 64 (pad (be_bytes 8) (bytes_of s))) sha256_iv eq_refl) as H.
  by destruct (fold_left _ _ _) as [|w l].
Qed.

Lemma sha256_hex_alnum (s : string) : all_bytes is_alnum (sha256_hex s) = true /\ sha256_hex s <> "".
Proof.
  split; [apply hex_encode_alnum, sha256_bytes|]. unfold sha256_hex. pose proof (sha256_nonempty s). by destruct (sha256 s).
Qed.

Lemma digits_alnum (s : string) : all_bytes is_digit s = true -> all_bytes is_alnum s = true.
Proof. apply all_bytes_impl. intros a Ha. unfold is_alnum. by rewrite Ha, orb_true_r. Qed.

(** The manager gives names. *)
Lemma new_handle_name (def : Definition_) (now : Z) : handle_name (new_handle (definition_hash def) now).
Proof.
  unfold new_handle. destruct (sha256_hex_alnum (Canonicalize def).1) as [Ha Hn]. fold (definition_hash def) in Ha, Hn.
  change (sha256_hex (Canonicalize def).1) with (definition_hash def) in *.
  assert (Hf : exists m y, "-" +:+ format_Z (now / 1000) = m +:+ y /\ y <> "" /\ all_bytes name_byte m = true /\ all_bytes is_alnum y = true).
  { assert (Hd : forall n, format_N n <> "" /\ all_bytes is_alnum (format_N n) = true).
    { intros n. split; [|apply digits_alnum, format_N_digits]. by destruct (format_N_head n) as (a & s & -> & _). }
    destruct (now / 1000) as [|p|p]; [exists "-", "0"; by split_and!|exists "-"|exists "--"]; (eexists; split; [reflexivity|]); by destruct (Hd (Npos p)). }
  destruct Hf as (m & y & -> & Hy & Hm & Ay). exists (take_bytes 10 (definition_hash def)), m, y.
  split_and!; [done| |done|by apply take_bytes_bytes|done|done]. by destruct (definition_hash def).
Qed.
