(* ===== verification/DiskRestart.v ===== *)
(** A restart from the disk: [src/internal/storage/disk.go] below
    [loadPersisted] of [src/internal/shapes/manager.go].

    A manager that starts from a disk that holds what was in memory has the
    same shapes.  What it does with a disk that holds less is in DiskReload.v. *)

From Stdlib Require Import Ascii String ZArith NArith Lia.
From S2P Require Import Prelude GoValue Offset ShapeTypes Diff Storage Persist Manager Restart Paths DiskStore DiskLaws DiskRefine.

#[local] Set Warnings "-clear-no-such-hyp".

(** * Definitions *)

(** What the disk keeps of a state. *)
Definition kept_state (st : State) : State :=
  mkState (st_Handle st) (st_Hash st) (st_Definition st) (st_Schema st) (st_Snapshot st)
    (if st_Deleted st then [] else st_Changes st) (st_Materialized st) (st_CurrentOffset st)
    (st_LastAccess st / 1000000000 * 1000000000) (st_Generation st) (st_Deleted st).

(** The disk holds the shapes of the manager, each as it is in memory. *)
Definition disk_mirrors (m : Manager DiskStore) : Prop :=
  disk_ok (mgr_store m) /\
  forall h, disk_shapes (mgr_store m) !! h = (fun st => marshalState (kept_state st)) <$> mgr_byHandle m !! h.

(** The directory of the store. *)
Definition store_in (dir : string) (s : DiskStore) : Prop :=
  is_blank dir = false /\ ds_dir s = dir /\ ds_chunkDir s = Join dir "chunks".

(** * Lemmas *)

Lemma kept_on_disk (st : State) : marshalState (kept_state st) = on_disk (marshalState st).
Proof. unfold marshalState, kept_state, on_disk. cbn. by destruct (st_Deleted st). Qed.

Lemma kept_storable (st : State) : state_storable st -> state_storable (kept_state st).
Proof. intros (H1 & H2 & H3 & H4 & H5). split_and!; try done. cbn. destruct (st_Deleted st); [constructor|done]. Qed.

Section device.
Context `{Device}.

Lemma disk_shapes_handle (s : DiskStore) (h : string) (p : PersistedShape) : disk_shapes s !! h = Some p -> ps_Handle p = h.
Proof. rewrite disk_shapes_lookup. by intros (row & _ & ->)%fmap_Some. Qed.

(** The manager whose states are what the disk keeps. *)
Definition kept_manager (m : Manager DiskStore) : Manager DiskStore :=
  mkManager (mgr_store m) (kept_state <$> mgr_byHandle m) (mgr_byHash m) (mgr_byRelation m) (mgr_generation m) (mgr_waiters m) (mgr_closed m).

Lemma kept_live (h : string) (u : State) (m : Manager DiskStore) :
  live_at h u (kept_manager m) <-> exists st, live_at h st m /\ u = kept_state st.
Proof.
  unfold live_at, kept_manager. mgr_simpl. rewrite lookup_fmap, fmap_Some. split.
  - intros [(st & Hs & ->) Hd]. by exists st.
  - intros (st & [Hs Hd] & ->). split; [by exists st|done].
Qed.

Lemma kept_well_formed (m : Manager DiskStore) : well_formed m -> well_formed (kept_manager m).
Proof.
  intros Hwf. constructor.
  - intros h u. unfold kept_manager. mgr_simpl. rewrite lookup_fmap, fmap_Some. intros (st & Hs & ->). exact (wf_handle m Hwf h st Hs).
  - intros hash h. unfold kept_manager at 1. mgr_simpl. rewrite (wf_hash m Hwf). setoid_rewrite kept_live. split.
    + intros (st & Hl & He). exists (kept_state st). eauto.
    + intros (u & (st & Hl & ->) & He). eauto.
  - intros key h. change (related key (kept_manager m)) with (related key m). rewrite (wf_related m Hwf). setoid_rewrite kept_live. split.
    + intros (st & Hl & He). exists (kept_state st). eauto.
    + intros (u & (st & Hl & ->) & He). eauto.
  - intros h u (st & Hl & ->)%kept_live. exact (wf_definition m Hwf h st Hl).
Qed.

(** All of them are found when all can be read. *)
Lemma restarted_all (m : Manager DiskStore) (store : DiskStore) :
  well_formed m -> all_storable m -> disk_mirrors m -> exists m',
    load_shapes (sorted_values (disk_shapes (mgr_store m))) (mkManager store ∅ ∅ ∅ 0 ∅ ∅) = (m', None) /\
    well_formed m' /\ mgr_store m' = store /\
    (forall h, mgr_byHandle m' !! h = (fun st => reloaded_state (kept_state st)) <$> mgr_byHandle m !! h) /\
    (forall h, LookupByHandle h m' = (fun st => reloaded_state (kept_state st)) <$> LookupByHandle h m).
Proof.
  intros Hwf Hst [Hok Hmir]. apply kept_well_formed in Hwf.
  assert (Hst' : all_storable (kept_manager m)).
  { intros h u Hu. unfold kept_manager in Hu. mgr_simpl. rewrite lookup_fmap, fmap_Some in Hu. destruct Hu as (st & Hs & ->).
    apply kept_storable. by eapply Hst. }
  destruct (sorted_states _ Hwf) as [Hk Hlook].
  rewrite (sorted_values_fmap marshalState (mgr_byHandle (kept_manager m))).
  2: { intros h. rewrite Hmir. unfold kept_manager. mgr_simpl. rewrite lookup_fmap. by destruct (mgr_byHandle m !! h). }
  destruct (load_shapes_ok (kept_manager m) (sorted_values (mgr_byHandle (kept_manager m))) (mkManager store ∅ ∅ ∅ 0 ∅ ∅))
    as (m' & E & Hw & Hs & _ & Hb).
  - done.
  - apply empty_well_formed.
  - apply Forall_forall. intros st [k Hs]%elem_of_sorted_values. split; [|by eapply Hst'].
    assert (st_Handle st = k) as -> by (by eapply wf_handle). done.
  - rewrite Hk. apply NoDup_sorted_keys.
  - apply Forall_forall. intros st _. reflexivity.
  - intros h s [Hs _]. discriminate Hs.
  - exists m'. assert (Hb' : forall h, mgr_byHandle m' !! h = (fun st => reloaded_state (kept_state st)) <$> mgr_byHandle m !! h).
    { intros h. rewrite Hb, Hlook. unfold kept_manager. mgr_simpl. rewrite lookup_fmap. by destruct (mgr_byHandle m !! h). }
    split_and!; [done|done|done|done|]. intros h. unfold LookupByHandle. rewrite Hb'.
    destruct (mgr_byHandle m !! h) as [st|]; [|done]. cbn. by destruct (st_Deleted st).
Qed.
End device.
