(* ===== verification/DiskManager.v ===== *)
(** The manager over the disk store: [src/internal/shapes/manager.go] above
    [src/internal/storage/disk.go].

    The disk store is a map of shapes only for saves that drop the log of a
    shape or extend the stored one.  Every operation of the manager saves in
    this way, so as long as no save fails, the disk holds what is in memory.
    A save that fails leaves memory and disk apart: the log on the disk may be
    lost, or a shape may be deleted there and not in memory.  Further saves
    keep it so, until one drops the log.  Either way the disk never holds a
    live shape that is not the one in memory. *)

From Stdlib Require Import Ascii String ZArith NArith Lia.
From stdpp Require Import relations.
From S2P Require Import Prelude GoValue JsonText Offset ShapeTypes Diff Storage Persist Manager Restart Paths Handles DiskStore DiskLaws DiskRefine DiskRestart.

#[local] Set Warnings "-clear-no-such-hyp".

(** * Definitions *)

(** A document that is read back as it was written. *)
Definition settled (r : raw) : Prop := match r with RawJson j => reread j = j | _ => False end.

(** What fits on the disk: text is UTF-8, a message is read back as it was
    written, a log is shorter than the number of chunks of a shape, and the
    handles are names like those the manager makes. *)
Record fits (shapes : gmap string State) : Prop := {
  fit_storable : map_Forall (fun _ st => state_storable st) shapes;
  fit_messages : map_Forall (fun _ st => Forall message_ok (ps_Changes (marshalState st))) shapes;
  fit_snapshot : map_Forall (fun _ st => settled (ps_Snapshot (marshalState st))) shapes;
  fit_length : map_Forall (fun _ st => (length (st_Changes st) < max_chunks)%nat) shapes;
  fit_names : map_Forall (fun h _ => handle_name h) shapes
}.

(** The count of changes of a shape on the disk. *)
Definition disk_count (s : DiskStore) (h : string) : Z := default 0 (row_change_count <$> tbl_shapes (ds_tables s) !! h).

(** What the disk holds of a shape: the shape; after a save that failed, also
    the shape deleted, or a log that cannot be read and counts no more changes
    than the one in memory. *)
Inductive held (torn : bool) (s : DiskStore) (h : string) (st : State) : Prop :=
| held_same : disk_shapes s !! h = Some (marshalState (kept_state st)) -> held torn s h st
| held_deleted t : torn = true -> disk_shapes s !! h = Some (marshalState (kept_state (deleted_state st t))) -> held torn s h st
| held_lost p : torn = true -> disk_shapes s !! h = Some (unreadable p) ->
    disk_count s h <= Z.of_nat (length (st_Changes st)) -> held torn s h st.

Definition held_at (torn : bool) (s : DiskStore) (h : string) (o : option State) : Prop :=
  match o with Some st => held torn s h st | None => disk_shapes s !! h = None end.

(** The store in the directory holds these shapes and no others. *)
Record store_holds (dir : string) (torn : bool) (s : DiskStore) (shapes : gmap string State) : Prop := {
  holds_place : store_in dir s;
  holds_ok : disk_ok s;
  holds_shapes h : held_at torn s h (shapes !! h)
}.

(** What is in memory is on the disk. *)
Definition mirrored (dir : string) (torn : bool) (m : Manager DiskStore) : Prop :=
  store_holds dir torn (mgr_store m) (mgr_byHandle m).

(** The log is dropped, or it goes on. *)
Definition continues (old : option State) (u : State) : Prop :=
  st_Deleted u = true \/ st_Changes u = [] \/
  exists st, old = Some st /\ st_Deleted st = false /\ st_Changes st `prefix_of` st_Changes u.

(** A manager over the store in a directory, whose shapes fit and are on the
    disk. *)
Record disk_ready (dir : string) (torn : bool) (m : Manager DiskStore) : Prop := {
  ready_wf : well_formed m;
  ready_fits : fits (mgr_byHandle m);
  ready_mirrored : mirrored dir torn m
}.

(** Errors are reported only where saves may fail. *)
Definition ran {A} (torn : bool) (r : result ManagerError A) : Prop :=
  match r with Ok _ => True | Err _ => torn = true end.

Section steps.
Context `{Device}.
#[local] Abbreviation Manager := (Manager DiskStore).

(** The operations that change shapes. *)
Inductive dstep (torn : bool) (m m' : Manager) : Prop :=
| dstep_upsert def snapshot offset now r :
    handle_unused def now m -> UpsertSnapshotAtOffset def snapshot offset now m = (m', r) -> ran torn r -> dstep torn m m'
| dstep_lookup_or_create def now1 now2 r :
    handle_unused def now1 m -> LookupOrCreateDefinition def now1 now2 m = (m', r) -> ran torn r -> dstep torn m m'
| dstep_delete h now r : not_stale h m -> Delete h now m = (m', r) -> ran torn r -> dstep torn m m'
| dstep_invalidate_relation relation clock r : InvalidateByRelation relation clock m = (m', r) -> ran torn r -> dstep torn m m'
| dstep_invalidate_all clock handles e : InvalidateAll clock m = (m', (handles, e)) -> e = None \/ torn = true -> dstep torn m m'
| dstep_append h messages now r : Append h messages now m = (m', r) -> ran torn r -> dstep torn m m'
| dstep_refresh h snapshot md now r : RefreshWithMetadata h snapshot md now m = (m', r) -> ran torn r -> dstep torn m m'
| dstep_refresh_keys h snapshot keyRows md now r : RefreshKeysWithMetadata h snapshot keyRows md now m = (m', r) -> ran torn r -> dstep torn m m'.

(** Steps to what fits. *)
Definition fit_step (torn : bool) (m m' : Manager) : Prop := dstep torn m m' /\ fits (mgr_byHandle m').
End steps.

(** * Lemmas *)

Lemma fits_empty : fits ∅.
Proof. constructor; apply map_Forall_empty. Qed.

Lemma fits_insert (h : string) (st : State) (shapes : gmap string State) :
  fits shapes -> state_storable st -> Forall message_ok (ps_Changes (marshalState st)) -> settled (ps_Snapshot (marshalState st)) ->
  (length (st_Changes st) < max_chunks)%nat -> handle_name h -> fits (<[h := st]> shapes).
Proof. intros [F1 F2 F0 F3 F4] H1 H2 H3 H4 Hn. constructor; by apply map_Forall_insert_2. Qed.

(** What can be read of a log is JSON. *)
Lemma decoded_json (data : string) (l : list raw) : decode_chunk data = Ok l -> Forall (fun r => exists j, r = RawJson j) l.
Proof.
  unfold decode_chunk. destruct (parse_json data) as [[| | | |x|]|]; intros [= <-]; [constructor|].
  change (map ?f ?x) with (f <$> x). apply Forall_fmap, Forall_forall. intros j _. by exists j.
Qed.

Lemma read_json (f : gmap string string) (paths : list string) (l : list raw) :
  read_all f paths = Ok l -> Forall (fun r => exists j, r = RawJson j) l.
Proof.
  revert l. induction paths as [|p paths IH]; intros l E; [by injection E as <-|]. cbn [read_all] in E.
  destruct (f !! Clean p) as [data|]; [|done]. destruct (decode_chunk data) as [|x] eqn:Ed; [done|].
  destruct (read_all f paths) as [|y]; [done|]. injection E as <-. apply Forall_app. split; [by eapply decoded_json|by apply IH].
Qed.

Lemma unreadable_stored (s : DiskStore) (h : string) (p : PersistedShape) :
  disk_shapes s !! h = Some (unreadable p) -> exists e, stored_changes s h = Err e.
Proof.
  rewrite disk_shapes_lookup. intros (row & _ & E)%fmap_Some. apply (f_equal ps_Changes) in E. cbn in E.
  destruct (stored_changes s h) as [e|l] eqn:El; [eauto|]. cbn in E. subst l. apply read_json in El. by inversion_clear El as [|?? [j ?]].
Qed.

Lemma same_stored (s : DiskStore) (h : string) (p : PersistedShape) :
  disk_shapes s !! h = Some p -> (forall b, ps_Changes p <> [RawInvalid b]) -> stored_changes s h = Ok (ps_Changes p).
Proof.
  rewrite disk_shapes_lookup. intros (row & _ & ->)%fmap_Some Hp. cbn [row_shape ps_Changes] in *.
  destruct (stored_changes s h) as [e|l]; [|done]. exfalso. by eapply Hp.
Qed.

Lemma kept_json (st : State) (b : string) : ps_Changes (marshalState (kept_state st)) <> [RawInvalid b].
Proof. unfold marshalState, kept_state. cbn. by destruct (if st_Deleted st then [] else st_Changes st). Qed.

Lemma marshal_prefix (l1 l2 : list Message) :
  l1 `prefix_of` l2 -> map (fun m => RawJson (persistedMessage_json m)) l1 `prefix_of` map (fun m => RawJson (persistedMessage_json m)) l2.
Proof. intros [l ->]. rewrite map_app. by apply prefix_app_r. Qed.

(** ** What is held *)

Section held.
Variable torn : bool.

Lemma held_ext (s s' : DiskStore) (h : string) (o : option State) :
  disk_shapes s' !! h = disk_shapes s !! h -> disk_count s' h = disk_count s h -> held_at torn s h o -> held_at torn s' h o.
Proof.
  intros E1 E2. destruct o as [st|]; cbn [held_at]; [|by rewrite E1].
  intros [Hs|t Ht Hs|p Ht Hs Hc]; rewrite <- E1 in Hs; [by apply held_same|by eapply held_deleted|]. eapply held_lost; [done|done|by rewrite E2].
Qed.

(** The log of a shape that is not lost. *)
Lemma held_log (s : DiskStore) (h : string) (st : State) :
  held torn s h st ->
  (exists u, stored_changes s h = Ok (ps_Changes (marshalState (kept_state u))) /\ (u = st \/ exists t, u = deleted_state st t)) \/
  (torn = true /\ (exists e, stored_changes s h = Err e) /\ disk_count s h <= Z.of_nat (length (st_Changes st))).
Proof.
  intros [Hs|t Ht Hs|p Ht Hs Hc].
  - left. exists st. split; [|by left]. apply (same_stored s h _ Hs), kept_json.
  - left. exists (deleted_state st t). split; [|eauto]. apply (same_stored s h _ Hs), kept_json.
  - right. split_and!; [done|by eapply unreadable_stored|done].
Qed.

Lemma kept_length (st : State) : (length (ps_Changes (marshalState (kept_state st))) <= length (st_Changes st))%nat.
Proof. unfold marshalState, kept_state. cbn. rewrite length_map. destruct (st_Deleted st); cbn; lia. Qed.

(** The disk never counts more changes than there are. *)
Lemma held_count (s : DiskStore) (h : string) (st : State) :
  disk_ok s -> held torn s h st -> disk_count s h <= Z.of_nat (length (st_Changes st)).
Proof.
  intros Hok Hs. destruct (held_log s h st Hs) as [(u & Hl & Hu)|(_ & _ & Hc)]; [|done].
  unfold disk_count. rewrite (row_count_ok s h _ Hok Hl). pose proof (kept_length u) as Hk.
  assert (length (st_Changes u) = length (st_Changes st)) by (by destruct Hu as [->|[t ->]]). lia.
Qed.

(** Every save of the manager goes on from there. *)
Lemma held_goes_on (s : DiskStore) (u : State) (o : option State) :
  held_at torn s (st_Handle u) o -> continues o u ->
  ps_Deleted (marshalState u) = true \/ ps_Changes (marshalState u) = [] \/ goes_on s (marshalState u).
Proof.
  intros Hs [Hd|[Hn|(st & -> & Hd & Hp)]]; [by left|right; left; cbn; by rewrite Hn|right; right].
  destruct (held_log s _ st Hs) as [(v & Hl & Hv)|(_ & [e He] & Hc)].
  - left. eexists. split; [exact Hl|]. unfold marshalState, kept_state. cbn. destruct Hv as [->|[t ->]]; [|apply prefix_nil].
    rewrite Hd. by apply marshal_prefix.
  - right. exists e. split; [done|]. etrans; [exact Hc|]. cbn. rewrite length_map. apply prefix_length in Hp. lia.
Qed.

(** A shape that was deleted ahead of the memory. *)
Lemma held_ahead (s : DiskStore) (h : string) (st : State) (t : Z) :
  torn = true -> held torn s h (deleted_state st t) -> held torn s h st.
Proof. intros Ht [Hs|t' _ Hs|p _ Hs Hc]; [by eapply held_deleted|by eapply held_deleted|by eapply held_lost]. Qed.
End held.

Section save.
Context `{Device}.
Variable dir : string.
Variable torn : bool.
#[local] Abbreviation store_holds := (store_holds dir torn).

Lemma holds_row (s : DiskStore) (shapes : gmap string State) (h : string) :
  store_holds s shapes -> is_Some (tbl_shapes (ds_tables s) !! h) -> is_Some (shapes !! h).
Proof.
  intros Hs Hr. pose proof (holds_shapes _ _ _ _ Hs h) as Hh. destruct (shapes !! h); [by eauto|]. cbn in Hh.
  rewrite disk_shapes_lookup in Hh. destruct Hr as [row Hr]. by rewrite Hr in Hh.
Qed.

(** A shape has no more chunks than changes. *)
Lemma holds_room (s : DiskStore) (shapes : gmap string State) (h : string) :
  store_holds s shapes -> fits shapes -> (length (chunk_rows h (ds_tables s)) < max_chunks)%nat.
Proof.
  intros Hs Hf. pose proof (holds_ok _ _ _ _ Hs) as Hok. destruct (decide (chunk_rows h (ds_tables s) = [])) as [->|Hn]; [unfold max_chunks; cbn; lia|].
  destruct (ok_shape s Hok h Hn) as (row & Hr & _ & Hle). destruct (holds_row s shapes h Hs) as [st Hst]; [by eauto|].
  pose proof (holds_shapes _ _ _ _ Hs h) as Hh. rewrite Hst in Hh. pose proof (held_count torn s h st Hok Hh) as Hc.
  pose proof (fit_length _ Hf h st Hst) as Hl. cbn in Hl. unfold disk_count in Hc. rewrite Hr in Hc. cbn in Hc. lia.
Qed.

Lemma holds_place_for (s : DiskStore) (shapes : gmap string State) (u : State) :
  store_holds s shapes -> fits shapes -> handle_name (st_Handle u) -> placed s (marshalState u).
Proof.
  intros Hs Hf Hn. split; [|by apply (holds_room s shapes)].
  intros k [st Hk]%(holds_row s shapes k Hs). apply names_apart; [exact (fit_names _ Hf k st Hk)|done].
Qed.

(** A save of the manager: the store then holds the new state, with nothing
    changed elsewhere, or, when it fails, what it held. *)
Lemma holds_save (u : State) (s s' : DiskStore) (e : option string) (shapes : gmap string State) :
  store_holds s shapes -> fits shapes -> handle_name (st_Handle u) -> continues (shapes !! st_Handle u) u ->
  SaveShape (marshalState u) s = (s', e) ->
  match e with
  | None => fits (<[st_Handle u := u]> shapes) -> store_holds s' (<[st_Handle u := u]> shapes) /\
      forall k, k <> st_Handle u -> disk_shapes s' !! k = disk_shapes s !! k
  | Some _ => torn = true -> store_holds s' shapes
  end.
Proof.
  intros Hs Hf Hn Hc E. pose proof (holds_ok _ _ _ _ Hs) as Hok. pose proof (holds_shapes _ _ _ _ Hs) as Hh.
  pose proof (save_torn (marshalState u) s Hok (holds_place_for s shapes u Hs Hf Hn) (held_goes_on torn s u _ (Hh _) Hc)) as Ho.
  unfold runs in Ho. cbn in E. pose proof (save_keeps (marshalState u) s) as [_ Hplace].
  destruct (disk_SaveShape (marshalState u) s) as [r s1]. cbn [fst snd] in *. injection Hplace as E1 E2.
  assert (Hp : store_in dir s1) by (unfold store_in; rewrite E1, E2; apply Hs).
  destruct r as [err|[]]; injection E as <- <-.
  - intros Ht. destruct Ho as (Hok' & Etab & Hsh). split; [done|done|]. intros k. specialize (Hh k).
    assert (Ec : disk_count s1 k = disk_count s k) by (unfold disk_count; by rewrite Etab).
    destruct (Hsh k) as [Ek|(-> & _ & Ek)]; [by eapply held_ext|]. destruct (shapes !! _) as [st|] eqn:Est; cbn [held_at] in *.
    + assert (exists p, disk_shapes s !! st_Handle u = Some p) as [p Ep] by (destruct Hh; eauto). cbn [marshalState ps_Handle] in *.
      rewrite Ep in Ek. eapply (held_lost _ _ _ _ p); [done|done|]. rewrite Ec. by apply (held_count torn).
    + cbn [marshalState ps_Handle] in *. by rewrite Ek, Hh.
  - intros Hf'. destruct Ho as (Hok' & Hoth & Hsh); [apply (fit_messages _ Hf' (st_Handle u)), lookup_insert_eq|].
    assert (Helse : forall k, k <> st_Handle u -> disk_shapes s1 !! k = disk_shapes s !! k).
    { intros k Hk. by destruct Hsh as [->|(_ & _ & -> & _)]; rewrite lookup_insert_ne by (by apply not_eq_sym). }
    split; [|done]. split; [done|done|]. intros k. rewrite lookup_insert. case_decide as Hk.
    + subst k. cbn [held_at]. destruct Hsh as [Hsh|(Hd & [err Herr] & Hsh & Hcnt)].
      * apply held_same. rewrite Hsh, kept_on_disk. apply lookup_insert_eq.
      * cbn [marshalState ps_Handle ps_Changes] in *. eapply (held_lost _ _ _ _ (on_disk (marshalState u))).
        -- specialize (Hh (st_Handle u)). destruct (shapes !! _) as [st|] eqn:Est; cbn [held_at] in Hh.
           ++ destruct (held_log torn s _ st Hh) as [(v & Hl & _)|(Ht & _)]; [congruence|done].
           ++ rewrite stored_none in Herr; [done|]. apply no_shape_no_rows; [done|]. rewrite disk_shapes_lookup in Hh. by destruct (tbl_shapes _ !! _).
        -- rewrite Hsh. apply lookup_insert_eq.
        -- unfold disk_count. rewrite Hcnt, length_map. done.
    + assert (Hne : k <> st_Handle u) by (by apply not_eq_sym). eapply held_ext; [by apply Helse| |apply Hh].
      unfold disk_count. by rewrite Hoth.
Qed.

Lemma persist_holds (u : State) (m m1 : Manager DiskStore) (e : option string) (shapes : gmap string State) :
  store_holds (mgr_store m) shapes -> fits shapes -> handle_name (st_Handle u) -> continues (shapes !! st_Handle u) u ->
  persistStateLocked u m = (m1, e) ->
  match e with
  | None => fits (<[st_Handle u := u]> shapes) -> store_holds (mgr_store m1) (<[st_Handle u := u]> shapes) /\
      forall k, k <> st_Handle u -> disk_shapes (mgr_store m1) !! k = disk_shapes (mgr_store m) !! k
  | Some _ => torn = true -> store_holds (mgr_store m1) shapes
  end.
Proof.
  intros Hs Hf Hn Hc E. unfold persistStateLocked in E. destruct (SaveShape _ _) as [s x] eqn:Es. injection E as <- ->. mgr_simpl.
  by eapply holds_save.
Qed.
End save.

Section operations.
Context `{Device}.
Variable dir : string.
Variable torn : bool.
#[local] Abbreviation store_holds := (store_holds dir torn).
#[local] Abbreviation mirrored := (mirrored dir torn).
#[local] Abbreviation Manager := (Manager DiskStore).

(** A save followed by the same state in memory. *)
Lemma disk_put (h : string) (u : State) (m m1 m' : Manager) :
  mirrored m -> fits (mgr_byHandle m) -> fits (mgr_byHandle m') -> persistStateLocked u m = (m1, None) ->
  continues (mgr_byHandle m !! h) u -> st_Handle u = h ->
  mgr_store m' = mgr_store m1 -> mgr_byHandle m' = <[h := u]> (mgr_byHandle m) -> mirrored m'.
Proof.
  intros Hm Hf Hf' Ep Hc <- Es Eb. unfold DiskManager.mirrored. rewrite Es, Eb in *.
  refine (proj1 (persist_holds dir torn u m m1 None _ Hm Hf _ Hc Ep Hf')). apply (fit_names _ Hf' (st_Handle u) u), lookup_insert_eq.
Qed.

(** A save that fails, with nothing changed in memory. *)
Lemma disk_unsaved (u : State) (m m1 m' : Manager) (e : string) :
  mirrored m -> fits (mgr_byHandle m) -> persistStateLocked u m = (m1, Some e) -> torn = true -> handle_name (st_Handle u) ->
  continues (mgr_byHandle m !! st_Handle u) u ->
  mgr_store m' = mgr_store m1 -> mgr_byHandle m' = mgr_byHandle m -> mirrored m'.
Proof.
  intros Hm Hf Ep Ht Hn Hc Es Eb. unfold DiskManager.mirrored. rewrite Es, Eb.
  exact (persist_holds dir torn u m m1 (Some e) _ Hm Hf Hn Hc Ep Ht).
Qed.

(** The two ways on after a save: [u] is put at [h], or not. *)
Ltac put h u Ep :=
  eapply (disk_put h u); cycle 3; [exact Ep|..|assumption|assumption|assumption];
  repeat (autorewrite with mgr; mgr_simpl); rewrite ?(persist_byHandle _ _ _ _ Ep); try done.
Ltac unsaved Ep :=
  eapply disk_unsaved; cycle 2; [exact Ep|assumption|..|assumption|assumption];
  repeat (autorewrite with mgr; mgr_simpl); rewrite ?(persist_byHandle _ _ _ _ Ep); try done.

Lemma create_mirrors (u : State) (m m' : Manager) (r : result ManagerError State) :
  mirrored m -> fits (mgr_byHandle m) -> fits (mgr_byHandle m') -> handle_name (st_Handle u) -> st_Changes u = [] ->
  create_state u m = (m', r) -> ran torn r -> mirrored m'.
Proof.
  intros Hm Hf Hf' Hh Hn E Hr. unfold create_state in E. destruct (persistStateLocked u _) as [m1 [e|]] eqn:Ep; injection E as <- <-.
  - unsaved Ep. by right; left.
  - put (st_Handle u) u Ep. by right; left.
Qed.

Lemma install_mirrors {A} (h : string) (st u : State) (notify : bool) (x : A) (r : result ManagerError A) (m m' : Manager) :
  mirrored m -> fits (mgr_byHandle m) -> fits (mgr_byHandle m') -> live_at h st m -> st_Handle u = h ->
  st_Changes st `prefix_of` st_Changes u -> install h u notify x m = (m', r) -> ran torn r -> mirrored m'.
Proof.
  intros Hm Hf Hf' [Hst Hd] Hh Hp E Hr. unfold install in E.
  assert (Hc : continues (mgr_byHandle m !! h) u) by (right; right; eauto).
  destruct (persistStateLocked u m) as [m1 [e|]] eqn:Ep; injection E as <- <-.
  - unsaved Ep; rewrite Hh; [|done]. exact (fit_names _ Hf h st Hst).
  - destruct notify; put h u Ep.
Qed.

Lemma append_messages_prefix (st : State) (i : nat) (l : list Message) : st_Changes st `prefix_of` st_Changes (append_messages st i l).
Proof.
  revert st i. induction l as [|x l IH]; intros st i; [done|]. cbn [append_messages]. etrans; [|apply IH].
  cbn [append_message st_Changes]. by apply prefix_app_r.
Qed.

Lemma refreshed_state_prefix (st : State) (schema : Schema) (rows : gmap string Row) (now : Z) (l : list Message) (md : ChangeMetadata) :
  st_Changes st `prefix_of` st_Changes (refreshed_state st schema rows now l md).1.
Proof. unfold refreshed_state. destruct l; [done|]. destruct (applyChangeOffsets _ _ _). by apply prefix_app_r. Qed.

(** *** Invalidations *)

Lemma fits_deleted (h : string) (st : State) (t : Z) (shapes : gmap string State) :
  fits shapes -> shapes !! h = Some st -> fits (<[h := deleted_state st t]> shapes).
Proof.
  intros Hf Hst. destruct (Hf) as [F1 F2 F0 F3 F4].
  apply fits_insert; [done|exact (F1 h st Hst)|exact (F2 h st Hst)|exact (F0 h st Hst)|exact (F3 h st Hst)|exact (F4 h st Hst)].
Qed.

Lemma invalidate_all_mirrors (l : list string) (clock : nat -> Z) (n : nat) (acc handles : list string) (e : option ManagerError) (m m' : Manager) :
  well_formed m -> fits (mgr_byHandle m) -> mirrored m -> Forall (fun h => is_Some (mgr_byHandle m !! h)) l ->
  invalidate_all_loop l clock n acc m = (m', (handles, e)) -> e = None \/ torn = true -> mirrored m'.
Proof.
  revert n acc m. induction l as [|h l IH]; intros n acc m Hwf Hf Hm Hin E He; [by injection E as <- _|].
  inversion_clear Hin as [|?? [st Hst] Hrest]. cbn [invalidate_all_loop] in E. rewrite Hst in E. cbn [default from_option id] in E.
  destruct (st_Deleted st) eqn:Ed; [by eapply IH|].
  pose proof (wf_handle m Hwf h st Hst) as Hh. pose proof (fits_deleted h st (clock n) _ Hf Hst) as Hf'.
  destruct (persistStateLocked _ m) as [m1 [err|]] eqn:Ep.
  { injection E as <- _ <-. destruct He as [|Ht]; [done|]. unsaved Ep; [|by left]. cbn. rewrite Hh. exact (fit_names _ Hf h st Hst). }
  cbn [deleted_state st_Hash] in E. rewrite <- removeRelation_delete_hash in E.
  eapply IH; [| | | |exact E|done].
  - apply (wf_delete_live h st (deleted_state st (clock n)) m m1); try done. by apply persist_same in Ep.
  - autorewrite with mgr. mgr_simpl. autorewrite with mgr. mgr_simpl. by rewrite (persist_byHandle _ _ _ _ Ep).
  - eapply (disk_put h (deleted_state st (clock n))); [exact Hm|exact Hf| |exact Ep|by left|done|..];
      repeat (autorewrite with mgr; mgr_simpl); rewrite ?(persist_byHandle _ _ _ _ Ep); done.
  - eapply Forall_impl; [exact Hrest|]. intros y [s Hy]. autorewrite with mgr. mgr_simpl. autorewrite with mgr. mgr_simpl.
    rewrite (persist_byHandle _ _ _ _ Ep), lookup_insert. case_decide; eauto.
Qed.

(** Shapes that are deleted ahead of those in memory. *)
Definition ahead (updated shapes : gmap string State) : Prop :=
  forall h u, updated !! h = Some u -> exists st t, shapes !! h = Some st /\ u = deleted_state st t.

Lemma holds_ahead (s : DiskStore) (updated shapes : gmap string State) :
  torn = true -> ahead updated shapes -> store_holds s (updated ∪ shapes) -> store_holds s shapes.
Proof.
  intros Ht Ha [Hp Hok Hs]. split; [done|done|]. intros h. specialize (Hs h). rewrite lookup_union in Hs.
  destruct (updated !! h) as [u|] eqn:Eu; [|by destruct (shapes !! h)]. destruct (Ha h u Eu) as (st & t & Hst & ->).
  rewrite Hst in *. cbn in Hs |- *. by eapply held_ahead.
Qed.

(** The first loop of an invalidation by relation saves ahead of the memory. *)
Lemma invalidate_save_holds (l : list string) (clock : nat -> Z) (n : nat) (updated : gmap string State) (r : result ManagerError (gmap string State)) (m m' : Manager) :
  well_formed m -> fits (updated ∪ mgr_byHandle m) -> ahead updated (mgr_byHandle m) -> store_holds (mgr_store m) (updated ∪ mgr_byHandle m) -> NoDup l ->
  (forall h, h ∈ l -> updated !! h = None) -> invalidate_save l clock n updated m = (m', r) ->
  match r with
  | Ok updated' => store_holds (mgr_store m') (updated' ∪ mgr_byHandle m)
  | Err _ => torn = true -> store_holds (mgr_store m') (mgr_byHandle m)
  end.
Proof.
  revert n updated m. induction l as [|h l IH]; intros n updated m Hwf Hf Ha Hs Hnd Hnew E; [by injection E as <- <-|].
  cbn [invalidate_save] in E. apply NoDup_cons in Hnd as [Hh Hnd].
  assert (Hrest : forall x, x ∈ l -> updated !! x = None) by (intros x Hx; apply Hnew; by right).
  destruct (mgr_byHandle m !! h) as [st|] eqn:Est; [|by eapply IH]. destruct (st_Deleted st) eqn:Ed; [by eapply IH|].
  pose proof (wf_handle m Hwf h st Est) as Hk.
  assert (Hl : (updated ∪ mgr_byHandle m) !! h = Some st) by (rewrite lookup_union_r; [done|apply Hnew; by left]).
  pose proof (fits_deleted h st (clock n) _ Hf Hl) as Hf'. assert (Hu : st_Handle (deleted_state st (clock n)) = h) by exact Hk.
  destruct (persistStateLocked _ m) as [m1 e] eqn:Ep. pose proof (persist_byHandle _ _ _ _ Ep) as Eb.
  assert (Hp : handle_name (st_Handle (deleted_state st (clock n)))) by (rewrite Hu; exact (fit_names _ Hf h st Hl)).
  pose proof (persist_holds dir torn _ m m1 e _ Hs Hf Hp ltac:(by left) Ep) as Hnext. rewrite Hu in Hnext. destruct e as [e|].
  - injection E as <- <-. intros Ht. apply (holds_ahead _ updated); [done|done|by apply Hnext].
  - rewrite <- Eb. eapply IH; [| | | | | |exact E].
    + eapply well_formed_same; [symmetry; by eapply persist_same|done].
    + rewrite Eb, <- insert_union_l. exact Hf'.
    + rewrite Eb. intros k v. rewrite lookup_insert. case_decide; [intros [= <-]; subst k; eauto|apply Ha].
    + rewrite Eb, <- insert_union_l. by apply Hnext.
    + done.
    + intros x Hx. rewrite lookup_insert_ne; [by apply Hrest|]. intros ->. done.
Qed.

Lemma invalidate_mirrors (relation : Relation) (clock : nat -> Z) (m m' : Manager) (r : result ManagerError (list string)) :
  well_formed m -> fits (mgr_byHandle m) -> mirrored m -> InvalidateByRelation relation clock m = (m', r) -> ran torn r -> mirrored m'.
Proof.
  intros Hwf Hf Hm E Hr. pose proof E as E0. unfold InvalidateByRelation in E. case_decide; [by injection E as <- _|].
  destruct (invalidate_save _ _ _ _ _) as [m1 r1] eqn:Es.
  assert (Hst : match r1 with Ok updated => store_holds (mgr_store m1) (updated ∪ mgr_byHandle m) | Err _ => torn = true -> store_holds (mgr_store m1) (mgr_byHandle m) end).
  { eapply invalidate_save_holds; [exact Hwf| | | | | |exact Es]; rewrite ?(left_id_L ∅ (∪)); try done.
    apply NoDup_sort_strings, NoDup_elements. }
  destruct r1 as [e|updated]; injection E as <- <-.
  { unfold DiskManager.mirrored. apply invalidate_relation_error in E0 as ((-> & _) & _). by apply Hst. }
  pose proof (invalidate_save_spec _ _ _ _ _ _ _ Es) as [((E1 & _) & _) Hu].
  match goal with |- mirrored (set_byRelation _ (fold_left _ ?l _)) =>
    destruct (invalidate_apply_spec updated l m1) as (H1 & _ & _ & H4 & _); set (L := l) in * end.
  unfold DiskManager.mirrored. mgr_simpl. rewrite H4. split; [apply Hst|apply Hst|]. intros h. pose proof (holds_shapes _ _ _ _ Hst h) as Hh.
  rewrite H1, E1. rewrite lookup_union in Hh. destruct (updated !! h) as [u|] eqn:Eu.
  - rewrite decide_True; [by destruct (mgr_byHandle m !! h)|]. split; [|eauto]. destruct (Hu h) as [_ G].
    destruct (decide (h ∈ L)) as [|Hn]; [done|]. rewrite G in Eu by auto. by rewrite lookup_empty in Eu.
  - rewrite decide_False; [by destruct (mgr_byHandle m !! h)|]. by intros [_ [? ?]].
Qed.

Lemma dstep_ostep (m m' : Manager) : dstep torn m m' -> ostep m m'.
Proof.
  intros [def snapshot offset now r Hu E _|def now1 now2 r Hu E _|h now r Hst E _|rel clock r E _|clock hs e E _|h l now r E _|h sn md now r E _|h sn kr md now r E _].
  - pose proof (step_upsert m def snapshot offset now Hu) as Hs. by rewrite E in Hs.
  - pose proof (step_lookup_or_create m def now1 now2 Hu) as Hs. by rewrite E in Hs.
  - pose proof (step_delete m h now Hst) as Hs. by rewrite E in Hs.
  - pose proof (step_invalidate_relation m rel clock) as Hs. by rewrite E in Hs.
  - pose proof (step_invalidate_all m clock) as Hs. by rewrite E in Hs.
  - pose proof (step_append m h l now) as Hs. by rewrite E in Hs.
  - pose proof (step_refresh m h sn md now) as Hs. by rewrite E in Hs.
  - pose proof (step_refresh_keys m h sn kr md now) as Hs. by rewrite E in Hs.
Qed.

Lemma dstep_wf (m m' : Manager) : well_formed m -> dstep torn m m' -> well_formed m'.
Proof. intros Hwf Hs. by eapply mstep_well_formed, step_operation, dstep_ostep. Qed.

Lemma dstep_mirrors (m m' : Manager) :
  well_formed m -> fits (mgr_byHandle m) -> mirrored m -> fits (mgr_byHandle m') -> dstep torn m m' -> mirrored m'.
Proof.
  intros Hwf Hf Hm Hf' Hs.
  assert (Hname : forall h st, mgr_byHandle m !! h = Some st -> handle_name h) by (intros h st; apply (fit_names _ Hf)).
  destruct Hs as [def snapshot offset now r Hu E Hr|def now1 now2 r Hu E Hr|h now r Hst E Hr|rel clock r E Hr|clock hs e E He|h l now r E Hr|h sn md now r E Hr|h sn kr md now r E Hr].
  - unfold UpsertSnapshotAtOffset in E. destruct (mgr_byHash m !! _) as [h|] eqn:Eh.
    2: { refine (create_mirrors _ m m' r Hm Hf Hf' _ _ E Hr); [apply new_handle_name|done]. }
    destruct (byHash_live _ _ _ Hwf Eh) as (s & _ & _ & Hst & Hh). rewrite Hst in E. cbn [default from_option id] in E.
    destruct (persistStateLocked _ m) as [m1 [e|]] eqn:Ep; injection E as <- <-.
    + unsaved Ep; cbn; rewrite Hh; [by eapply Hname|by right; left].
    + put h (replaced_state s def snapshot offset now) Ep. by right; left.
  - unfold LookupOrCreateDefinition in E. destruct (mgr_byHash m !! _) as [h|] eqn:Eh.
    2: { refine (create_mirrors _ m m' r Hm Hf Hf' _ _ E Hr); [apply new_handle_name|done]. }
    destruct (byHash_live _ _ _ Hwf Eh) as (s & [_ Hd] & _ & Hst & Hh). rewrite Hst in E. cbn [default from_option id] in E.
    destruct (persistStateLocked _ m) as [m1 [e|]] eqn:Ep; injection E as <- <-.
    + unsaved Ep; cbn; rewrite Hh; [by eapply Hname|]. right; right. by exists s.
    + put h (touched s now1) Ep. right; right. by exists s.
  - unfold Delete in E. destruct (mgr_byHandle m !! h) as [s|] eqn:Eh; [|by injection E as <- _].
    pose proof (wf_handle m Hwf h s Eh) as Hh.
    destruct (persistStateLocked _ m) as [m1 [e|]] eqn:Ep; injection E as <- <-.
    + unsaved Ep; [|by left]. cbn. rewrite Hh. by eapply Hname.
    + put h (deleted_state s now) Ep. by left.
  - by eapply invalidate_mirrors.
  - refine (invalidate_all_mirrors _ clock 0 [] hs e m m' Hwf Hf Hm _ E He). apply Forall_forall. intros h. apply elem_of_sorted_keys.
  - unfold Append in E. destruct (live_state h m) as [e|s] eqn:El; [by injection E as <- _|]. apply live_state_Ok in El.
    refine (install_mirrors h s _ _ _ _ m m' Hm Hf Hf' El _ _ E Hr).
    + destruct (append_messages_identity s 0 l) as (Hh & _). cbn. rewrite Hh. exact (wf_handle m Hwf h s (proj1 El)).
    + apply append_messages_prefix.
  - unfold RefreshWithMetadata in E. destruct (live_state h m) as [e|s] eqn:El; [by injection E as <- _|]. apply live_state_Ok in El.
    match type of E with context [refreshed_state ?a ?b ?c ?d ?e ?f] =>
      destruct (refreshed_state_identity a b c d e f) as (Hh & _); pose proof (refreshed_state_prefix a b c d e f) as Hp;
      destruct (refreshed_state a b c d e f) as [u out] end.
    refine (install_mirrors h s u _ _ _ m m' Hm Hf Hf' El _ Hp E Hr). cbn [fst] in Hh. rewrite Hh. exact (wf_handle m Hwf h s (proj1 El)).
  - unfold RefreshKeysWithMetadata in E. destruct (live_state h m) as [e|s] eqn:El; [by injection E as <- _|]. apply live_state_Ok in El.
    case_decide; [by injection E as <- _|].
    match type of E with context [refreshed_state ?a ?b ?c ?d ?e ?f] =>
      destruct (refreshed_state_identity a b c d e f) as (Hh & _); pose proof (refreshed_state_prefix a b c d e f) as Hp;
      destruct (refreshed_state a b c d e f) as [u out] end.
    refine (install_mirrors h s u _ _ _ m m' Hm Hf Hf' El _ Hp E Hr). cbn [fst] in Hh. rewrite Hh. exact (wf_handle m Hwf h s (proj1 El)).
Qed.

(** Any number of operations that fit. *)
Lemma fit_steps (m m' : Manager) : disk_ready dir torn m -> rtc (fit_step torn) m m' -> disk_ready dir torn m'.
Proof.
  intros Hm Hr. induction Hr as [m|m m1 m' [Hs Hf1] _ IH]; [done|].
  apply IH. destruct Hm as [Hwf Hf Hm]. split; [by eapply dstep_wf|done|by eapply dstep_mirrors].
Qed.
End operations.
