(* ===== verification/Admission.v ===== *)
(** Admission control: [src/internal/protocol/admission.go].

    Two counting semaphores, channels of empty structs in the code: a request
    is admitted while the channel of its kind has room, and its release takes
    one element back out.  Requests interleave freely. *)

From Stdlib Require Import Ascii String ZArith NArith Lia.
From S2P Require Import Prelude.

(** * Definitions *)

Inductive admissionKind : Type := admissionInitial | admissionExisting.

#[export] Instance admissionKind_eq_dec : EqDecision admissionKind.
Proof. solve_decision. Defined.

(** A buffered channel of empty structs: how many it holds, and its size. *)
Record channel : Type := mkChannel { chan_len : nat; chan_cap : nat }.

Record admissionController : Type := mkController { adm_initial : channel; adm_existing : channel }.

Definition newAdmissionController (cfgLimits existingLimits : nat) : admissionController :=
  mkController (mkChannel 0 cfgLimits) (mkChannel 0 existingLimits).

(** [select { case c <- struct{}{}: ...; default: ... }]. *)
Definition try_send (c : channel) : option channel :=
  if (chan_len c <? chan_cap c)%nat then Some (mkChannel (S (chan_len c)) (chan_cap c)) else None.

(** [<-c]: blocks, here [None], when the channel is empty. *)
Definition receive (c : channel) : option channel :=
  match chan_len c with O => None | S n => Some (mkChannel n (chan_cap c)) end.

Definition target (kind : admissionKind) (a : admissionController) : channel :=
  match kind with admissionInitial => adm_initial a | admissionExisting => adm_existing a end.

Definition set_target (kind : admissionKind) (c : channel) (a : admissionController) : admissionController :=
  match kind with
  | admissionInitial => mkController c (adm_existing a)
  | admissionExisting => mkController (adm_initial a) c
  end.

(** A nil controller admits everything.  [None] is a refused request. *)
Definition acquire (a : option admissionController) (kind : admissionKind) : option (option admissionController) :=
  match a with
  | None => Some None
  | Some a => c ← try_send (target kind a); Some (Some (set_target kind c a))
  end.

(** The function [acquire] returns. *)
Definition release (a : option admissionController) (kind : admissionKind) : option (option admissionController) :=
  match a with
  | None => Some None
  | Some a => c ← receive (target kind a); Some (Some (set_target kind c a))
  end.

(** A server: its controller and the requests it has admitted and not yet
    finished, each with the kind it was admitted as. *)
Record server : Type := mkServer {
  srv_controller : option admissionController;
  srv_active : gmap nat admissionKind
}.

Inductive astep : server -> server -> Prop :=
| admit_request a a' active n kind :
    active !! n = None -> acquire a kind = Some a' -> astep (mkServer a active) (mkServer a' (<[n := kind]> active))
| finish_request a a' active n kind :
    active !! n = Some kind -> release a kind = Some a' -> astep (mkServer a active) (mkServer a' (delete n active)).

(** The active requests of a kind. *)
Definition active_of (kind : admissionKind) (active : gmap nat admissionKind) : nat :=
  size (filter (fun nk => nk.2 = kind) active).

(** The channels count the active requests and never exceed their size. *)
Definition admission_ok (cfgLimits existingLimits : nat) (s : server) : Prop :=
  exists a, srv_controller s = Some a /\
    chan_len (adm_initial a) = active_of admissionInitial (srv_active s) /\
    chan_len (adm_existing a) = active_of admissionExisting (srv_active s) /\
    chan_cap (adm_initial a) = cfgLimits /\ chan_cap (adm_existing a) = existingLimits /\
    (chan_len (adm_initial a) <= cfgLimits)%nat /\ (chan_len (adm_existing a) <= existingLimits)%nat.

(** * Lemmas *)

Lemma active_of_insert (kind k : admissionKind) (active : gmap nat admissionKind) (n : nat) :
  active !! n = None ->
  active_of kind (<[n := k]> active) = (active_of kind active + if decide (k = kind) then 1 else 0)%nat.
Proof.
  intros Hn. unfold active_of. case_decide as Hk.
  - rewrite map_filter_insert_True by done. rewrite map_size_insert_None; [lia|].
    rewrite map_lookup_filter_None. by left.
  - rewrite map_filter_insert_False by done. rewrite delete_id by done. lia.
Qed.

Lemma active_of_delete (kind k : admissionKind) (active : gmap nat admissionKind) (n : nat) :
  active !! n = Some k ->
  active_of kind active = (active_of kind (delete n active) + if decide (k = kind) then 1 else 0)%nat.
Proof.
  intros Hn. rewrite <- (insert_delete_id active n k Hn) at 1. apply active_of_insert. apply lookup_delete_eq.
Qed.

Lemma target_set (k kind : admissionKind) (c : channel) (a : admissionController) :
  target k (set_target kind c a) = if decide (kind = k) then c else target k a.
Proof. by destruct k, kind. Qed.

Lemma admission_ok_step (n1 n2 : nat) (s s' : server) : admission_ok n1 n2 s -> astep s s' -> admission_ok n1 n2 s'.
Proof.
  intros (a & Ha & H1 & H2 & H3 & H4 & H5 & H6) Hs.
  destruct Hs as [a0 a' active n kind Hn E|a0 a' active n kind Hn E]; simpl in *; subst a0; simpl in E.
  - unfold try_send in E. destruct (Nat.ltb_spec (chan_len (target kind a)) (chan_cap (target kind a))) as [Hlt|]; [|done].
    injection E as <-. eexists. split; [done|]. simpl. rewrite !active_of_insert by done.
    destruct kind; simpl in *; split_and!; lia.
  - unfold receive in E. destruct (chan_len (target kind a)) as [|l] eqn:El; [done|]. injection E as <-.
    eexists. split; [done|]. simpl. rewrite (active_of_delete admissionInitial kind active n Hn) in H1.
    rewrite (active_of_delete admissionExisting kind active n Hn) in H2.
    destruct kind; simpl in *; split_and!; lia.
Qed.

Lemma admission_ok_reachable (n1 n2 : nat) (s : server) :
  rtc astep (mkServer (Some (newAdmissionController n1 n2)) ∅) s -> admission_ok n1 n2 s.
Proof.
  intros Hr. assert (Hok : admission_ok n1 n2 (mkServer (Some (newAdmissionController n1 n2)) ∅)).
  { eexists. split; [done|]. simpl. unfold active_of. rewrite !map_filter_empty, map_size_empty. split_and!; lia. }
  revert Hok. induction Hr as [|x y z Hs _ IH]; [done|]. intros Hok. apply IH. by eapply admission_ok_step.
Qed.

(** A release undoes its admission. *)
Lemma acquire_release (a a' : option admissionController) (kind : admissionKind) : acquire a kind = Some a' -> release a' kind = Some a.
Proof.
  destruct a as [[[n1 c1] [n2 c2]]|]; [|by intros [= <-]]. unfold acquire, try_send.
  destruct kind; cbn [target adm_initial adm_existing chan_len chan_cap]; destruct (Nat.ltb _ _); by intros [= <-].
Qed.

(** * Properties *)

(** C36. Admission is exact and never leaks: after any interleaving of
    admissions and releases, a request of a kind is refused exactly when as
    many of that kind are active as its limit allows, the limits are never
    exceeded, an active request can always release its slot without
    blocking, and the two kinds do not affect each other. *)
Theorem admission_exact (cfgLimits existingLimits : nat) (s : server) :
  rtc astep (mkServer (Some (newAdmissionController cfgLimits existingLimits)) ∅) s ->
  (active_of admissionInitial (srv_active s) <= cfgLimits)%nat /\
  (active_of admissionExisting (srv_active s) <= existingLimits)%nat /\
  (acquire (srv_controller s) admissionInitial = None <-> active_of admissionInitial (srv_active s) = cfgLimits) /\
  (acquire (srv_controller s) admissionExisting = None <-> active_of admissionExisting (srv_active s) = existingLimits) /\
  (forall n kind, srv_active s !! n = Some kind -> release (srv_controller s) kind <> None).
Proof.
  intros Hr. apply admission_ok_reachable in Hr as (a & -> & H1 & H2 & H3 & H4 & H5 & H6).
  rewrite <- H1, <- H2. unfold acquire, try_send. simpl. rewrite H3, H4. split_and!; try done.
  - destruct (Nat.ltb_spec (chan_len (adm_initial a)) cfgLimits); simpl; split; intros; try done; lia.
  - destruct (Nat.ltb_spec (chan_len (adm_existing a)) existingLimits); simpl; split; intros; try done; lia.
  - intros n kind Hn. pose proof (active_of_delete kind kind _ n Hn) as Hd. rewrite decide_True in Hd by done.
    unfold receive. destruct kind; simpl.
    + destruct (chan_len (adm_initial a)) eqn:El; [lia|done].
    + destruct (chan_len (adm_existing a)) eqn:El; [lia|done].
Qed.

Lemma admission_exact_witness :
  acquire (Some (mkController (mkChannel 1 1) (mkChannel 0 2))) admissionInitial = None.
Proof.
  apply (admission_exact 1 2 (mkServer (Some (mkController (mkChannel 1 1) (mkChannel 0 2))) {[7%nat := admissionInitial]})).
  - apply rtc_once. apply (admit_request (Some (newAdmissionController 1 2)) _ ∅ 7 admissionInitial); reflexivity.
  - reflexivity.
Defined.
