(* ===== verification/Identifiers.v ===== *)
(** Identifiers in requests: [src/internal/protocol/identifiers.go].

    The table and the column list of a request are separated lists of SQL
    identifiers, quoted or not.  The scanner reads bytes, treats each byte as
    a code point below U+0100, and writes code points back as UTF-8. *)

From Stdlib Require Import Ascii String ZArith NArith Lia.
From S2P Require Import Prelude ShapeTypes.

(** * Definitions *)

Inductive identError : Type :=
| ZeroLengthIdentifier
| SpecialCharacter (ch : ascii)
| UnterminatedQuote
| InvalidQualified (input : string).

(** unicode.IsLetter, IsDigit and IsSpace below U+0100. *)
Definition latin1_letter (c : ascii) : bool :=
  is_upper c || is_lower c || (code c =? 170)%N || (code c =? 181)%N || (code c =? 186)%N ||
  byte_between 192 214 c || byte_between 216 246 c || byte_between 248 255 c.

Definition latin1_space (c : ascii) : bool :=
  byte_between 9 13 c || (code c =? 32)%N || (code c =? 133)%N || (code c =? 160)%N.

Definition unquoted_ok (c : ascii) : bool :=
  (code c =? 95)%N || (code c =? 36)%N || latin1_letter c || is_digit c || latin1_space c.

(** The variables of the loop. *)
Record scan_state : Type := mkScan {
  sc_parts : list string;
  sc_buf : string;
  sc_inQuotes : bool;
  sc_quotedToken : bool
}.

Definition flush (st : scan_state) : result identError scan_state :=
  let token := trim_space (sc_buf st) in
  if decide (token = "") then Err ZeroLengthIdentifier
  else
    let token := if sc_quotedToken st then token else latin1_lower token in
    Ok (mkScan (sc_parts st ++ [token]) "" (sc_inQuotes st) false).

Definition put_buf (s : string) (st : scan_state) : scan_state :=
  mkScan (sc_parts st) (sc_buf st +:+ s) (sc_inQuotes st) (sc_quotedToken st).

(** A quote that is not a doubled one. *)
Definition toggle_quote (st : scan_state) : scan_state :=
  mkScan (sc_parts st) (sc_buf st) (negb (sc_inQuotes st))
    (if negb (sc_inQuotes st) && bool_decide (trim_space (sc_buf st) = "") then true else sc_quotedToken st).

(** The loop over the bytes; a doubled quote consumes two of them. *)
Fixpoint scan_identifiers (separator : ascii) (input : string) (st : scan_state) : result identError scan_state :=
  match input with
  | EmptyString => Ok st
  | String ch rest =>
      if decide (ch = dquote) then
        if sc_inQuotes st then
          match rest with
          | String ch2 rest2 =>
              if decide (ch2 = dquote) then scan_identifiers separator rest2 (put_buf (str1 dquote) st)
              else scan_identifiers separator rest (toggle_quote st)
          | EmptyString => scan_identifiers separator rest (toggle_quote st)
          end
        else scan_identifiers separator rest (toggle_quote st)
      else if bool_decide (ch = separator) && negb (sc_inQuotes st) then
        match flush st with
        | Ok st => scan_identifiers separator rest st
        | Err e => Err e
        end
      else if negb (sc_inQuotes st) && negb (unquoted_ok ch) then Err (SpecialCharacter ch)
      else scan_identifiers separator rest (put_buf (utf8_rune (code ch)) st)
  end.

Definition parseSeparatedIdentifiers (input : string) (separator : ascii) : result identError (list string) :=
  if decide (trim_space input = "") then Err ZeroLengthIdentifier
  else
    match scan_identifiers separator input (mkScan [] "" false false) with
    | Err e => Err e
    | Ok st =>
        if sc_inQuotes st then Err UnterminatedQuote
        else match flush st with Err e => Err e | Ok st => Ok (sc_parts st) end
    end.

Definition dot : ascii := byte_of 46.
Definition comma : ascii := byte_of 44.

Definition ParseRelation (input : string) : result identError Relation :=
  match parseSeparatedIdentifiers input dot with
  | Err e => Err e
  | Ok [table] => Ok (mkRelation "public" table)
  | Ok [schema; table] => Ok (mkRelation schema table)
  | Ok _ => Err (InvalidQualified input)
  end.

Definition ParseColumns (input : string) : result identError (list string) :=
  parseSeparatedIdentifiers input comma.

(** A name that survives quoting: ASCII, and no white space around it. *)
Definition is_ascii (c : ascii) : bool := (code c <? 128)%N.

Definition quotable (name : string) : Prop :=
  name <> "" /\ all_bytes is_ascii name = true /\ trim_space name = name.

(** A plain name: lower-case letters, digits, underscores and dollars. *)
Definition plain_byte (c : ascii) : bool :=
  is_lower c || is_digit c || (code c =? 95)%N || (code c =? 36)%N.

Definition plain (name : string) : Prop := name <> "" /\ all_bytes plain_byte name = true.

(** No name read so far is empty. *)
Definition parts_ok (st : scan_state) : Prop := Forall (fun p => p <> "") (sc_parts st).

(** * Lemmas *)

Lemma utf8_rune_ascii (c : ascii) : is_ascii c = true -> utf8_rune (code c) = str1 c.
Proof. intros H. unfold utf8_rune, is_ascii in *. rewrite H. unfold bytes, byte_of, code. simpl. by rewrite ascii_N_embedding. Qed.

Lemma plain_ascii (c : ascii) : plain_byte c = true -> is_ascii c = true /\ lower_byte c = c /\ unquoted_ok c = true.
Proof. destruct c as [[] [] [] [] [] [] [] []]; vm_compute; intros H; try discriminate H; split_and!; reflexivity. Qed.

(** Inside quotes, the quoted body of a name is copied to the buffer. *)
Lemma scan_quoted_body (separator : ascii) (name rest : string) (parts : list string) (buf : string) (q : bool) :
  all_bytes is_ascii name = true ->
  scan_identifiers separator (replace_byte dquote (bytes [34; 34]%N) name +:+ rest) (mkScan parts buf true q) =
  scan_identifiers separator rest (mkScan parts (buf +:+ name) true q).
Proof.
  revert buf. induction name as [|c name IH]; intros buf Ha.
  - by rewrite app_nil_l_str, app_nil_r_str.
  - cbn [all_bytes] in Ha. apply andb_prop in Ha as [Hc Ha]. cbn [replace_byte].
    destruct (decide (c = dquote)) as [->|Hne].
    + change (bytes [34; 34]%N) with (String dquote (str1 dquote)). unfold str1. rewrite !app_cons_str, app_nil_l_str.
      cbn [scan_identifiers sc_inQuotes]. rewrite !decide_True by done. unfold put_buf. cbn [sc_buf sc_parts sc_inQuotes sc_quotedToken].
      rewrite IH by done. f_equal. f_equal. rewrite app_assoc_str. reflexivity.
    + unfold str1. rewrite !app_cons_str, app_nil_l_str. cbn [scan_identifiers sc_inQuotes].
      rewrite decide_False by done. rewrite andb_false_r. cbn [negb andb]. unfold put_buf.
      cbn [sc_buf sc_parts sc_inQuotes sc_quotedToken]. rewrite IH by done. f_equal. f_equal.
      rewrite app_assoc_str, utf8_rune_ascii by done. reflexivity.
Qed.

(** A quoted name followed by something that is not a quote. *)
Lemma scan_quoted (separator : ascii) (name rest : string) (parts : list string) :
  all_bytes is_ascii name = true -> (forall r, rest <> String dquote r) ->
  scan_identifiers separator (quoteIdentifier name +:+ rest) (mkScan parts "" false false) =
  scan_identifiers separator rest (mkScan parts name false true).
Proof.
  intros Ha Hr. unfold quoteIdentifier, str1. rewrite app_cons_str, app_nil_l_str, app_cons_str.
  cbn [scan_identifiers sc_inQuotes]. rewrite decide_True by done.
  change (toggle_quote (mkScan parts "" false false)) with (mkScan parts "" true true).
  rewrite app_assoc_str, scan_quoted_body by done. rewrite app_nil_l_str, app_cons_str, app_nil_l_str.
  cbn [scan_identifiers sc_inQuotes]. rewrite decide_True by done.
  assert (Hx : toggle_quote (mkScan parts name true true) = mkScan parts name false true) by done.
  destruct rest as [|c r]; [by rewrite Hx|]. rewrite decide_False; [by rewrite Hx|]. intros ->. by apply (Hr r).
Qed.

Lemma flush_ok (parts : list string) (name : string) :
  quotable name -> flush (mkScan parts name false true) = Ok (mkScan (parts ++ [name]) "" false false).
Proof.
  intros (Hne & _ & Ht). unfold flush. cbn [sc_buf sc_parts sc_inQuotes sc_quotedToken]. rewrite Ht.
  by rewrite decide_False.
Qed.

(** A list of quoted names, read up to the last flush. *)
Lemma scan_quoted_list (separator : ascii) (names : list string) (last : string) (parts : list string) :
  separator <> dquote -> Forall quotable names -> quotable last ->
  scan_identifiers separator (join (str1 separator) (map quoteIdentifier (names ++ [last]))) (mkScan parts "" false false) =
  Ok (mkScan (parts ++ names) last false true).
Proof.
  intros Hs Hn Hl. revert parts. induction Hn as [|name names Hq _ IH]; intros parts.
  - cbn [app map join]. rewrite <- (app_nil_r_str (quoteIdentifier last)).
    rewrite scan_quoted; [by rewrite app_nil_r|by destruct Hl as (_ & ? & _)|]. intros r Hr. discriminate Hr.
  - assert (Hj : join (str1 separator) (map quoteIdentifier ((name :: names) ++ [last])) =
      quoteIdentifier name +:+ str1 separator +:+ join (str1 separator) (map quoteIdentifier (names ++ [last]))).
    { cbn [app map]. destruct (map quoteIdentifier (names ++ [last])) eqn:E; [by destruct names|]. done. }
    rewrite Hj. unfold str1 at 1. rewrite app_cons_str, app_nil_l_str.
    rewrite scan_quoted; [|by destruct Hq as (_ & ? & _)|intros r [= He _]; congruence].
    cbn [scan_identifiers sc_inQuotes]. rewrite decide_False by done. rewrite bool_decide_eq_true_2 by done. cbn [negb andb].
    rewrite flush_ok by done. rewrite IH. by rewrite <- app_assoc.
Qed.

Lemma first_byte_trim (c : ascii) (s : string) :
  forallb (fun p => negb (contains_byte c p)) space_seqs = true -> contains_byte c s = true -> trim_space s <> "".
Proof. intros Hc Hs He. pose proof (not_blank c s Hc Hs) as Hb. unfold is_blank in Hb. by rewrite He in Hb. Qed.

Lemma parse_quoted_list (separator : ascii) (names : list string) (last : string) :
  separator <> dquote -> Forall quotable names -> quotable last ->
  parseSeparatedIdentifiers (join (str1 separator) (map quoteIdentifier (names ++ [last]))) separator =
  Ok (names ++ [last]).
Proof.
  intros Hs Hn Hl. unfold parseSeparatedIdentifiers. rewrite decide_False.
  - rewrite scan_quoted_list by done. cbn [sc_inQuotes]. rewrite flush_ok by done. done.
  - apply (first_byte_trim dquote); [by vm_compute|].
    assert (Hj : exists rest, join (str1 separator) (map quoteIdentifier (names ++ [last])) = String dquote rest).
    { destruct names as [|n names]; cbn [app map]; [by eexists|].
      destruct (map quoteIdentifier (names ++ [last])) eqn:E; [by destruct names|]. by eexists. }
    destruct Hj as [rest ->]. cbn [contains_byte]. by rewrite decide_True.
Qed.

(** ** Unquoted names *)

Lemma scan_plain (separator : ascii) (name rest : string) (parts : list string) (buf : string) :
  plain_byte separator = false -> all_bytes plain_byte name = true ->
  scan_identifiers separator (name +:+ rest) (mkScan parts buf false false) =
  scan_identifiers separator rest (mkScan parts (buf +:+ name) false false).
Proof.
  intros Hs. revert buf. induction name as [|c name IH]; intros buf Ha.
  - by rewrite app_nil_l_str, app_nil_r_str.
  - cbn [all_bytes] in Ha. apply andb_prop in Ha as [Hc Ha]. destruct (plain_ascii c Hc) as (H1 & H2 & H3).
    rewrite app_cons_str. cbn [scan_identifiers sc_inQuotes].
    rewrite decide_False by (intros ->; by vm_compute in Hc).
    rewrite bool_decide_eq_false_2 by congruence. cbn [negb andb]. rewrite H3. cbn [negb].
    unfold put_buf. cbn [sc_buf sc_parts sc_inQuotes sc_quotedToken]. rewrite IH by done.
    rewrite utf8_rune_ascii by done. f_equal. f_equal. by rewrite app_assoc_str.
Qed.

Lemma plain_lower (name : string) : all_bytes plain_byte name = true -> latin1_lower name = name.
Proof.
  induction name as [|c name IH]; intros Ha; [done|]. cbn [all_bytes] in Ha. apply andb_prop in Ha as [Hc Ha].
  cbn [latin1_lower]. destruct (plain_ascii c Hc) as (H1 & H2 & _). rewrite decide_False.
  - by rewrite H2, IH.
  - intros He. unfold is_ascii in H1. rewrite He in H1. done.
Qed.

(** No white space rune starts, or ends, with a plain byte. *)
Lemma strip_any_plain (seqs : list string) (c : ascii) (s : string) :
  forallb (fun p => match p with String a _ => negb (plain_byte a) | _ => false end) seqs = true ->
  plain_byte c = true -> strip_any seqs (String c s) = None.
Proof.
  intros Hf Hc. apply strip_any_None. apply Forall_forall. intros p Hp.
  rewrite forallb_forall in Hf. specialize (Hf p). rewrite <- list_elem_of_In in Hf. specialize (Hf Hp).
  destruct p as [|a p]; [done|]. cbn [strip_prefix]. case_decide; [subst; by rewrite Hc in Hf|done].
Qed.

Lemma plain_trim (name : string) : all_bytes plain_byte name = true -> trim_space name = name.
Proof.
  intros Ha. apply trim_space_id.
  - destruct name as [|c s]; [done|]. apply andb_prop in Ha as [Hc _]. by apply strip_any_plain.
  - rewrite <- all_bytes_rev in Ha. destruct (String.rev name) as [|c s]; [done|].
    apply andb_prop in Ha as [Hc _]. by apply strip_any_plain.
Qed.

Lemma parse_plain (separator : ascii) (name : string) :
  plain_byte separator = false -> plain name -> parseSeparatedIdentifiers name separator = Ok [name].
Proof.
  intros Hs [Hne Ha]. unfold parseSeparatedIdentifiers. rewrite plain_trim, decide_False by done.
  rewrite <- (app_nil_r_str name) at 1. rewrite scan_plain by done. cbn [scan_identifiers sc_inQuotes].
  unfold flush. cbn [sc_buf sc_parts sc_inQuotes sc_quotedToken]. rewrite app_nil_l_str, plain_trim, decide_False by done.
  by rewrite plain_lower.
Qed.

(** ** Every result *)

Lemma latin1_lower_nonempty (s : string) : s <> "" -> latin1_lower s <> "".
Proof. destruct s as [|a [|b s]]; [done|..]; intros _; cbn [latin1_lower]; by case_decide. Qed.

Lemma flush_parts (st st' : scan_state) :
  parts_ok st -> flush st = Ok st' -> parts_ok st' /\ sc_parts st' <> [].
Proof.
  intros Hok. unfold flush. case_decide as Ht; [done|]. intros [= <-]. unfold parts_ok. cbn [sc_parts].
  split; [|by destruct (sc_parts st)]. apply Forall_app. split; [done|]. constructor; [|constructor].
  destruct (sc_quotedToken st); [done|]. by apply latin1_lower_nonempty.
Qed.

Lemma scan_parts (separator : ascii) (n : nat) (input : string) (st st' : scan_state) :
  (String.length input <= n)%nat -> parts_ok st -> scan_identifiers separator input st = Ok st' -> parts_ok st'.
Proof.
  revert input st. induction n as [|n IH]; intros input st Hn Hok.
  { destruct input; [|simpl in Hn; lia]. by intros [= <-]. }
  destruct input as [|ch rest]; [by intros [= <-]|]. cbn [String.length] in Hn. cbn [scan_identifiers].
  destruct (decide (ch = dquote)).
  - destruct (sc_inQuotes st); [|intros; eapply IH; [| |done]; [lia|done]].
    destruct rest as [|ch2 rest2]; [intros; eapply IH; [| |done]; [simpl; lia|done]|].
    case_decide; intros; (eapply IH; [| |done]; [simpl in *; lia|done]).
  - destruct (bool_decide (ch = separator) && negb (sc_inQuotes st)).
    + destruct (flush st) as [e|st1] eqn:Ef; [done|]. apply flush_parts in Ef as [? _]; [|done].
      intros. eapply IH; [| |done]; [lia|done].
    + destruct (negb (sc_inQuotes st) && negb (unquoted_ok ch)); [done|]. intros. eapply IH; [| |done]; [lia|done].
Qed.

Lemma parse_parts (separator : ascii) (input : string) (names : list string) :
  parseSeparatedIdentifiers input separator = Ok names -> names <> [] /\ Forall (fun p => p <> "") names.
Proof.
  unfold parseSeparatedIdentifiers. case_decide; [done|].
  destruct (scan_identifiers _ _ _) as [e|st] eqn:Es; [done|]. destruct (sc_inQuotes st); [done|].
  destruct (flush st) as [e|st'] eqn:Ef; [done|]. intros [= <-].
  apply (scan_parts separator (String.length input)) in Es; [|done|by constructor].
  by apply flush_parts in Ef as [? ?].
Qed.

(** * Properties *)

(** Quoting is read back: a relation written with quoted identifiers, as
    message keys and queries write it, is parsed to itself, and so is a list
    of quoted columns, for ASCII names without white space around them. *)
Theorem quoted_identifiers_roundtrip (r : Relation) (columns : list string) :
  quotable (rel_Schema r) -> quotable (rel_Table r) -> columns <> [] -> Forall quotable columns ->
  ParseRelation (quoteQualifiedRelation r) = Ok r /\
  ParseColumns (join "," (map quoteIdentifier columns)) = Ok columns.
Proof.
  intros Hs Ht Hne Hc. split.
  - unfold ParseRelation, quoteQualifiedRelation.
    pose proof (parse_quoted_list dot [rel_Schema r] (rel_Table r)) as Hp. cbn [app map join] in Hp.
    change "." with (str1 dot). rewrite Hp; [by destruct r|done|by constructor|done].
  - destruct (exists_last Hne) as (init & x & ->). apply Forall_app in Hc as [Hi Hx]. inversion_clear Hx.
    unfold ParseColumns. change "," with (str1 comma). by apply parse_quoted_list.
Qed.

Lemma quoted_identifiers_roundtrip_witness :
  ParseRelation (quoteQualifiedRelation (mkRelation "My Schema" (bytes [111; 114; 34; 120]%N))) = Ok (mkRelation "My Schema" (bytes [111; 114; 34; 120]%N)).
Proof.
  apply (quoted_identifiers_roundtrip (mkRelation "My Schema" (bytes [111; 114; 34; 120]%N)) ["id"]).
  - split_and!; [discriminate|reflexivity|reflexivity].
  - split_and!; [discriminate|reflexivity|reflexivity].
  - discriminate.
  - repeat constructor. discriminate.
Defined.

(** Names are never empty: whatever is accepted yields at least one name
    and no empty one; a plain lower-case name is a table of the public
    schema, or a column, with that very name. *)
Theorem parsed_names_nonempty (input name : string) (separator : ascii) (names : list string) :
  parseSeparatedIdentifiers input separator = Ok names -> plain name ->
  names <> [] /\ Forall (fun p => p <> "") names /\
  ParseRelation name = Ok (mkRelation "public" name) /\ ParseColumns name = Ok [name].
Proof.
  intros Hp Hn. destruct (parse_parts _ _ _ Hp). split_and!; [done|done|..].
  - unfold ParseRelation. by rewrite parse_plain.
  - unfold ParseColumns. by rewrite parse_plain.
Qed.

Lemma parsed_names_nonempty_witness : ParseRelation "items_2" = Ok (mkRelation "public" "items_2").
Proof.
  apply (parsed_names_nonempty "a, B" "items_2" comma ["a"; "b"]); [reflexivity|]. split; [discriminate|reflexivity].
Defined.

(** Outside ASCII a name is encoded twice: each byte of a quoted name is
    taken for a code point of its own. *)
Example quoted_non_ascii_mangled :
  ParseRelation (quoteIdentifier (bytes [195; 169]%N)) = Ok (mkRelation "public" (bytes [195; 131; 194; 169]%N)).
Proof. vm_compute. reflexivity. Qed.

(** White space around a quoted name is dropped, although it is part of the
    name. *)
Example quoted_space_dropped : ParseRelation (quoteIdentifier " items") = Ok (mkRelation "public" "items").
Proof. vm_compute. reflexivity. Qed.
