(* ===== verification/Request.v ===== *)
(** Requests: [src/internal/protocol/request.go].

    A request is its method, its query as net/url parses it, its body and its
    headers.  Parsing and validation are functions of these; dynamic values
    are the JSON documents of the body. *)

From Stdlib Require Import Ascii String ZArith NArith Lia.
From S2P Require Import Prelude GoValue JsonText Float64 GoFormat Offset ShapeTypes SqlInspect Persist Identifiers.

(** * Definitions *)

(** An http.Request: the bytes of the body that can be read and the error that
    comes after them, the query, the headers by canonical key, the path. *)
Record Request : Type := mkRequest {
  r_Method : string;
  r_Body : string * option string;
  r_Query : gmap string (list string);
  r_Header : gmap string string;
  r_Path : string
}.

Definition header_get (name : string) (r : Request) : string := default "" (r_Header r !! canonical_key name).

(** ** Patterns *)

Definition is_digits (s : string) : bool := negb (bool_decide (s = "")) && all_bytes is_digit s.

(** [offsetPattern]. *)
Definition offsetPattern (s : string) : bool :=
  bool_decide (s = "-1") || bool_decide (s = "now") ||
  match cut_byte (byte_of 95) s with
  | Some (a, b) => is_digits a && (is_digits b || bool_decide (b = "inf"))
  | None => false
  end.

(** [deepObjectPattern] on a key, for the wanted prefix: the number. *)
Definition deepObjectPattern (prefix key : string) : option string :=
  r ← strip_prefix (prefix +:+ "[") key;
  match span_digits r with
  | (EmptyString, _) => None
  | (digits, rest) => if decide (rest = "]") then Some digits else None
  end.

(** ** Validation errors *)

Abbreviation ValidationErrors := (gmap string (list string)).

Definition add_error (field message : string) (e : ValidationErrors) : ValidationErrors :=
  <[field := default [] (e !! field) ++ [message]]> e.

Definition error_if (b : bool) (field message : string) (e : ValidationErrors) : ValidationErrors :=
  if b then add_error field message e else e.

(** ** Dynamic values *)

(** A Go map from its entries in order: a later entry replaces an earlier one. *)
Definition go_map {A} (l : list (string * A)) : gmap string A := list_to_map (reverse l).

(** [fmt.Sprint]: a map is printed in key order. *)
Fixpoint sprint (value : any) : string :=
  match value with
  | ANil => "<nil>"
  | ABool b => format_bool b
  | AInt z => format_Z z
  | AFloat lit => match ParseFloat lit with Some f => format_v f | None => "" end
  | AString s => s
  | AStrings l => "[" +:+ join " " l +:+ "]"
  | AUint32s l => "[" +:+ join " " (map format_Z l) +:+ "]"
  | ASlice l => "[" +:+ join " " (map sprint l) +:+ "]"
  | AMap l =>
      let m := go_map (map (fun kv => (kv.1, sprint kv.2)) l) in
      "map[" +:+ join " " (map (fun k => k +:+ ":" +:+ default "" (m !! k)) (sorted_keys m)) +:+ "]"
  | AMaps l =>
      let print kvs :=
        let m := go_map (map (fun kv => (kv.1, sprint kv.2)) kvs) in
        "map[" +:+ join " " (map (fun k => k +:+ ":" +:+ default "" (m !! k)) (sorted_keys m)) +:+ "]" in
      "[" +:+ join " " (map print l) +:+ "]"
  end.

Definition toString (value : any) : string :=
  match value with
  | AString s => s
  | AFloat lit =>
      match ParseFloat lit with
      | Some f => if float_is_int f then format_Z (float_to_int f) else format_f f
      | None => ""
      end
  | ABool b => format_bool b
  | _ => trim_space (sprint value)
  end.

(** No rune outside ASCII has a lower-case letter of "false" as its lower
    case. *)
Definition truthy (value : any) : bool :=
  match value with
  | ABool b => b
  | AString s => negb (bool_decide (trim_space (ascii_lower s) = "false"))
  | ANil => false
  | _ => true
  end.

Definition convertAnyMap (value : any) : gmap string any :=
  match value with AMap l => go_map l | _ => ∅ end.

Definition convertValueMapStrict (value : any) : gmap string string * bool :=
  let source := convertAnyMap value in
  if decide (source = ∅) then (∅, match value with ANil => true | _ => false end)
  else (toString <$> source, true).

Definition convertValueMap (value : any) : gmap string string := (convertValueMapStrict value).1.

Definition parseIntPointer (value : any) : option Z :=
  match value with
  | AFloat lit => float_to_int <$> ParseFloat lit
  | AInt z => Some z
  | AString s => parse_int64 (trim_space s)
  | _ => None
  end.

(** ** The body *)

(** Decoding into [any] fails on a number no float64 is near to. *)
Fixpoint numbers_ok (j : json) : bool :=
  match j with
  | JNum lit => bool_decide (is_Some (ParseFloat lit))
  | JArr l => forallb numbers_ok l
  | JObj l => forallb (fun kv => numbers_ok kv.2) l
  | _ => true
  end.

Definition unmarshal_any (text : string) : option any :=
  j ← parse_json text; if numbers_ok j then Some (of_json j) else None.

(** json.Unmarshal into a map[string]string. *)
Definition unmarshal_string_map (text : string) : option (gmap string string) :=
  j ← parse_json text; dec_map dec_text (Some j).

Record ParseError : Type := mkParseError { pe_Status : Z; pe_Body : gmap string any }.

Definition maxBodyBytes : Z := 1048576.

Fixpoint byte_length (s : string) : Z := match s with EmptyString => 0 | String _ s' => 1 + byte_length s' end.

Section parsing.
(** The text of the error json.Unmarshal returns for a text, and the table of
    printable code points. *)
Variable json_error : string -> string.
Variable is_print : N -> bool.

(** At most one byte more than the limit is read, so that a longer body is
    refused before its read error is seen. *)
Definition parseBody (r : Request) : result ParseError (gmap string any) :=
  if negb (bool_decide (r_Method r = "POST")) then Ok ∅
  else
    let '(raw, err) := r_Body r in
    if maxBodyBytes <? byte_length raw then Err (mkParseError 413 {["error" := AString "Request body too large"]})
    else match err with
    | Some _ => Err (mkParseError 400 {["error" := AString "Failed to read request body"]})
    | None =>
        if is_blank raw then Ok ∅
        else match unmarshal_any raw with
        | None => Err (mkParseError 400 (<["error" := AString "Invalid JSON in request body"]> {["details" := AString (json_error raw)]}))
        | Some (AMap l) => Ok (go_map l)
        | Some _ => Err (mkParseError 400 {["error" := AString "Request body must be a JSON object"]})
        end
    end.

(** ** Values of the query and the body *)

Definition queryStringValue (query : gmap string (list string)) (key : string) : string :=
  default "" (values ← query !! key; last values).

Definition queryBoolValue (query : gmap string (list string)) (key : string) : bool :=
  match (values ← query !! key; last values) with Some value => truthy (AString value) | None => false end.

Definition boolValue (body : gmap string any) (query : gmap string (list string)) (key : string) : bool :=
  match body !! key with Some value => truthy value | None => queryBoolValue query key end.

(** The loop over the query: the keys of a map are distinct, so its order does
    not matter. *)
Definition deep_object_entries (query : gmap string (list string)) (prefix : string) : gmap string string :=
  list_to_map (omap (fun kv => digits ← deepObjectPattern prefix kv.1; value ← last kv.2; Some (digits, value)) (map_to_list query)).

Definition parseStringMap (body : gmap string any) (query : gmap string (list string)) (prefix : string) : gmap string string :=
  let from_body := match body !! prefix with Some value => convertValueMap value | None => ∅ end in
  let result := deep_object_entries query prefix ∪ from_body in
  if negb (bool_decide (result = ∅)) then result
  else match (values ← query !! prefix; last values) with
  | Some value => default ∅ (unmarshal_string_map value)
  | None => ∅
  end.

Definition parseQueryStringMap (query : gmap string (list string)) (prefix : string) : gmap string string := parseStringMap ∅ query prefix.

Definition valueFromMaps (body : gmap string any) (query : gmap string string) (key : string) : string :=
  match body !! key with Some value => toString value | None => default "" (query !! key) end.

(** [None] where the key is absent; the inner option is the value or invalid. *)
Definition intPointerFromMaps (body : gmap string any) (query : gmap string string) (key : string) : option (option Z) :=
  match body !! key with
  | Some value => Some (parseIntPointer value)
  | None => match query !! key with Some value => Some (parseIntPointer (AString value)) | None => None end
  end.

(** ** The subset *)

Definition subset_keys : list string := ["where"; "params"; "limit"; "offset"; "order_by"; "where_expr"; "order_by_expr"].

Definition subset_body (body : gmap string any) : gmap string any :=
  match body !! "subset" with
  | Some value => convertAnyMap value
  | None => filter (fun kv => kv.1 ∈ subset_keys) body
  end.

Definition subset_query (query : gmap string (list string)) : gmap string string :=
  list_to_map (omap (fun kv => key ← strip_prefix "subset__" kv.1; value ← last kv.2; Some (key, value)) (map_to_list query)).

Definition subset_params (subsetBody : gmap string any) (subsetQuery : gmap string string) (errors : ValidationErrors) :
    gmap string string * ValidationErrors :=
  match subsetBody !! "params", subsetQuery !! "params" with
  | Some params, _ =>
      let '(parsed, valid) := convertValueMapStrict params in
      if valid then (parsed, errors) else (∅, add_error "params" "params must be a JSON object" errors)
  | None, Some raw =>
      match unmarshal_string_map raw with
      | Some parsed => (parsed, errors)
      | None => (∅, add_error "params" "params must be valid JSON" errors)
      end
  | None, None => (∅, errors)
  end.

Definition subset_int (subsetBody : gmap string any) (subsetQuery : gmap string string) (key : string) (errors : ValidationErrors) :
    option Z * ValidationErrors :=
  match intPointerFromMaps subsetBody subsetQuery key with
  | None => (None, errors)
  | Some (Some z) => (Some z, errors)
  | Some None => (None, add_error key "is invalid" errors)
  end.

Definition parseSubset (body : gmap string any) (query : gmap string (list string)) : option Subset * ValidationErrors :=
  let subsetBody := subset_body body in
  let subsetQuery := subset_query query in
  if decide (subsetBody = ∅ /\ subsetQuery = ∅) then (None, ∅)
  else
    let '(params, errors) := subset_params subsetBody subsetQuery ∅ in
    let '(limit, errors) := subset_int subsetBody subsetQuery "limit" errors in
    let '(offset, errors) := subset_int subsetBody subsetQuery "offset" errors in
    (Some (mkSubset (valueFromMaps subsetBody subsetQuery "where") params limit offset
       (valueFromMaps subsetBody subsetQuery "order_by") (valueFromMaps subsetBody subsetQuery "where_expr")
       (valueFromMaps subsetBody subsetQuery "order_by_expr")), errors).

(** ** The request *)

Record ShapeRequest : Type := mkShapeRequest {
  sr_Method : string;
  sr_TableRaw : string;
  sr_Relation : Relation;
  sr_TableParseError : string;
  sr_Offset : string;
  sr_Handle : string;
  sr_Cursor : string;
  sr_Live : bool;
  sr_LiveSSE : bool;
  sr_ExperimentalLiveSSE : bool;
  sr_Where : string;
  sr_Params : gmap string string;
  sr_ColumnsRaw : string;
  sr_Columns : list string;
  sr_ColumnsParseError : string;
  sr_Replica : string;
  sr_Log : string;
  sr_Subset : option Subset;
  sr_SubsetErrors : ValidationErrors;
  sr_Secret : string;
  sr_LegacySecret : string
}.

Definition ident_error_text (e : identError) : string :=
  match e with
  | ZeroLengthIdentifier => "Invalid zero-length delimited identifier"
  | SpecialCharacter ch => "Invalid unquoted identifier contains special characters: " +:+ go_quote is_print (utf8_rune (code ch))
  | UnterminatedQuote => "Unterminated quoted identifier"
  | InvalidQualified input => "Invalid qualified identifier: " +:+ go_quote is_print input
  end.

Definition ParseShapeRequest (r : Request) : result ParseError ShapeRequest :=
  match parseBody r with
  | Err e => Err e
  | Ok body =>
      let query := r_Query r in
      let value := queryStringValue query in
      let experimental := queryBoolValue query "experimental_live_sse" in
      let '(relation, tableError) :=
        if decide (value "table" = "") then (zero_relation, "")
        else match ParseRelation (value "table") with
             | Ok relation => (relation, "")
             | Err e => (zero_relation, ident_error_text e)
             end in
      let '(columns, columnsError) :=
        if decide (value "columns" = "") then ([], "")
        else match ParseColumns (value "columns") with
             | Ok columns => (columns, "")
             | Err e => ([], ident_error_text e)
             end in
      let '(subset, subsetErrors) := parseSubset body query in
      Ok (mkShapeRequest (r_Method r) (value "table") relation tableError (value "offset") (value "handle") (value "cursor")
        (queryBoolValue query "live") (boolValue body query "live_sse" || experimental) experimental
        (value "where") (parseQueryStringMap query "params") (value "columns") columns columnsError
        (value "replica") (value "log") subset subsetErrors (value "secret") (value "api_secret"))
  end.

(** ** Validation *)

Definition ValidateShapeRequest (req : ShapeRequest) : ValidationErrors :=
  let errors := ∅ in
  let errors :=
    if is_blank (sr_TableRaw req) then add_error "table" "can't be blank" errors
    else error_if (negb (bool_decide (sr_TableParseError req = ""))) "table" (sr_TableParseError req) errors in
  let errors :=
    if is_blank (sr_Offset req) then add_error "offset" "can't be blank" errors
    else error_if (negb (offsetPattern (sr_Offset req))) "offset" "has invalid format" errors in
  let errors := error_if (negb (bool_decide (sr_ColumnsRaw req = "")) && negb (bool_decide (sr_ColumnsParseError req = "")))
    "columns" (sr_ColumnsParseError req) errors in
  let errors := error_if (negb (bool_decide (sr_Offset req ∈ [""; "-1"; "now"])) && is_blank (sr_Handle req))
    "handle" "can't be blank when offset != -1" errors in
  let errors := error_if (sr_Live req && bool_decide (sr_Offset req = "-1")) "live" "can't be true when offset == -1" errors in
  error_if (sr_LiveSSE req && negb (sr_Live req)) "live_sse" "can't be true unless live is also true" errors.

Definition subsetContainsDependencyKeyword (subset : option Subset) : bool :=
  match subset with
  | None => false
  | Some s => ContainsDependencyKeyword (sub_Where s) || ContainsDependencyKeyword (sub_WhereExpr s) ||
      ContainsDependencyKeyword (sub_OrderBy s) || ContainsDependencyKeyword (sub_OrderByExpr s)
  end.

Definition ValidateSubsetRequest (req : ShapeRequest) : ValidationErrors :=
  let errors := sr_SubsetErrors req in
  match sr_Subset req with
  | None => errors
  | Some s =>
      let errors := error_if (match sub_Limit s with Some z => z <=? 0 | None => false end) "limit" "must be greater than 0" errors in
      let errors := error_if (match sub_Offset s with Some z => z <? 0 | None => false end) "offset" "must be greater than or equal to 0" errors in
      let errors := error_if ((bool_decide (is_Some (sub_Limit s)) || bool_decide (is_Some (sub_Offset s))) && is_blank (sub_OrderBy s))
        "order_by" "order_by is required when limit or offset is present" errors in
      error_if (subsetContainsDependencyKeyword (Some s)) "where" "Subqueries are not allowed in subsets" errors
  end.
End parsing.

(** * Lemmas *)

Lemma add_error_nonempty (field message : string) (e : ValidationErrors) : add_error field message e <> ∅.
Proof. apply insert_non_empty. Qed.

Lemma error_if_empty (b : bool) (field message : string) (e : ValidationErrors) : error_if b field message e = ∅ <-> b = false /\ e = ∅.
Proof. unfold error_if. destruct b; [|tauto]. split; [by intros ?%add_error_nonempty|by intros [[=] _]]. Qed.

Lemma either_error_empty (b c : bool) (field m1 m2 : string) (e : ValidationErrors) :
  (if b then add_error field m1 e else error_if c field m2 e) = ∅ <-> b = false /\ c = false /\ e = ∅.
Proof. destruct b; [|rewrite error_if_empty; tauto]. split; [by intros ?%add_error_nonempty|by intros [[=] _]]. Qed.

Lemma is_digits_format (z : Z) : 0 <= z -> is_digits (format_Z z) = true.
Proof.
  intros Hz. rewrite format_Z_nonneg by done. unfold is_digits. rewrite format_N_digits, andb_true_r.
  destruct (format_N_head (Z.to_N z)) as (a & s & -> & _). done.
Qed.

Lemma span_digits_exact (d u : string) : all_bytes is_digit d = true -> delimited u -> span_digits (d +:+ u) = (d, u).
Proof. intros Hd Hu. rewrite (span_digits_app d d "" u); [done|by apply span_digits_all|done]. Qed.

Lemma span_digits_split (s d u : string) : span_digits s = (d, u) -> s = d +:+ u /\ all_bytes is_digit d = true.
Proof.
  revert d u. induction s as [|c s IH]; simpl; intros d u; [by intros [= <- <-]|].
  destruct (is_digit c) eqn:Hc; [|by intros [= <- <-]]. destruct (span_digits s) as [d' u'].
  intros [= <- <-]. destruct (IH d' u' eq_refl) as [-> Hd]. simpl. by rewrite Hc.
Qed.

(** The keys the pattern accepts are the ones built from a number. *)
Lemma deepObjectPattern_spec (prefix key digits : string) :
  deepObjectPattern prefix key = Some digits <-> key = prefix +:+ "[" +:+ digits +:+ "]" /\ is_digits digits = true.
Proof.
  unfold deepObjectPattern. split.
  - destruct (strip_prefix (prefix +:+ "[") key) as [r|] eqn:E; [|done]. apply strip_prefix_Some in E as ->. cbn [mbind option_bind].
    destruct (span_digits r) as [d u] eqn:Es. apply span_digits_split in Es as [-> Hd].
    destruct d as [|c d]; [done|]. case_decide as Hu; [|done]. intros [= <-]. subst u. split; [by rewrite app_assoc_str|].
    unfold is_digits. by rewrite Hd.
  - intros [-> Hd]. rewrite <- app_assoc_str, strip_prefix_app. cbn [mbind option_bind].
    unfold is_digits in Hd. apply andb_true_iff in Hd as [Hne Hd].
    rewrite span_digits_exact; [|done|apply (delimited_by 93); set_solver]. destruct digits; [done|]. by rewrite decide_True.
Qed.

Lemma lookup_collected {A B} (f : string * A -> option (string * B)) (m : gmap string A) (k : string) (v : B) :
  (forall kv1 kv2 x y z, f kv1 = Some (x, y) -> f kv2 = Some (x, z) -> kv1.1 = kv2.1) ->
  (list_to_map (omap f (map_to_list m)) : gmap string B) !! k = Some v <-> exists kv, m !! kv.1 = Some kv.2 /\ f kv = Some (k, v).
Proof.
  intros Hf. rewrite <- elem_of_list_to_map.
  - rewrite list_elem_of_omap. split; intros ([k' a] & H1 & H2); exists (k', a); (split; [|done]); by apply elem_of_map_to_list.
  - assert (Hn : NoDup (map_to_list m).*1) by apply NoDup_fst_map_to_list.
    induction (map_to_list m) as [|kv l IH]; [constructor|]. apply NoDup_cons in Hn as [Hn1 Hn2]. cbn [omap list_omap].
    destruct (f kv) as [[x y]|] eqn:E; [|by apply IH]. cbn [fmap list_fmap]. constructor; [|by apply IH].
    intros ([x' z] & Hx & Hin)%list_elem_of_fmap. simpl in Hx. subst x'. apply list_elem_of_omap in Hin as (kv' & Hin & E').
    apply Hn1. rewrite (Hf _ _ _ _ _ E E'). by apply list_elem_of_fmap_2.
Qed.

Lemma starts_value_not_space (c : ascii) : starts_value c -> forallb (fun p => negb (contains_byte c p)) space_seqs = true.
Proof.
  assert (H : forall c, forallb (fun p => negb (contains_byte c p)) space_seqs = true \/ ~ starts_value c).
  { intros [[] [] [] [] [] [] [] []]; first [left; vm_compute; reflexivity | right; apply (bool_decide_unpack _); vm_compute; exact I]. }
  destruct (H c); tauto.
Qed.

Lemma ValidateShapeRequest_empty (req : ShapeRequest) :
  ValidateShapeRequest req = ∅ <->
  is_blank (sr_TableRaw req) = false /\ sr_TableParseError req = "" /\
  is_blank (sr_Offset req) = false /\ offsetPattern (sr_Offset req) = true /\
  (sr_ColumnsRaw req = "" \/ sr_ColumnsParseError req = "") /\
  (sr_Offset req ∈ [""; "-1"; "now"] \/ is_blank (sr_Handle req) = false) /\
  (sr_Live req = true -> sr_Offset req <> "-1") /\ (sr_LiveSSE req = true -> sr_Live req = true).
Proof.
  unfold ValidateShapeRequest. rewrite !error_if_empty, !either_error_empty.
  rewrite !andb_false_iff, !negb_false_iff, !bool_decide_eq_true, bool_decide_eq_false.
  destruct (sr_Live req), (sr_LiveSSE req); intuition (try discriminate; auto).
Qed.

(** * Properties *)

(** Validation is exact: a request has no errors just when its table parses,
    its offset has the format, its columns parse, a continued read names a
    handle, a live read does not start at the beginning, and a stream is
    live. *)
Theorem validated_shape_request (req : ShapeRequest) :
  ValidateShapeRequest req = ∅ <->
  is_blank (sr_TableRaw req) = false /\ sr_TableParseError req = "" /\
  is_blank (sr_Offset req) = false /\ offsetPattern (sr_Offset req) = true /\
  (sr_ColumnsRaw req = "" \/ sr_ColumnsParseError req = "") /\
  (sr_Offset req ∈ [""; "-1"; "now"] \/ is_blank (sr_Handle req) = false) /\
  (sr_Live req = true -> sr_Offset req <> "-1") /\ (sr_LiveSSE req = true -> sr_Live req = true).
Proof. apply ValidateShapeRequest_empty. Qed.

(** Offsets the server hands out pass validation. *)
Theorem handed_out_offsets_accepted (lsn opPos n : Z) :
  0 <= lsn -> 0 <= opPos -> 0 <= n ->
  offsetPattern InitialOffset = true /\ offsetPattern NowOffset = true /\
  offsetPattern (FormatSequenceOffset n) = true /\ offsetPattern (FormatLSNOffset lsn opPos) = true.
Proof.
  intros Hl Hp Hn. split_and!; [reflexivity..| |].
  - unfold FormatSequenceOffset, offsetPattern. change ("0_" +:+ format_Z n) with ("0" +:+ String (byte_of 95) (format_Z n)).
    rewrite cut_byte_app by reflexivity. by rewrite (is_digits_format n Hn), orb_true_r.
  - unfold FormatLSNOffset, offsetPattern. change (format_Z lsn +:+ "_" +:+ format_Z opPos) with (format_Z lsn +:+ String (byte_of 95) (format_Z opPos)).
    rewrite cut_byte_app by apply underscore_not_in_format. by rewrite (is_digits_format lsn Hl), (is_digits_format opPos Hp), orb_true_r.
Qed.

Lemma handed_out_offsets_accepted_witness : offsetPattern (FormatLSNOffset 26843545600 3) = true.
Proof. apply (handed_out_offsets_accepted 26843545600 3 0); lia. Defined.

(** Numbered parameters of the query: when there is one, the parameters are
    exactly the values of the keys [params[n]], the last value of each. *)
Theorem query_params_exact (query : gmap string (list string)) (digits value : string) :
  (exists d values, is_digits d = true /\ query !! ("params[" +:+ d +:+ "]") = Some values /\ values <> []) ->
  parseQueryStringMap query "params" !! digits = Some value <->
  is_digits digits = true /\ exists values, query !! ("params[" +:+ digits +:+ "]") = Some values /\ last values = Some value.
Proof.
  assert (Hl : forall k v, deep_object_entries query "params" !! k = Some v <->
    is_digits k = true /\ exists values, query !! ("params[" +:+ k +:+ "]") = Some values /\ last values = Some v).
  { intros k v. unfold deep_object_entries. rewrite lookup_collected.
    - split.
      + intros ([key values] & Hq & Hf). cbn [fst snd] in *. destruct (deepObjectPattern "params" key) as [d|] eqn:Ed; [|done].
        apply deepObjectPattern_spec in Ed as [-> Hd]. cbn [mbind option_bind] in Hf.
        destruct (last values) as [x|] eqn:Ex; [|done]. injection Hf as -> ->. eauto.
      + intros (Hd & values & Hq & Hv). exists ("params[" +:+ k +:+ "]", values). cbn [fst snd]. split; [done|].
        assert (deepObjectPattern "params" ("params[" +:+ k +:+ "]") = Some k) as -> by (by apply deepObjectPattern_spec).
        cbn [mbind option_bind]. by rewrite Hv.
    - intros [k1 v1] [k2 v2] x y z H1 H2. cbn [fst snd] in *.
      destruct (deepObjectPattern "params" k1) as [d1|] eqn:E1; [|done]. destruct (deepObjectPattern "params" k2) as [d2|] eqn:E2; [|done].
      apply deepObjectPattern_spec in E1 as [-> _], E2 as [-> _]. cbn [mbind option_bind] in *.
      destruct (last v1); [|done]. destruct (last v2); [|done]. by injection H1 as -> _; injection H2 as -> _. }
  intros (d & values & Hd & Hq & Hne). unfold parseQueryStringMap, parseStringMap. rewrite lookup_empty, map_union_empty.
  rewrite bool_decide_false; [by rewrite <- Hl|]. intros He. destruct (last values) as [v|] eqn:Ev; [|by apply last_None in Ev].
  assert (Hv : deep_object_entries query "params" !! d = Some v) by (apply Hl; eauto). by rewrite He, lookup_empty in Hv.
Qed.

Lemma query_params_exact_witness :
  parseQueryStringMap (<["params[1]" := ["a"; "b"]]> {["table" := ["items"]]}) "params" !! "1" = Some "b".
Proof.
  apply (query_params_exact (<["params[1]" := ["a"; "b"]]> {["table" := ["items"]]}) "1" "b").
  - exists "1", ["a"; "b"]. done.
  - split; [done|]. exists ["a"; "b"]. done.
Defined.

(** The body of a request is read as it was sent: a document that fits the
    limits, printed as encoding/json prints it, is the object that was sent, and
    a document that is no object is refused. *)
Theorem body_object_decoded (json_error : string -> string) (r : Request) (n : nat) (j : json) :
  r_Method r = "POST" -> r_Body r = (json_print j, None) -> byte_length (json_print j) <= maxBodyBytes ->
  json_ok n j = true -> (N.of_nat n <= maxNestingDepth)%N -> numbers_ok (reread j) = true ->
  parseBody json_error r = match of_json (reread j) with
    | AMap l => Ok (go_map l)
    | _ => Err (mkParseError 400 {["error" := AString "Request body must be a JSON object"]})
    end.
Proof.
  intros Hm Hb Hlen Hok Hn Hnum. unfold parseBody. rewrite Hm, Hb. cbn [bool_decide negb].
  destruct (Z.ltb_spec maxBodyBytes (byte_length (json_print j))); [lia|].
  unfold unmarshal_any. rewrite (parse_print n j Hok Hn). cbn [mbind option_bind]. rewrite Hnum.
  destruct (json_print_head n j Hok) as (c & s & E & Hc).
  assert (Hblank : is_blank (json_print j) = false); [|rewrite Hblank; by destruct (of_json (reread j))].
  apply (not_blank c); [by apply starts_value_not_space|]. rewrite E. simpl. by rewrite decide_True.
Qed.

Lemma body_object_decoded_witness :
  parseBody (fun _ => "") (mkRequest "POST" (json_print (JObj [("limit", JNum "10")]), None) ∅ ∅ "/v1/shape") =
  Ok {["limit" := AFloat "10"]}.
Proof.
  apply (body_object_decoded (fun _ => "") (mkRequest "POST" (json_print (JObj [("limit", JNum "10")]), None) ∅ ∅ "/v1/shape") 1 (JObj [("limit", JNum "10")]));
    first [reflexivity | vm_compute; discriminate | vm_compute; reflexivity].
Defined.

(** An integer in a body keeps its digits as a parameter and its value as a
    limit, below 2^53. *)
Theorem body_integer_kept (z : Z) :
  Z.abs z < two_53 ->
  numbers_ok (JNum (format_Z z)) = true /\ toString (of_json (JNum (format_Z z))) = format_Z z /\
  parseIntPointer (of_json (JNum (format_Z z))) = Some z.
Proof.
  intros Hz. destruct (ParseFloat_int z Hz) as (f & E & Ht & Hi). unfold two_53 in Hz.
  assert (Hr : (int64_min <=? float_trunc f) && (float_trunc f <=? int64_max) = true)
    by (rewrite Ht; unfold int64_min, int64_max; apply andb_true_iff; rewrite !Z.leb_le; lia).
  cbn [numbers_ok of_json toString parseIntPointer]. rewrite E. split_and!.
  - by rewrite bool_decide_true.
  - unfold float_is_int, float_to_int. by rewrite Hi, Hr, Ht.
  - cbn [fmap option_fmap option_map]. unfold float_to_int. by rewrite Hr, Ht.
Qed.

Lemma body_integer_kept_witness : parseIntPointer (of_json (JNum "25")) = Some 25.
Proof. apply (body_integer_kept 25). reflexivity. Defined.

(** Above 2^53 a number in a body is another one. *)
Example body_integer_rounded : toString (of_json (JNum "9007199254740993")) = "9007199254740992".
Proof. vm_compute. reflexivity. Qed.

(** An explicit null is the text "<nil>". *)
Example null_where_is_text :
  (parseSubset {["where" := ANil]} ∅).1 = Some (mkSubset "<nil>" ∅ None None "" "" "").
Proof. vm_compute. reflexivity. Qed.

(** An empty object of parameters is refused as if it were no object. *)
Example empty_params_refused :
  (parseSubset {["params" := AMap []]} ∅).2 = {["params" := ["params must be a JSON object"]]}.
Proof. vm_compute. reflexivity. Qed.
