(* ===== verification/Response.v ===== *)
(** Responses: [src/internal/protocol/response.go].

    A response writer holds the headers, what was sent of them with the status,
    and the body.  Headers set after the status was written have no effect, and
    a second status has none either. *)

From Stdlib Require Import Ascii String ZArith NArith Lia.
From S2P Require Import Prelude GoValue JsonText GoFormat Config Offset ShapeTypes Persist Admission Request.

(** * Definitions *)

(** ** The response writer *)

Record Writer : Type := mkWriter {
  w_Header : gmap string string;
  w_Sent : option (Z * gmap string string);
  w_Body : string
}.

Definition new_writer : Writer := mkWriter ∅ None "".

Definition set_header (key value : string) (w : Writer) : Writer :=
  mkWriter (<[canonical_key key := value]> (w_Header w)) (w_Sent w) (w_Body w).

Definition del_header (key : string) (w : Writer) : Writer :=
  mkWriter (delete (canonical_key key) (w_Header w)) (w_Sent w) (w_Body w).

Definition write_header (status : Z) (w : Writer) : Writer :=
  match w_Sent w with
  | Some _ => w
  | None => mkWriter (w_Header w) (Some (status, w_Header w)) (w_Body w)
  end.

(** The first write sends the status 200 when none was sent. *)
Definition write_text (text : string) (w : Writer) : Writer :=
  let w := write_header 200 w in mkWriter (w_Header w) (w_Sent w) (w_Body w +:+ text).

(** What the client sees. *)
Definition status_of (w : Writer) : option Z := fst <$> w_Sent w.
Definition sent_header (key : string) (w : Writer) : option string := '(_, h) ← w_Sent w; h !! canonical_key key.

(** ** Bodies *)

(** A map is written in the order of its keys. *)
Definition obj (l : list (string * json)) : json := map_json (fun j => j) (list_to_map l).

Definition validation_json (errors : ValidationErrors) : json := map_json (fun l => JArr (map JStr l)) errors.

Definition any_map_json (m : gmap string any) : json := map_json to_json m.

Definition electricHeaders : list string :=
  ["electric-cursor"; "electric-handle"; "electric-has-data"; "electric-offset"; "electric-schema"; "electric-snapshot";
   "electric-up-to-date"; "electric-internal-known-error"; "retry-after"].

Definition ExposedHeadersValue : string := join "," electricHeaders.

Definition content_type_json : string := "application/json; charset=utf-8".

(** The encoder ends a document with a newline. *)
Definition WriteJSON (status : Z) (body : json) (w : Writer) : Writer :=
  write_text (json_print body +:+ str1 nl) (write_header status (set_header "Content-Type" content_type_json w)).

Definition WriteError (status : Z) (body : json) (w : Writer) : Writer :=
  WriteJSON status body (set_header "Surrogate-Control" "no-store" (set_header "Cache-Control" "no-store" w)).

Definition WriteInvalidRequestBody (errors : json) (w : Writer) : Writer :=
  WriteError 400 (obj [("message", JStr "Invalid request"); ("errors", errors)]) w.

Definition WriteInvalidRequest (errors : ValidationErrors) (w : Writer) : Writer := WriteInvalidRequestBody (validation_json errors) w.

Definition WriteUnauthorized (w : Writer) : Writer := WriteError 401 (obj [("message", JStr "Unauthorized - Invalid API secret")]) w.

Definition WriteOverloaded (w : Writer) : Writer := WriteError 503 (obj [("message", JStr "Too many concurrent shape requests")]) w.

Definition admission_text (kind : admissionKind) : string :=
  match kind with admissionInitial => "initial" | admissionExisting => "existing" end.

Definition WriteOverloadedWithKind (kind : admissionKind) (limits : MaxConcurrentRequests) (w : Writer) : Writer :=
  let limit := match kind with admissionInitial => lim_Initial limits | admissionExisting => lim_Existing limits end in
  WriteError 503 (obj [("code", JStr "concurrent_request_limit_exceeded");
      ("message", JStr ("Concurrent " +:+ admission_text kind +:+ " request limit exceeded (limit: " +:+ format_Z limit +:+ "), please retry"))])
    (set_header "electric-internal-known-error" "true" (set_header "Retry-After" "10" w)).

Definition WriteShapeShellUnavailable (w : Writer) : Writer :=
  WriteError 503 (obj [("message", JStr "postgres-sync-go protocol shell is active, but shape serving is not implemented yet");
    ("code", JStr "not_implemented")]) w.

(** ** Headers of a shape *)

Record SuccessHeaderOptions : Type := mkOptions { opt_HasData : bool; opt_UpToDate : bool; opt_NoChanges : bool }.

(** Readings of the clock: the seconds since [cursorEpoch], as the conversion
    to [int] gives them, and nanoseconds since the epoch. *)
Record Clock : Type := mkClock { clk_seconds : Z; clk_nanos : Z }.

(** Go's division truncates. *)
Definition nextCursor (longPollTimeoutMS : Z) (prevCursor : string) (clock : Clock) : string :=
  let seconds := Z.quot longPollTimeoutMS 1000 in
  if seconds =? 0 then "0"
  else
    let next := Z.quot (clk_seconds clock + seconds - 1) seconds * seconds in
    let next := if decide (format_Z next = prevCursor) then next + (Z.rem (clk_nanos clock) 3600 + 1) else next in
    format_Z next.

Definition ETag (handle requestOffset currentOffset : string) (noChanges : bool) (clock : Clock) : string :=
  handle +:+ ":" +:+ requestOffset +:+ ":" +:+ currentOffset +:+ (if noChanges then ":" +:+ format_Z (clk_nanos clock) else "").

Definition cacheControlValue (cfg : Config) (req : ShapeRequest) : string :=
  if decide (sr_Offset req = "-1") then "public, max-age=604800, s-maxage=3600, stale-while-revalidate=2629746"
  else if sr_Live req && sr_LiveSSE req then "public, max-age=" +:+ format_Z (Z.max 1 (Z.quot (cfg_SSETimeoutMS cfg) 1000 - 1))
  else if sr_Live req then "public, max-age=5, stale-while-revalidate=5"
  else "public, max-age=" +:+ format_Z (cfg_CacheMaxAge cfg) +:+ ", stale-while-revalidate=" +:+ format_Z (cfg_CacheStaleAge cfg).

Definition mustRefetchCacheControlValue (handle : string) : string :=
  if decide (handle = "") then "public, max-age=1, must-revalidate" else "public, max-age=60, must-revalidate".

Definition WriteSchemaHeader (schema : Schema) (w : Writer) : Writer :=
  set_header "electric-schema" (json_print (schema_json schema)) w.

Section headers.
Variable is_print : N -> bool.

Definition WriteSuccessHeaders (cfg : Config) (req : ShapeRequest) (st : State) (opts : SuccessHeaderOptions) (clock : Clock) (w : Writer) : Writer :=
  let quiet := sr_LiveSSE req && opt_NoChanges opts in
  let offset := if quiet then NowOffset else st_CurrentOffset st in
  let hasData := if quiet then "true" else format_bool (opt_HasData opts) in
  let w := set_header "electric-has-data" hasData (set_header "electric-offset" offset (set_header "electric-handle" (st_Handle st) w)) in
  let w := if opt_UpToDate opts then set_header "electric-up-to-date" "" w else del_header "electric-up-to-date" w in
  let w := if sr_Live req then set_header "electric-cursor" (nextCursor (cfg_LongPollTimeoutMS cfg) (sr_Cursor req) clock) w
           else del_header "electric-cursor" w in
  let w := set_header "etag" (go_quote is_print (ETag (st_Handle st) (sr_Offset req) (st_CurrentOffset st) (opt_NoChanges opts) clock)) w in
  let w := set_header "cache-control" (cacheControlValue cfg req) w in
  if negb (sr_Live req) then (if decide (st_Schema st = ∅) then w else WriteSchemaHeader (st_Schema st) w)
  else del_header "electric-schema" w.

Definition WriteSubsetHeaders (st : State) (schema : Schema) (w : Writer) : Writer :=
  let w := set_header "electric-offset" (st_CurrentOffset st) (set_header "electric-handle" (st_Handle st)
    (set_header "electric-snapshot" "true" (set_header "cache-control" "no-cache" w))) in
  let w := del_header "etag" (del_header "electric-up-to-date" (del_header "electric-has-data" (del_header "electric-cursor" w))) in
  if decide (schema = ∅) then del_header "electric-schema" w else WriteSchemaHeader schema w.

Definition WriteMustRefetchHeaders (req : ShapeRequest) (st : State) (clock : Clock) (w : Writer) : Writer :=
  let w := set_header "electric-handle" (st_Handle st) w in
  let w := set_header "etag" (go_quote is_print (ETag (st_Handle st) (sr_Offset req) (st_CurrentOffset st) false clock)) w in
  let w := set_header "cache-control" (mustRefetchCacheControlValue (st_Handle st)) w in
  del_header "electric-up-to-date" (del_header "electric-schema" (del_header "electric-offset"
    (del_header "electric-has-data" (del_header "electric-cursor" w)))).

Definition WriteNotModified (cfg : Config) (req : ShapeRequest) (st : State) (opts : SuccessHeaderOptions) (clock : Clock) (w : Writer) : Writer :=
  write_header 304 (del_header "electric-schema" (set_header "Content-Type" content_type_json (WriteSuccessHeaders cfg req st opts clock w))).
End headers.

(** One event for each message. *)
Definition SSEPayload (messages : list json) : string :=
  fold_right (fun message rest => "data: " +:+ json_print message +:+ String nl (String nl rest)) "" messages.

(** ** A reading of a stream

    What a client makes of the events of a stream: the text between blank
    lines, without its field name. *)

(** The text up to the first pair of newlines, and what follows it. *)
Fixpoint cut_event (s : string) : option (string * string) :=
  match s with
  | String a s' =>
      if decide (a = nl) then
        match s' with String b s'' => if decide (b = nl) then Some ("", s'') else '(x, r) ← cut_event s'; Some (String a x, r) | EmptyString => None end
      else '(x, r) ← cut_event s'; Some (String a x, r)
  | EmptyString => None
  end.

Fixpoint read_events (fuel : nat) (s : string) : list string :=
  match fuel with
  | O => []
  | S f => match cut_event s with Some (e, r) => trim_prefix "data: " e :: read_events f r | None => [] end
  end.

Definition sse_events (s : string) : list string := read_events (String.length s) s.

(** * Lemmas *)

(** ** A document is one line *)

Definition one_line (s : string) : Prop := contains_byte nl s = false.

Lemma one_line_app (s t : string) : one_line (s +:+ t) <-> one_line s /\ one_line t.
Proof. unfold one_line. rewrite contains_byte_app. apply orb_false_iff. Qed.

Lemma escape_ascii_one_line (a : ascii) : one_line (json_escape_ascii a).
Proof. destruct a as [[] [] [] [] [] [] [] []]; reflexivity. Qed.

Lemma escape_copied (a : ascii) (s : string) (w : nat) : utf8_width (String a s) = Some w -> w <> 1%nat ->
  exists head rest, s = head +:+ rest /\ String.length head = Nat.pred w /\ one_line (String a head) /\
    json_escape_from (Nat.pred w) s = head +:+ json_escape_from 0 rest.
Proof.
  assert (Hc : forall lo hi b, byte_between lo hi b = true -> (128 <= lo)%N -> b <> nl).
  { intros lo hi b Hb Hlo ->. apply byte_between_spec in Hb as [Hb _]. change (code nl) with 10%N in Hb. lia. }
  assert (Hl : forall l, Forall (fun b => b <> nl) l -> one_line (string_of_list_ascii l)).
  { intros l Hl. unfold one_line. induction Hl as [|b l Hb _ IH]; [done|]. simpl. by rewrite decide_False. }
  unfold utf8_width. destruct (code a <? 128)%N; [by intros [= <-]|].
  destruct (byte_between 194 223 a) eqn:E2; [|destruct (byte_between 224 239 a) eqn:E3; [|destruct (byte_between 240 244 a) eqn:E4; [|done]]].
  - destruct s as [|b s]; [done|]. destruct (is_cont b) eqn:Eb; [|done]. intros [= <-] _.
    exists (String b ""), s. split_and!; [done|done| |done]. apply (Hl [a; b]).
    repeat constructor; [apply (Hc _ _ _ E2)|apply (Hc _ _ _ Eb)]; lia.
  - destruct s as [|b [|c s]]; [done..|]. destruct (byte_between _ _ b && is_cont c) eqn:Eb; [|done]. intros [= <-] _.
    apply andb_true_iff in Eb as [Eb Ec]. exists (String b (String c "")), s. split_and!; [done|done| |done]. apply (Hl [a; b; c]).
    repeat constructor; [apply (Hc _ _ _ E3)|apply (Hc _ _ _ Eb)|apply (Hc _ _ _ Ec)]; try lia. by destruct (code a =? 224)%N.
  - destruct s as [|b [|c [|d s]]]; [done..|]. destruct (byte_between _ _ b && is_cont c && is_cont d) eqn:Eb; [|done]. intros [= <-] _.
    rewrite !andb_true_iff in Eb. destruct Eb as [[Eb Ec] Ed]. exists (String b (String c (String d ""))), s. split_and!; [done|done| |done].
    apply (Hl [a; b; c; d]). repeat constructor; [apply (Hc _ _ _ E4)|apply (Hc _ _ _ Eb)|apply (Hc _ _ _ Ec)|apply (Hc _ _ _ Ed)]; try lia.
    by destruct (code a =? 240)%N.
Qed.

Lemma escape_one_line (s : string) : one_line (json_escape_from 0 s).
Proof.
  induction s as [s IH] using string_strong_ind. destruct s as [|a s1]; [done|].
  cbn [json_escape_from]. destruct (utf8_width (String a s1)) as [w|] eqn:Ew.
  2:{ apply one_line_app. split; [reflexivity|]. apply IH. simpl. lia. }
  destruct (decide (w = 1%nat)) as [->|Hw].
  { apply one_line_app. split; [apply escape_ascii_one_line|]. apply IH. simpl. lia. }
  destruct (escape_copied a s1 w Ew Hw) as (head & rest & -> & Hlen & Hline & Hcopy).
  assert (Hgen : one_line (String a (json_escape_from (Nat.pred w) (head +:+ rest)))).
  { rewrite Hcopy, <- app_cons_str. apply one_line_app. split; [done|]. apply IH. simpl. rewrite length_app_str. lia. }
  assert (Hsep : forall e r, one_line e -> (String.length r < String.length (String a (head +:+ rest)))%nat -> one_line (e +:+ json_escape_from 0 r)).
  { intros e r He Hr. apply one_line_app. split; [done|by apply IH]. }
  destruct w as [|[|w]]; [|done|].
  { unfold utf8_width in Ew. repeat match type of Ew with context [match ?x with _ => _ end] => destruct x; try discriminate Ew end. }
  repeat match goal with |- one_line (match ?x with _ => _ end) => destruct x eqn:? end; try exact Hgen;
    apply Hsep; try exact eq_refl; simpl; lia.
Qed.

Lemma json_string_one_line (s : string) : one_line (json_string s).
Proof. unfold json_string. rewrite !one_line_app. split_and!; [done|apply escape_one_line|done]. Qed.

Lemma span_digits_one_line (s d r : string) : span_digits s = (d, r) -> one_line d.
Proof.
  unfold one_line. revert d r. induction s as [|c s IH]; simpl; intros d r; [by intros [= <- <-]|].
  destruct (is_digit c) eqn:Hc; [|by intros [= <- <-]]. destruct (span_digits s) as [d' r'] eqn:E.
  intros [= <- <-]. simpl. rewrite decide_False by (by intros ->). by apply (IH d' r').
Qed.

Lemma scan_digits_one_line (s d r : string) : scan_digits s = Some (d, r) -> one_line d.
Proof.
  unfold scan_digits. destruct (span_digits s) as [d' r'] eqn:E. apply span_digits_one_line in E.
  destruct d'; [done|]. by intros [= <- <-].
Qed.

Lemma scan_part_one_line (heads : list N) (f : string -> option (string * string)) (s t r : string) :
  10%N ∉ heads -> (forall s t r, f s = Some (t, r) -> one_line t) -> scan_part heads f s = Some (t, r) -> one_line t.
Proof.
  intros Hh Hf. destruct s as [|c s]; simpl; [by intros [= <- _]|]. case_decide as Hc; [|by intros [= <- _]].
  intros (v & E & ->)%prepend_Some. apply one_line_app. split; [|by eapply Hf].
  unfold one_line. simpl. rewrite decide_False; [done|]. by intros ->.
Qed.

Lemma scan_exponent_one_line (s t r : string) : scan_exponent s = Some (t, r) -> one_line t.
Proof.
  unfold scan_exponent. destruct s as [|c s]; [done|]. simpl. case_decide as Hc; intros (v & E%scan_digits_one_line & ->)%prepend_Some; [|done].
  apply one_line_app. split; [|done]. unfold one_line. simpl. rewrite decide_False; [done|].
  intros ->. rewrite !elem_of_cons, elem_of_nil in Hc. by destruct Hc as [?|[?|[]]].
Qed.

Lemma scan_unsigned_one_line (s t r : string) : scan_unsigned s = Some (t, r) -> one_line t.
Proof.
  unfold scan_unsigned. destruct (scan_int s) as [[i r1]|] eqn:E1; [|done]. cbn [mbind option_bind].
  destruct (scan_part _ scan_digits r1) as [[f r2]|] eqn:E2; [|done]. cbn [mbind option_bind].
  destruct (scan_part _ scan_exponent r2) as [[e r3]|] eqn:E3; [|done]. intros [= <- _].
  apply scan_part_one_line in E2; [|by apply (bool_decide_unpack _); vm_compute|exact scan_digits_one_line].
  apply scan_part_one_line in E3; [|by apply (bool_decide_unpack _); vm_compute|exact scan_exponent_one_line].
  rewrite !one_line_app. split_and!; [|done|done]. unfold scan_int in E1. destruct s as [|c s]; [done|].
  case_decide as Hc; [|by apply scan_digits_one_line in E1]. injection E1 as <- _. unfold one_line. simpl. rewrite decide_False; [done|]. by intros ->.
Qed.

Lemma number_one_line (lit r : string) : scan_number lit = Some (lit, r) -> one_line lit.
Proof.
  destruct lit as [|c s]; [done|]. simpl. case_decide as Hc; [|apply scan_unsigned_one_line].
  intros (v & E%scan_unsigned_one_line & ->)%prepend_Some. apply one_line_app. split; [|done].
  unfold one_line. simpl. rewrite decide_False; [done|]. by intros ->.
Qed.

Lemma join_one_line (l : list string) : Forall one_line l -> one_line (join "," l).
Proof.
  induction 1 as [|x l Hx Hl IH]; [done|]. destruct l as [|y l]; [done|]. rewrite join_app_str, !one_line_app. done.
Qed.

Lemma json_print_one_line (n : nat) (j : json) : json_ok n j = true -> one_line (json_print j).
Proof.
  revert n. induction j as [|b|lit|s|l IH|l IH] using json_ind'; intros n Hok; cbn [json_print json_ok] in *.
  - done.
  - by destruct b.
  - apply bool_decide_eq_true in Hok. by eapply number_one_line.
  - apply json_string_one_line.
  - destruct n as [|n]; [done|]. rewrite !one_line_app. split_and!; [done| |done]. apply join_one_line.
    rewrite Forall_map, Forall_forall in *. intros j Hj.
    apply (IH j Hj n). rewrite forallb_forall in Hok. by apply Hok, list_elem_of_In.
  - destruct n as [|n]; [done|]. rewrite !one_line_app. split_and!; [done| |done]. apply join_one_line.
    rewrite Forall_map, Forall_forall in *. intros [k j] Hj. cbn [fst snd]. rewrite !one_line_app. split_and!; [apply json_string_one_line|done|].
    apply (IH (k, j) Hj n). rewrite forallb_forall in Hok. by apply (Hok (k, j)), list_elem_of_In.
Qed.

Lemma cut_event_line (e r : string) : one_line e -> cut_event (e +:+ String nl (String nl r)) = Some (e, r).
Proof.
  unfold one_line. induction e as [|c e IH]; intros He; [done|]. rewrite app_cons_str. simpl in *.
  case_decide as Hc; [done|]. by rewrite IH.
Qed.

Lemma read_payload (l : list json) (fuel : nat) : Forall (fun j => one_line (json_print j)) l -> (length l <= fuel)%nat ->
  read_events fuel (SSEPayload l) = map json_print l.
Proof.
  intros Hl. revert fuel. induction Hl as [|j l Hj Hl IH]; intros fuel Hf; [by destruct fuel|].
  destruct fuel as [|fuel]; [simpl in Hf; lia|]. cbn [SSEPayload fold_right read_events map].
  rewrite <- app_assoc_str, cut_event_line by (apply one_line_app; split; [exact eq_refl|done]).
  unfold trim_prefix. rewrite strip_prefix_app. cbn [default]. f_equal. apply IH. simpl in Hf. lia.
Qed.

Lemma payload_length (l : list json) : (length l <= String.length (SSEPayload l))%nat.
Proof.
  induction l as [|j l IH]; [done|]. cbn [SSEPayload fold_right length]. change (fold_right _ "" l) with (SSEPayload l).
  rewrite !length_app_str. simpl. lia.
Qed.

(** * Properties *)

(** A stream can be read back: cutting the payload at its blank lines gives the
    documents that were sent, each of them whole. *)
Theorem sse_payload_read (n : nat) (l : list json) :
  Forall (fun j => json_ok n j = true) l -> sse_events (SSEPayload l) = map json_print l.
Proof.
  intros Hl. unfold sse_events. apply read_payload; [|apply payload_length].
  eapply Forall_impl; [exact Hl|]. intros j. apply json_print_one_line.
Qed.

Lemma sse_payload_read_witness :
  sse_events (SSEPayload [obj [("value", JStr (bytes [97; 10; 10; 98]%N))]; JArr []]) =
  [json_print (obj [("value", JStr (bytes [97; 10; 10; 98]%N))]); "[]"].
Proof. apply (sse_payload_read 1). apply (bool_decide_unpack _). vm_compute. exact I. Defined.

(** The cursor of a live response is a new one: never the request's own, and
    never behind the clock. *)
Theorem next_cursor_moves (longPollTimeoutMS : Z) (prevCursor : string) (clock : Clock) :
  1000 <= longPollTimeoutMS -> 0 <= clk_seconds clock -> 0 <= clk_nanos clock ->
  nextCursor longPollTimeoutMS prevCursor clock <> prevCursor /\
  exists n, nextCursor longPollTimeoutMS prevCursor clock = format_Z n /\ clk_seconds clock <= n.
Proof.
  intros Hms Hs Hn. unfold nextCursor. set (seconds := Z.quot longPollTimeoutMS 1000).
  assert (Hsec : 1 <= seconds) by (unfold seconds; rewrite Z.quot_div_nonneg by lia; apply Z.div_le_lower_bound; lia).
  destruct (Z.eqb_spec seconds 0); [lia|]. set (next := Z.quot _ seconds * seconds).
  assert (Hnext : clk_seconds clock <= next).
  { unfold next. rewrite Z.quot_div_nonneg by lia. pose proof (Z.div_mod (clk_seconds clock + seconds - 1) seconds ltac:(lia)).
    pose proof (Z.mod_pos_bound (clk_seconds clock + seconds - 1) seconds ltac:(lia)). lia. }
  pose proof (Z.rem_nonneg (clk_nanos clock) 3600 ltac:(lia) Hn).
  case_decide as Hp; (split; [|eexists; split; [done|lia]]); [|done].
  rewrite <- Hp. intros E%format_Z_nonneg_inj; lia.
Qed.

Lemma next_cursor_moves_witness : nextCursor 20000 "60" (mkClock 55 7) <> "60".
Proof. apply (next_cursor_moves 20000 "60" (mkClock 55 7)); simpl; lia. Defined.

(** With a timeout below a second the cursor never moves. *)
Example short_poll_cursor_stays : nextCursor 500 "0" (mkClock 55 7) = "0".
Proof. reflexivity. Qed.
