(* ===== verification/ChangeBatch.v ===== *)
(** The changes of one transaction: [src/internal/pg/change_batch.go], with the
    tuple decoding and the record functions that fill a batch, from
    [src/internal/pg/relation_cache.go] and [src/internal/pg/replication.go].

    A batch keeps, per relation, the last change of every primary key. *)

From Stdlib Require Import Ascii String ZArith NArith Lia.
From S2P Require Import Prelude ShapeTypes Storage.

#[local] Set Warnings "-clear-no-such-hyp".

(** * Definitions *)

Inductive ChangeOperation : Type := ChangeInsert | ChangeUpdate | ChangeDelete.

Record ChangeRecord : Type := mkChange {
  chg_Relation : Relation;
  chg_Operation : ChangeOperation;
  chg_PrimaryKey : Row;
  chg_OldTuple : Row;
  chg_NewTuple : Row;
  chg_CommitLSN : Z;
  chg_XID : Z
}.

Record ChangeBatch : Type := mkBatch {
  bat_XID : Z;
  bat_CommitLSN : Z;
  bat_byRelation : gmap Z (gmap string ChangeRecord);
  bat_relationIDs : list Z
}.

Definition empty_batch : ChangeBatch := mkBatch 0 0 ∅ [].

Definition Reset (xid : Z) (b : ChangeBatch) : ChangeBatch := mkBatch xid 0 ∅ [].

(** The verb [%v]. *)
Definition format_cell (v : option string) : string :=
  match v with Some s => s | None => "<nil>" end.

Definition primaryKeySignature (row : Row) : string :=
  if decide (row = ∅) then ""
  else join "|" (map (fun key => key +:+ "=" +:+ format_cell (row_get row key)) (sorted_keys row)).

Definition changes_of (relationID : Z) (b : ChangeBatch) : gmap string ChangeRecord :=
  default ∅ (bat_byRelation b !! relationID).

Definition Add (relationID : Z) (change : ChangeRecord) (b : ChangeBatch) : ChangeBatch :=
  let b :=
    match bat_byRelation b !! relationID with
    | Some _ => b
    | None =>
        mkBatch (bat_XID b) (bat_CommitLSN b) (<[relationID := ∅]> (bat_byRelation b))
          (bat_relationIDs b ++ [relationID])
    end in
  let key := primaryKeySignature (chg_PrimaryKey change) in
  if decide (key = "") then b
  else mkBatch (bat_XID b) (bat_CommitLSN b)
         (<[relationID := <[key := change]> (changes_of relationID b)]> (bat_byRelation b)) (bat_relationIDs b).

Definition RelationIDs (b : ChangeBatch) : list Z := merge_sort Z.le (bat_relationIDs b).

Definition stamp (b : ChangeBatch) (c : ChangeRecord) : ChangeRecord :=
  mkChange (chg_Relation c) (chg_Operation c) (chg_PrimaryKey c) (chg_OldTuple c) (chg_NewTuple c)
    (bat_CommitLSN b) (bat_XID b).

Definition ChangesForRelation (relationID : Z) (b : ChangeBatch) : list ChangeRecord :=
  map (stamp b) (sorted_values (changes_of relationID b)).

(** ** Decoding tuples *)

(** The columns of a relation, as the catalog describes them. *)
Record describedColumn : Type := mkDescribed {
  dc_Name : string;
  dc_Type : string;
  dc_NotNull : bool;
  dc_PKIndex : option Z
}.

(** A cell of a logical replication tuple: its kind byte and its data. *)
Record TupleColumn : Type := mkCell { cell_DataType : ascii; cell_Data : string }.

Record relationMetadata : Type := mkRelationMetadata {
  md_Relation : Relation;
  md_RootRelation : Relation;
  md_Columns : list describedColumn;
  md_PKColumns : list describedColumn
}.

Definition column_index_le (a b : describedColumn) : Prop := default 0 (dc_PKIndex a) <= default 0 (dc_PKIndex b).

#[export] Instance column_index_le_dec : RelDecision column_index_le.
Proof. intros a b. unfold column_index_le. apply _. Defined.

Definition primaryKeyColumns (columns : list describedColumn) : list describedColumn :=
  merge_sort column_index_le (filter (fun c => is_Some (dc_PKIndex c)) columns).

Definition decode_cell (cell : TupleColumn) : option string :=
  if decide (cell_DataType cell = byte_of 110) then None
  else if decide (cell_DataType cell = byte_of 117) then Some "<unchanged-toast>"
  else Some (cell_Data cell).

(** Columns beyond the tuple are left out; a nil tuple is a nil row. *)
Definition decodeTupleRow (columns : list describedColumn) (tuple : option (list TupleColumn)) : Row :=
  match tuple with
  | None => ∅
  | Some cells => fold_left (fun row cc => <[dc_Name cc.1 := decode_cell cc.2]> row) (zip columns cells) ∅
  end.

(** A key column the row does not have is nil. *)
Definition primaryKeyRowForColumns (pkColumns : list describedColumn) (row : Row) : Row :=
  if decide (pkColumns = [] \/ row = ∅) then ∅
  else fold_left (fun key c => <[dc_Name c := row_get row (dc_Name c)]> key) pkColumns ∅.

(** ** Recording changes *)

Definition recordInsert (md : relationMetadata) (relationID : Z) (tuple : option (list TupleColumn)) (b : ChangeBatch) : ChangeBatch :=
  let newTuple := decodeTupleRow (md_Columns md) tuple in
  Add relationID
    (mkChange (md_Relation md) ChangeInsert (primaryKeyRowForColumns (md_PKColumns md) newTuple) ∅ newTuple 0 0) b.

(** [keyTuple]: the old tuple holds the key columns only. *)
Definition recordUpdate (md : relationMetadata) (relationID : Z) (keyTuple : bool)
    (old new : option (list TupleColumn)) (b : ChangeBatch) : ChangeBatch :=
  let oldTuple := decodeTupleRow (if keyTuple then md_PKColumns md else md_Columns md) old in
  let newTuple := decodeTupleRow (md_Columns md) new in
  let add key b :=
    if decide (key = ∅) then b
    else Add relationID (mkChange (md_Relation md) ChangeUpdate key oldTuple newTuple 0 0) b in
  add (primaryKeyRowForColumns (md_PKColumns md) newTuple)
    (add (primaryKeyRowForColumns (md_PKColumns md) oldTuple) b).

Definition recordDelete (md : relationMetadata) (relationID : Z) (keyTuple : bool)
    (old : option (list TupleColumn)) (b : ChangeBatch) : ChangeBatch :=
  let oldTuple := decodeTupleRow (if keyTuple then md_PKColumns md else md_Columns md) old in
  Add relationID
    (mkChange (md_Relation md) ChangeDelete (primaryKeyRowForColumns (md_PKColumns md) oldTuple) oldTuple ∅ 0 0) b.

(** ** The invariant *)

(** The list of relation ids is the domain of the map, without repetition,
    and every change is kept under its own key. *)
Record batch_ok (b : ChangeBatch) : Prop := {
  bok_nodup : NoDup (bat_relationIDs b);
  bok_dom id : id ∈ bat_relationIDs b <-> is_Some (bat_byRelation b !! id);
  bok_key id key c : changes_of id b !! key = Some c -> key = primaryKeySignature (chg_PrimaryKey c) /\ key <> ""
}.

(** The changes of a transaction in the order they came. *)
Definition add_all (l : list (Z * ChangeRecord)) (b : ChangeBatch) : ChangeBatch :=
  fold_left (fun b ic => Add ic.1 ic.2 b) l b.

(** The last change of a key of a relation in a sequence. *)
Fixpoint last_change (id : Z) (key : string) (l : list (Z * ChangeRecord)) : option ChangeRecord :=
  match l with
  | [] => None
  | (i, c) :: l' =>
      match last_change id key l' with
      | Some c' => Some c'
      | None => if decide (i = id /\ primaryKeySignature (chg_PrimaryKey c) = key) then Some c else None
      end
  end.

(** * Lemmas *)

Lemma Reset_ok (xid : Z) (b : ChangeBatch) : batch_ok (Reset xid b).
Proof.
  split; cbn.
  - constructor.
  - intros id. rewrite lookup_empty. split; [by intros ?%elem_of_nil|by intros [? ?]].
  - done.
Qed.

Lemma changes_of_Add (id i : Z) (c : ChangeRecord) (b : ChangeBatch) :
  changes_of id (Add i c b) =
  if decide (i = id /\ primaryKeySignature (chg_PrimaryKey c) <> "")
  then <[primaryKeySignature (chg_PrimaryKey c) := c]> (changes_of id b) else changes_of id b.
Proof.
  unfold Add. set (b1 := match bat_byRelation b !! i with Some _ => b | None => _ end).
  assert (Hb1 : forall x, changes_of x b1 = changes_of x b).
  { intros x. unfold b1, changes_of. destruct (bat_byRelation b !! i) eqn:E; [done|]. cbn [bat_byRelation].
    rewrite lookup_insert. case_decide; [subst; by rewrite E|done]. }
  destruct (decide (primaryKeySignature (chg_PrimaryKey c) = "")) as [Hk|Hk].
  - rewrite decide_False by tauto. apply Hb1.
  - unfold changes_of at 1. cbn [bat_byRelation]. rewrite lookup_insert. case_decide as Hi.
    + subst. rewrite decide_True by done. cbn. by rewrite Hb1.
    + rewrite decide_False by tauto. exact (Hb1 id).
Qed.

Lemma relationIDs_Add (i id : Z) (c : ChangeRecord) (b : ChangeBatch) :
  batch_ok b -> (id ∈ bat_relationIDs (Add i c b) <-> id = i \/ id ∈ bat_relationIDs b) /\
    NoDup (bat_relationIDs (Add i c b)) /\
    (is_Some (bat_byRelation (Add i c b) !! id) <-> id = i \/ is_Some (bat_byRelation b !! id)).
Proof.
  intros [H1 H2 H3]. unfold Add.
  set (b1 := match bat_byRelation b !! i with Some _ => b | None => _ end).
  assert (Hb1 : (id ∈ bat_relationIDs b1 <-> id = i \/ id ∈ bat_relationIDs b) /\ NoDup (bat_relationIDs b1) /\
    (is_Some (bat_byRelation b1 !! id) <-> id = i \/ is_Some (bat_byRelation b !! id))).
  { unfold b1. destruct (bat_byRelation b !! i) as [x|] eqn:E.
    - assert (Hi : i ∈ bat_relationIDs b) by (apply H2; rewrite E; eauto).
      split_and!; [|done|]; (split; [auto|]; intros [->|?]; [|done]); [done|rewrite E; eauto].
    - assert (Hi : i ∉ bat_relationIDs b) by (rewrite H2, E; by intros [? ?]).
      cbn [bat_relationIDs bat_byRelation]. split_and!.
      + rewrite elem_of_app, list_elem_of_singleton. tauto.
      + apply NoDup_app. split_and!; [done| |apply NoDup_singleton]. intros x Hx ->%list_elem_of_singleton. done.
      + rewrite lookup_insert. case_decide as Hd; [subst; split; [auto|intros _; eauto]|]. split; [auto|].
        intros [->|?]; done. }
  case_decide as Hk; [exact Hb1|]. cbn [bat_relationIDs bat_byRelation]. destruct Hb1 as (G1 & G2 & G3).
  split_and!; [done|done|]. rewrite lookup_insert. case_decide as Hd; [subst; split; [auto|intros _; eauto]|exact G3].
Qed.

Lemma Add_ok (i : Z) (c : ChangeRecord) (b : ChangeBatch) : batch_ok b -> batch_ok (Add i c b).
Proof.
  intros Hok. split.
  - by destruct (relationIDs_Add i i c b Hok) as (_ & ? & _).
  - intros id. destruct (relationIDs_Add i id c b Hok) as (-> & _ & ->). by rewrite (bok_dom _ Hok).
  - intros id key d. rewrite changes_of_Add. case_decide as Hd; [|by apply bok_key].
    rewrite lookup_insert_Some. intros [[<- <-]|[_ Hc]]; [tauto|by eapply bok_key].
Qed.

Lemma add_all_ok (l : list (Z * ChangeRecord)) (b : ChangeBatch) : batch_ok b -> batch_ok (add_all l b).
Proof. revert b. induction l as [|[i c] l IH]; intros b Hok; [done|]. apply IH. by apply Add_ok. Qed.

Lemma changes_of_add_all (l : list (Z * ChangeRecord)) (b : ChangeBatch) (id : Z) (key : string) :
  key <> "" ->
  changes_of id (add_all l b) !! key =
  match last_change id key l with Some c => Some c | None => changes_of id b !! key end.
Proof.
  intros Hk. revert b. induction l as [|[i c] l IH]; intros b; [done|].
  unfold add_all in *. cbn [fold_left last_change fst snd]. rewrite IH. destruct (last_change id key l); [done|].
  rewrite changes_of_Add. case_decide as H1; case_decide as H2; try done.
  - destruct H1 as [-> _], H2 as [_ <-]. by rewrite lookup_insert_eq.
  - rewrite lookup_insert_ne; [done|]. intros He. apply H2. tauto.
  - destruct H2 as [-> He]. destruct H1. split; [done|]. by rewrite He.
Qed.

#[export] Instance Zle_total_inst : Total Z.le.
Proof. intros x y. lia. Qed.

Lemma elem_of_ChangesForRelation (id : Z) (b : ChangeBatch) (c : ChangeRecord) :
  c ∈ ChangesForRelation id b <-> exists key d, changes_of id b !! key = Some d /\ c = stamp b d.
Proof.
  unfold ChangesForRelation. rewrite list_elem_of_fmap. setoid_rewrite elem_of_sorted_values. naive_solver.
Qed.

Lemma add_all_header (l : list (Z * ChangeRecord)) (b : ChangeBatch) :
  bat_XID (add_all l b) = bat_XID b /\ bat_CommitLSN (add_all l b) = bat_CommitLSN b.
Proof.
  revert b. induction l as [|[i c] l IH]; intros b; [done|]. unfold add_all in *. cbn [fold_left fst snd].
  destruct (IH (Add i c b)) as [-> ->]. unfold Add.
  destruct (bat_byRelation b !! i); case_decide; done.
Qed.

(** ** Tuples *)

Lemma lookup_decode (columns : list describedColumn) (cells : list TupleColumn) (row0 : Row) (name : string) :
  NoDup (map dc_Name columns) ->
  fold_left (fun row cc => <[dc_Name cc.1 := decode_cell cc.2]> row) (zip columns cells) row0 !! name =
  match list_find (fun cc => dc_Name cc.1 = name) (zip columns cells) with
  | Some (_, cc) => Some (decode_cell cc.2)
  | None => row0 !! name
  end.
Proof.
  intros Hnd. revert cells row0. induction columns as [|c columns IH]; intros [|cell cells] row0; try done.
  inversion_clear Hnd as [|?? Hn Hnd']. cbn [zip zip_with fold_left list_find fst snd].
  change (zip_with pair columns cells) with (zip columns cells). rewrite IH by done.
  destruct (list_find (fun cc => dc_Name cc.1 = name) (zip columns cells)) as [[i cc]|] eqn:E.
  - rewrite decide_False; [done|]. intros <-. apply list_find_Some in E as (Hi & Hc & _). apply Hn. rewrite <- Hc.
    apply (list_elem_of_fmap_2 dc_Name). apply list_elem_of_lookup_2 in Hi. destruct cc. by apply elem_of_zip_l in Hi.
  - rewrite lookup_insert. by case_decide.
Qed.

Lemma lookup_key_columns (pk : list describedColumn) (row : Row) (key0 : Row) (name : string) :
  fold_left (fun key c => <[dc_Name c := row_get row (dc_Name c)]> key) pk key0 !! name =
  if decide (name ∈ map dc_Name pk) then Some (row_get row name) else key0 !! name.
Proof.
  revert key0. induction pk as [|c pk IH]; intros key0; [done|]. cbn [fold_left map]. rewrite IH, lookup_insert.
  destruct (decide (name ∈ map dc_Name pk)) as [Hin|Hin].
  - rewrite decide_True; [done|]. by apply list_elem_of_further.
  - case_decide as He; [subst; rewrite decide_True; [done|apply list_elem_of_here]|].
    rewrite decide_False; [done|]. rewrite elem_of_cons. intros [?|?]; congruence.
Qed.

Lemma primaryKeyRowForColumns_lookup (pk : list describedColumn) (row : Row) (name : string) :
  row <> ∅ ->
  primaryKeyRowForColumns pk row !! name = if decide (name ∈ map dc_Name pk) then Some (row_get row name) else None.
Proof.
  intros Hr. unfold primaryKeyRowForColumns. case_decide as Hd.
  - destruct Hd as [->|]; [|done]. done.
  - rewrite lookup_key_columns. by case_decide.
Qed.

(** * Properties *)

(** A batch is its transaction coalesced: after any sequence of changes,
    a key of a relation has exactly one change, the last one that named it,
    stamped with the commit position and transaction of the batch; relations
    are listed once, in increasing order. *)
Theorem batch_keeps_last_change (xid commit : Z) (l : list (Z * ChangeRecord)) (b0 : ChangeBatch) (id : Z) :
  let added := add_all l (Reset xid b0) in
  let b := mkBatch (bat_XID added) commit (bat_byRelation added) (bat_relationIDs added) in
  (forall key, key <> "" -> changes_of id b !! key = last_change id key l) /\
  (forall c, c ∈ ChangesForRelation id b <->
     exists key d, key <> "" /\ last_change id key l = Some d /\ c = stamp b d) /\
  Forall (fun c => chg_CommitLSN c = commit /\ chg_XID c = xid) (ChangesForRelation id b) /\
  (id ∈ RelationIDs b <-> id ∈ map fst l) /\ NoDup (RelationIDs b) /\ StronglySorted Z.le (RelationIDs b).
Proof.
  intros added b.
  assert (Hok : batch_ok added) by (apply add_all_ok, Reset_ok).
  assert (Hch : forall key, key <> "" -> changes_of id b !! key = last_change id key l).
  { intros key Hk. change (changes_of id b) with (changes_of id added). unfold added.
    rewrite changes_of_add_all by done. by destruct (last_change id key l). }
  assert (Hmem : forall c, c ∈ ChangesForRelation id b <->
     exists key d, key <> "" /\ last_change id key l = Some d /\ c = stamp b d).
  { intros c. rewrite elem_of_ChangesForRelation. split.
    - intros (key & d & Hd & ->). destruct (bok_key _ Hok id key d Hd) as [_ Hk]. exists key, d.
      rewrite <- Hch by done. done.
    - intros (key & d & Hk & Hd & ->). exists key, d. by rewrite Hch. }
  split_and!; [done|done|..].
  - apply Forall_forall. intros c (key & d & _ & _ & ->)%Hmem. split; [done|].
    exact (proj1 (add_all_header l (Reset xid b0))).
  - unfold RelationIDs. rewrite merge_sort_Permutation. cbn [b bat_relationIDs]. unfold added. clear.
    assert (H : forall b1, batch_ok b1 -> id ∈ bat_relationIDs (add_all l b1) <-> id ∈ map fst l \/ id ∈ bat_relationIDs b1).
    { induction l as [|[i c] l IH]; intros b1 Hok; [split; [auto|by intros [?%elem_of_nil|?]]|].
      unfold add_all in *. cbn [fold_left map fst snd]. rewrite IH by by apply Add_ok.
      destruct (relationIDs_Add i id c b1 Hok) as (-> & _ & _). rewrite elem_of_cons. tauto. }
    rewrite H by apply Reset_ok. cbn. split; [by intros [?|?%elem_of_nil]|auto].
  - unfold RelationIDs. rewrite merge_sort_Permutation. apply Hok.
  - unfold RelationIDs. apply (StronglySorted_merge_sort Z.le).
Qed.

(** A decoded row is its tuple: every described column the tuple has gets
    its cell, NULL as nil, and nothing else is in the row; the key row of a
    nonempty row has exactly the key columns, with the row's values. *)
Theorem decoded_tuple_columns (columns pk : list describedColumn) (cells : list TupleColumn) (i : nat)
    (c : describedColumn) (cell : TupleColumn) :
  NoDup (map dc_Name columns) -> columns !! i = Some c -> cells !! i = Some cell ->
  let row := decodeTupleRow columns (Some cells) in
  row !! dc_Name c = Some (decode_cell cell) /\
  (forall name, is_Some (row !! name) -> name ∈ map dc_Name columns) /\
  forall name, primaryKeyRowForColumns pk row !! name =
    if decide (name ∈ map dc_Name pk) then Some (row_get row name) else None.
Proof.
  intros Hnd Hc Hcell row.
  assert (Hz : zip columns cells !! i = Some (c, cell)) by (apply lookup_zip_Some; done).
  assert (Hrow : row !! dc_Name c = Some (decode_cell cell)).
  { unfold row, decodeTupleRow. rewrite lookup_decode by done.
    destruct (list_find (fun cc => dc_Name cc.1 = dc_Name c) (zip columns cells)) as [[j [c' cell']]|] eqn:E.
    - apply list_find_Some in E as (Hj & He & _). simpl in He.
      apply lookup_zip_Some in Hj as [Hj1 Hj2].
      assert (j = i) as ->; [|simpl; congruence]. apply (NoDup_lookup (map dc_Name columns) j i (dc_Name c)); [done|..].
      + change (map dc_Name columns) with (dc_Name <$> columns). rewrite list_lookup_fmap, Hj1. cbn. by rewrite He.
      + change (map dc_Name columns) with (dc_Name <$> columns). by rewrite list_lookup_fmap, Hc.
    - apply list_find_None in E. rewrite Forall_lookup in E. by destruct (E i _ Hz). }
  split_and!; [done|..].
  - intros name. unfold row, decodeTupleRow. rewrite lookup_decode by done.
    destruct (list_find _ _) as [[j [c' cell']]|] eqn:E; [|rewrite lookup_empty; by intros [? ?]].
    intros _. apply list_find_Some in E as (Hj & <- & _). apply lookup_zip_Some in Hj as [Hj1 _].
    apply (list_elem_of_fmap_2 dc_Name). by eapply list_elem_of_lookup_2.
  - intros name. apply primaryKeyRowForColumns_lookup. intros He. by rewrite He, lookup_empty in Hrow.
Qed.

Definition demo_columns : list describedColumn :=
  [mkDescribed "id" "int4" true (Some 0); mkDescribed "v" "text" false None].

Lemma decoded_tuple_columns_witness :
  decodeTupleRow demo_columns (Some [mkCell (byte_of 116) "7"; mkCell (byte_of 110) ""]) !! "id" = Some (Some "7").
Proof.
  apply (decoded_tuple_columns demo_columns [] [mkCell (byte_of 116) "7"; mkCell (byte_of 110) ""] 0
    (mkDescribed "id" "int4" true (Some 0)) (mkCell (byte_of 116) "7")).
  - apply (bool_decide_unpack _). vm_compute. exact I.
  - reflexivity.
  - reflexivity.
Defined.

(** A table without a primary key: its changes enter no batch. *)
Example keyless_changes_dropped :
  let md := mkRelationMetadata (mkRelation "public" "log") (mkRelation "public" "log") demo_columns [] in
  ChangesForRelation 5 (recordInsert md 5 (Some [mkCell (byte_of 116) "7"; mkCell (byte_of 116) "x"]) empty_batch) = [].
Proof. vm_compute. reflexivity. Qed.

(** Two rows with different keys can have one signature, and then the batch
    keeps only one of them. *)
Example key_signature_collision :
  primaryKeySignature (<["a" := Some "x|b=y"]> {["b" := Some "z"]}) =
  primaryKeySignature (<["a" := Some "x"]> {["b" := Some "y|b=z"]}).
Proof. vm_compute. reflexivity. Qed.

(** The old key tuple of an update or a delete has a cell for every column,
    null outside the key, but it is read with the key columns only: where the
    key is not the first column, the key of the row is lost. *)
Example key_tuple_read_by_position :
  let id := mkDescribed "id" "int4" true (Some 0) in
  let columns := [mkDescribed "v" "text" false None; id] in
  let md := mkRelationMetadata (mkRelation "public" "log") (mkRelation "public" "log") columns [id] in
  let tuple := Some [mkCell (byte_of 110) ""; mkCell (byte_of 116) "7"] in
  map chg_PrimaryKey (ChangesForRelation 5 (recordDelete md 5 true tuple empty_batch)) = [{["id" := None]}].
Proof. vm_compute. reflexivity. Qed.
