(* ===== verification/DependencyScan.v ===== *)
(** Which relations a filter refers to: [src/internal/pg/dependency_scan.go].

    A clause is cut into tokens, the names of common table expressions are
    collected, and the tokens are scanned for the relations after FROM, JOIN
    and the commas of a FROM list, parenthesised parts included.

    Positions are indices into the token list, as in the code.  The loops
    take fuel and answer [None] when it runs out; [scan_total] shows that the
    fuel given is enough. *)

From Stdlib Require Import Ascii String ZArith NArith Lia.
From S2P Require Import Prelude ShapeTypes.

#[local] Set Warnings "-clear-no-such-hyp".

(** * Definitions *)

Record dependencyToken : Type := mkToken {
  tok_Value : string;
  tok_Quoted : bool;
  tok_Symbol : bool
}.

Record dependencyRelationScan : Type := mkDepScan {
  scan_Relations : list Relation;
  scan_Wildcard : bool
}.

(** ** Tokens *)

Definition isDependencySpace (ch : ascii) : bool :=
  let n := code ch in
  (n =? 32)%N || (n =? 9)%N || (n =? 10)%N || (n =? 13)%N || (n =? 12)%N.

Definition isDependencyWordStart (ch : ascii) : bool :=
  is_lower ch || is_upper ch || (code ch =? 95)%N || (code ch =? 36)%N.

Definition isDependencyWordPart (ch : ascii) : bool := isDependencyWordStart ch || is_digit ch.

Definition isDependencySymbol (ch : ascii) : bool :=
  let n := code ch in (n =? 40)%N || (n =? 41)%N || (n =? 44)%N || (n =? 46)%N.

(** The identifier after an opening quote, and what follows its closing one. *)
Fixpoint readQuotedDependencyIdentifier (s : string) : option (string * string) :=
  match s with
  | EmptyString => None
  | String a rest =>
      if decide (a = dquote) then
        match rest with
        | String b rest2 =>
            if decide (b = dquote) then
              vr ← readQuotedDependencyIdentifier rest2; Some (String dquote vr.1, vr.2)
            else Some ("", rest)
        | EmptyString => Some ("", rest)
        end
      else vr ← readQuotedDependencyIdentifier rest; Some (String a vr.1, vr.2)
  end.

Fixpoint read_word (s : string) : string * string :=
  match s with
  | String a rest =>
      if isDependencyWordPart a then let '(w, r) := read_word rest in (String a w, r) else ("", s)
  | EmptyString => ("", s)
  end.

(** Every round consumes at least one byte, so the length is enough fuel. *)
Fixpoint tokenize_fuel (fuel : nat) (clause : string) : list dependencyToken :=
  match fuel, clause with
  | S f, String ch rest =>
      if isDependencySpace ch then tokenize_fuel f rest
      else if decide (ch = dquote) then
        match readQuotedDependencyIdentifier rest with
        | None => mkToken (str1 ch) false true :: tokenize_fuel f rest
        | Some (value, next) => mkToken value true false :: tokenize_fuel f next
        end
      else if isDependencyWordStart ch then
        let '(w, next) := read_word rest in mkToken (String ch w) false false :: tokenize_fuel f next
      else if isDependencySymbol ch then mkToken (str1 ch) false true :: tokenize_fuel f rest
      else tokenize_fuel f rest
  | _, _ => []
  end.

Definition tokenizeDependencyClause (clause : string) : list dependencyToken :=
  tokenize_fuel (String.length clause) clause.

Definition dependencyTokenIdentifier (t : dependencyToken) : bool :=
  negb (tok_Symbol t) && negb (bool_decide (tok_Value t = "")).

Definition dependencyTokenKeyword (t : dependencyToken) (keyword : string) : bool :=
  dependencyTokenIdentifier t && negb (tok_Quoted t) && ascii_equal_fold (tok_Value t) keyword.

Definition dependencyTokenValue (t : dependencyToken) (value : string) : bool :=
  tok_Symbol t && bool_decide (tok_Value t = value).

Definition dependencyTokenName (t : dependencyToken) : string :=
  if tok_Quoted t then tok_Value t else ascii_lower (tok_Value t).

Definition dependencyFromBoundary (t : dependencyToken) : bool :=
  if negb (dependencyTokenIdentifier t) || tok_Quoted t then false
  else bool_decide (ascii_lower (tok_Value t) ∈
    ["where"; "group"; "having"; "order"; "limit"; "offset"; "union"; "intersect"; "except"; "window"; "returning"; "qualify"]).

Definition dependencyAliasBoundary (t : dependencyToken) : bool :=
  if tok_Symbol t then bool_decide (tok_Value t ∈ [","; ")"; "."])
  else bool_decide (ascii_lower (tok_Value t) ∈
    ["on"; "using"; "where"; "join"; "inner"; "left"; "right"; "full"; "cross"; "natural"; "group"; "having"; "order";
     "limit"; "offset"; "union"; "intersect"; "except"; "window"; "returning"; "qualify"]).

(** [index < len(tokens) && f(tokens[index])]. *)
Definition at_token (tokens : list dependencyToken) (index : nat) (f : dependencyToken -> bool) : bool :=
  match tokens !! index with Some t => f t | None => false end.

Definition is_kw (k : string) (t : dependencyToken) : bool := dependencyTokenKeyword t k.
Definition is_sym (v : string) (t : dependencyToken) : bool := dependencyTokenValue t v.

(** ** Parentheses *)

(** The position, counted from [cursor], where the depth comes back to 0. *)
Fixpoint find_close (tokens : list dependencyToken) (cursor depth : nat) : option nat :=
  match tokens with
  | [] => None
  | t :: rest =>
      if dependencyTokenValue t "(" then find_close rest (S cursor) (S depth)
      else if dependencyTokenValue t ")" then
        if decide (depth = 1%nat) then Some cursor else find_close rest (S cursor) (pred depth)
      else find_close rest (S cursor) depth
  end.

(** [-1] is [None]. *)
Definition findDependencyBalancedClose (tokens : list dependencyToken) (index : nat) : option nat :=
  if negb (at_token tokens index (is_sym "(")) then None else find_close (drop index tokens) index 0.

Definition skipDependencyBalanced (tokens : list dependencyToken) (index : nat) : nat :=
  match findDependencyBalancedClose tokens index with Some c => S c | None => S index end.

(** One optional step: skip the token, or the balanced part, if it is there. *)
Definition skip_if (f : dependencyToken -> bool) (tokens : list dependencyToken) (index : nat) : nat :=
  if at_token tokens index f then S index else index.
Definition skip_balanced_if (tokens : list dependencyToken) (index : nat) : nat :=
  if at_token tokens index (is_sym "(") then skipDependencyBalanced tokens index else index.

Definition skipDependencyAlias (tokens : list dependencyToken) (index : nat) : nat :=
  if at_token tokens index (is_kw "as") then
    skip_balanced_if tokens (skip_if dependencyTokenIdentifier tokens (S index))
  else if at_token tokens index (fun t => dependencyTokenIdentifier t && negb (dependencyAliasBoundary t)) then
    skip_balanced_if tokens (S index)
  else index.

(** ** Common table expressions *)

(** The inner loop: the names of one WITH list. *)
Fixpoint cte_names (fuel : nat) (tokens : list dependencyToken) (index : nat) (ctes : gset string) : option (nat * gset string) :=
  match fuel with
  | O => None
  | S f =>
      match tokens !! index with
      | None => Some (index, ctes)
      | Some t =>
          if negb (dependencyTokenIdentifier t) then Some (index, ctes)
          else
            let ctes := {[dependencyTokenName t]} ∪ ctes in
            let index := skip_balanced_if tokens (S index) in
            let index := skip_if (is_kw "as") tokens index in
            let index := skip_balanced_if tokens index in
            if at_token tokens index (is_sym ",") then cte_names f tokens (S index) ctes else Some (index, ctes)
      end
  end.

Fixpoint collect_ctes (fuel : nat) (tokens : list dependencyToken) (index : nat) (ctes : gset string) : option (gset string) :=
  match fuel with
  | O => None
  | S f =>
      match tokens !! index with
      | None => Some ctes
      | Some t =>
          if negb (dependencyTokenKeyword t "with") then collect_ctes f tokens (S index) ctes
          else
            let index := skip_if (is_kw "recursive") tokens (S index) in
            ic ← cte_names (S (length tokens)) tokens index ctes;
            collect_ctes f tokens (S ic.1) ic.2
      end
  end.

Definition collectDependencyCTENames (tokens : list dependencyToken) : option (gset string) :=
  collect_ctes (S (length tokens)) tokens 0 ∅.

(** ** Relations *)

Definition dependencyRelationKey (relation : Relation) : string :=
  rel_Schema relation +:+ "." +:+ rel_Table relation.

Section scan.
Variable defaultSchema : string.
Variable ctes : gset string.

(** (relation, next); [None] is [ok = false]. *)
Definition readDependencyRelationReference (tokens : list dependencyToken) (index : nat) : option (Relation * nat) :=
  match tokens !! index with
  | None => None
  | Some t =>
      if negb (dependencyTokenIdentifier t) then None
      else
        let first := dependencyTokenName t in
        let plain := if decide (first ∈ ctes) then (zero_relation, S index)
                     else (mkRelation defaultSchema first, S index) in
        if at_token tokens (S index) (is_sym ".") then
          match tokens !! S (S index) with
          | Some t2 =>
              if dependencyTokenIdentifier t2
              then Some (mkRelation first (dependencyTokenName t2), (index + 3)%nat) else Some plain
          | None => Some plain
          end
        else Some plain
  end.

Definition dependencyRelationFromTokens (tokens : list dependencyToken) : option Relation :=
  match readDependencyRelationReference tokens 0 with
  | None => None
  | Some (relation, next) =>
      if decide (relation = zero_relation) then None
      else if decide (next = length tokens) then Some relation else None
  end.

Fixpoint skip_only (fuel : nat) (tokens : list dependencyToken) (index : nat) : nat :=
  match fuel with
  | O => index
  | S f =>
      if at_token tokens index (fun t => dependencyTokenKeyword t "only" || dependencyTokenKeyword t "lateral")
      then skip_only f tokens (S index) else index
  end.

Definition add_relation (relation : Relation) (relations : gmap string Relation) : gmap string Relation :=
  <[dependencyRelationKey relation := relation]> relations.

(** [tokens[from:to]]. *)
Definition slice (tokens : list dependencyToken) (from to : nat) : list dependencyToken :=
  take (to - from) (drop from tokens).

(** The position after the reference, whether it is unknown, and the
    relations found; [scan] scans a part in parentheses. *)
Definition consumeDependencyRelation
    (scan : list dependencyToken -> gmap string Relation -> option (bool * gmap string Relation))
    (tokens : list dependencyToken) (index : nat) (relations : gmap string Relation) :
    option (nat * bool * gmap string Relation) :=
  let index := skip_only (length tokens) tokens index in
  if (length tokens <=? index)%nat then Some (index, true, relations)
  else if at_token tokens index (is_sym "(") then
    match findDependencyBalancedClose tokens index with
    | None => Some (S index, true, relations)
    | Some closeIndex =>
        let inner := slice tokens (S index) closeIndex in
        match dependencyRelationFromTokens inner with
        | Some relation => Some (skipDependencyAlias tokens (S closeIndex), false, add_relation relation relations)
        | None =>
            wr ← scan inner relations;
            Some (skipDependencyAlias tokens (S closeIndex), wr.1, wr.2)
        end
    end
  else
    match readDependencyRelationReference tokens index with
    | None => Some (S index, true, relations)
    | Some (relation, next) =>
        if at_token tokens next (is_sym "(") then
          match findDependencyBalancedClose tokens next with
          | None => Some (S next, true, relations)
          | Some closeIndex =>
              wr ← scan (slice tokens (S next) closeIndex) relations;
              Some (skipDependencyAlias tokens (S closeIndex), wr.1, wr.2)
          end
        else
          Some (skipDependencyAlias tokens next, false,
                if decide (relation = zero_relation) then relations else add_relation relation relations)
    end.

Record scan_vars : Type := mkVars {
  v_wildcard : bool;
  v_depth : nat;
  v_inFromList : bool;
  v_fromDepth : nat;
  v_expectRelation : bool;
  v_relations : gmap string Relation
}.

(** One token outside a reference. *)
Definition scan_token (t : dependencyToken) (v : scan_vars) : scan_vars :=
  if dependencyTokenValue t "(" then
    mkVars (v_wildcard v) (S (v_depth v)) (v_inFromList v) (v_fromDepth v) (v_expectRelation v) (v_relations v)
  else if dependencyTokenValue t ")" then
    mkVars (v_wildcard v) (pred (v_depth v))
      (if v_inFromList v && (v_depth v <=? v_fromDepth v)%nat then false else v_inFromList v)
      (v_fromDepth v) (v_expectRelation v) (v_relations v)
  else
    let inFrom := if v_inFromList v && (v_depth v <=? v_fromDepth v)%nat && dependencyFromBoundary t
                  then false else v_inFromList v in
    if dependencyTokenKeyword t "from" then
      mkVars (v_wildcard v) (v_depth v) true (v_depth v) true (v_relations v)
    else if dependencyTokenKeyword t "join" then
      mkVars (v_wildcard v) (v_depth v) inFrom (v_fromDepth v) true (v_relations v)
    else if inFrom && (v_depth v =? v_fromDepth v)%nat && dependencyTokenValue t "," then
      mkVars (v_wildcard v) (v_depth v) inFrom (v_fromDepth v) true (v_relations v)
    else mkVars (v_wildcard v) (v_depth v) inFrom (v_fromDepth v) (v_expectRelation v) (v_relations v).

(** [consume] handles a reference. *)
Fixpoint scan_loop
    (consume : list dependencyToken -> nat -> gmap string Relation -> option (nat * bool * gmap string Relation))
    (fuel : nat) (tokens : list dependencyToken) (index : nat) (v : scan_vars) : option (bool * gmap string Relation) :=
  match fuel with
  | O => None
  | S f =>
      match tokens !! index with
      | None => Some (v_wildcard v, v_relations v)
      | Some t =>
          if v_expectRelation v then
            nur ← consume tokens index (v_relations v);
            let '(next, unknown, relations) := nur in
            scan_loop consume f tokens (if (index <? next)%nat then next else S index)
              (mkVars (v_wildcard v || unknown) (v_depth v) (v_inFromList v) (v_fromDepth v) false relations)
          else scan_loop consume f tokens (S index) (scan_token t v)
      end
  end.

(** [nesting] bounds the nesting of parenthesised parts. *)
Fixpoint scanDependencyTokens (nesting : nat) (tokens : list dependencyToken) (relations : gmap string Relation) :
    option (bool * gmap string Relation) :=
  match nesting with
  | O => None
  | S n =>
      scan_loop (consumeDependencyRelation (scanDependencyTokens n)) (S (length tokens)) tokens 0
        (mkVars false 0 false 0 false relations)
  end.
End scan.

Definition scanDependencyRelations (clause defaultSchema : string) : option dependencyRelationScan :=
  let tokens := tokenizeDependencyClause clause in
  if decide (tokens = []) then Some (mkDepScan [] false)
  else
    ctes ← collectDependencyCTENames tokens;
    wr ← scanDependencyTokens defaultSchema ctes (S (length tokens)) tokens ∅;
    Some (mkDepScan (sorted_values wr.2) wr.1).

(** The relation is named in the clause: qualified by two identifiers, or by
    one that is not the name of a common table expression. *)
Definition named_in (tokens : list dependencyToken) (defaultSchema : string) (ctes : gset string) (r : Relation) : Prop :=
  (exists t1 t2, t1 ∈ tokens /\ t2 ∈ tokens /\ dependencyTokenIdentifier t1 = true /\ dependencyTokenIdentifier t2 = true /\
     r = mkRelation (dependencyTokenName t1) (dependencyTokenName t2)) \/
  (exists t, t ∈ tokens /\ dependencyTokenIdentifier t = true /\ (dependencyTokenName t ∉ ctes) /\
     r = mkRelation defaultSchema (dependencyTokenName t)).

(** * Lemmas *)

(** ** Positions only move forward *)

Lemma at_token_lt (tokens : list dependencyToken) (i : nat) (f : dependencyToken -> bool) :
  at_token tokens i f = true -> (i < length tokens)%nat.
Proof. unfold at_token. destruct (tokens !! i) eqn:E; [|done]. intros _. by eapply lookup_lt_Some. Qed.

Lemma find_close_range (l : list dependencyToken) (cursor depth c : nat) :
  find_close l cursor depth = Some c -> (cursor <= c < cursor + length l)%nat.
Proof.
  revert cursor depth. induction l as [|t l IH]; intros cursor depth; cbn [find_close length]; [done|].
  destruct (dependencyTokenValue t "("); [intros ?%IH; lia|].
  destruct (dependencyTokenValue t ")"); [|intros ?%IH; lia].
  case_decide; [intros [= <-]; lia|intros ?%IH; lia].
Qed.

Lemma findClose_range (tokens : list dependencyToken) (i c : nat) :
  findDependencyBalancedClose tokens i = Some c -> (i < c < length tokens)%nat.
Proof.
  unfold findDependencyBalancedClose. destruct (at_token tokens i (is_sym "(")) eqn:E; [|done]. cbn [negb].
  pose proof (at_token_lt _ _ _ E) as Hi. unfold at_token in E. destruct (tokens !! i) as [t|] eqn:Et; [|done].
  rewrite (drop_S _ _ _ Et). cbn [find_close]. unfold is_sym in E. rewrite E. intros Hc.
  apply find_close_range in Hc. rewrite length_drop in Hc. lia.
Qed.

Lemma skip_if_le (f : dependencyToken -> bool) (tokens : list dependencyToken) (i : nat) : (i <= skip_if f tokens i)%nat.
Proof. unfold skip_if. destruct (at_token _ _ _); lia. Qed.

Lemma skip_balanced_le (tokens : list dependencyToken) (i : nat) : (i <= skip_balanced_if tokens i)%nat.
Proof.
  unfold skip_balanced_if, skipDependencyBalanced. destruct (at_token _ _ _); [|lia].
  destruct (findDependencyBalancedClose tokens i) eqn:E; [|lia]. apply findClose_range in E. lia.
Qed.

Lemma skipAlias_le (tokens : list dependencyToken) (i : nat) : (i <= skipDependencyAlias tokens i)%nat.
Proof.
  unfold skipDependencyAlias. destruct (at_token _ _ _).
  - pose proof (skip_if_le dependencyTokenIdentifier tokens (S i)).
    pose proof (skip_balanced_le tokens (skip_if dependencyTokenIdentifier tokens (S i))). lia.
  - destruct (at_token _ _ _); [|lia]. pose proof (skip_balanced_le tokens (S i)). lia.
Qed.

Lemma skip_only_le (fuel : nat) (tokens : list dependencyToken) (i : nat) : (i <= skip_only fuel tokens i)%nat.
Proof.
  revert i. induction fuel as [|f IH]; intros i; cbn [skip_only]; [lia|]. destruct (at_token _ _ _); [|lia].
  specialize (IH (S i)). lia.
Qed.

(** ** Enough fuel *)

Lemma cte_names_total (fuel : nat) (tokens : list dependencyToken) (i : nat) (ctes : gset string) :
  (length tokens - i < fuel)%nat -> exists j c, cte_names fuel tokens i ctes = Some (j, c) /\ (i <= j)%nat.
Proof.
  revert i ctes. induction fuel as [|f IH]; intros i ctes Hf; [lia|]. cbn [cte_names].
  destruct (tokens !! i) as [t|] eqn:E; [|by exists i, ctes; split; [|lia]].
  apply lookup_lt_Some in E. destruct (dependencyTokenIdentifier t); cbn [negb]; [|by exists i, ctes; split; [|lia]].
  match goal with |- context [at_token tokens ?p (is_sym ",")] => set (q := p) end.
  assert (Hq : (S i <= q)%nat).
  { subst q. pose proof (skip_balanced_le tokens (S i)).
    pose proof (skip_if_le (is_kw "as") tokens (skip_balanced_if tokens (S i))).
    pose proof (skip_balanced_le tokens (skip_if (is_kw "as") tokens (skip_balanced_if tokens (S i)))). lia. }
  destruct (at_token tokens q (is_sym ",")).
  - destruct (IH (S q) ({[dependencyTokenName t]} ∪ ctes)) as (j & c & -> & Hj); [lia|]. exists j, c. split; [done|lia].
  - exists q, ({[dependencyTokenName t]} ∪ ctes). split; [done|lia].
Qed.

Lemma collect_ctes_total (fuel : nat) (tokens : list dependencyToken) (i : nat) (ctes : gset string) :
  (length tokens - i < fuel)%nat -> is_Some (collect_ctes fuel tokens i ctes).
Proof.
  revert i ctes. induction fuel as [|f IH]; intros i ctes Hf; [lia|]. cbn [collect_ctes].
  destruct (tokens !! i) as [t|] eqn:E; [|by eexists]. apply lookup_lt_Some in E.
  destruct (dependencyTokenKeyword t "with"); cbn [negb]; [|apply IH; lia].
  pose proof (skip_if_le (is_kw "recursive") tokens (S i)).
  destruct (cte_names_total (S (length tokens)) tokens (skip_if (is_kw "recursive") tokens (S i)) ctes)
    as (j & c & -> & Hj); [lia|]. cbn. apply IH. lia.
Qed.

Lemma collect_total (tokens : list dependencyToken) : is_Some (collectDependencyCTENames tokens).
Proof. apply collect_ctes_total. lia. Qed.

Lemma length_slice (tokens : list dependencyToken) (from to : nat) :
  (from <= to <= length tokens)%nat -> length (slice tokens from to) = (to - from)%nat.
Proof. intros ?. unfold slice. rewrite length_take, length_drop. lia. Qed.

Lemma elem_of_slice (t : dependencyToken) (tokens : list dependencyToken) (from to : nat) :
  t ∈ slice tokens from to -> t ∈ tokens.
Proof. unfold slice. intros H. apply (subseteq_drop from), (subseteq_take (to - from)), H. Qed.

Lemma read_reference_next (ds : string) (ctes : gset string) (tokens : list dependencyToken) (i next : nat) (r : Relation) :
  readDependencyRelationReference ds ctes tokens i = Some (r, next) -> (i < next)%nat.
Proof.
  unfold readDependencyRelationReference. intros H.
  destruct (tokens !! i) as [t|]; [|done]. destruct (dependencyTokenIdentifier t); [|done]. cbn [negb] in H.
  repeat case_match; simplify_eq; lia.
Qed.

Section consume.
Variable ds : string.
Variable ctes : gset string.
Variable scan : list dependencyToken -> gmap string Relation -> option (bool * gmap string Relation).

Lemma consume_total (tokens : list dependencyToken) (i : nat) (m : gmap string Relation) :
  (forall inner m', (length inner < length tokens)%nat -> is_Some (scan inner m')) ->
  (i < length tokens)%nat ->
  exists next w m', consumeDependencyRelation ds ctes scan tokens i m = Some (next, w, m') /\ (i < next)%nat.
Proof.
  intros Hscan Hi. unfold consumeDependencyRelation.
  pose proof (skip_only_le (length tokens) tokens i). set (j := skip_only _ _ _) in *.
  destruct (Nat.leb_spec (length tokens) j). { exists j, true, m. split; [done|lia]. }
  destruct (at_token tokens j (is_sym "(")).
  - destruct (findDependencyBalancedClose tokens j) as [c|] eqn:Ec; [|exists (S j), true, m; split; [done|lia]].
    apply findClose_range in Ec. pose proof (skipAlias_le tokens (S c)).
    destruct (dependencyRelationFromTokens _ _ _); [do 3 eexists; split; [done|lia]|].
    destruct (Hscan (slice tokens (S j) c) m) as [[w m'] ->]; [rewrite length_slice; lia|].
    do 3 eexists; split; [done|lia].
  - destruct (readDependencyRelationReference ds ctes tokens j) as [[r next]|] eqn:Er;
      [|exists (S j), true, m; split; [done|lia]].
    apply read_reference_next in Er. pose proof (skipAlias_le tokens next).
    destruct (at_token tokens next (is_sym "(")); [|do 3 eexists; split; [done|lia]].
    destruct (findDependencyBalancedClose tokens next) as [c|] eqn:Ec; [|exists (S next), true, m; split; [done|lia]].
    apply findClose_range in Ec. pose proof (skipAlias_le tokens (S c)).
    destruct (Hscan (slice tokens (S next) c) m) as [[w m'] ->]; [rewrite length_slice; lia|].
    do 3 eexists; split; [done|lia].
Qed.
End consume.

Lemma loop_total consume (fuel : nat) (tokens : list dependencyToken) (i : nat) (v : scan_vars) :
  (forall j m, (j < length tokens)%nat -> is_Some (consume tokens j m)) ->
  (length tokens - i < fuel)%nat -> is_Some (scan_loop consume fuel tokens i v).
Proof.
  intros Hc. revert i v. induction fuel as [|f IH]; intros i v Hf; [lia|]. cbn [scan_loop].
  destruct (tokens !! i) as [t|] eqn:E; [|by eexists]. apply lookup_lt_Some in E.
  destruct (v_expectRelation v); [|apply IH; lia].
  destruct (Hc i (v_relations v) E) as [[[next w] m] ->]. cbn -[Nat.ltb]. apply IH.
  destruct (Nat.ltb_spec i next); lia.
Qed.

Lemma scan_tokens_total (ds : string) (ctes : gset string) (nesting : nat) (tokens : list dependencyToken) (m : gmap string Relation) :
  (length tokens < nesting)%nat -> is_Some (scanDependencyTokens ds ctes nesting tokens m).
Proof.
  revert tokens m. induction nesting as [|n IH]; intros tokens m Hn; [lia|]. cbn [scanDependencyTokens].
  apply loop_total; [|lia]. intros j m' Hj.
  destruct (consume_total ds ctes (scanDependencyTokens ds ctes n) tokens j m') as (next & w & m2 & -> & _); [|done|by eexists].
  intros inner m3 Hin. apply IH. lia.
Qed.

(** ** What the scan adds *)

Lemma named_in_mono (tokens tokens' : list dependencyToken) (ds : string) (ctes : gset string) (r : Relation) :
  tokens ⊆ tokens' -> named_in tokens ds ctes r -> named_in tokens' ds ctes r.
Proof.
  unfold named_in. intros Hs [(t1 & t2 & H1 & H2 & H)|(t & H1 & H)]; [left|right].
  - exists t1, t2. split_and!; [by apply Hs..|apply H|apply H|apply H].
  - exists t. split; [by apply Hs|exact H].
Qed.

Lemma read_reference_named (ds : string) (ctes : gset string) (tokens : list dependencyToken) (i next : nat) (r : Relation) :
  readDependencyRelationReference ds ctes tokens i = Some (r, next) -> r ≠ zero_relation -> named_in tokens ds ctes r.
Proof.
  unfold readDependencyRelationReference. intros H Hz.
  destruct (tokens !! i) as [t|] eqn:Et; [|done]. pose proof (list_elem_of_lookup_2 _ _ _ Et) as Hin.
  destruct (dependencyTokenIdentifier t) eqn:Hid; [|done]. cbn [negb] in H.
  assert (Hplain : Some (if decide (dependencyTokenName t ∈ ctes) then (zero_relation, S i)
     else (mkRelation ds (dependencyTokenName t), S i)) = Some (r, next) -> named_in tokens ds ctes r).
  { intros H'. case_decide; simplify_eq. right. by exists t. }
  destruct (at_token tokens (S i) (is_sym ".")); [|by apply Hplain].
  destruct (tokens !! S (S i)) as [t2|] eqn:Et2; [|by apply Hplain].
  destruct (dependencyTokenIdentifier t2) eqn:Hid2; [|by apply Hplain].
  apply list_elem_of_lookup_2 in Et2. simplify_eq. left. by exists t, t2.
Qed.

(** Whatever preorder the additions of named relations respect, the scan
    respects. *)
Section preserves.
Variable ds : string.
Variable ctes : gset string.
Variable all : list dependencyToken.
Variable rel : gmap string Relation -> gmap string Relation -> Prop.
Hypothesis rel_preorder : PreOrder rel.
Hypothesis rel_add : forall m r, named_in all ds ctes r -> rel m (add_relation r m).

Lemma consume_preserves scan (tokens : list dependencyToken) (i next : nat) (w : bool) (m m' : gmap string Relation) :
  (forall inner m1 w1 m2, inner ⊆ all -> scan inner m1 = Some (w1, m2) -> rel m1 m2) ->
  tokens ⊆ all -> consumeDependencyRelation ds ctes scan tokens i m = Some (next, w, m') -> rel m m'.
Proof.
  intros Hscan Hs. unfold consumeDependencyRelation. set (j := skip_only _ _ _).
  assert (Hslice : forall a b, slice tokens a b ⊆ all) by (intros a b t ?%elem_of_slice; by apply Hs).
  destruct (_ <=? _)%nat; [by intros [= <- <- <-]|]. destruct (at_token tokens j (is_sym "(")).
  - destruct (findDependencyBalancedClose tokens j) as [c|]; [|by intros [= <- <- <-]].
    destruct (dependencyRelationFromTokens _ _ _) as [r|] eqn:Er.
    + intros [= <- <- <-]. apply rel_add. unfold dependencyRelationFromTokens in Er.
      destruct (readDependencyRelationReference _ _ _ _) as [[r' nx]|] eqn:E; [|done].
      case_decide; [done|]. case_decide; [|done]. simplify_eq.
      eapply named_in_mono; [apply (Hslice (S j) c)|]. by eapply read_reference_named.
    + destruct (scan (slice tokens (S j) c) m) as [[w1 m1]|] eqn:E; [|done]. cbn. intros [= <- <- <-].
      eapply Hscan; [|exact E]. apply Hslice.
  - destruct (readDependencyRelationReference ds ctes tokens j) as [[r nx]|] eqn:Er; [|by intros [= <- <- <-]].
    destruct (at_token tokens nx (is_sym "(")).
    + destruct (findDependencyBalancedClose tokens nx) as [c|]; [|by intros [= <- <- <-]].
      destruct (scan (slice tokens (S nx) c) m) as [[w1 m1]|] eqn:E; [|done]. cbn. intros [= <- <- <-].
      eapply Hscan; [|exact E]. apply Hslice.
    + intros [= <- <- <-]. case_decide; [done|]. apply rel_add.
      eapply named_in_mono; [exact Hs|]. by eapply read_reference_named.
Qed.

Lemma loop_preserves consume (fuel : nat) (tokens : list dependencyToken) (i : nat) (v : scan_vars) (w : bool) (m : gmap string Relation) :
  (forall j next w m1 m2, consume tokens j m1 = Some (next, w, m2) -> rel m1 m2) ->
  scan_loop consume fuel tokens i v = Some (w, m) -> rel (v_relations v) m.
Proof.
  intros Hc. revert i v. induction fuel as [|f IH]; intros i v; cbn [scan_loop]; [done|].
  destruct (tokens !! i) as [t|]; [|by intros [= <- <-]].
  destruct (v_expectRelation v).
  - destruct (consume tokens i (v_relations v)) as [[[next w1] m1]|] eqn:E; [|done]. cbn. intros H%IH.
    cbn in H. apply Hc in E. by etrans.
  - intros H%IH. revert H. unfold scan_token. repeat split_match; done.
Qed.

Lemma scan_tokens_preserves (nesting : nat) (tokens : list dependencyToken) (w : bool) (m m' : gmap string Relation) :
  tokens ⊆ all -> scanDependencyTokens ds ctes nesting tokens m = Some (w, m') -> rel m m'.
Proof.
  revert tokens w m m'. induction nesting as [|n IH]; intros tokens w m m' Hs; cbn [scanDependencyTokens]; [done|].
  intros H. apply loop_preserves in H; [exact H|]. intros j next w1 m1 m2. apply consume_preserves; [|done].
  intros inner m3 w3 m4 Hin. by apply IH.
Qed.
End preserves.

(** ** The first reference *)

(** What follows FROM or JOIN names a relation: an identifier that is no
    common table expression, or two with a dot. *)
Inductive refers (ds : string) (ctes : gset string) : list dependencyToken -> Relation -> Prop :=
  | refers_plain (t : dependencyToken) :
      dependencyTokenIdentifier t = true -> dependencyTokenName t ∉ ctes ->
      refers ds ctes [t] (mkRelation ds (dependencyTokenName t))
  | refers_qualified (t1 d t2 : dependencyToken) :
      dependencyTokenIdentifier t1 = true -> is_sym "." d = true -> dependencyTokenIdentifier t2 = true ->
      refers ds ctes [t1; d; t2] (mkRelation (dependencyTokenName t1) (dependencyTokenName t2)).

Definition reference_keyword (t : dependencyToken) : bool := is_kw "from" t || is_kw "join" t.
Definition reference_prefix (t : dependencyToken) : bool := is_kw "only" t || is_kw "lateral" t.

Lemma keyword_not_symbol (t : dependencyToken) (k v : string) : is_kw k t = true -> is_sym v t = false.
Proof. unfold is_kw, is_sym, dependencyTokenKeyword, dependencyTokenIdentifier, dependencyTokenValue. by destruct (tok_Symbol t). Qed.

Lemma identifier_not_symbol (t : dependencyToken) (v : string) : dependencyTokenIdentifier t = true -> is_sym v t = false.
Proof. unfold is_sym, dependencyTokenIdentifier, dependencyTokenValue. by destruct (tok_Symbol t). Qed.

Lemma identifier_name (t : dependencyToken) : dependencyTokenIdentifier t = true -> dependencyTokenName t ≠ "".
Proof.
  unfold dependencyTokenIdentifier, dependencyTokenName. destruct t as [v q s]; cbn. destruct s; [done|].
  destruct v; [done|]. by destruct q.
Qed.

Lemma scan_token_plain (t : dependencyToken) (v : scan_vars) :
  reference_keyword t = false -> v_inFromList v = false -> v_expectRelation v = false ->
  let v' := scan_token t v in
  v_wildcard v' = v_wildcard v /\ v_relations v' = v_relations v /\ v_inFromList v' = false /\ v_expectRelation v' = false.
Proof.
  unfold reference_keyword, is_kw, scan_token. intros [Hf Hj]%orb_false_iff Hi He. rewrite Hf, Hj, Hi, He. cbn [andb].
  by repeat split_match.
Qed.

Lemma loop_skips consume (pre : list dependencyToken) :
  forall (before post : list dependencyToken) (f : nat) (v : scan_vars),
  forallb (fun t => negb (reference_keyword t)) pre = true -> v_inFromList v = false -> v_expectRelation v = false ->
  exists v', scan_loop consume (length pre + f) (before ++ pre ++ post) (length before) v =
    scan_loop consume f (before ++ pre ++ post) (length before + length pre) v' /\
    v_relations v' = v_relations v /\ v_expectRelation v' = false.
Proof.
  induction pre as [|t pre IH]; intros before post f v Hp Hi He.
  { exists v. by rewrite Nat.add_0_r. }
  cbn [forallb] in Hp. apply andb_true_iff in Hp as [Ht Hp]. apply negb_true_iff in Ht.
  destruct (scan_token_plain t v Ht Hi He) as (_ & Hr & Hi' & He').
  destruct (IH (before ++ [t]) post f (scan_token t v) Hp Hi' He') as (v' & Hl & Hr' & Hv').
  exists v'. split_and!; [|congruence|done]. cbn [length Nat.add scan_loop]. rewrite He.
  rewrite (lookup_app_r before) by lia. rewrite Nat.sub_diag. cbn [app lookup list_lookup].
  rewrite length_app in Hl. cbn [length] in Hl. rewrite <- !app_assoc in Hl. cbn [app] in Hl.
  rewrite Nat.add_1_r in Hl. rewrite Hl. f_equal. lia.
Qed.

Lemma consume_reference (ds : string) (ctes : gset string) scan (before ref post : list dependencyToken) (r : Relation) (m : gmap string Relation) :
  refers ds ctes ref r -> at_token ref 0 reference_prefix = false ->
  at_token post 0 (is_sym "(") = false -> at_token post 0 (is_sym ".") = false ->
  exists next, consumeDependencyRelation ds ctes scan (before ++ ref ++ post) (length before) m =
    Some (next, false, add_relation r m).
Proof.
  intros Href Hpre Hp Hd. set (tokens := before ++ ref ++ post).
  assert (Hat : forall k f, at_token tokens (length before + length ref + k) f = at_token post k f).
  { intros k f. unfold at_token, tokens. rewrite (lookup_app_r before), (lookup_app_r ref) by lia.
    by replace (length before + length ref + k - length before - length ref)%nat with k by lia. }
  assert (Hlk : forall k, (k < length ref)%nat -> tokens !! (length before + k)%nat = ref !! k).
  { intros k Hk. unfold tokens. rewrite (lookup_app_r before) by lia.
    replace (length before + k - length before)%nat with k by lia. by rewrite lookup_app_l. }
  assert (Hlen : (length before < length tokens)%nat).
  { unfold tokens. rewrite !length_app. inv Href; cbn; lia. }
  assert (Honly : skip_only (length tokens) tokens (length before) = length before).
  { destruct (length tokens); [done|]. cbn [skip_only]. unfold at_token in *.
    rewrite <- (Nat.add_0_r (length before)) at 1. rewrite Hlk by (inv Href; cbn; lia).
    unfold reference_prefix, is_kw in Hpre. by rewrite Hpre. }
  assert (Hread : readDependencyRelationReference ds ctes tokens (length before) = Some (r, (length before + length ref)%nat)
    /\ at_token tokens (length before) (is_sym "(") = false /\ r ≠ zero_relation).
  { unfold readDependencyRelationReference, at_token.
    pose proof (Hlk 0%nat) as Hk0. rewrite Nat.add_0_r in Hk0.
    inv Href; cbn [length] in *; rewrite Hk0 by lia; cbn [lookup list_lookup].
    - rewrite H. cbn [negb]. specialize (Hat 0%nat (is_sym ".")). rewrite Nat.add_0_r, Nat.add_1_r in Hat.
      unfold at_token in Hat, Hd. rewrite Hat, Hd. rewrite decide_False by done.
      rewrite Nat.add_1_r. split_and!; [done|by apply identifier_not_symbol|].
      intros [= _ Hn]. by apply (identifier_name t).
    - rewrite H. cbn [negb]. pose proof (Hlk 1%nat) as H3. pose proof (Hlk 2%nat) as H4.
      rewrite Nat.add_1_r in H3. replace (length before + 2)%nat with (S (S (length before))) in H4 by lia.
      rewrite H3, H4 by lia. cbn [lookup list_lookup]. rewrite H0, H1.
      split_and!; [done|by apply identifier_not_symbol|]. intros [= Hn _]. by apply (identifier_name t1). }
  destruct Hread as (Hread & Hopen & Hz). unfold consumeDependencyRelation. fold tokens. rewrite Honly.
  destruct (Nat.leb_spec (length tokens) (length before)); [lia|]. rewrite Hopen, Hread.
  specialize (Hat 0%nat (is_sym "(")). rewrite Nat.add_0_r in Hat. rewrite Hat, Hp, decide_False by done.
  by eexists.
Qed.

Lemma dom_grows : PreOrder (fun m1 m2 : gmap string Relation => dom m1 ⊆ dom m2).
Proof. split; [by intros ?|]. intros m1 m2 m3 H1 H2. by etrans. Qed.

Lemma dom_adds (ds : string) (ctes : gset string) (all : list dependencyToken) (m : gmap string Relation) (r : Relation) :
  named_in all ds ctes r -> dom m ⊆ dom (add_relation r m).
Proof. intros _. unfold add_relation. rewrite dom_insert. set_solver. Qed.

Lemma scan_first (ds : string) (ctes : gset string) (nesting : nat) (pre ref post : list dependencyToken)
    (kw : dependencyToken) (r : Relation) (w : bool) (m m' : gmap string Relation) :
  forallb (fun t => negb (reference_keyword t)) pre = true -> reference_keyword kw = true ->
  refers ds ctes ref r -> at_token ref 0 reference_prefix = false ->
  at_token post 0 (is_sym "(") = false -> at_token post 0 (is_sym ".") = false ->
  scanDependencyTokens ds ctes nesting (pre ++ kw :: ref ++ post) m = Some (w, m') ->
  is_Some (m' !! dependencyRelationKey r).
Proof.
  intros Hpre Hkw Href Hp Ho Hd. destruct nesting as [|n]; [done|]. cbn [scanDependencyTokens].
  set (consume := consumeDependencyRelation _ _ _). set (tokens := pre ++ kw :: ref ++ post).
  assert (Href0 : exists t rest, ref = t :: rest) by (inv Href; eauto).
  replace (S (length tokens)) with (length pre + (S (S (length ref + length post))))%nat
    by (unfold tokens; rewrite length_app; cbn; rewrite length_app; lia).
  destruct (loop_skips consume pre [] (kw :: ref ++ post) (S (S (length ref + length post)))
    (mkVars false 0 false 0 false m) Hpre eq_refl eq_refl) as (v & Hl & Hr & He).
  cbn [length app Nat.add] in Hl. fold tokens in Hl. rewrite Hl. cbn [scan_loop]. clear Hl.
  assert (Hk : tokens !! length pre = Some kw) by (unfold tokens; by rewrite list_lookup_middle).
  assert (Hk' : exists t, tokens !! S (length pre) = Some t).
  { apply lookup_lt_is_Some. unfold tokens. rewrite length_app. cbn. rewrite length_app.
    destruct Href0 as (? & ? & ->); cbn; lia. }
  destruct Hk' as [t Ht]. rewrite Hk, He, Ht.
  assert (Hv : v_expectRelation (scan_token kw v) = true /\ v_relations (scan_token kw v) = m).
  { unfold scan_token. unfold reference_keyword in Hkw.
    assert (Hs : forall s, is_sym s kw = false).
    { intros s. apply orb_true_iff in Hkw as [?|?]; by eapply keyword_not_symbol. }
    unfold is_sym in Hs. rewrite !Hs. unfold is_kw in Hkw. destruct (dependencyTokenKeyword kw "from"); [by cbn|].
    cbn [orb] in Hkw. rewrite Hkw. by cbn. }
  destruct Hv as [-> ->].
  destruct (consume_reference ds ctes (scanDependencyTokens ds ctes n) (pre ++ [kw]) ref post r m Href Hp Ho Hd)
    as (next & Hc).
  rewrite length_app, <- app_assoc in Hc. cbn [length app] in Hc. rewrite Nat.add_1_r in Hc.
  fold tokens consume in Hc. rewrite Hc. cbn -[Nat.ltb scan_loop]. intros Hrest.
  apply (loop_preserves (fun m1 m2 => dom m1 ⊆ dom m2)) in Hrest.
  - cbn [v_relations] in Hrest. apply elem_of_dom. apply Hrest. unfold add_relation. rewrite dom_insert. set_solver.
  - apply dom_grows.
  - intros j nx w1 m1 m2 Hcons. revert Hcons.
    apply (consume_preserves ds ctes tokens (fun m1 m2 => dom m1 ⊆ dom m2) dom_grows (dom_adds ds ctes tokens)); [|done].
    intros inner m3 w3 m4. apply (scan_tokens_preserves ds ctes tokens (fun m1 m2 => dom m1 ⊆ dom m2) dom_grows (dom_adds ds ctes tokens)).
Qed.

Lemma scan_entries (ds : string) (ctes : gset string) (nesting : nat) (tokens : list dependencyToken) (w : bool) (m : gmap string Relation) :
  scanDependencyTokens ds ctes nesting tokens ∅ = Some (w, m) ->
  map_Forall (fun k r => dependencyRelationKey r = k /\ named_in tokens ds ctes r) m.
Proof.
  set (good := fun (k : string) r => dependencyRelationKey r = k /\ named_in tokens ds ctes r). intros E.
  apply (scan_tokens_preserves ds ctes tokens (fun m1 m2 => map_Forall good m1 -> map_Forall good m2)) in E.
  - exact E.
  - split; [by intros ?|]. unfold Transitive. tauto.
  - intros m1 r Hr Hm. unfold add_relation. by apply map_Forall_insert_2.
  - done.
  - apply map_Forall_empty.
Qed.

Lemma scan_is_total (clause defaultSchema : string) : is_Some (scanDependencyRelations clause defaultSchema).
Proof.
  unfold scanDependencyRelations. case_decide; [by eexists|].
  destruct (collect_total (tokenizeDependencyClause clause)) as [ctes ->]. cbn [mbind option_bind].
  destruct (scan_tokens_total defaultSchema ctes (S (length (tokenizeDependencyClause clause)))
    (tokenizeDependencyClause clause) ∅) as [wr ->]; [lia|]. by eexists.
Qed.

Lemma first_reference_scan (clause defaultSchema : string) (pre ref post : list dependencyToken)
    (kw : dependencyToken) (r : Relation) (ctes : gset string) :
  tokenizeDependencyClause clause = pre ++ kw :: ref ++ post ->
  forallb (fun t => negb (reference_keyword t)) pre = true -> reference_keyword kw = true ->
  collectDependencyCTENames (tokenizeDependencyClause clause) = Some ctes ->
  refers defaultSchema ctes ref r -> at_token ref 0 reference_prefix = false ->
  at_token post 0 (is_sym "(") = false -> at_token post 0 (is_sym ".") = false ->
  exists result, scanDependencyRelations clause defaultSchema = Some result /\
    dependencyRelationKey r ∈ map dependencyRelationKey (scan_Relations result).
Proof.
  intros Htok Hpre Hkw Hctes Href Hp Ho Hd. unfold scanDependencyRelations.
  rewrite decide_False by (rewrite Htok; by destruct pre). rewrite Hctes. cbn [mbind option_bind].
  destruct (scan_tokens_total defaultSchema ctes (S (length (tokenizeDependencyClause clause)))
    (tokenizeDependencyClause clause) ∅) as [[w m] E]; [lia|].
  rewrite E. cbn [mbind option_bind]. eexists. split; [done|]. cbn [scan_Relations fst snd].
  assert (Hm : is_Some (m !! dependencyRelationKey r)).
  { rewrite Htok in E at 2. by apply (scan_first _ _ _ _ _ _ _ _ _ _ _ Hpre Hkw Href Hp Ho Hd) in E. }
  rewrite (sorted_values_keys dependencyRelationKey); [by apply elem_of_sorted_keys|].
  intros k v Hk. apply scan_entries in E. apply (E k v Hk).
Qed.

(** * Properties *)

(** The scan of every clause ends with a result, however its parentheses
    nest and wherever its tokens stop. *)
Theorem scan_total (clause defaultSchema : string) : is_Some (scanDependencyRelations clause defaultSchema).
Proof. apply scan_is_total. Qed.

(** Every relation the scan reports is named in the clause, by two
    identifiers or by one that is not a common table expression; no two
    reported relations have the same key, and they are listed in key order. *)
Theorem scan_reports_named (clause defaultSchema : string) (result : dependencyRelationScan) :
  scanDependencyRelations clause defaultSchema = Some result ->
  exists ctes, collectDependencyCTENames (tokenizeDependencyClause clause) = Some ctes /\
    Forall (named_in (tokenizeDependencyClause clause) defaultSchema ctes) (scan_Relations result) /\
    NoDup (map dependencyRelationKey (scan_Relations result)) /\
    StronglySorted String.le (map dependencyRelationKey (scan_Relations result)).
Proof.
  unfold scanDependencyRelations. set (tokens := tokenizeDependencyClause clause). case_decide as Hnil.
  { intros [= <-]. destruct (collect_total tokens) as [ctes Hc]. exists ctes. split_and!; [done|constructor..]. }
  destruct (collectDependencyCTENames tokens) as [ctes|]; [|done]. cbn [mbind option_bind].
  destruct (scanDependencyTokens _ _ _ _ _) as [[w m]|] eqn:E; [|done]. intros [= <-]. exists ctes. split; [done|].
  apply scan_entries in E. cbn [scan_Relations fst snd].
  assert (Hkeys : map dependencyRelationKey (sorted_values m) = sorted_keys m).
  { apply (sorted_values_keys dependencyRelationKey). intros k r Hk. apply (E k r Hk). }
  rewrite Hkeys. split_and!; [|apply NoDup_sorted_keys|apply sorted_keys_sorted].
  apply Forall_forall. intros r (k & Hk)%elem_of_sorted_values. apply (E k r Hk).
Qed.

(** The first relation after FROM or JOIN is never missed: if a clause
    reads [pre], a FROM or JOIN keyword, a reference to relation [r] and then
    neither a dot nor an opening parenthesis, the scan reports a relation with
    the key of [r], at any depth of parentheses and whatever follows. *)
Theorem first_reference_reported (clause defaultSchema : string) (pre ref post : list dependencyToken)
    (kw : dependencyToken) (r : Relation) (ctes : gset string) :
  tokenizeDependencyClause clause = pre ++ kw :: ref ++ post ->
  forallb (fun t => negb (reference_keyword t)) pre = true -> reference_keyword kw = true ->
  collectDependencyCTENames (tokenizeDependencyClause clause) = Some ctes ->
  refers defaultSchema ctes ref r -> at_token ref 0 reference_prefix = false ->
  at_token post 0 (is_sym "(") = false -> at_token post 0 (is_sym ".") = false ->
  exists result, scanDependencyRelations clause defaultSchema = Some result /\
    dependencyRelationKey r ∈ map dependencyRelationKey (scan_Relations result).
Proof. apply first_reference_scan. Qed.

Definition demo_clause : string := "id IN (SELECT item_id FROM app.links WHERE kind = 1)".

Lemma scan_reports_named_witness :
  StronglySorted String.le ["app.links"].
Proof.
  destruct (scan_reports_named demo_clause "public" (mkDepScan [mkRelation "app" "links"] false)) as (ctes & _ & _ & _ & H).
  - vm_compute. reflexivity.
  - exact H.
Defined.

Lemma first_reference_reported_witness :
  exists result, scanDependencyRelations demo_clause "public" = Some result /\
    "app.links" ∈ map dependencyRelationKey (scan_Relations result).
Proof.
  apply (first_reference_reported demo_clause "public" (take 5 (tokenizeDependencyClause demo_clause))
    (slice (tokenizeDependencyClause demo_clause) 6 9) (drop 9 (tokenizeDependencyClause demo_clause))
    (mkToken "FROM" false false) (mkRelation "app" "links") ∅); try (vm_compute; reflexivity).
  apply (refers_qualified "public" ∅ (mkToken "app" false false) (mkToken "." false true) (mkToken "links" false false));
    vm_compute; reflexivity.
Defined.

(** The name of a common table expression hides a table of that name in the
    whole clause, outside the WITH query too. *)
Example cte_name_hides_table :
  scan_Relations <$> scanDependencyRelations
    "id IN (WITH t AS (SELECT 1 FROM u) SELECT a FROM t) AND b IN (SELECT c FROM t)" "public" =
  Some [mkRelation "public" "u"].
Proof. vm_compute. reflexivity. Qed.
