(* ===== verification/RelationCache.v ===== *)
(** What a change of a relation means for a shape: [src/internal/pg/relation_cache.go],
    with the queries of [src/internal/pg/runtime.go].

    The first part classifies definitions: which can be kept live row by row,
    which by a whole refresh, and which have to be dropped when a relation
    changes.  The second part builds the queries: the columns of a shape, its
    snapshot query and the query for a set of changed keys. *)

From Stdlib Require Import Ascii String ZArith NArith Lia.
From S2P Require Import Prelude ShapeTypes SqlInspect Diff ChangeBatch DependencyScan.

#[local] Set Warnings "-clear-no-such-hyp".

(** * Definitions *)

(** ** Schemas *)

Definition clonePKIndex (value : option Z) : option Z :=
  match value with None => None | Some cloned => Some cloned end.

Definition schemaForColumns (columns : list describedColumn) : Schema :=
  fold_left (fun schema c =>
    <[dc_Name c := mkColumn (dc_Type c) (dc_NotNull c) (clonePKIndex (dc_PKIndex c))]> schema) columns ∅.

Definition pkIndexesEqual (left right : option Z) : bool :=
  match left, right with
  | None, None => true
  | Some l, Some r => l =? r
  | _, _ => false
  end.

Definition shapeSchemasEqual (left right : Schema) : bool :=
  if negb (size left =? size right)%nat then false
  else forallb (fun '(name, leftColumn) =>
    match right !! name with
    | None => false
    | Some rightColumn =>
        bool_decide (col_Type leftColumn = col_Type rightColumn) &&
        Bool.eqb (col_NotNull leftColumn) (col_NotNull rightColumn) &&
        pkIndexesEqual (col_PKIndex leftColumn) (col_PKIndex rightColumn)
    end) (map_to_list left).

(** ** Columns and queries *)

(** One round of the loops: the column is added unless its name was seen. *)
Definition project_column (wanted : describedColumn -> bool) (acc : list describedColumn * gset string) (c : describedColumn) :
    list describedColumn * gset string :=
  if wanted c && negb (bool_decide (dc_Name c ∈ acc.2)) then (acc.1 ++ [c], {[dc_Name c]} ∪ acc.2) else acc.

Definition projectedColumns (described : list describedColumn) (explicit : list string) : list describedColumn :=
  if decide (explicit = []) then described
  else
    let acc := fold_left (fun acc name =>
      fold_left (project_column (fun c => bool_decide (dc_Name c = name))) described acc) explicit ([], ∅) in
    (fold_left (project_column (fun c => bool_decide (is_Some (dc_PKIndex c)))) described acc).1.

Definition targetedSnapshotColumns (md : relationMetadata) (explicit : list string) : list describedColumn :=
  projectedColumns (md_Columns md) explicit.

(** Keys that are no integers are left out, and a key is looked up by its
    canonical spelling. *)
Definition paramsAsArgs (values : gmap string string) : list string :=
  if decide (values = ∅) then []
  else
    let keys := omap (fun kv => parse_int64 kv.1) (map_to_list values) in
    map (fun key => default "" (values !! format_Z key)) (merge_sort Z.le keys).

Definition select_part (c : describedColumn) : string :=
  let quoted := quoteIdentifier (dc_Name c) in quoted +:+ "::text AS " +:+ quoted.

Definition select_from (def : Definition_) (columns : list describedColumn) : string :=
  "SELECT " +:+ join ", " (map select_part columns) +:+ " FROM " +:+
  quoteIdentifier (rel_Schema (def_Relation def)) +:+ "." +:+ quoteIdentifier (rel_Table (def_Relation def)).

Definition parenthesised (clause : string) : string := "(" +:+ clause +:+ ")".
Definition where_clauses (clause : string) : list string := if decide (clause = "") then [] else [parenthesised clause].

Definition buildSnapshotQuery (def : Definition_) (columns : list describedColumn) : string * list string :=
  let query := select_from def columns in
  let args := paramsAsArgs (def_Params def) in
  let '(whereClauses, args) :=
    match def_Subset def with
    | Some sub =>
        if decide (sub_Where sub = "") then (where_clauses (def_Where def), args)
        else (where_clauses (def_Where def) ++ [parenthesised (sub_Where sub)], args ++ paramsAsArgs (sub_Params sub))
    | None => (where_clauses (def_Where def), args)
    end in
  let query := if decide (whereClauses = []) then query else query +:+ " WHERE " +:+ join " AND " whereClauses in
  match def_Subset def with
  | None => (query, args)
  | Some sub =>
      let query := if decide (sub_OrderBy sub = "") then query else query +:+ " ORDER BY " +:+ sub_OrderBy sub in
      let query := match sub_Limit sub with Some n => query +:+ " LIMIT " +:+ format_Z n | None => query end in
      let query := match sub_Offset sub with Some n => query +:+ " OFFSET " +:+ format_Z n | None => query end in
      (query, args)
  end.

Definition dedupeKeyRows (pkColumns : list describedColumn) (keyRows : list Row) : list Row :=
  if decide (keyRows = []) then []
  else
    sorted_values (fold_left (fun seen row =>
      let key := primaryKeySignature (primaryKeyRowForColumns pkColumns row) in
      if decide (key = "") then seen else <[key := primaryKeyRowForColumns pkColumns row]> seen) keyRows ∅).

Definition key_predicate (c : describedColumn) (n : nat) : string :=
  quoteIdentifier (dc_Name c) +:+ "::text = $" +:+ format_Z (Z.of_nat n).

(** The loops over the keys and their columns: an argument, then the
    predicate with the number of arguments as its placeholder. *)
Definition add_predicate (keyRow : Row) (acc : list string * list string) (c : describedColumn) : list string * list string :=
  let args := acc.1 ++ [format_cell (row_get keyRow (dc_Name c))] in
  (args, acc.2 ++ [key_predicate c (length args)]).

Definition add_key_clause (pkColumns : list describedColumn) (acc : list string * list string) (keyRow : Row) :
    list string * list string :=
  let '(args, predicates) := fold_left (add_predicate keyRow) pkColumns (acc.1, []) in
  (args, acc.2 ++ [parenthesised (join " AND " predicates)]).

Inductive queryError : Type := ErrNoPrimaryKey (relation : Relation) | ErrNoChangedKeys.

Definition buildTargetedSnapshotQuery (def : Definition_) (columns pkColumns : list describedColumn) (keyRows : list Row) :
    result queryError (string * list string) :=
  if decide (pkColumns = []) then Err (ErrNoPrimaryKey (def_Relation def))
  else if decide (keyRows = []) then Err ErrNoChangedKeys
  else
    let '(args, keyClauses) := fold_left (add_key_clause pkColumns) (dedupeKeyRows pkColumns keyRows) (paramsAsArgs (def_Params def), []) in
    let whereClauses := where_clauses (def_Where def) ++ [parenthesised (join " OR " keyClauses)] in
    Ok (select_from def columns +:+ " WHERE " +:+ join " AND " whereClauses, args).

Definition parseSnapshotText (value : string) : string * string * option (list string) :=
  match splitn_byte (byte_of 58) 3 (trim_space value) with
  | [xmin; xmax] => (xmin, xmax, Some [])
  | [xmin; xmax; xip] => (xmin, xmax, Some (if is_blank xip then [] else split_byte (byte_of 44) xip))
  | _ => ("0", "0", None)
  end.

(** ** Dependencies of a definition *)

Definition definitionDependencyClauses (def : Definition_) : list string :=
  def_Where def ::
  match def_Subset def with
  | Some sub => [sub_Where sub; sub_WhereExpr sub; sub_OrderByExpr sub]
  | None => []
  end.

Definition definitionSupportsTargetedRefresh (def : Definition_) : bool :=
  match def_Subset def with
  | Some _ => false
  | None => negb (existsb ContainsDependencyKeyword (definitionDependencyClauses def))
  end.

Definition invalidating_keywords : list string :=
  ["not"; "exists"; "with"; "join"; "lateral"; "union"; "intersect"; "except"].

(** [true] where a keyword returns at once, and the number of SELECTs. *)
Fixpoint count_selects (tokens : list dependencyToken) (selectCount : nat) : bool * nat :=
  match tokens with
  | [] => (false, selectCount)
  | t :: rest =>
      if dependencyTokenKeyword t "select" then count_selects rest (S selectCount)
      else if existsb (dependencyTokenKeyword t) invalidating_keywords then (true, selectCount)
      else count_selects rest selectCount
  end.

Definition dependencyClauseRequiresInvalidation (clause : string) : bool :=
  let sanitized := SanitizeClause clause in
  if negb (ContainsDependencyKeyword sanitized) then false
  else
    let '(stop, selectCount) := count_selects (tokenizeDependencyClause sanitized) 0 in
    stop || negb (selectCount =? 1)%nat.

Record liveDependencySet : Type := mkLive {
  live_Unsupported : bool;
  live_Wildcard : bool;
  live_Relations : list Relation
}.

Record live_vars : Type := mkLiveVars {
  lv_unsupported : bool;
  lv_wildcard : bool;
  lv_relations : gmap string Relation
}.

(** One clause of the loop; [None] only if the scan has no result. *)
Definition live_clause (defaultSchema : string) (v : live_vars) (clause : string) : option live_vars :=
  let sanitized := SanitizeClause clause in
  if is_blank sanitized then Some v
  else if negb (ContainsDependencyKeyword sanitized) then Some v
  else
    scan ← scanDependencyRelations sanitized defaultSchema;
    Some (mkLiveVars true
      (lv_wildcard v || scan_Wildcard scan || bool_decide (scan_Relations scan = []))
      (fold_left (fun m r => <[dependencyRelationKey r := r]> m) (scan_Relations scan) (lv_relations v))).

Fixpoint live_loop (defaultSchema : string) (clauses : list string) (v : live_vars) : option live_vars :=
  match clauses with
  | [] => Some v
  | clause :: rest => v' ← live_clause defaultSchema v clause; live_loop defaultSchema rest v'
  end.

Definition liveDependenciesForDefinition (def : Definition_) : option liveDependencySet :=
  match def_Subset def with
  | Some _ => Some (mkLive true false [def_Relation def])
  | None =>
      v ← live_loop (rel_Schema (def_Relation def)) (definitionDependencyClauses def) (mkLiveVars false false ∅);
      if negb (lv_unsupported v) then Some (mkLive false false [])
      else Some (mkLive true (lv_wildcard v)
             (sorted_values (<[dependencyRelationKey (def_Relation def) := def_Relation def]> (lv_relations v))))
  end.

Definition definitionSupportsDependentRefresh (def : Definition_) : option bool :=
  dependencies ← liveDependenciesForDefinition def;
  Some (
    if negb (live_Unsupported dependencies) || live_Wildcard dependencies then false
    else if negb (length (filter (fun r => r <> def_Relation def) (live_Relations dependencies)) =? 1)%nat then false
    else negb (existsb dependencyClauseRequiresInvalidation (definitionDependencyClauses def))).

Definition definitionRequiresInvalidationForRelation (def : Definition_) (relation rootRelation : Relation) : option bool :=
  dependencies ← liveDependenciesForDefinition def;
  Some (
    if negb (live_Unsupported dependencies) then false
    else if live_Wildcard dependencies then true
    else existsb (fun candidate => bool_decide (candidate = relation) || bool_decide (candidate = rootRelation))
           (live_Relations dependencies)).

(** * Lemmas *)

(** ** Dependencies *)

Lemma live_clause_total (ds clause : string) (v : live_vars) :
  exists v', live_clause ds v clause = Some v' /\
    lv_unsupported v' = lv_unsupported v || ContainsDependencyKeyword clause.
Proof.
  unfold live_clause. rewrite contains_sanitized. destruct (ContainsDependencyKeyword clause) eqn:E.
  - rewrite (contains_not_blank _ E). cbn [negb]. destruct (scan_is_total (SanitizeClause clause) ds) as [scan ->].
    eexists. split; [done|]. cbn. by rewrite orb_true_r.
  - cbn [negb]. exists v. rewrite orb_false_r. by destruct (is_blank _).
Qed.

Lemma live_loop_total (ds : string) (clauses : list string) (v : live_vars) :
  exists v', live_loop ds clauses v = Some v' /\
    lv_unsupported v' = lv_unsupported v || existsb ContainsDependencyKeyword clauses.
Proof.
  revert v. induction clauses as [|c l IH]; intros v; cbn [live_loop existsb].
  - exists v. by rewrite orb_false_r.
  - destruct (live_clause_total ds c v) as (v1 & -> & H1). cbn [mbind option_bind].
    destruct (IH v1) as (v2 & -> & H2). exists v2. split; [done|]. by rewrite H2, H1, orb_assoc.
Qed.

(** The dependencies of a definition: none if it can be refreshed row by row,
    and otherwise its own relation is one of them. *)
Lemma live_dependencies (def : Definition_) :
  exists deps, liveDependenciesForDefinition def = Some deps /\
    live_Unsupported deps = negb (definitionSupportsTargetedRefresh def) /\
    (live_Unsupported deps = true -> def_Relation def ∈ live_Relations deps).
Proof.
  unfold liveDependenciesForDefinition, definitionSupportsTargetedRefresh.
  destruct (def_Subset def) as [sub|].
  - eexists. split_and!; [done..|]. intros _. apply list_elem_of_here.
  - destruct (live_loop_total (rel_Schema (def_Relation def)) (definitionDependencyClauses def) (mkLiveVars false false ∅))
      as (v & -> & Hv). cbn [mbind option_bind]. cbn [lv_unsupported orb] in Hv. rewrite Hv, negb_involutive.
    destruct (existsb _ _); cbn [negb]; eexists; split_and!; try done.
    intros _. cbn [live_Relations]. apply elem_of_sorted_values. exists (dependencyRelationKey (def_Relation def)).
    by rewrite lookup_insert_eq.
Qed.

Lemma elem_of_existsb {A} (f : A -> bool) (x : A) (l : list A) : x ∈ l -> f x = true -> existsb f l = true.
Proof. intros Hx Hf. apply existsb_exists. exists x. by rewrite <- list_elem_of_In. Qed.

(** A relation whose names have no dot is the only one with its key. *)
Lemma relation_key_inj (r r' : Relation) :
  contains_byte (byte_of 46) (rel_Schema r) = false -> contains_byte (byte_of 46) (rel_Table r) = false ->
  dependencyRelationKey r' = dependencyRelationKey r -> r' = r.
Proof.
  intros Hs Ht He. destruct r as [s t], r' as [s' t']. unfold dependencyRelationKey in He. cbn [rel_Schema rel_Table] in *.
  assert (Hdot : forall x y, contains_byte (byte_of 46) x = false -> cut_byte (byte_of 46) (x +:+ "." +:+ y) = Some (x, y)).
  { intros x y Hx. by apply (cut_byte_app (byte_of 46)). }
  assert (Hs' : contains_byte (byte_of 46) s' = false).
  { destruct (cut_byte (byte_of 46) s') as [[x y]|] eqn:E; [|by apply cut_byte_None].
    apply cut_byte_Some in E as [-> Hx]. exfalso.
    assert (Hc : cut_byte (byte_of 46) (s +:+ "." +:+ t) = Some (x, y +:+ "." +:+ t')).
    { rewrite <- He. rewrite !app_assoc_str. by apply Hdot. }
    rewrite Hdot in Hc by done. injection Hc as -> ->. rewrite !contains_byte_app in Ht. cbn in Ht.
    by rewrite orb_true_r in Ht. }
  pose proof (Hdot s t Hs) as H1. rewrite <- He, (Hdot s' t' Hs') in H1. by injection H1 as -> ->.
Qed.

(** Inserting relations under their keys: a key all of whose relations are [r]
    ends with [r]. *)
Lemma last_inserted (l : list Relation) (r : Relation) (m : gmap string Relation) :
  (forall r', r' ∈ l -> dependencyRelationKey r' = dependencyRelationKey r -> r' = r) ->
  (exists r', dependencyRelationKey r = dependencyRelationKey r' /\ r' ∈ l) ->
  fold_left (fun m r => <[dependencyRelationKey r := r]> m) l m !! dependencyRelationKey r = Some r.
Proof.
  intros Hu (r' & Hk & Hin). assert (r' = r) as -> by (by apply Hu). clear Hk.
  assert (Hkeep : forall (l : list Relation) (m : gmap string Relation),
    (forall r', r' ∈ l -> dependencyRelationKey r' = dependencyRelationKey r -> r' = r) ->
    m !! dependencyRelationKey r = Some r ->
    fold_left (fun m r => <[dependencyRelationKey r := r]> m) l m !! dependencyRelationKey r = Some r).
  { clear. induction l as [|x l IH]; intros m Hu Hm; [done|]. cbn [fold_left]. apply IH.
    - intros r' Hr'. apply Hu. by apply list_elem_of_further.
    - destruct (decide (dependencyRelationKey x = dependencyRelationKey r)) as [He|].
      + rewrite He, lookup_insert_eq. f_equal. apply Hu; [apply list_elem_of_here|done].
      + by rewrite lookup_insert_ne. }
  revert m. induction l as [|x l IH]; intros m; [by apply elem_of_nil in Hin|]. cbn [fold_left].
  assert (Hu' : forall r', r' ∈ l -> dependencyRelationKey r' = dependencyRelationKey r -> r' = r).
  { intros r' Hr'. apply Hu. by apply list_elem_of_further. }
  apply elem_of_cons in Hin as [<-|Hin]; [|by apply IH].
  apply Hkeep; [done|]. by rewrite lookup_insert_eq.
Qed.

(** ** Columns *)

Definition projection_ok (described : list describedColumn) (acc : list describedColumn * gset string) : Prop :=
  (forall name, name ∈ acc.2 <-> name ∈ map dc_Name acc.1) /\ NoDup (map dc_Name acc.1) /\ acc.1 ⊆ described.

Lemma same_name (described : list describedColumn) (c c' : describedColumn) :
  NoDup (map dc_Name described) -> c ∈ described -> c' ∈ described -> dc_Name c = dc_Name c' -> c = c'.
Proof.
  intros Hnd [i Hi]%list_elem_of_lookup_1 [j Hj]%list_elem_of_lookup_1 He.
  assert (i = j) as ->; [|congruence]. apply (NoDup_lookup (map dc_Name described) i j (dc_Name c)); [done|..];
    change (map dc_Name described) with (dc_Name <$> described); rewrite list_lookup_fmap.
  - by rewrite Hi.
  - by rewrite Hj, He.
Qed.

Lemma project_column_ok (described : list describedColumn) (wanted : describedColumn -> bool)
    (acc : list describedColumn * gset string) (c : describedColumn) :
  NoDup (map dc_Name described) -> projection_ok described acc -> c ∈ described ->
  projection_ok described (project_column wanted acc c) /\
  forall c', c' ∈ (project_column wanted acc c).1 <-> c' ∈ acc.1 \/ (c' = c /\ wanted c = true).
Proof.
  intros Hnd (Hseen & Hdis & Hsub) Hc. unfold project_column. destruct (wanted c); cbn [andb].
  2: { split; [done|]. naive_solver. }
  case_bool_decide as Hin; cbn [negb].
  - split; [done|]. intros c'. split; [by left|]. intros [?|[-> _]]; [done|].
    apply Hseen, list_elem_of_fmap in Hin as (c' & He & Hc'). by rewrite (same_name described c c' Hnd Hc (Hsub _ Hc') He).
  - split; [split_and!|].
    + intros name. cbn [fst snd]. rewrite map_app. cbn [map]. rewrite elem_of_app, elem_of_union, Hseen, elem_of_singleton, list_elem_of_singleton. tauto.
    + cbn [fst]. rewrite map_app. cbn [map]. apply NoDup_app. split_and!; [done| |apply NoDup_singleton].
      intros name Hn ->%list_elem_of_singleton. by apply Hin, Hseen.
    + cbn [fst]. intros c' [?| ->%list_elem_of_singleton]%elem_of_app; [by apply Hsub|done].
    + intros c'. cbn [fst]. rewrite elem_of_app, list_elem_of_singleton. naive_solver.
Qed.

Lemma project_fold_ok (described : list describedColumn) (wanted : describedColumn -> bool) (l : list describedColumn)
    (acc : list describedColumn * gset string) :
  NoDup (map dc_Name described) -> l ⊆ described -> projection_ok described acc ->
  projection_ok described (fold_left (project_column wanted) l acc) /\
  forall c, c ∈ (fold_left (project_column wanted) l acc).1 <-> c ∈ acc.1 \/ (c ∈ l /\ wanted c = true).
Proof.
  intros Hnd. revert acc. induction l as [|x l IH]; intros acc Hl Hok; cbn [fold_left].
  { split; [done|]. intros c. rewrite elem_of_nil. tauto. }
  destruct (project_column_ok described wanted acc x Hnd Hok) as [Hok' Hx]; [apply Hl, list_elem_of_here|].
  destruct (IH (project_column wanted acc x)) as [Hok2 Hc]; [|done|].
  { intros y Hy. by apply Hl, list_elem_of_further. }
  split; [done|]. intros c. rewrite Hc, Hx, elem_of_cons. naive_solver.
Qed.

Lemma project_names_ok (described : list describedColumn) (names : list string) (acc : list describedColumn * gset string) :
  NoDup (map dc_Name described) -> projection_ok described acc ->
  let acc' := fold_left (fun acc name => fold_left (project_column (fun c => bool_decide (dc_Name c = name))) described acc) names acc in
  projection_ok described acc' /\ forall c, c ∈ acc'.1 <-> c ∈ acc.1 \/ (c ∈ described /\ dc_Name c ∈ names).
Proof.
  intros Hnd. revert acc. induction names as [|n names IH]; intros acc Hok; cbn [fold_left].
  { split; [done|]. intros c. rewrite elem_of_nil. tauto. }
  destruct (project_fold_ok described (fun c => bool_decide (dc_Name c = n)) described acc Hnd) as [Hok1 H1]; [done..|].
  destruct (IH _ Hok1) as [Hok2 H2]. split; [done|]. intros c. rewrite H2, H1, elem_of_cons, bool_decide_eq_true. naive_solver.
Qed.

(** ** Arguments and placeholders *)

Definition key_values (pk : list describedColumn) (row : Row) : list string :=
  map (fun c => format_cell (row_get row (dc_Name c))) pk.

(** The predicates of a key whose first placeholder is [n + 1]. *)
Definition key_clause (pk : list describedColumn) (n : nat) : string :=
  parenthesised (join " AND " (imap (fun j c => key_predicate c (S (n + j))) pk)).

Lemma add_predicates (row : Row) (pk : list describedColumn) (args preds : list string) :
  fold_left (add_predicate row) pk (args, preds) =
  (args ++ key_values pk row, preds ++ imap (fun j c => key_predicate c (S (length args + j))) pk).
Proof.
  revert args preds. induction pk as [|c pk IH]; intros args preds; cbn [fold_left].
  { cbn. by rewrite !app_nil_r. }
  unfold add_predicate at 2. cbn [fst snd]. rewrite IH. unfold key_values. cbn [map imap].
  rewrite !length_app, <- !app_assoc. cbn [length app]. f_equal. do 2 f_equal; [f_equal; lia|].
  apply imap_ext. intros j c' _. cbn. f_equal. lia.
Qed.

Lemma add_key_clauses (pk : list describedColumn) (keys : list Row) (args clauses : list string) :
  fold_left (add_key_clause pk) keys (args, clauses) =
  (args ++ mjoin (map (key_values pk) keys),
   clauses ++ imap (fun i _ => key_clause pk (length args + i * length pk)) keys).
Proof.
  revert args clauses. induction keys as [|row keys IH]; intros args clauses; cbn [fold_left].
  { cbn. by rewrite !app_nil_r. }
  unfold add_key_clause at 2. cbn [fst snd]. rewrite add_predicates, IH. cbn [app map imap mjoin list_join].
  rewrite <- !app_assoc. unfold key_clause at 2. f_equal. f_equal. cbn [app]. f_equal.
  - f_equal. f_equal. apply imap_ext. intros j c _. cbn. f_equal. lia.
  - apply imap_ext. intros i r _. cbn. f_equal. rewrite length_app. unfold key_values. rewrite length_map. lia.
Qed.

(** ** Parameters *)

Definition numbered (n : nat) (values : gmap string string) : Prop :=
  forall k, is_Some (values !! k) <-> exists i, 1 <= i <= Z.of_nat n /\ k = format_Z i.

Lemma seqZ_sorted (m n : Z) : StronglySorted Z.le (seqZ m n).
Proof.
  apply StronglySorted_lookup_2. intros i j x y Hij Hi Hj. apply lookup_seqZ in Hi as [-> _], Hj as [-> _]. lia.
Qed.

Lemma numbered_keys (n : nat) (values : gmap string string) :
  Z.of_nat n <= int64_max -> numbered n values ->
  merge_sort Z.le (omap (fun kv => parse_int64 kv.1) (map_to_list values)) = seqZ 1 (Z.of_nat n).
Proof.
  intros Hn Hv. apply (StronglySorted_unique Z.le); [apply (StronglySorted_merge_sort Z.le)|apply seqZ_sorted|].
  rewrite merge_sort_Permutation.
  assert (Hk : (map_to_list values).*1 ≡ₚ map format_Z (seqZ 1 (Z.of_nat n))).
  { apply NoDup_Permutation; [apply NoDup_fst_map_to_list| |].
    - apply NoDup_fmap_2_strong; [|apply NoDup_seqZ]. intros x y Hx Hy. apply elem_of_seqZ in Hx, Hy.
      apply format_Z_inj; unfold int64_min, int64_max in *; lia.
    - intros k. rewrite elem_of_map_keys, (Hv k), (list_elem_of_fmap format_Z).
      split; intros (i & H1 & H2); exists i.
      + split; [done|]. apply elem_of_seqZ. lia.
      + split; [|done]. apply elem_of_seqZ in H2. lia. }
  assert (Ho : omap (fun kv => parse_int64 kv.1) (map_to_list values) = omap parse_int64 ((map_to_list values).*1)).
  { clear. induction (map_to_list values) as [|kv l IH]; [done|]. rewrite fmap_cons, !omap_cons_eq, IH. by destruct (parse_int64 kv.1). }
  rewrite Ho, Hk. clear -Hn. assert (Hr : Forall (fun z => int64_min <= z <= int64_max) (seqZ 1 (Z.of_nat n))).
  { apply Forall_forall. intros z Hz%elem_of_seqZ. unfold int64_min, int64_max in *. lia. }
  induction Hr as [|z l Hz _ IH]; [done|]. cbn [map]. rewrite omap_cons_eq, parse_int64_format by done. by rewrite IH.
Qed.

Lemma map_lookup_Some {A B} (f : A -> B) (l : list A) (i : nat) (y : B) (x : A) :
  l !! i = Some x -> f x = y -> map f l !! i = Some y.
Proof. intros Hl <-. change (map f l) with (f <$> l). by rewrite list_lookup_fmap, Hl. Qed.

Lemma length_join_same {A} (n : nat) (ls : list (list A)) :
  Forall (fun l => length l = n) ls -> length (mjoin ls) = (length ls * n)%nat.
Proof. induction 1 as [|l ls Hl _ IH]; [done|]. change (mjoin (l :: ls)) with (l ++ mjoin ls). rewrite length_app, IH. cbn. lia. Qed.

Lemma dedupe_covers (pk : list describedColumn) (keyRows : list Row) (row : Row) (seen : gmap string Row) :
  let sig r := primaryKeySignature (primaryKeyRowForColumns pk r) in
  row ∈ keyRows -> sig row <> "" ->
  exists key, key ∈ sorted_values (fold_left (fun seen r =>
      if decide (sig r = "") then seen else <[sig r := primaryKeyRowForColumns pk r]> seen) keyRows seen) /\
    primaryKeySignature key = sig row.
Proof.
  intros sig Hin Hne. set (step := fun (seen : gmap string Row) r => _).
  assert (Hkeep : forall l (m : gmap string Row), (exists key, m !! sig row = Some key /\ primaryKeySignature key = sig row) ->
    exists key, fold_left step l m !! sig row = Some key /\ primaryKeySignature key = sig row).
  { induction l as [|r l IH]; intros m Hm; [done|]. cbn [fold_left]. apply IH. unfold step. case_decide; [done|].
    destruct (decide (sig r = sig row)) as [He|]; [|by rewrite lookup_insert_ne].
    rewrite He, lookup_insert_eq. by eexists. }
  assert (Hfold : exists key, fold_left step keyRows seen !! sig row = Some key /\ primaryKeySignature key = sig row).
  { revert seen. induction keyRows as [|r l IH]; intros m; [by apply elem_of_nil in Hin|]. cbn [fold_left].
    apply elem_of_cons in Hin as [<-|Hin]; [|by apply IH]. apply Hkeep. unfold step at 1. rewrite decide_False by done.
    rewrite lookup_insert_eq. by eexists. }
  destruct Hfold as (key & Hk & Hs). exists key. split; [|done]. apply elem_of_sorted_values. by exists (sig row).
Qed.

(** ** Comparing schemas *)

Lemma pkIndexesEqual_spec (a b : option Z) : pkIndexesEqual a b = true <-> a = b.
Proof. destruct a as [x|], b as [y|]; cbn; try done. rewrite Z.eqb_eq. split; [by intros ->|by intros [=]]. Qed.

Lemma columns_equal_spec (a b : ColumnSchema) :
  bool_decide (col_Type a = col_Type b) && Bool.eqb (col_NotNull a) (col_NotNull b) &&
    pkIndexesEqual (col_PKIndex a) (col_PKIndex b) = true <-> a = b.
Proof.
  rewrite !andb_true_iff, bool_decide_eq_true, eqb_true_iff, pkIndexesEqual_spec.
  destruct a, b; cbn. split; [by intros [[-> ->] ->]|by intros [=]].
Qed.

Lemma shapeSchemasEqual_spec (left right : Schema) : shapeSchemasEqual left right = true <-> left = right.
Proof.
  unfold shapeSchemasEqual. destruct (Nat.eqb_spec (size left) (size right)) as [Hs|Hs]; cbn [negb].
  2: { split; [done|]. by intros ->. }
  rewrite forallb_forall. split.
  - intros H. apply (map_subseteq_size_eq left right); [|lia]. apply map_subseteq_spec. intros name c Hc.
    specialize (H (name, c)). rewrite <- list_elem_of_In, elem_of_map_to_list in H. specialize (H Hc). cbn in H.
    destruct (right !! name) as [c'|]; [|done]. by apply columns_equal_spec in H as ->.
  - intros <- [name c] Hc%list_elem_of_In%elem_of_map_to_list. rewrite Hc. by apply columns_equal_spec.
Qed.

(** * Properties *)

(** No change of a shape's own table is ignored: every definition is
    either refreshed row by row, and then has no live dependencies, or a
    change of its relation or of its partition root calls for invalidation. *)
Theorem own_change_never_ignored (def : Definition_) (relation rootRelation : Relation) :
  exists b, definitionRequiresInvalidationForRelation def relation rootRelation = Some b /\
    (definitionSupportsTargetedRefresh def = true -> b = false) /\
    (definitionSupportsTargetedRefresh def = false -> def_Relation def = relation \/ def_Relation def = rootRelation -> b = true).
Proof.
  destruct (live_dependencies def) as (deps & Hd & Hu & Hown). unfold definitionRequiresInvalidationForRelation.
  rewrite Hd. cbn [mbind option_bind]. eexists. split; [done|].
  rewrite Hu in *. destruct (definitionSupportsTargetedRefresh def); [by split|]. split; [done|]. cbn [negb] in *.
  intros _ Hr. destruct (live_Wildcard deps); [done|]. apply (elem_of_existsb _ (def_Relation def)); [by apply Hown|].
  by rewrite orb_true_iff, !bool_decide_eq_true.
Qed.


(** The columns of a shape: all of them if none is named, and otherwise
    the named ones that exist and the whole primary key, each once.  Two
    shape schemas compare equal exactly if they are the same. *)
Theorem projected_columns (described : list describedColumn) (explicit : list string) (left right : Schema) :
  NoDup (map dc_Name described) ->
  let columns := projectedColumns described explicit in
  NoDup (map dc_Name columns) /\
  (forall c, c ∈ columns <-> c ∈ described /\ (explicit = [] \/ dc_Name c ∈ explicit \/ is_Some (dc_PKIndex c))) /\
  (shapeSchemasEqual left right = true <-> left = right).
Proof.
  intros Hnd. split_and!; [| |apply shapeSchemasEqual_spec]; unfold projectedColumns; case_decide as He; [done| |naive_solver|];
    (destruct (project_names_ok described explicit ([], ∅) Hnd) as [Hok Hin];
      [split_and!; [intros name; cbn; set_solver|constructor|cbn; set_solver]|];
     destruct (project_fold_ok described (fun c => bool_decide (is_Some (dc_PKIndex c))) described _ Hnd ltac:(done) Hok) as [Hok2 Hin2]).
  - apply Hok2.
  - intros c. rewrite Hin2, Hin, elem_of_nil, bool_decide_eq_true. tauto.
Qed.

(** C25. The query for changed keys binds every key: its text has one
    placeholder per key and key column, in order after the parameters of the
    definition, and the argument of that number is the key's value.  Every
    changed row whose key has a signature has one of these keys. *)
Theorem targeted_query_binds_keys (def : Definition_) (columns pk : list describedColumn) (keyRows : list Row) :
  pk <> [] -> keyRows <> [] ->
  let base := paramsAsArgs (def_Params def) in
  let keys := dedupeKeyRows pk keyRows in
  exists args, buildTargetedSnapshotQuery def columns pk keyRows =
    Ok (select_from def columns +:+ " WHERE " +:+ join " AND " (where_clauses (def_Where def) ++
          [parenthesised (join " OR " (imap (fun i _ => key_clause pk (length base + i * length pk)) keys))]), args) /\
    take (length base) args = base /\ length args = (length base + length keys * length pk)%nat /\
    (forall i j row c, keys !! i = Some row -> pk !! j = Some c ->
       args !! (length base + i * length pk + j)%nat = Some (format_cell (row_get row (dc_Name c)))) /\
    (forall row, row ∈ keyRows -> primaryKeySignature (primaryKeyRowForColumns pk row) <> "" ->
       exists key, key ∈ keys /\ primaryKeySignature key = primaryKeySignature (primaryKeyRowForColumns pk row)).
Proof.
  intros Hpk Hrows base keys. exists (base ++ mjoin (map (key_values pk) keys)).
  assert (Hlen : Forall (fun l => length l = length pk) (map (key_values pk) keys)).
  { apply Forall_forall. intros l (row & -> & _)%(list_elem_of_fmap (key_values pk)). apply length_map. }
  split_and!.
  - unfold buildTargetedSnapshotQuery. rewrite !decide_False by done. fold base keys. rewrite add_key_clauses. done.
  - apply take_app_length.
  - rewrite length_app, (length_join_same (length pk)) by done. by rewrite length_map.
  - intros i j row c Hi Hj. rewrite <- Nat.add_assoc, lookup_app_r by lia.
    replace (length base + (i * length pk + j) - length base)%nat with (i * length pk + j)%nat by lia.
    apply join_lookup_Some_same_length'; [done|by eapply lookup_lt_Some|]. exists (key_values pk row).
    split; [by apply (map_lookup_Some (key_values pk) keys i _ row)|].
    by apply (map_lookup_Some (fun c => format_cell (row_get row (dc_Name c))) pk j _ c).
  - intros row Hin Hne. unfold keys, dedupeKeyRows. rewrite decide_False by done. by apply dedupe_covers.
Qed.

(** Parameters numbered from 1 to [n] are passed in order, so that the
    placeholder of each number gets the value of that number. *)
Theorem numbered_params_in_order (n : nat) (values : gmap string string) (i : nat) (v : string) :
  Z.of_nat n <= int64_max -> numbered n values -> (i < n)%nat -> values !! format_Z (Z.of_nat (S i)) = Some v ->
  length (paramsAsArgs values) = n /\ paramsAsArgs values !! i = Some v.
Proof.
  intros Hn Hv Hle Hi. unfold paramsAsArgs. case_decide as He.
  { by rewrite He, lookup_empty in Hi. }
  rewrite numbered_keys with (n := n) by done. split; [rewrite length_map, length_seqZ; lia|].
  apply (map_lookup_Some (fun key => default "" (values !! format_Z key)) _ _ _ (Z.of_nat (S i))).
  - apply lookup_seqZ. lia.
  - by rewrite Hi.
Qed.

Definition demo_dependent : Definition_ :=
  mkDefinition (mkRelation "public" "items") "id IN (SELECT item_id FROM app.links WHERE kind = 1)" ∅ [] "" "" None.


Lemma projected_columns_witness : NoDup (map dc_Name (projectedColumns demo_columns ["v"])).
Proof.
  refine (proj1 (projected_columns demo_columns ["v"] ∅ ∅ _)). apply (bool_decide_unpack _). vm_compute. exact I.
Defined.

Lemma targeted_query_binds_keys_witness :
  exists args, buildTargetedSnapshotQuery demo_dependent demo_columns (primaryKeyColumns demo_columns) [{["id" := Some "7"]}] =
    Ok (bytes [83; 69; 76; 69; 67; 84; 32]%N +:+ join ", " (map select_part demo_columns) +:+ " FROM " +:+
        quoteQualifiedRelation (mkRelation "public" "items") +:+ " WHERE (" +:+ def_Where demo_dependent +:+ ") AND ((" +:+
        quoteIdentifier "id" +:+ "::text = $1))", args) /\ args = ["7"].
Proof.
  destruct (targeted_query_binds_keys demo_dependent demo_columns (primaryKeyColumns demo_columns) [{["id" := Some "7"]}])
    as (args & Hq & _ & _ & _ & _).
  - vm_compute. discriminate.
  - discriminate.
  - exists args. split; [rewrite Hq; f_equal; vm_compute; reflexivity|].
    vm_compute in Hq. injection Hq as <-. reflexivity.
Defined.

Lemma numbered_params_in_order_witness :
  length (paramsAsArgs (<["1" := "a"]> {["2" := "b"]})) = 2%nat /\
  paramsAsArgs (<["1" := "a"]> {["2" := "b"]}) !! 1%nat = Some "b".
Proof.
  apply (numbered_params_in_order 2 (<["1" := "a"]> {["2" := "b"]}) 1 "b"); [vm_compute; discriminate| |lia|reflexivity].
  intros k. split.
  - rewrite lookup_insert_is_Some, lookup_singleton_is_Some. intros [<-|[_ <-]]; [exists 1|exists 2]; (split; [lia|reflexivity]).
  - intros (i & Hi & ->). assert (i = 1 \/ i = 2) as [-> | ->] by lia; vm_compute; by eexists.
Defined.

(** A gap in the numbers shifts the arguments, and a number with a leading
    zero loses its value. *)
Example sparse_params_shift : paramsAsArgs (<["1" := "a"]> {["3" := "c"]}) = ["a"; "c"].
Proof. vm_compute. reflexivity. Qed.

Example padded_param_lost : paramsAsArgs {["01" := "a"]} = [""].
Proof. vm_compute. reflexivity. Qed.
