(* ===== verification/Effects.v ===== *)
(** What an operation of the shape manager does to the live shapes, in the
    form its callers use: which shapes it leaves alone, that no shape appears
    or changes identity, and what becomes of the shape it is called for. *)

From Stdlib Require Import Ascii String ZArith NArith Lia.
From S2P Require Import Prelude ShapeTypes Diff Storage Manager ShapeLog Restart.

#[local] Set Warnings "-clear-no-such-hyp".

(** * Definitions *)

(** Every live shape was live before, with the same identity. *)
Definition shrinks {S} (m m' : Manager S) : Prop :=
  forall h u, live_at h u m' -> exists st, live_at h st m /\ same_identity st u.

(** Shapes at other handles are untouched. *)
Definition only_at {S} (h : string) (m m' : Manager S) : Prop :=
  forall x s, x <> h -> live_at x s m' <-> live_at x s m.

(** * Lemmas *)

#[export] Instance same_identity_preorder : PreOrder same_identity.
Proof.
  split; [done|]. intros a b c (H1 & H2 & H3 & H4 & H5 & H6) (G1 & G2 & G3 & G4 & G5 & G6).
  repeat split; congruence.
Qed.

#[export] Instance shrinks_preorder {S} : PreOrder (@shrinks S).
Proof.
  split.
  - intros m h u Hu. by exists u.
  - intros m1 m2 m3 H12 H23 h u Hu. destruct (H23 h u Hu) as (v & Hv & Hi). destruct (H12 h v Hv) as (w & Hw & Hj).
    exists w. split; [done|]. by trans v.
Qed.

Lemma identity_definition (st u : State) : same_identity st u -> st_Definition u = st_Definition st.
Proof. by intros (_ & _ & _ & H & _). Qed.

Section effects.
Context {S : Type} {store_ops : Store S} {store_laws : CheckpointLaws S}.
#[local] Abbreviation Manager := (Manager S).

Lemma same_shrinks (m m' : Manager) : same_indices m' m -> shrinks m m'.
Proof. intros Hs h u Hu. exists u. split; [|done]. by apply (live_at_same m' m). Qed.

Lemma same_only_at (h : string) (m m' : Manager) : same_indices m' m -> only_at h m m'.
Proof. intros Hs x s _. by apply live_at_same. Qed.

(** An operation at [h] shrinks if it leaves there nothing new. *)
Lemma only_at_shrinks (h : string) (m m' : Manager) :
  only_at h m m' -> (forall u, live_at h u m' -> exists st, live_at h st m /\ same_identity st u) -> shrinks m m'.
Proof.
  intros Ho Hh x u Hu. destruct (decide (x = h)) as [->|Hne]; [by apply Hh|]. exists u. split; [|done]. by apply Ho.
Qed.

(** ** Checkpoints: only the runtime writes them *)

Lemma persist_checkpoint (st : State) (m m' : Manager) (e : option string) :
  persistStateLocked st m = (m', e) -> checkpoint_of (mgr_store m') = checkpoint_of (mgr_store m).
Proof.
  unfold persistStateLocked. destruct (SaveShape _ _) as [s e'] eqn:E. intros [= <- <-]. mgr_simpl.
  by apply save_keeps_law in E as ->.
Qed.

Lemma notify_store_eq (h : string) (m : Manager) : mgr_store (notifyLocked h m) = mgr_store m.
Proof. unfold notifyLocked. by destruct (mgr_waiters m !! h) as [[|??]|]. Qed.

Lemma remove_store_eq (r : Relation) (h : string) (m : Manager) : mgr_store (removeRelationLocked r h m) = mgr_store m.
Proof. unfold removeRelationLocked. by repeat case_decide. Qed.

Lemma install_checkpoint {A} (h : string) (u : State) (notify : bool) (a : A) (m : Manager) :
  checkpoint_of (mgr_store (install h u notify a m).1) = checkpoint_of (mgr_store m).
Proof.
  unfold install. destruct (persistStateLocked u m) as [m1 [e|]] eqn:Ep; apply persist_checkpoint in Ep; [done|].
  cbn [fst]. destruct notify; rewrite ?notify_store_eq; exact Ep.
Qed.

(** ** Delete *)

Lemma delete_effect (h : string) (now : Z) (m m' : Manager) (res : result ManagerError bool) :
  Delete h now m = (m', res) ->
  only_at h m m' /\ shrinks m m' /\ checkpoint_of (mgr_store m') = checkpoint_of (mgr_store m) /\
  match res with
  | Ok _ => forall s, ~ live_at h s m'
  | Err e => exists x, e = ErrStore x
  end.
Proof.
  unfold Delete. destruct (mgr_byHandle m !! h) as [st|] eqn:Eh.
  2: { intros [= <- <-]. split_and!; [done|done|done|]. intros s [Hs _]. congruence. }
  destruct (persistStateLocked _ m) as [m1 [e|]] eqn:Ep; pose proof (persist_checkpoint _ _ _ _ Ep) as Hc;
    apply persist_same in Ep as Hs; intros [= <- <-].
  { split_and!; [by apply same_only_at|by apply same_shrinks|done|by eexists]. }
  match goal with |- only_at _ _ ?x /\ _ => set (m2 := x) end.
  assert (HbH : mgr_byHandle m2 = <[h := deleted_state st now]> (mgr_byHandle m)).
  { unfold m2. match goal with |- context [notifyLocked ?a ?b] => destruct (notify_same a b) as [-> _] end. mgr_simpl.
    rewrite removeRelation_byHandle. mgr_simpl. by rewrite (proj1 Hs). }
  assert (Ho : only_at h m m2) by (intros x s Hne; unfold live_at; by rewrite HbH, lookup_insert_ne).
  assert (Hd : forall s, ~ live_at h s m2).
  { intros s [Hl Hdel]. rewrite HbH, lookup_insert_eq in Hl. by injection Hl as <-. }
  split_and!; [done| | |done].
  - apply (only_at_shrinks h); [done|]. intros u Hu. by destruct (Hd u).
  - unfold m2. rewrite notify_store_eq. mgr_simpl. rewrite remove_store_eq. exact Hc.
Qed.

(** ** Refreshes *)

Lemma install_effect {A} (h : string) (st u : State) (notify : bool) (a : A) (m m' : Manager) (res : result ManagerError A) :
  live_at h st m -> same_identity st u -> install h u notify a m = (m', res) ->
  only_at h m m' /\ shrinks m m' /\ checkpoint_of (mgr_store m') = checkpoint_of (mgr_store m) /\
  match res with
  | Ok _ => live_at h u m'
  | Err e => exists x, e = ErrStore x
  end.
Proof.
  intros Hl Hi E. pose proof (install_checkpoint h u notify a m) as Hc. rewrite E in Hc. cbn [fst] in Hc.
  destruct res as [e|a'].
  - apply install_error in E as [[Hs _] Hx]. split_and!; [by apply same_only_at|by apply same_shrinks|done|done].
  - apply (install_live h st u) in E as (_ & Hu & Ho); [|done..]. split_and!; [exact Ho| |done|done].
    apply (only_at_shrinks h); [exact Ho|]. intros u' Hu'. exists st. split; [done|].
    by rewrite (live_at_fun h u' u m' Hu' Hu).
Qed.

(** The result of a refresh: the shape is live with the new rows, or it is not
    live and nothing happened, or the save failed. *)
Definition refreshed_to (h : string) (m m' : Manager) (rows : State -> string -> option Row)
    (res : result ManagerError (State * list Message)) : Prop :=
  match res with
  | Ok _ => exists st u, live_at h st m /\ live_at h u m' /\ same_identity st u /\
      forall k, st_Materialized u !! k = rows st k
  | Err (ErrStore _) => True
  | Err _ => m' = m /\ forall s, ~ live_at h s m
  end.

Lemma live_state_Err (h : string) (m : Manager) (e : ManagerError) :
  live_state h m = Err e -> (e = ErrShapeNotFound \/ e = ErrShapeDeleted) /\ forall s, ~ live_at h s m.
Proof.
  intros E. split; [|intros s Hs; apply live_state_Ok in Hs; congruence].
  apply live_state_error in E as ->. destruct (mgr_byHandle m !! h); auto.
Qed.

Lemma refreshed_state_materialized (st : State) (schema : Schema) (rows : gmap string Row) (now : Z) (l : list Message) (md : ChangeMetadata) :
  st_Materialized (refreshed_state st schema rows now l md).1 = rows.
Proof. unfold refreshed_state. destruct l; [done|]. by destruct (applyChangeOffsets _ _ _). Qed.

Lemma refresh_effect (h : string) (snapshot : SnapshotResult) (md : ChangeMetadata) (now : Z) (m m' : Manager) res :
  RefreshWithMetadata h snapshot md now m = (m', res) ->
  only_at h m m' /\ shrinks m m' /\ checkpoint_of (mgr_store m') = checkpoint_of (mgr_store m) /\
  refreshed_to h m m' (fun _ k => materializedRows (snap_Schema snapshot) (snap_Rows snapshot) !! k) res.
Proof.
  unfold RefreshWithMetadata. destruct (live_state h m) as [e|st] eqn:El.
  { intros [= <- <-]. apply live_state_Err in El as [[-> | ->] Hl]; split_and!; done. }
  apply live_state_Ok in El.
  match goal with |- context [refreshed_state ?a ?b ?c ?d ?e ?f] =>
    pose proof (refreshed_state_identity a b c d e f) as Hi; pose proof (refreshed_state_materialized a b c d e f) as Hm;
    destruct (refreshed_state a b c d e f) as [u l] end.
  cbn [fst] in Hi, Hm. intros E. apply (install_effect h st u) in E as (H1 & H2 & H3 & H4); [|done..].
  split_and!; [done..|]. destruct res as [e|p]; [by destruct H4 as [x ->]|]. exists st, u. split_and!; [done..|].
  intros k. by rewrite Hm.
Qed.

Lemma refresh_keys_effect (h : string) (snapshot : SnapshotResult) (keyRows : list Row) (md : ChangeMetadata) (now : Z) (m m' : Manager) res :
  RefreshKeysWithMetadata h snapshot keyRows md now m = (m', res) ->
  only_at h m m' /\ shrinks m m' /\ checkpoint_of (mgr_store m') = checkpoint_of (mgr_store m) /\
  refreshed_to h m m' (fun st k =>
    if decide (k ∈ targetedKeySet (snap_Schema snapshot) keyRows (snap_Rows snapshot))
    then materializedRows (snap_Schema snapshot) (snap_Rows snapshot) !! k else st_Materialized st !! k) res.
Proof.
  unfold RefreshKeysWithMetadata. destruct (live_state h m) as [e|st] eqn:El.
  { intros [= <- <-]. apply live_state_Err in El as [[-> | ->] Hl]; split_and!; done. }
  apply live_state_Ok in El. set (K := targetedKeySet _ _ _). case_decide as HK.
  { intros [= <- <-]. split_and!; [done..|]. exists st, st. split_and!; [done..|]. intros k.
    rewrite decide_False; [done|]. rewrite HK. set_solver. }
  match goal with |- context [refreshed_state ?a ?b ?c ?d ?e ?f] =>
    pose proof (refreshed_state_identity a b c d e f) as Hi; pose proof (refreshed_state_materialized a b c d e f) as Hm;
    destruct (refreshed_state a b c d e f) as [u l] end.
  cbn [fst] in Hi, Hm. intros E. apply (install_effect h st u) in E as (H1 & H2 & H3 & H4); [|done..].
  split_and!; [done..|]. destruct res as [e|p]; [by destruct H4 as [x ->]|]. exists st, u. split_and!; [done..|].
  intros k. by rewrite Hm, lookup_targeted_rows.
Qed.

(** ** Invalidation of a relation *)

Lemma invalidate_save_checkpoint (handles : list string) (clock : nat -> Z) (n : nat) (updated : gmap string State) (m : Manager) :
  checkpoint_of (mgr_store (invalidate_save handles clock n updated m).1) = checkpoint_of (mgr_store m).
Proof.
  revert n updated m. induction handles as [|h l IH]; intros n updated m; [done|]. cbn [invalidate_save].
  destruct (mgr_byHandle m !! h) as [st|]; [|apply IH]. destruct (st_Deleted st); [apply IH|].
  destruct (persistStateLocked _ m) as [m1 [e|]] eqn:Ep; apply persist_checkpoint in Ep; [done|]. by rewrite IH.
Qed.

Lemma invalidate_apply_store (updated : gmap string State) (handles : list string) (m : Manager) :
  mgr_store (fold_left (invalidate_apply updated) handles m) = mgr_store m.
Proof.
  revert m. induction handles as [|h l IH]; intros m; [done|]. cbn [fold_left]. rewrite IH. unfold invalidate_apply.
  destruct (updated !! h); [|done]. by rewrite notify_store_eq.
Qed.

Lemma invalidate_effect (relation : Relation) (clock : nat -> Z) (m m' : Manager) res :
  well_formed m -> InvalidateByRelation relation clock m = (m', res) ->
  well_formed m' /\ shrinks m m' /\ checkpoint_of (mgr_store m') = checkpoint_of (mgr_store m) /\
  match res with
  | Ok _ => forall h s, live_at h s m' <-> live_at h s m /\ ~ in_relation relation s
  | Err _ => same_indices m' m
  end.
Proof.
  intros Hwf E. pose proof (wf_invalidate_relation relation clock m Hwf) as Hwf'. rewrite E in Hwf'.
  assert (Hc : checkpoint_of (mgr_store m') = checkpoint_of (mgr_store m)).
  { revert E. unfold InvalidateByRelation. case_decide; [by intros [= <- _]|].
    match goal with |- context [invalidate_save ?a ?b ?c ?d ?e] => pose proof (invalidate_save_checkpoint a b c d e) as Hc;
      destruct (invalidate_save a b c d e) as [m1 [x|updated]] end; cbn [fst] in Hc.
    - by intros [= <- _].
    - intros [= <- _]. mgr_simpl. by rewrite invalidate_apply_store. }
  destruct res as [e|handles].
  - apply invalidate_relation_error in E as [Hs _]. split_and!; [done|by apply same_shrinks|done|done].
  - apply invalidate_relation_spec in E as (_ & Hl & _); [|done].
    assert (Hrel : forall h s, live_at h s m -> h ∈ related (relationKey relation) m <-> in_relation relation s).
    { intros h s Hs. rewrite (wf_related _ Hwf). unfold in_relation. split; [|by eauto].
      intros (s' & Hs' & He). by rewrite (live_at_fun h s s' m Hs Hs'). }
    split_and!; [done| |done|].
    + intros h u Hu. apply Hl in Hu as [Hu _]. by exists u.
    + intros h s. rewrite Hl. split; intros [Hs Hn]; (split; [done|]); by rewrite (Hrel h s Hs) in *.
Qed.

(** ** Invalidation of all shapes *)

Lemma invalidate_all_loop_effect (l : list string) (clock : nat -> Z) (n : nat) (acc acc' : list string) (m m' : Manager) :
  Forall (fun h => is_Some (mgr_byHandle m !! h)) l -> invalidate_all_loop l clock n acc m = (m', (acc', None)) ->
  forall h s, live_at h s m' -> live_at h s m /\ h ∉ l.
Proof.
  revert n acc m. induction l as [|x l IH]; intros n acc m Hl; cbn [invalidate_all_loop].
  { intros [= <- _] h s Hs. split; [done|]. apply not_elem_of_nil. }
  apply Forall_cons in Hl as [[st Hst] Hl]. rewrite Hst. cbn [default from_option id]. destruct (st_Deleted st) eqn:Ed.
  - intros E h s Hs. destruct (IH _ _ _ Hl E h s Hs) as [Hlive Hn]. split; [done|]. rewrite not_elem_of_cons. split; [|done].
    intros ->. destruct Hlive. congruence.
  - destruct (persistStateLocked _ m) as [m1 [e|]] eqn:Ep; [done|]. apply persist_same in Ep as (E1 & _ & _).
    match goal with |- context [invalidate_all_loop l clock _ _ ?x] => set (m2 := x) end. intros E h s Hs.
    assert (HbH : mgr_byHandle m2 = <[x := deleted_state st (clock n)]> (mgr_byHandle m)).
    { unfold m2. match goal with |- context [notifyLocked ?a ?b] => destruct (notify_same a b) as [-> _] end. mgr_simpl.
      rewrite removeRelation_byHandle. by rewrite E1. }
    assert (Hl2 : Forall (fun h => is_Some (mgr_byHandle m2 !! h)) l).
    { eapply Forall_impl; [exact Hl|]. intros y Hy. cbn beta. rewrite HbH. apply lookup_insert_is_Some'. by right. }
    destruct (IH _ _ _ Hl2 E h s Hs) as [[H1 H2] Hn]. rewrite HbH in H1. 
    apply lookup_insert_Some in H1 as [[<- <-]|[Hne H1]]; [done|]. split; [done|]. by apply not_elem_of_cons.
Qed.

Lemma invalidate_all_none (clock : nat -> Z) (m m' : Manager) (l : list string) :
  InvalidateAll clock m = (m', (l, None)) -> forall h s, ~ live_at h s m'.
Proof.
  intros E h s Hs. assert (Hall : Forall (fun h => is_Some (mgr_byHandle m !! h)) (sorted_keys (mgr_byHandle m))).
  { apply Forall_forall. intros k. apply elem_of_sorted_keys. }
  destruct (invalidate_all_loop_effect _ _ _ _ _ _ _ Hall E h s Hs) as [[Hl _] Hn].
  apply Hn, elem_of_sorted_keys. eauto.
Qed.
End effects.
