(* ===== verification/DiskReload.v ===== *)
(** A restart from a disk that was written by the manager: [loadPersisted] of
    [src/internal/shapes/manager.go] above [src/internal/storage/disk.go].

    A manager that starts from the disk restores every shape that can be read
    and gives up the others: it saves them as deleted.  Whatever failed before
    and whatever fails now, a shape it serves is one that was served before,
    and the disk holds what is in memory again. *)

From Stdlib Require Import Ascii String ZArith NArith Lia.
From S2P Require Import Prelude GoValue JsonText Offset ShapeTypes Diff Storage Persist Manager Restart Paths Handles DiskStore DiskLaws DiskRefine DiskRestart DiskManager Effects.

#[local] Set Warnings "-clear-no-such-hyp".

(** * Definitions *)

(** A shape that is served comes from one that was. *)
Definition served_from (m m' : Manager DiskStore) : Prop :=
  forall h s, live_at h s m' -> exists st, live_at h st m /\ s = reloaded_state (kept_state st).

(** * Lemmas *)

(** ** A state that is read back is written as before *)

Lemma to_json_of_json (j : json) : to_json (of_json j) = reread j.
Proof.
  induction j as [|b|lit|s|l IH|l IH] using json_ind'; try done; cbn [of_json to_json reread]; f_equal.
  - rewrite map_map. induction IH as [|x l Hx _ IH]; [done|]. cbn [map]. by f_equal.
  - rewrite map_map. induction IH as [|x l Hx _ IH]; [done|]. cbn [map fst snd]. by rewrite Hx; f_equal.
Qed.

Lemma to_json_reloaded (a : any) : to_json (reloaded a) = reread (to_json a).
Proof. by rewrite <- of_to_json, to_json_of_json. Qed.

Lemma map_same {A B} (f g : A -> B) (l : list A) : map f l = map g l <-> Forall (fun x => f x = g x) l.
Proof.
  split.
  - induction l as [|x l IH]; [done|]. cbn [map]. intros [= Hx Hl]. constructor; auto.
  - induction 1 as [|x l Hx _ IH]; [done|]. cbn [map]. by f_equal.
Qed.

Lemma map_fixed {A} (f : A -> A) (l : list A) : map f l = l -> Forall (fun x => f x = x) l.
Proof. rewrite <- (map_id l) at 2. apply map_same. Qed.

Lemma sorted_keys_fmap {A B} (g : A -> B) (m : gmap string A) : sorted_keys (g <$> m) = sorted_keys m.
Proof.
  apply sort_strings_unique. apply NoDup_Permutation; [apply NoDup_fst_map_to_list..|].
  intros k. rewrite !elem_of_map_keys, lookup_fmap. by rewrite fmap_is_Some.
Qed.

Lemma headers_settled (m : gmap string any) :
  reread (map_json to_json m) = map_json to_json m -> map_json to_json (reloaded <$> m) = map_json to_json m.
Proof.
  intros Hr. unfold map_json in *. cbn [reread] in Hr. injection Hr as Hr. apply map_fixed in Hr. rewrite sorted_keys_fmap. f_equal.
  revert Hr. generalize (sorted_keys m). induction l as [|k l IH]; [done|]. rewrite !omap_cons_eq, lookup_fmap.
  destruct (m !! k) as [v|]; cbn [mbind option_bind fmap option_fmap option_map]; [|exact IH].
  intros Hr. apply Forall_cons in Hr as [Hv Hl]. cbn in Hv. injection Hv as _ Hv. by rewrite to_json_reloaded, Hv, IH.
Qed.

(** The first field of a message. *)
Lemma message_settled (with_offset : bool) (m : Message) (rest : list (string * json)) :
  reread (JObj (message_fields m ++ rest)) = JObj (message_fields m ++ rest) ->
  message_fields (reloaded_message with_offset m) = message_fields m.
Proof.
  unfold message_fields, field. cbn [app reread map fst snd]. intros Hr. injection Hr as Hr _.
  cbn [reloaded_message msg_Headers msg_Key msg_Value msg_OldValue]. rewrite headers_settled; [done|]. unfold map_json. cbn [reread]. by f_equal.
Qed.

Lemma changes_settled (l : list Message) :
  Forall message_ok (map (fun m => RawJson (persistedMessage_json m)) l) ->
  map (fun m => RawJson (persistedMessage_json m)) (map (reloaded_message true) l) = map (fun m => RawJson (persistedMessage_json m)) l.
Proof.
  induction l as [|m l IH]; [done|]. cbn [map]. intros Hl. apply Forall_cons in Hl as [[_ Hr] Hl]. rewrite IH by done. do 2 f_equal.
  unfold persistedMessage_json in *. by rewrite (message_settled true _ _ Hr).
Qed.

Lemma snapshot_settled (l : list Message) :
  reread (JArr (map message_json l)) = JArr (map message_json l) -> map message_json (map (reloaded_message false) l) = map message_json l.
Proof.
  cbn [reread]. rewrite !map_map. intros Hr. apply (f_equal (fun j => match j with JArr l => l | _ => [] end)), map_same in Hr.
  apply map_same. eapply Forall_impl; [exact Hr|]. intros m Hm. unfold message_json.
  by rewrite (message_settled false m []) by (rewrite app_nil_r; exact Hm).
Qed.

Section reload.
Context `{Device}.

Lemma kept_again (st : State) :
  Forall message_ok (ps_Changes (marshalState st)) -> settled (ps_Snapshot (marshalState st)) ->
  marshalState (kept_state (reloaded_state (kept_state st))) = marshalState (kept_state st) /\
  marshalState (reloaded_state (kept_state st)) = marshalState (kept_state st).
Proof.
  intros Hc Hs. unfold marshalState in *. cbn [ps_Changes ps_Snapshot settled] in *. unfold kept_state, reloaded_state. cbn.
  rewrite snapshot_settled by done. rewrite Z.div_mul by done.
  destruct (st_Deleted st); cbn; [done|]. by rewrite changes_settled.
Qed.

Lemma reloaded_storable (st : State) : state_storable st -> state_storable (reloaded_state st).
Proof.
  assert (Hm : forall b m, message_storable m -> message_storable (reloaded_message b m)).
  { intros b m (H1 & H2 & H3 & H4 & H5). split_and!; [|done|done|done|by destruct b].
    intros k v. cbn. rewrite lookup_fmap, fmap_Some. intros (u & Hu & _). exact (H1 k u Hu). }
  intros (H1 & H2 & H3 & H4 & H5). split_and!; [done|done|..|done]; apply Forall_fmap; (eapply Forall_impl; [eassumption|]); intros m; apply Hm.
Qed.

(** A state that fits still does when it is read back. *)
Lemma fits_reload (h : string) (st : State) (shapes : gmap string State) :
  fits shapes -> fits (<[h := st]> shapes) -> fits (<[h := reloaded_state (kept_state st)]> shapes).
Proof.
  intros Hf [F1 F2 F0 F3 F4]. pose proof (lookup_insert_eq shapes h st) as Hst.
  pose proof (F1 h st Hst) as G1. pose proof (F2 h st Hst) as G2. pose proof (F0 h st Hst) as G0. pose proof (F3 h st Hst) as G3. cbn in G3.
  destruct (kept_again st G2 G0) as [_ Ek]. apply fits_insert; [done|by apply reloaded_storable, kept_storable| | | |exact (F4 h st Hst)].
  - rewrite Ek. unfold marshalState, kept_state. cbn. destruct (st_Deleted st); [constructor|exact G2].
  - rewrite Ek. exact G0.
  - unfold reloaded_state, kept_state. cbn. rewrite length_map. destruct (st_Deleted st); [cbn; lia|done].
Qed.

Lemma fits_same (h : string) (st : State) (shapes : gmap string State) : fits shapes -> shapes !! h = Some st -> fits (<[h := st]> shapes).
Proof. intros Hf Hst. by rewrite insert_id. Qed.

Lemma fits_unreadable (p : PersistedShape) (shapes : gmap string State) :
  fits shapes -> handle_name (ps_Handle p) -> fits (<[ps_Handle p := unreadable_state p]> shapes).
Proof.
  intros Hf Hn. apply fits_insert; [done| |constructor|done|unfold max_chunks; cbn; lia|done].
  split_and!; [by repeat constructor|apply map_Forall_empty|constructor|constructor|apply map_Forall_empty].
Qed.

(** ** A load where nothing was lost *)

Lemma fits_reloaded (shapes shapes' : gmap string State) :
  fits shapes -> (forall h, shapes' !! h = (fun st => reloaded_state (kept_state st)) <$> shapes !! h) -> fits shapes'.
Proof.
  intros Hf Hs.
  assert (Hall : forall h u, shapes' !! h = Some u -> fits (<[h := u]> shapes)).
  { intros h u. rewrite Hs, fmap_Some. intros (st & Hst & ->). apply fits_reload; [done|by apply fits_same]. }
  constructor; intros h u Hu; pose proof (Hall h u Hu) as Hf'; pose proof (lookup_insert_eq shapes h u) as Hl.
  - exact (fit_storable _ Hf' h u Hl).
  - exact (fit_messages _ Hf' h u Hl).
  - exact (fit_snapshot _ Hf' h u Hl).
  - exact (fit_length _ Hf' h u Hl).
  - exact (fit_names _ Hf' h u Hl).
Qed.

Lemma held_reload (torn : bool) (s : DiskStore) (h : string) (st : State) (shapes : gmap string State) :
  fits (<[h := st]> shapes) -> disk_shapes s !! h = Some (marshalState (kept_state st)) -> held torn s h (reloaded_state (kept_state st)).
Proof.
  intros Hf Hs. pose proof (lookup_insert_eq shapes h st) as Hl. apply held_same. rewrite Hs. f_equal. symmetry.
  by apply kept_again; [apply (fit_messages _ Hf h)|apply (fit_snapshot _ Hf h)].
Qed.

Lemma held_exactly (s : DiskStore) (shapes : gmap string State) (h : string) :
  held_at false s h (shapes !! h) -> disk_shapes s !! h = (fun st => marshalState (kept_state st)) <$> shapes !! h.
Proof. destruct (shapes !! h); cbn [held_at]; [|done]. by intros [Hs|? Ht|? Ht]. Qed.

(** A manager that starts from a store with the same shapes. *)
Lemma restart_ready (dir : string) (m : Manager DiskStore) (store : DiskStore) :
  disk_ready dir false m -> store_in dir store -> disk_ok store -> disk_shapes store = disk_shapes (mgr_store m) -> (forall n, fault_at n = None) ->
  exists m', NewManager store = Ok m' /\ disk_ready dir false m' /\ mgr_store m' = store /\
    (forall h, LookupByHandle h m' = (fun st => reloaded_state (kept_state st)) <$> LookupByHandle h m) /\
    (forall def, LookupByDefinition def m' = (fun st => reloaded_state (kept_state st)) <$> LookupByDefinition def m).
Proof.
  intros [Hwf Hf Hm] Hin Hok Hsame Hquiet. pose proof (fun h => held_exactly _ _ h (holds_shapes _ _ _ _ Hm h)) as Hh.
  destruct (restarted_all m store Hwf (fit_storable _ Hf)) as (m' & E & Hwf' & Es & Hall & Hlook); [by split; [apply Hm|]|].
  exists m'. split_and!.
  - unfold NewManager, loadPersisted. cbn [mgr_store]. by rewrite (loaded_all store Hok Hquiet), Hsame, E.
  - split; [done|by eapply fits_reloaded|]. split; rewrite Es; [done|done|]. intros h. rewrite Hall. specialize (Hh h).
    destruct (mgr_byHandle m !! h) as [st|] eqn:Hst; cbn in Hh |- *; [|by rewrite Hsame].
    eapply held_reload; [by eapply fits_same|by rewrite Hsame].
  - done.
  - done.
  - by apply (found_alike (fun st => reloaded_state (kept_state st))).
Qed.

(** ** A load where something was lost *)

Lemma unmarshal_unreadable (p : PersistedShape) : unmarshalState (unreadable p) = None.
Proof.
  unfold unmarshalState. do 4 (match goal with |- mbind _ ?x = None => destruct x; cbn [mbind option_bind]; [|done] end). done.
Qed.

Lemma loaded_handle (p : PersistedShape) (st : State) : unmarshalState p = Some st -> st_Handle st = ps_Handle p.
Proof.
  intros E. unfold unmarshalState in E.
  repeat (match type of E with (mbind _ ?x = _) => destruct x eqn:? end; cbn [mbind option_bind] in E; [|done]). by injection E as <-.
Qed.

Variable dir : string.
Variable before : Manager DiskStore.
Hypothesis Hbefore : well_formed before.

(** In the middle of a load: some shapes are in memory, those of [l] are still
    to come; the disk holds all of them. *)
Record loading (l : list PersistedShape) (m : Manager DiskStore) (all : gmap string State) : Prop := {
  ld_wf : well_formed m;
  ld_nodup : NoDup (map ps_Handle l);
  ld_left h : h ∈ map ps_Handle l -> mgr_byHandle m !! h = None /\ all !! h = mgr_byHandle before !! h;
  ld_done h : h ∉ map ps_Handle l -> all !! h = mgr_byHandle m !! h;
  ld_read : Forall (fun q => exists p, disk_shapes (mgr_store m) !! ps_Handle q = Some p /\ (q = p \/ q = unreadable p)) l;
  ld_from : served_from before m;
  ld_holds : store_holds dir true (mgr_store m) all;
  ld_fits : fits all
}.

(** One more shape is in memory, after a save that is its own. *)
Lemma loading_put (q : PersistedShape) (l : list PersistedShape) (m m1 : Manager DiskStore) (all : gmap string State) (st : State) :
  loading (q :: l) m all -> st_Handle st = ps_Handle q -> same_indices m1 m ->
  (forall k, k <> ps_Handle q -> disk_shapes (mgr_store m1) !! k = disk_shapes (mgr_store m) !! k) ->
  (st_Deleted st = false -> exists u, live_at (ps_Handle q) u before /\ st = reloaded_state (kept_state u)) ->
  fits (<[ps_Handle q := st]> all) -> store_holds dir true (mgr_store m1) (<[ps_Handle q := st]> all) ->
  loading l (load_state st m1) (<[ps_Handle q := st]> all).
Proof.
  intros Hl Hh Hsame Helse Hlive Hf Hs. destruct (load_state_byHandle st m1) as (E1 & E2 & _). rewrite Hh in E1.
  pose proof (ld_nodup _ _ _ Hl) as [Hnin Hnd]%NoDup_cons. pose proof Hsame as (B1 & B2 & _).
  destruct (ld_left _ _ _ Hl (ps_Handle q)) as [Hnone _]; [by left|]. rewrite <- B1 in Hnone.
  assert (Hwf1 : well_formed m1) by (eapply well_formed_same; [|exact (ld_wf _ _ _ Hl)]; by split_and!; symmetry; apply Hsame).
  constructor; [|done|..|done].
  - apply wf_load; [done|by rewrite Hh|]. intros Hd. destruct (Hlive Hd) as (u & Hu & ->). cbn [reloaded_state kept_state st_Hash st_Definition].
    split; [|exact (wf_definition _ Hbefore _ _ Hu)]. destruct (mgr_byHash m1 !! st_Hash u) as [k|] eqn:Ek; [|done]. exfalso.
    apply (wf_hash _ Hwf1) in Ek as (s & Hsl & He).
    assert (Hsl0 : live_at k s m) by (unfold live_at in *; by rewrite <- B1). destruct (ld_from _ _ _ Hl k s Hsl0) as (u' & Hu' & ->).
    assert (k = ps_Handle q) as -> by (by apply (live_hash_unique k (ps_Handle q) u' u before Hbefore Hu' Hu)).
    destruct Hsl. congruence.
  - intros h Hin. rewrite E1. assert (Hne : h <> ps_Handle q) by (by intros ->). rewrite !lookup_insert_ne, B1 by done.
    apply (ld_left _ _ _ Hl). by right.
  - intros h Hnot. rewrite E1, !lookup_insert. case_decide as Hq; [done|]. rewrite B1. apply (ld_done _ _ _ Hl). apply not_elem_of_cons. by split.
  - rewrite E2. pose proof (ld_read _ _ _ Hl) as Hr. apply Forall_cons in Hr as [_ Hr]. apply Forall_forall. intros x Hx.
    rewrite Forall_forall in Hr. rewrite Helse; [by apply Hr|]. intros E. apply Hnin. rewrite <- E. by apply (list_elem_of_fmap_2 ps_Handle).
  - intros h s [Hsl Hd]. rewrite E1, lookup_insert in Hsl. case_decide as Hq; [|rewrite B1 in Hsl; by apply (ld_from _ _ _ Hl)].
    injection Hsl as <-. subst h. by apply Hlive.
  - by rewrite E2.
Qed.

(** A shape that is read is as it was or was deleted. *)
Lemma loading_read (q : PersistedShape) (l : list PersistedShape) (m : Manager DiskStore) (all : gmap string State) (st : State) :
  loading (q :: l) m all -> unmarshalState q = Some st -> loading l (load_state st m) (<[ps_Handle q := st]> all).
Proof.
  intros Hl E. pose proof (loaded_handle q st E) as Hh. pose proof (ld_read _ _ _ Hl) as [(p & Hp & Hq) _]%Forall_cons.
  assert (q = p) as -> by (destruct Hq as [|Hq]; [done|by rewrite Hq, unmarshal_unreadable in E]).
  destruct (ld_left _ _ _ Hl (ps_Handle p)) as [_ Hall]; [by left|].
  pose proof (holds_shapes _ _ _ _ (ld_holds _ _ _ Hl) (ps_Handle p)) as Hheld. pose proof (ld_fits _ _ _ Hl) as Hf.
  destruct (all !! ps_Handle p) as [u|] eqn:Eu; cbn [held_at] in Hheld; [|congruence].
  assert (Hw : exists w, p = marshalState (kept_state w) /\ fits (<[ps_Handle p := w]> all) /\ (st_Deleted w = false -> w = u)).
  { destruct Hheld as [Hs|t _ Hs|x _ Hs _].
    - exists u. split_and!; [congruence|by apply fits_same|done].
    - exists (deleted_state u t). split_and!; [congruence|by apply fits_deleted|done].
    - assert (p = unreadable x) as -> by congruence. by rewrite unmarshal_unreadable in E. }
  destruct Hw as (w & Ep & Hfw & Hlive). assert (Hst : st = reloaded_state (kept_state w)).
  { rewrite Ep in E. rewrite unmarshal_marshal in E; [by injection E as <-|]. apply kept_storable.
    apply (fit_storable _ Hfw (ps_Handle p) w), lookup_insert_eq. }
  assert (Hf' : fits (<[ps_Handle p := st]> all)) by (subst st; by apply fits_reload).
  apply (loading_put p l m m); [done|done|done|done| |done|].
  - intros Hd. exists u. subst st. assert (w = u) as -> by (by apply Hlive). split; [|done]. split; [congruence|done].
  - destruct (ld_holds _ _ _ Hl) as [Hpl Hok Hs]. split; [done|done|]. intros k. rewrite lookup_insert. case_decide as Hk; [|apply Hs].
    subst k st. eapply held_reload; [exact Hfw|]. by rewrite <- Ep.
Qed.

(** One that cannot be read is saved as deleted. *)
Lemma loading_lost (q : PersistedShape) (l : list PersistedShape) (m m1 : Manager DiskStore) (all : gmap string State) :
  loading (q :: l) m all -> persistStateLocked (unreadable_state q) m = (m1, None) ->
  loading l (load_state (unreadable_state q) m1) (<[ps_Handle q := unreadable_state q]> all).
Proof.
  intros Hl E. pose proof (ld_read _ _ _ Hl) as [(p & Hp & _) _]%Forall_cons. pose proof (ld_fits _ _ _ Hl) as Hf.
  assert (Hn : handle_name (ps_Handle q)).
  { pose proof (holds_shapes _ _ _ _ (ld_holds _ _ _ Hl) (ps_Handle q)) as Hheld.
    destruct (all !! ps_Handle q) as [u|] eqn:Eu; cbn [held_at] in Hheld; [exact (fit_names _ Hf _ u Eu)|congruence]. }
  pose proof (fits_unreadable q all Hf Hn) as Hf'.
  destruct (persist_holds dir true (unreadable_state q) m m1 None all (ld_holds _ _ _ Hl) Hf Hn ltac:(by left) E Hf') as [Hs Helse].
  apply (loading_put q l m m1); [done|done|by eapply persist_same|done|done|done|done].
Qed.

(** The whole load. *)
Lemma loading_all (l : list PersistedShape) (m m' : Manager DiskStore) (all : gmap string State) :
  loading l m all -> load_shapes l m = (m', None) -> disk_ready dir true m' /\ served_from before m'.
Proof.
  revert m all. induction l as [|q l IH]; intros m all Hl E.
  - injection E as <-. assert (Eall : all = mgr_byHandle m) by (apply map_eq; intros h; apply (ld_done _ _ _ Hl), not_elem_of_nil).
    destruct Hl as [Hwf _ _ _ _ Hfrom Hs Hf]. rewrite Eall in Hs, Hf. by split.
  - cbn [load_shapes] in E. destruct (unmarshalState q) as [st|] eqn:Eq; [eapply IH; [by apply loading_read|exact E]|].
    destruct (persistStateLocked (unreadable_state q) m) as [m1 [x|]] eqn:Ep; [done|]. eapply IH; [by apply (loading_lost q l m m1)|exact E].
Qed.

(** The load starts with all shapes still to come. *)
Lemma loading_start (store : DiskStore) (l : list PersistedShape) :
  disk_ready dir true before -> store_in dir store -> disk_ok store -> disk_shapes store = disk_shapes (mgr_store before) ->
  tbl_shapes (ds_tables store) = tbl_shapes (ds_tables (mgr_store before)) -> LoadShapes store = Ok l ->
  loading l (mkManager store ∅ ∅ ∅ 0 ∅ ∅) (mgr_byHandle before).
Proof.
  intros [_ Hf Hm] Hin Hok Hsame Hrows El. pose proof (loaded_list store Hok l El) as Hl.
  pose proof (holds_shapes _ _ _ _ Hm) as Hh.
  assert (Hk : map ps_Handle l = sorted_keys (disk_shapes store)).
  { rewrite <- (sorted_values_keys ps_Handle (disk_shapes store)) by (exact (disk_shapes_handle store)).
    clear -Hl. induction Hl as [|p q ps qs E _ IH]; [done|]. cbn [map]. rewrite IH. by destruct E as [->|[-> _]]. }
  assert (Hkeys : forall h, h ∈ map ps_Handle l <-> is_Some (mgr_byHandle before !! h)).
  { intros h. rewrite Hk, elem_of_sorted_keys, Hsame. specialize (Hh h). destruct (mgr_byHandle before !! h) as [st|]; cbn [held_at] in Hh.
    - split; [eauto|]. intros _. by destruct Hh; eauto.
    - rewrite Hh. split; intros [? ?]; done. }
  constructor.
  - apply empty_well_formed.
  - rewrite Hk. apply NoDup_sorted_keys.
  - intros h _. mgr_simpl. by rewrite lookup_empty.
  - intros h Hn. mgr_simpl. rewrite lookup_empty. rewrite Hkeys in Hn. destruct (mgr_byHandle before !! h); [|done]. exfalso. eauto.
  - apply Forall_forall. intros q [i Hq]%list_elem_of_lookup_1. destruct (Forall2_lookup_r _ _ _ _ _ Hl Hq) as (p & Hp & Hr).
    apply list_elem_of_lookup_2, elem_of_sorted_values in Hp as [k Hp]. pose proof (disk_shapes_handle store k p Hp) as <-. exists p. mgr_simpl.
    by destruct Hr as [->|[-> _]]; auto.
  - intros h s [Hs _]. discriminate Hs.
  - split; [done|done|]. intros h. mgr_simpl. eapply held_ext; [by rewrite Hsame| |apply Hh]. unfold disk_count. by rewrite Hrows.
  - done.
Qed.
End reload.

(** The checkpoint is not touched. *)
Lemma load_shapes_checkpoint {S} `{CheckpointLaws S} (l : list PersistedShape) (m m' : Manager S) :
  load_shapes l m = (m', None) -> checkpoint_of (mgr_store m') = checkpoint_of (mgr_store m).
Proof.
  revert m. induction l as [|p l IH]; intros m E; [by injection E as <-|]. cbn [load_shapes] in E.
  destruct (unmarshalState p) as [st|].
  - rewrite (IH _ E). by destruct (load_state_byHandle st m) as (_ & -> & _).
  - destruct (persistStateLocked (unreadable_state p) m) as [m1 [x|]] eqn:Ep; [done|]. rewrite (IH _ E).
    destruct (load_state_byHandle (unreadable_state p) m1) as (_ & -> & _). by eapply persist_checkpoint.
Qed.

(** A manager that starts from the disk after anything that may have failed. *)
Lemma restart_torn `{Device} (dir : string) (before m' : Manager DiskStore) (store : DiskStore) :
  disk_ready dir true before -> store_in dir store -> disk_ok store -> disk_shapes store = disk_shapes (mgr_store before) ->
  tbl_shapes (ds_tables store) = tbl_shapes (ds_tables (mgr_store before)) -> NewManager store = Ok m' ->
  disk_ready dir true m' /\ checkpoint_of (mgr_store m') = checkpoint_of store /\ served_from before m'.
Proof.
  intros Hr Hin Hok Hs Ht E. unfold NewManager, loadPersisted in E. cbn [mgr_store] in E.
  destruct (LoadShapes store) as [x|l] eqn:El; [done|]. destruct (load_shapes l _) as [m1 [x|]] eqn:Es; [done|]. injection E as <-.
  pose proof (loading_start dir before store l Hr Hin Hok Hs Ht El) as Hl.
  destruct (loading_all dir before (ready_wf _ _ _ Hr) l _ m1 _ Hl Es) as [H1 H2]. split_and!; [done| |done].
  by rewrite (load_shapes_checkpoint l _ m1 Es).
Qed.

(** What is found, by handle and by definition. *)
Lemma served_lookups (m m' : Manager DiskStore) :
  well_formed m -> well_formed m' -> served_from m m' ->
  (forall h s, LookupByHandle h m' = Some s -> exists st, LookupByHandle h m = Some st /\ s = reloaded_state (kept_state st)) /\
  (forall def s, LookupByDefinition def m' = Some s -> exists st, LookupByDefinition def m = Some st /\ s = reloaded_state (kept_state st)).
Proof.
  intros Hwf Hwf' Hs. split.
  - intros h s Hl%LookupByHandle_live. destruct (Hs h s Hl) as (st & Hst & ->). exists st. split; [by apply LookupByHandle_live|done].
  - intros def s Hl. unfold LookupByDefinition in *. destruct (mgr_byHash m' !! _) as [h|] eqn:Eh; [|done].
    apply LookupByHandle_live in Hl. apply (wf_hash _ Hwf') in Eh as (s' & Hs' & He).
    assert (s' = s) as -> by (destruct Hs', Hl; congruence). destruct (Hs h s Hl) as (st & Hst & ->). exists st. split; [|done].
    assert (Eh : mgr_byHash m !! definition_hash def = Some h) by (apply (wf_hash _ Hwf); by exists st).
    rewrite Eh. by apply LookupByHandle_live.
Qed.
