(* ===== verification/Snapshot.v ===== *)
(** Reading a shape from Postgres: [Snapshot] and [snapshotWithMetadata] of
    [src/internal/pg/runtime.go], [snapshotChangedKeys] of
    [src/internal/pg/replication.go] and the catalog lookups.

    The database is a parameter: the answers of the server to the program's
    queries.  What the code does with them is modelled. *)

From Stdlib Require Import Ascii String ZArith NArith Lia.
From S2P Require Import Prelude ShapeTypes Diff ChangeBatch RelationCache.

#[local] Set Warnings "-clear-no-such-hyp".

(** * Definitions *)

(** An error of the server: code 42P01, undefined table, or another one. *)
Inductive dbError : Type := DBUndefinedTable | DBError (message : string).

(** A row of an answer: the names of its fields and their values, as
    [fmt.Sprint] writes them, NULL as [None]. *)
Abbreviation pgRow := (list (string * option string)).

(** The server, as it is at one moment. *)
Record Database : Type := mkDatabase {
  db_connect : option string;                                   (** the error of [ensurePool] *)
  db_columns : Relation -> result dbError (list describedColumn); (** the query of [describeRelation] *)
  db_root : Relation -> result dbError (option Relation);       (** the query of [lookupPartitionRoot] *)
  db_query : string -> list string -> result dbError (list pgRow);
  db_begin : option string;
  db_snapshot : result dbError (string * string);               (** the query of [loadSnapshotMetadata] *)
  db_mark : Z;                                                  (** [rand.Intn] *)
  db_commit : option string
}.

Inductive runtimeError : Type :=
| ErrRelationNotFound (relation : Relation)
| ErrQuery (e : queryError)
| ErrDatabase (e : dbError)
| ErrConnection (message : string)
| ErrShapes (message : string)
| ErrProtocol (message : string).

Definition errMissing (e : runtimeError) : bool :=
  match e with ErrRelationNotFound _ => true | _ => false end.

Inductive SnapshotMode : Type := SnapshotModeData | SnapshotModeValidateOnly.

Record SnapshotRequest : Type := mkRequest {
  req_Definition : Definition_;
  req_Mode : SnapshotMode;
  req_Metadata : bool
}.

(** ** The catalog *)

Definition describeRelation (db : Database) (relation : Relation) : result runtimeError (list describedColumn) :=
  match db_columns db relation with
  | Err e => Err (ErrDatabase e)
  | Ok [] => Err (ErrRelationNotFound relation)
  | Ok columns => Ok columns
  end.

Definition lookupPartitionRoot (db : Database) (relation : Relation) : result runtimeError Relation :=
  match db_root db relation with
  | Err e => Err (ErrDatabase e)
  | Ok None => Ok relation
  | Ok (Some root) => Ok root
  end.

Definition loadSnapshotMetadata (db : Database) : result runtimeError SnapshotMetadata :=
  match db_snapshot db with
  | Err e => Err (ErrDatabase e)
  | Ok (snapshotText, databaseLSN) =>
      let '(xmin, xmax, xipList) := parseSnapshotText snapshotText in
      Ok (mkMetadata (db_mark db) databaseLSN xmin xmax xipList)
  end.

(** ** Rows *)

(** The loop over the selected columns, in all three functions. *)
Definition selected_schema (columns : list describedColumn) : Schema :=
  fold_left (fun schema c => <[dc_Name c := mkColumn (dc_Type c) (dc_NotNull c) (dc_PKIndex c)]> schema) columns ∅.

(** The loop over the fields of a row. *)
Definition read_row (fields : pgRow) : Row :=
  fold_left (fun row nv => <[nv.1 := nv.2]> row) fields ∅.

Definition read_rows (db : Database) (def : Definition_) (query : string) (args : list string) : result runtimeError (list Row) :=
  match db_query db query args with
  | Err DBUndefinedTable => Err (ErrRelationNotFound (def_Relation def))
  | Err e => Err (ErrDatabase e)
  | Ok rows => Ok (map read_row rows)
  end.

(** ** Snapshots *)

Definition snapshotWithMetadata (db : Database) (request : SnapshotRequest) : result runtimeError SnapshotResult :=
  let def := req_Definition request in
  match db_begin db with
  | Some e => Err (ErrConnection e)
  | None =>
      match describeRelation db (def_Relation def) with
      | Err e => Err e
      | Ok columns =>
          let selected := projectedColumns columns (def_Columns def) in
          match loadSnapshotMetadata db with
          | Err e => Err e
          | Ok metadata =>
              let commit rows :=
                match db_commit db with
                | Some e => Err (ErrConnection e)
                | None => Ok (mkSnapshot (selected_schema selected) rows (Some metadata))
                end in
              match req_Mode request with
              | SnapshotModeValidateOnly => commit []
              | SnapshotModeData =>
                  let '(query, args) := buildSnapshotQuery def selected in
                  match read_rows db def query args with Err e => Err e | Ok rows => commit rows end
              end
          end
      end
  end.

Definition Snapshot (db : Database) (request : SnapshotRequest) : result runtimeError SnapshotResult :=
  let def := req_Definition request in
  match db_connect db with
  | Some e => Err (ErrConnection e)
  | None =>
      if req_Metadata request then snapshotWithMetadata db request
      else
        match describeRelation db (def_Relation def) with
        | Err e => Err e
        | Ok columns =>
            let selected := projectedColumns columns (def_Columns def) in
            match req_Mode request with
            | SnapshotModeValidateOnly => Ok (mkSnapshot (selected_schema selected) [] None)
            | SnapshotModeData =>
                let '(query, args) := buildSnapshotQuery def selected in
                match read_rows db def query args with
                | Err e => Err e
                | Ok rows => Ok (mkSnapshot (selected_schema selected) rows None)
                end
            end
        end
  end.

Definition snapshotChangedKeys (db : Database) (def : Definition_) (metadata : relationMetadata) (keyRows : list Row) :
    result runtimeError SnapshotResult :=
  match db_connect db with
  | Some e => Err (ErrConnection e)
  | None =>
      let selected := targetedSnapshotColumns metadata (def_Columns def) in
      match buildTargetedSnapshotQuery def selected (md_PKColumns metadata) keyRows with
      | Err e => Err (ErrQuery e)
      | Ok (query, args) =>
          match read_rows db def query args with
          | Err e => Err e
          | Ok rows => Ok (mkSnapshot (selected_schema selected) rows None)
          end
      end
  end.

(** * Lemmas *)

Lemma selected_schema_described (columns : list describedColumn) : selected_schema columns = schemaForColumns columns.
Proof.
  unfold selected_schema, schemaForColumns. generalize (∅ : Schema). induction columns as [|c l IH]; intros s; [done|].
  cbn [fold_left]. rewrite <- IH. unfold clonePKIndex. by destruct (dc_PKIndex c).
Qed.

Lemma snapshotChangedKeys_schema (db : Database) (def : Definition_) (md : relationMetadata) (keyRows : list Row) (snapshot : SnapshotResult) :
  snapshotChangedKeys db def md keyRows = Ok snapshot ->
  snap_Schema snapshot = schemaForColumns (targetedSnapshotColumns md (def_Columns def)).
Proof.
  unfold snapshotChangedKeys. destruct (db_connect db); [done|].
  destruct (buildTargetedSnapshotQuery _ _ _ _) as [|[q args]]; [done|]. destruct (read_rows _ _ _ _); [done|].
  intros [= <-]. apply selected_schema_described.
Qed.
