(* ===== verification/Service.v ===== *)
(** The protocol service: [src/internal/protocol/service.go].

    A handler runs against the exchange of one request: the shape manager and
    the admission controller it shares with the other requests, its response
    writer and the metrics.  Everything it does not decide itself comes from an
    environment: what the other goroutines do to the manager before each of its
    calls, the backend at the moment of a snapshot, the clock, and how a wait
    ends.  The points of interaction are numbered in the order they happen. *)

From Stdlib Require Import Ascii String ZArith NArith Lia.
From S2P Require Import Prelude GoValue JsonText GoFormat Config SqlInspect Offset ShapeTypes Diff Storage Persist Manager ShapeLog Waiting Effects.
From S2P Require Import Admission Identifiers Request Response ChangeBatch RelationCache Snapshot.

#[local] Set Warnings "-clear-no-such-hyp".

(** * Definitions *)

(** ** The backend *)

(** [shapes.Backend]: its answer at one moment. *)
Class Backend (B : Type) : Type := { backend_Snapshot : B -> SnapshotRequest -> result runtimeError SnapshotResult }.

(** The runtime is the backend of the program. *)
#[export] Instance runtime_Backend : Backend Database := { backend_Snapshot := Snapshot }.

(** ** Errors *)

Inductive serviceError : Type :=
| FromManager (e : ManagerError)
| FromBackend (e : runtimeError)
| DeadlineExceeded
| Canceled.

Definition manager_error_text (e : ManagerError) : string :=
  match e with
  | ErrShapeNotFound => "shape not found"
  | ErrShapeDeleted => "shape deleted"
  | ErrOffsetOutOfRange => "offset out of range"
  | ErrStore message => message
  | ErrContext => "context canceled"
  end.

(** ** The exchange of a request *)

Inductive metric : Type := ShapeRequested (kind : admissionKind) | ShapeOverloaded (kind : admissionKind).

(** How the select of a wait ends: the shape's channel is closed, or the
    context ends first. *)
Inductive wait_answer : Type := Woken | Expired | Disconnected.

Record Exchange (S : Type) : Type := mkExchange {
  ex_manager : Manager S;
  ex_admission : option admissionController;
  ex_writer : Writer;
  ex_metrics : option (list metric);  (** [None]: no recorder *)
  ex_step : nat
}.
Arguments mkExchange {S}.
Arguments ex_manager {S}.
Arguments ex_admission {S}.
Arguments ex_writer {S}.
Arguments ex_metrics {S}.
Arguments ex_step {S}.

(** What happens at the [n]-th point of interaction. *)
Record Env (S B : Type) : Type := mkEnv {
  env_others : nat -> Manager S -> Manager S;  (** the other goroutines, before it *)
  env_backend : nat -> B;
  env_now : nat -> Z;                          (** [time.Now], in nanoseconds *)
  env_clock : nat -> Clock;                    (** the clock of the headers *)
  env_channel : nat -> nat;                    (** [make(chan struct{})] *)
  env_wait : nat -> Z -> wait_answer;          (** a wait with this timeout *)
  env_ctx_done : nat -> bool;                  (** [r.Context().Err() != nil] *)
  env_flusher : bool                           (** the writer is an [http.Flusher] *)
}.
Arguments mkEnv {S B}.
Arguments env_others {S B}.
Arguments env_backend {S B}.
Arguments env_now {S B}.
Arguments env_clock {S B}.
Arguments env_channel {S B}.
Arguments env_wait {S B}.
Arguments env_ctx_done {S B}.
Arguments env_flusher {S B}.

(** ** Handlers *)

Definition Handler (S A : Type) : Type := Exchange S -> A * Exchange S.

#[export] Instance handler_ret {S} : MRet (Handler S) := fun A a x => (a, x).
#[export] Instance handler_bind {S} : MBind (Handler S) := fun A B f h x => let '(a, x') := h x in f a x'.

Definition tick {S} : Handler S nat :=
  fun x => (ex_step x, mkExchange (ex_manager x) (ex_admission x) (ex_writer x) (ex_metrics x) (Datatypes.S (ex_step x))).

Definition write {S} (f : Writer -> Writer) : Handler S unit :=
  fun x => (tt, mkExchange (ex_manager x) (ex_admission x) (f (ex_writer x)) (ex_metrics x) (ex_step x)).

Definition on_manager {S A} (f : Manager S -> Manager S * A) : Handler S A :=
  fun x => let '(m, a) := f (ex_manager x) in (a, mkExchange m (ex_admission x) (ex_writer x) (ex_metrics x) (ex_step x)).

Definition record_metric {S} (e : metric) : Handler S unit :=
  fun x => (tt, mkExchange (ex_manager x) (ex_admission x) (ex_writer x) ((fun l => l ++ [e]) <$> ex_metrics x) (ex_step x)).

(** [s.admission.acquire]: whether the request was admitted. *)
Definition enter {S} (kind : admissionKind) : Handler S bool :=
  fun x => match acquire (ex_admission x) kind with
  | Some a => (true, mkExchange (ex_manager x) a (ex_writer x) (ex_metrics x) (ex_step x))
  | None => (false, x)
  end.

(** The deferred release.  It never blocks: its own element is in the channel. *)
Definition leave {S} (kind : admissionKind) : Handler S unit :=
  fun x => match release (ex_admission x) kind with
  | Some a => (tt, mkExchange (ex_manager x) a (ex_writer x) (ex_metrics x) (ex_step x))
  | None => (tt, x)
  end.

(** ** Control messages *)

Definition controlMessage (control globalLastSeenLSN : string) : json :=
  obj [("headers", obj (("control", JStr control) ::
    (if bool_decide (control = "up-to-date") && negb (bool_decide (globalLastSeenLSN = ""))
     then [("global_last_seen_lsn", JStr globalLastSeenLSN)] else [])))].

Definition upToDateControl (globalLastSeenLSN : string) : json := controlMessage "up-to-date" globalLastSeenLSN.

Definition controlBody (control globalLastSeenLSN : string) : list json := [controlMessage control globalLastSeenLSN].

Definition snapshotEndControl (metadata : option SnapshotMetadata) : json :=
  let '(xmin, xmax, xip) :=
    match metadata with
    | Some md => (XMin md, XMax md, default [] (XIPList md))
    | None => ("0", "0", [])
    end in
  obj [("headers", obj [("control", JStr "snapshot-end"); ("xmin", JStr xmin); ("xmax", JStr xmax); ("xip_list", JArr (map JStr xip))])].

Definition snapshotDatabaseLSN (metadata : option SnapshotMetadata) : string :=
  match metadata with Some md => DatabaseLSN md | None => "" end.

Definition currentGlobalLSN (st : State) : string := default "" (OffsetLSN (st_CurrentOffset st)).

Definition messagesToBody (messages : list Message) (globalLastSeenLSN : string) : list json :=
  map message_json messages ++ [upToDateControl globalLastSeenLSN].

(** ** Subset bodies *)

Definition subsetMetadata (metadata : option SnapshotMetadata) : SnapshotMetadata :=
  match metadata with Some md => md | None => mkMetadata 1 "0" "0" "0" (Some []) end.

Definition metadata_json (md : SnapshotMetadata) : json :=
  JObj [("snapshot_mark", JNum (format_Z (SnapshotMark md))); ("database_lsn", JStr (DatabaseLSN md)); ("xmin", JStr (XMin md));
    ("xmax", JStr (XMax md)); ("xip_list", match XIPList md with Some l => JArr (map JStr l) | None => JNull end)].

Definition subsetDataMessages (relation : Relation) (snapshot : SnapshotResult) (snapshotMark : Z) : list json :=
  map (fun row => obj [
    ("headers", obj [("operation", JStr "insert"); ("relation", JArr (map JStr (RelationHeader relation)));
       ("snapshot_mark", JNum (format_Z snapshotMark))]);
    ("key", JStr (MessageKey relation (snap_Schema snapshot) row)); ("value", map_json cell_json row)]) (snap_Rows snapshot).

(** ** Definitions of shapes *)

Definition shapeDefinitionFromRequest (req : ShapeRequest) : Definition_ :=
  mkDefinition (sr_Relation req) (sr_Where req) (sr_Params req) (sr_Columns req) (sr_Replica req) (sr_Log req) None.

Definition snapshotDefinitionFromRequest (req : ShapeRequest) : Definition_ :=
  mkDefinition (sr_Relation req) (sr_Where req) (sr_Params req) (sr_Columns req) (sr_Replica req) (sr_Log req) (sr_Subset req).

(** ** The service *)

Definition defaultSSEKeepaliveIntervalMS : Z := 21000.

(** [time.Duration(ms) * time.Millisecond]. *)
Definition milliseconds (ms : Z) : Z := wrap64 (ms * 1000000).

Section service.
Context {S : Type} {store_ops : Store S} {B : Type} {backend : Backend B}.
#[local] Abbreviation Manager := (Manager S).
#[local] Abbreviation Handler := (Handler S).

Variable cfg : Config.
(** The texts of the errors of pgx and of encoding/json, and Go's table of
    printable runes. *)
Variable error_text : runtimeError -> string.
Variable json_error : string -> string.
Variable is_print : N -> bool.
Variable env : Env S B.

Definition NewService (m : Manager) (metrics : bool) : Exchange S :=
  mkExchange m
    (Some (newAdmissionController (Z.to_nat (lim_Initial (cfg_MaxConcurrentRequests cfg))) (Z.to_nat (lim_Existing (cfg_MaxConcurrentRequests cfg)))))
    new_writer (if metrics then Some [] else None) 0.

(** *** Calls *)

(** A call of a method of the manager, which takes its lock. *)
Definition manager_call {A} (f : nat -> Manager -> Manager * A) : Handler A :=
  n ← tick; on_manager (fun m => f n (env_others env n m)).

Definition manager_get {A} (f : Manager -> A) : Handler A := manager_call (fun _ m => (m, f m)).

Definition read_clock : Handler Clock := n ← tick; mret (env_clock env n).

Definition take_snapshot (request : SnapshotRequest) : Handler (result runtimeError SnapshotResult) :=
  n ← tick; mret (backend_Snapshot (env_backend env n) request).

Definition upsert (def : Definition_) (snapshot : SnapshotResult) (offset : string) : Handler (result ManagerError State) :=
  manager_call (fun n => UpsertSnapshotAtOffset def snapshot offset (env_now env n)).

Definition read (h offset : string) : Handler (State * list Message * option serviceError) :=
  manager_get (fun m => let '(st, messages, e) := Read h offset m in (st, messages, FromManager <$> e)).

Definition WaitForChange (timeout : Z) (h offset : string) : Handler (State * list Message * option serviceError) :=
  first ← manager_get (wait_check h offset);
  match first with
  | Some (st, messages, e) => mret (st, messages, FromManager <$> e)
  | None =>
      n ← tick;
      second ← manager_call (fun _ => wait_register h offset (env_channel env n));
      match second with
      | Some (st, messages, e) => mret (st, messages, FromManager <$> e)
      | None =>
          k ← tick;
          match env_wait env k timeout with
          | Woken => read h offset
          | Expired => _ ← manager_call (fun _ m => (removeWaiter h (env_channel env n) m, tt)); mret (zero_state, [], Some DeadlineExceeded)
          | Disconnected => _ ← manager_call (fun _ m => (removeWaiter h (env_channel env n) m, tt)); mret (zero_state, [], Some Canceled)
          end
      end
  end.

(** *** Responses *)

Definition error_message (e : serviceError) : string :=
  match e with
  | FromManager e => manager_error_text e
  | FromBackend (ErrRelationNotFound relation) =>
      "Table " +:+ go_quote is_print (rel_Schema relation) +:+ "." +:+ go_quote is_print (rel_Table relation) +:+
      " does not exist. If the table name contains capitals or special characters you must quote it."
  | FromBackend e => error_text e
  | DeadlineExceeded => "context deadline exceeded"
  | Canceled => "context canceled"
  end.

Definition write_unavailable (message : string) : Handler unit := write (WriteError 503 (obj [("message", JStr message)])).

Definition write_invalid (field message : string) : Handler unit := write (WriteInvalidRequest {[field := [message]]}).

Definition writeSnapshotError (e : serviceError) : Handler unit :=
  match e with
  | FromBackend (ErrRelationNotFound relation) => write_invalid "table" (error_message e)
  | _ => write_unavailable (error_message e)
  end.

Definition matchesIfNoneMatch (r : Request) (st : State) (requestOffset : string) (noChanges : bool) (clock : Clock) : bool :=
  bool_decide (header_get "If-None-Match" r = str1 dquote +:+ ETag (st_Handle st) requestOffset (st_CurrentOffset st) noChanges clock +:+ str1 dquote).

(** The headers of a shape, and whether the request is answered by them. *)
Definition write_headers (r : Request) (req : ShapeRequest) (st : State) (headers : SuccessHeaderOptions) : Handler bool :=
  c1 ← read_clock;
  _ ← write (WriteSuccessHeaders is_print cfg req st headers c1);
  c2 ← read_clock;
  if matchesIfNoneMatch r st (sr_Offset req) (opt_NoChanges headers) c2 then
    c3 ← read_clock;
    _ ← write (WriteNotModified is_print cfg req st headers c3);
    mret true
  else mret false.

(** The end of the three kinds of read: the headers, and the body unless the
    client has it. *)
Definition respond (r : Request) (req : ShapeRequest) (st : State) (headers : SuccessHeaderOptions) (body : list json) : Handler unit :=
  answered ← write_headers r req st headers;
  if answered : bool then mret tt else write (WriteJSON 200 (JArr body)).

Definition must_refetch_body : json := JArr [obj [("headers", obj [("control", JStr "must-refetch")])]].

Definition mustRefetch (req : ShapeRequest) (def : Definition_) : Handler unit :=
  snap ← take_snapshot (Snapshot.mkRequest def SnapshotModeValidateOnly false);
  match snap with
  | Err e => writeSnapshotError (FromBackend e)
  | Ok snapshot =>
      up ← upsert def snapshot InitialOffset;
      match up with
      | Err e => write_unavailable (manager_error_text e)
      | Ok st =>
          c ← read_clock;
          _ ← write (WriteMustRefetchHeaders is_print req st c);
          write (WriteJSON 409 must_refetch_body)
      end
  end.

(** *** Initial reads *)

Definition serveInitialSnapshot (r : Request) (req : ShapeRequest) (def : Definition_) : Handler unit :=
  snap ← take_snapshot (Snapshot.mkRequest def SnapshotModeData true);
  match snap with
  | Err e => writeSnapshotError (FromBackend e)
  | Ok snapshot =>
      up ← upsert def snapshot InitialOffset;
      match up with
      | Err e => write_unavailable (manager_error_text e)
      | Ok st =>
          respond r req st (mkOptions (negb (bool_decide (snap_Rows snapshot = []))) false false)
            (map message_json (st_Snapshot st) ++ [snapshotEndControl (snap_Metadata snapshot)])
      end
  end.

Definition serveNow (r : Request) (req : ShapeRequest) (def : Definition_) : Handler unit :=
  found ← manager_get (LookupByDefinition def);
  match found with
  | Some st => respond r req st (mkOptions false true true) [upToDateControl (currentGlobalLSN st)]
  | None =>
      snap ← take_snapshot (Snapshot.mkRequest def SnapshotModeData true);
      match snap with
      | Err e => writeSnapshotError (FromBackend e)
      | Ok snapshot =>
          up ← upsert def snapshot NowOffset;
          match up with
          | Err e => write_unavailable (manager_error_text e)
          | Ok st => respond r req st (mkOptions false true true) [upToDateControl (snapshotDatabaseLSN (snap_Metadata snapshot))]
          end
      end
  end.

(** *** Streams *)

Definition sseKeepaliveInterval : Z :=
  let ms := if (0 <? cfg_SSETimeoutMS cfg) && (cfg_SSETimeoutMS cfg <? defaultSSEKeepaliveIntervalMS) then cfg_SSETimeoutMS cfg
            else defaultSSEKeepaliveIntervalMS in
  milliseconds ms.

Definition writeSSEEvents (body : list json) : Handler unit := write (write_text (SSEPayload body)).

(** Sends what was written. *)
Definition flush : Handler unit := write (write_header 200).

Definition keepalive : string := ": keep-alive" +:+ String nl (str1 nl).

(** The rounds of a stream; the result tells whether it returned. *)
Fixpoint sse_rounds (rounds : nat) (h currentOffset : string) : Handler bool :=
  match rounds with
  | O => mret false
  | Datatypes.S rounds =>
      '(nextState, nextMessages, e) ← WaitForChange sseKeepaliveInterval h currentOffset;
      match e with
      | Some DeadlineExceeded =>
          n ← tick;
          if env_ctx_done env n then mret true
          else _ ← write (write_text keepalive); _ ← flush; sse_rounds rounds h currentOffset
      | Some (FromManager (ErrShapeNotFound | ErrShapeDeleted | ErrOffsetOutOfRange)) =>
          _ ← writeSSEEvents (controlBody "must-refetch" ""); _ ← flush; mret true
      | Some _ => mret true
      | None =>
          match nextMessages with
          | [] => _ ← writeSSEEvents (controlBody "up-to-date" (currentGlobalLSN nextState)); _ ← flush; sse_rounds rounds h currentOffset
          | _ => _ ← writeSSEEvents (messagesToBody nextMessages (currentGlobalLSN nextState)); _ ← flush;
              sse_rounds rounds h (st_CurrentOffset nextState)
          end
      end
  end.

Definition stream_headers (req : ShapeRequest) (w : Writer) : Writer :=
  write_header 200 (set_header "Cache-Control" (cacheControlValue cfg req)
    (set_header "Connection" "keep-alive" (set_header "Content-Type" "text/event-stream" w))).

Definition serveLiveSSE (rounds : nat) (r : Request) (req : ShapeRequest) (st : State) (messages : list Message) : Handler bool :=
  answered ← write_headers r req st (mkOptions true true (bool_decide (messages = [])));
  if answered : bool then mret true
  else if negb (env_flusher env) then _ ← write_unavailable "streaming is not supported by this response writer"; mret true
  else
    _ ← write (stream_headers req);
    match messages with
    | [] => _ ← flush; sse_rounds rounds (sr_Handle req) (sr_Offset req)
    | _ =>
        _ ← writeSSEEvents (messagesToBody messages (currentGlobalLSN st)); _ ← flush;
        sse_rounds rounds (sr_Handle req) (st_CurrentOffset st)
    end.

Definition writeSSE (req : ShapeRequest) (body : list json) : Handler unit :=
  _ ← write (stream_headers req); writeSSEEvents body.

(** *** Continued reads *)

(** The long poll: what it waited for, or [None] when it has answered. *)
Definition long_poll (req : ShapeRequest) (def : Definition_) : Handler (option (State * list Message)) :=
  '(st, messages, e) ← WaitForChange (milliseconds (cfg_LongPollTimeoutMS cfg)) (sr_Handle req) (sr_Offset req);
  match e with
  | Some DeadlineExceeded =>
      '(st, messages, e) ← read (sr_Handle req) (sr_Offset req);
      match e with
      | Some e => _ ← write_unavailable (error_message e); mret None
      | None => mret (Some (st, messages))
      end
  | Some (FromManager (ErrShapeNotFound | ErrShapeDeleted)) => _ ← mustRefetch req def; mret None
  | Some (FromManager ErrOffsetOutOfRange) => _ ← write_invalid "offset" "out of bounds for this shape"; mret None
  | Some Canceled | None => mret (Some (st, messages))
  | Some e => _ ← write_unavailable (error_message e); mret None
  end.

Definition serve_messages (r : Request) (req : ShapeRequest) (st : State) (messages : list Message) : Handler unit :=
  respond r req st (mkOptions (negb (bool_decide (messages = []))) true (bool_decide (messages = [])))
    (map message_json messages ++ [upToDateControl (currentGlobalLSN st)]).

Definition serveContinuation (rounds : nat) (r : Request) (req : ShapeRequest) (def : Definition_) : Handler bool :=
  '(st, messages, e) ← read (sr_Handle req) (sr_Offset req);
  match e with
  | Some (FromManager (ErrShapeNotFound | ErrShapeDeleted)) => _ ← mustRefetch req def; mret true
  | Some (FromManager ErrOffsetOutOfRange) => _ ← write_invalid "offset" "out of bounds for this shape"; mret true
  | Some e => _ ← write_unavailable (error_message e); mret true
  | None =>
      if negb (bool_decide (st_Hash st = definition_hash def)) then _ ← mustRefetch req def; mret true
      else if sr_LiveSSE req then serveLiveSSE rounds r req st messages
      else if bool_decide (messages = []) && sr_Live req then
        polled ← long_poll req def;
        match polled with
        | Some (st, messages) => _ ← serve_messages r req st messages; mret true
        | None => mret true
        end
      else _ ← serve_messages r req st messages; mret true
  end.

(** *** Deletion *)

Definition validateDeleteRequest (req : ShapeRequest) : ValidationErrors :=
  if bool_decide (sr_Handle req = "") && bool_decide (sr_TableRaw req = "")
  then add_error "handle" "can't be blank when shape definition is missing" ∅
  else error_if (negb (bool_decide (sr_TableRaw req = "")) && negb (bool_decide (sr_TableParseError req = "")))
    "table" (sr_TableParseError req) ∅.

Definition writeDeleteAccepted (w : Writer) : Writer :=
  set_header "electric-has-data" "true" (set_header "Content-Type" content_type_json (set_header "Cache-Control" "no-cache" w)).

Definition delete_handle (h : string) : Handler (option serviceError) :=
  deleted ← manager_call (fun n => Delete h (env_now env n));
  match deleted with Err e => mret (Some (FromManager e)) | Ok _ => mret None end.

Definition deleteShape (req : ShapeRequest) (def : Definition_) : Handler unit :=
  if negb (cfg_AllowShapeDeletion cfg) then
    write (fun w => WriteJSON 405 (obj [("message", JStr "DELETE not allowed")]) (set_header "Cache-Control" "no-cache" w))
  else if negb (bool_decide (sr_Handle req = "")) then
    e ← delete_handle (sr_Handle req);
    match e with
    | Some e => write_unavailable (error_message e)
    | None => write (fun w => write_header 202 (writeDeleteAccepted w))
    end
  else
    found ← manager_get (LookupByDefinition def);
    e ← match found with Some st => delete_handle (st_Handle st) | None => mret None end;
    match e with
    | Some e => write_unavailable (error_message e)
    | None => write (fun w => write_header 202 (writeDeleteAccepted w))
    end.

(** *** Subsets *)

Definition resolveSubsetShape (req : ShapeRequest) (shapeDef : Definition_) : Handler (result serviceError State) :=
  if negb (bool_decide (sr_Handle req = "")) then
    found ← manager_get (LookupByHandle (sr_Handle req));
    match found with
    | None => mret (Err (FromManager ErrShapeNotFound))
    | Some st => if bool_decide (st_Hash st = definition_hash shapeDef) then mret (Ok st) else mret (Err (FromManager ErrShapeDeleted))
    end
  else
    found ← manager_get (LookupByDefinition shapeDef);
    match found with
    | Some st => mret (Ok st)
    | None =>
        snap ← take_snapshot (Snapshot.mkRequest shapeDef SnapshotModeData false);
        match snap with
        | Err e => mret (Err (FromBackend e))
        | Ok snapshot =>
            up ← upsert shapeDef snapshot InitialOffset;
            match up with Err e => mret (Err (FromManager e)) | Ok st => mret (Ok st) end
        end
    end.

Definition writeSubsetResolutionError (req : ShapeRequest) (shapeDef : Definition_) (e : serviceError) : Handler unit :=
  match e with
  | FromManager (ErrShapeNotFound | ErrShapeDeleted) => mustRefetch req shapeDef
  | _ => writeSnapshotError e
  end.

Definition serveSubsetSnapshot (req : ShapeRequest) (shapeDef queryDef : Definition_) : Handler unit :=
  resolved ← resolveSubsetShape req shapeDef;
  match resolved with
  | Err e => writeSubsetResolutionError req shapeDef e
  | Ok st =>
      snap ← take_snapshot (Snapshot.mkRequest queryDef SnapshotModeData true);
      match snap with
      | Err e => writeSnapshotError (FromBackend e)
      | Ok snapshot =>
          let metadata := subsetMetadata (snap_Metadata snapshot) in
          _ ← write (WriteSubsetHeaders st (snap_Schema snapshot));
          write (WriteJSON 200 (obj [("metadata", metadata_json metadata);
            ("data", JArr (subsetDataMessages (def_Relation queryDef) snapshot (SnapshotMark metadata)))]))
      end
  end.

(** *** Requests *)

(** [url.Values.Get] gives the first value. *)
Definition query_get (name : string) (r : Request) : string := default "" (values ← r_Query r !! name; head values).

Definition authorized (r : Request) : bool :=
  if cfg_Insecure cfg || bool_decide (cfg_Secret cfg = "") then true
  else
    let secret := query_get "secret" r in
    let secret := if decide (secret = "") then query_get "api_secret" r else secret in
    bool_decide (secret = cfg_Secret cfg).

Definition requestContainsDependencyKeyword (req : ShapeRequest) : bool := ContainsDependencyKeyword (sr_Where req).

Definition validateFeatureFlags (req : ShapeRequest) : ValidationErrors :=
  if Enabled (cfg_FeatureFlags cfg) FeatureAllowSubqueries then ∅
  else error_if (requestContainsDependencyKeyword req) "where" "Subqueries are not supported" ∅.

Definition sameShapeDefinition (st : State) (def : Definition_) : bool := bool_decide (st_Hash st = definition_hash def).

(** The method [admissionKind]. *)
Definition request_kind (req : ShapeRequest) (def : Definition_) : Handler admissionKind :=
  known ← (if bool_decide (sr_Handle req = "") then mret false
           else found ← manager_get (LookupByHandle (sr_Handle req));
             mret (match found with Some st => sameShapeDefinition st def | None => false end));
  if known : bool then mret admissionExisting
  else
    found ← manager_get (LookupByDefinition def);
    mret (match found with Some _ => admissionExisting | None => admissionInitial end).

(** The three kinds of read, once admitted. *)
Definition serve_shape (rounds : nat) (r : Request) (req : ShapeRequest) (definition queryDefinition : Definition_) : Handler bool :=
  if decide (sr_Offset req = "-1") then _ ← serveInitialSnapshot r req queryDefinition; mret true
  else if decide (sr_Offset req = "now") then _ ← serveNow r req queryDefinition; mret true
  else serveContinuation rounds r req definition.

Definition serve_admitted (rounds : nat) (r : Request) (req : ShapeRequest) (definition queryDefinition : Definition_) : Handler bool :=
  kind ← request_kind req definition;
  ok ← enter kind;
  if ok : bool then
    _ ← record_metric (ShapeRequested kind);
    returned ← serve_shape rounds r req definition queryDefinition;
    if returned : bool then _ ← leave kind; mret true else mret false
  else
    _ ← record_metric (ShapeOverloaded kind);
    _ ← write (WriteOverloadedWithKind kind (cfg_MaxConcurrentRequests cfg)); mret true.

(** [false]: the request is a stream that is still open. *)
Definition HandleShape (rounds : nat) (r : Request) : Handler bool :=
  if negb (authorized r) then _ ← write WriteUnauthorized; mret true
  else match ParseShapeRequest json_error is_print r with
  | Err e => _ ← write (WriteError (pe_Status e) (any_map_json (pe_Body e))); mret true
  | Ok request =>
      let definition := shapeDefinitionFromRequest request in
      let queryDefinition := snapshotDefinitionFromRequest request in
      if decide (r_Method r = "DELETE") then
        let validation := validateDeleteRequest request in
        if negb (bool_decide (validation = ∅)) then
          _ ← write (fun w => WriteJSON 400 (obj [("message", JStr "Invalid request"); ("errors", validation_json validation)])
                (set_header "Cache-Control" "no-cache" w)); mret true
        else _ ← deleteShape request definition; mret true
      else
        let validation := ValidateShapeRequest request in
        if negb (bool_decide (validation = ∅)) then _ ← write (WriteInvalidRequest validation); mret true
        else
          let subsetValidation := ValidateSubsetRequest request in
          if negb (bool_decide (subsetValidation = ∅))
          then _ ← write (WriteInvalidRequestBody (obj [("subset", validation_json subsetValidation)])); mret true
          else
            let featureValidation := validateFeatureFlags request in
            if negb (bool_decide (featureValidation = ∅)) then _ ← write (WriteInvalidRequest featureValidation); mret true
            else match sr_Subset request with
            | Some _ => _ ← serveSubsetSnapshot request definition queryDefinition; mret true
            | None => serve_admitted rounds r request definition queryDefinition
            end
  end.
End service.

(** * Lemmas *)

(** ** Hoare triples of handlers *)

Definition triple {S A} (P : Exchange S -> Prop) (h : Handler S A) (Q : A -> Exchange S -> Prop) : Prop :=
  forall x, P x -> Q (h x).1 (h x).2.

Section triples.
Context {S : Type}.

Lemma triple_ret {A} (P : Exchange S -> Prop) (Q : A -> Exchange S -> Prop) (a : A) : (forall x, P x -> Q a x) -> triple P (mret a) Q.
Proof. intros H x Hx. by apply H. Qed.

Lemma triple_bind {A C} (P : Exchange S -> Prop) (R : A -> Exchange S -> Prop) (Q : C -> Exchange S -> Prop) (h : Handler S A) (f : A -> Handler S C) :
  triple P h R -> (forall a, triple (R a) (f a) Q) -> triple P (h ≫= f) Q.
Proof.
  intros Hh Hf x Hx. specialize (Hh x Hx). unfold mbind, handler_bind. destruct (h x) as [a x1]. by apply Hf.
Qed.

Lemma triple_conseq {A} (P P' : Exchange S -> Prop) (Q Q' : A -> Exchange S -> Prop) (h : Handler S A) :
  triple P' h Q' -> (forall x, P x -> P' x) -> (forall a x, Q' a x -> Q a x) -> triple P h Q.
Proof. intros H HP HQ x Hx. by apply HQ, H, HP. Qed.

Lemma triple_pre {A} (P P' : Exchange S -> Prop) (h : Handler S A) (Q : A -> Exchange S -> Prop) :
  (forall x, P x -> P' x) -> triple P' h Q -> triple P h Q.
Proof. intros HP Hh x Hx. by apply Hh, HP. Qed.

Lemma triple_pure {A} (R : Prop) (P : Exchange S -> Prop) (h : Handler S A) (Q : A -> Exchange S -> Prop) :
  (R -> triple P h Q) -> triple (fun x => R /\ P x) h Q.
Proof. intros Hh x [Hr Hx]. by apply Hh. Qed.
End triples.
