(* ===== verification/Answers.v ===== *)
(** Every request is answered: what the handlers of
    [src/internal/protocol/service.go] send, and when they return.

    The handlers are followed with Hoare triples of [Service.v]: a call keeps the
    response unsent, the last write of a path sends it. *)

From Stdlib Require Import Ascii String ZArith NArith Lia.
From S2P Require Import Prelude GoValue Config Offset ShapeTypes Storage Manager ShapeLog Admission Request Response ChangeBatch RelationCache Snapshot Service.

#[local] Set Warnings "-clear-no-such-hyp".

(** * Definitions *)

(** The statuses of an authorized request. *)
Definition statuses : list Z := [200; 202; 304; 400; 405; 409; 413; 503].

(** Nothing is sent yet; the controller is [a]. *)
Definition fresh {S} (a : option admissionController) (x : Exchange S) : Prop := w_Sent (ex_writer x) = None /\ ex_admission x = a.

(** One of the statuses was sent. *)
Definition sent {S} (a : option admissionController) (x : Exchange S) : Prop :=
  (exists status, status_of (ex_writer x) = Some status /\ status ∈ statuses) /\ ex_admission x = a.

(** What a request must present: the secret, under its new name or, when that is
    absent, its old one. *)
Definition presents_secret (cfg : Config) (r : Request) : Prop :=
  cfg_Insecure cfg = true \/ cfg_Secret cfg = "" \/ query_get "secret" r = cfg_Secret cfg \/
  (query_get "secret" r = "" /\ query_get "api_secret" r = cfg_Secret cfg).

(** Only a stream can stay open. *)
Definition returns {S} (stream : Prop) (h : Handler S bool) : Prop := triple (fun _ => True) h (fun returned _ => returned = false -> stream).

(** * Lemmas *)

(** ** Answers *)

Lemma sent_json (status : Z) (body : json) (w : Writer) : w_Sent w = None -> status_of (WriteJSON status body w) = Some status.
Proof. destruct w as [headers first written]. cbn [w_Sent]. by intros ->. Qed.

Lemma sent_error (status : Z) (body : json) (w : Writer) : w_Sent w = None -> status_of (WriteError status body w) = Some status.
Proof. intros H. by apply sent_json. Qed.

Lemma sent_headers (status : Z) (w : Writer) : w_Sent w = None -> status_of (write_header status w) = Some status.
Proof. intros H. unfold write_header, status_of. by rewrite H. Qed.

Lemma status_text (text : string) (w : Writer) (status : Z) : status_of w = Some status -> status_of (write_text text w) = Some status.
Proof. by destruct w as [headers [first|] body]. Qed.

Lemma status_header (n : Z) (w : Writer) (status : Z) : status_of w = Some status -> status_of (write_header n w) = Some status.
Proof. by destruct w as [headers [first|] body]. Qed.

Lemma unsent_success (is_print : N -> bool) (cfg : Config) (req : ShapeRequest) (st : State) (o : SuccessHeaderOptions) (c : Clock) (w : Writer) :
  w_Sent (WriteSuccessHeaders is_print cfg req st o c w) = w_Sent w.
Proof. unfold WriteSuccessHeaders, WriteSchemaHeader. repeat (case_match || case_decide); done. Qed.

Lemma unsent_subset (st : State) (schema : Schema) (w : Writer) : w_Sent (WriteSubsetHeaders st schema w) = w_Sent w.
Proof. unfold WriteSubsetHeaders, WriteSchemaHeader. by case_decide. Qed.

Lemma sent_not_modified (is_print : N -> bool) (cfg : Config) (req : ShapeRequest) (st : State) (o : SuccessHeaderOptions) (c : Clock) (w : Writer) :
  w_Sent w = None -> status_of (WriteNotModified is_print cfg req st o c w) = Some 304.
Proof. intros H. apply sent_headers. cbn [del_header set_header w_Sent]. by rewrite unsent_success. Qed.

Create HintDb answers.

(** Follow a handler: a call keeps the exchange fresh, the last write answers. *)
Ltac sending :=
  intros ? ?; first [by apply sent_json | by apply sent_not_modified | by apply sent_headers | apply sent_headers; by rewrite ?unsent_success | by rewrite ?unsent_success, ?unsent_subset].

Ltac listed := apply (bool_decide_unpack _); vm_compute; exact I.

Section answers.
Context {S : Type} {store_ops : Store S} {B : Type} {backend : Backend B}.
Variable cfg : Config.
Variable error_text : runtimeError -> string.
Variable json_error : string -> string.
Variable is_print : N -> bool.
Variable env : Env S B.
Variable a : option admissionController.

#[local] Abbreviation keeps_fresh h := (triple (fresh a) h (fun _ => fresh a)).
#[local] Abbreviation answers h := (triple (fresh a) h (fun _ => sent a)).

Lemma fresh_tick : keeps_fresh (@tick S).
Proof. by intros x. Qed.

Lemma fresh_call {A} (f : nat -> Manager S -> Manager S * A) : keeps_fresh (manager_call env f).
Proof. apply (triple_bind _ (fun _ => fresh a)); [apply fresh_tick|]. intros n x Hx. unfold on_manager. by destruct (f n _). Qed.

Lemma fresh_snapshot (request : SnapshotRequest) : keeps_fresh (take_snapshot env request).
Proof. by intros x. Qed.

Lemma fresh_clock : keeps_fresh (read_clock env).
Proof. by intros x. Qed.

Lemma fresh_metric (e : metric) : keeps_fresh (@record_metric S e).
Proof. by intros x. Qed.

Lemma fresh_write (f : Writer -> Writer) : (forall w, w_Sent w = None -> w_Sent (f w) = None) -> keeps_fresh (@write S f).
Proof. intros Hf x [Hx Ha]. split; [by apply Hf|done]. Qed.

Lemma sent_write (f : Writer -> Writer) (status : Z) :
  (forall w, w_Sent w = None -> status_of (f w) = Some status) -> status ∈ statuses -> answers (@write S f).
Proof. intros Hf Hin x [Hx Ha]. split; [|done]. exists status. split; [by apply Hf|done]. Qed.

(** What comes after the status does not change it. *)
Lemma sent_write_after (f : Writer -> Writer) :
  (forall w s, status_of w = Some s -> status_of (f w) = Some s) -> triple (sent a) (@write S f) (fun _ => sent a).
Proof. intros Hf x [(s & Hs & Hin) Ha]. split; [|done]. exists s. split; [by apply Hf|done]. Qed.

Lemma sent_call {A} (f : nat -> Manager S -> Manager S * A) : triple (sent a) (manager_call env f) (fun _ => sent a).
Proof. apply (triple_bind _ (fun _ => sent a)); [by intros x|]. intros n x Hx. unfold on_manager. by destruct (f n _). Qed.

Lemma sent_tick : triple (sent a) (@tick S) (fun _ => sent a).
Proof. by intros x. Qed.

Lemma sent_text (body : list json) : triple (sent a) (@writeSSEEvents S body) (fun _ => sent a).
Proof. apply sent_write_after. intros w s. apply status_text. Qed.

Lemma sent_flush : triple (sent a) (@flush S) (fun _ => sent a).
Proof. apply sent_write_after. intros w s. apply status_header. Qed.

Lemma fresh_get {A} (f : Manager S -> A) : keeps_fresh (manager_get env f).
Proof. apply fresh_call. Qed.

Lemma sent_get {A} (f : Manager S -> A) : triple (sent a) (manager_get env f) (fun _ => sent a).
Proof. apply sent_call. Qed.
End answers.

#[local] Hint Resolve fresh_tick fresh_call fresh_get fresh_snapshot fresh_clock fresh_metric sent_call sent_get sent_tick sent_text sent_flush : answers.

Ltac follow :=
  repeat match goal with
  | |- triple _ (mbind _ _) _ =>
      eapply triple_bind;
        [first [solve [eauto with answers nocore] | apply fresh_write; sending | eapply sent_write; [sending|listed]]|intros ?; cbv beta]
  | |- triple _ (match ?x with _ => _ end) _ => destruct x
  | |- triple _ (mret _) _ => by apply triple_ret
  | |- triple _ (write _) (fun _ => fresh _) => apply fresh_write; sending
  | |- triple _ (write _) (fun _ => sent _) => eapply sent_write; [sending|listed]
  | |- triple _ _ _ => solve [eauto with answers nocore]
  end.

Section served.
Context {S : Type} {store_ops : Store S} {B : Type} {backend : Backend B}.
Variable cfg : Config.
Variable error_text : runtimeError -> string.
Variable json_error : string -> string.
Variable is_print : N -> bool.
Variable env : Env S B.
Variable a : option admissionController.

#[local] Abbreviation keeps_fresh h := (triple (fresh a) h (fun _ => fresh a)).
#[local] Abbreviation answers h := (triple (fresh a) h (fun _ => sent a)).

Lemma unavailable_answers (message : string) : answers (@write_unavailable S message).
Proof. unfold write_unavailable. follow. Qed.

Lemma invalid_answers (field message : string) : answers (@write_invalid S field message).
Proof. unfold write_invalid. follow. Qed.
#[local] Hint Resolve unavailable_answers invalid_answers : answers.

Lemma snapshot_error_answers (e : serviceError) : answers (@writeSnapshotError S error_text is_print e).
Proof. unfold writeSnapshotError. follow. Qed.

Lemma upsert_fresh (def : Definition_) (snapshot : SnapshotResult) (offset : string) : keeps_fresh (upsert env def snapshot offset).
Proof. apply fresh_call. Qed.

Lemma read_fresh (h offset : string) : keeps_fresh (read env h offset).
Proof. apply fresh_call. Qed.
#[local] Hint Resolve snapshot_error_answers upsert_fresh read_fresh : answers.

Lemma wait_fresh (timeout : Z) (h offset : string) : keeps_fresh (WaitForChange env timeout h offset).
Proof. unfold WaitForChange. follow. Qed.

Lemma wait_sent (timeout : Z) (h offset : string) : triple (sent a) (WaitForChange env timeout h offset) (fun _ => sent a).
Proof. unfold WaitForChange, read. follow. Qed.

Lemma refetch_answers (req : ShapeRequest) (def : Definition_) : answers (mustRefetch error_text is_print env req def).
Proof. unfold mustRefetch. follow. Qed.

(** The headers answer the request, or leave it open. *)
Lemma headers_answer (r : Request) (req : ShapeRequest) (st : State) (o : SuccessHeaderOptions) :
  triple (fresh a) (write_headers cfg is_print env r req st o) (fun answered => if answered then sent a else fresh a).
Proof. unfold write_headers. follow. Qed.
#[local] Hint Resolve wait_fresh wait_sent refetch_answers headers_answer : answers.

Lemma respond_answers (r : Request) (req : ShapeRequest) (st : State) (o : SuccessHeaderOptions) (body : list json) :
  answers (respond cfg is_print env r req st o body).
Proof. unfold respond. follow. Qed.
#[local] Hint Resolve respond_answers : answers.

Lemma initial_answers (r : Request) (req : ShapeRequest) (def : Definition_) : answers (serveInitialSnapshot cfg error_text is_print env r req def).
Proof. unfold serveInitialSnapshot. follow. Qed.

Lemma now_answers (r : Request) (req : ShapeRequest) (def : Definition_) : answers (serveNow cfg error_text is_print env r req def).
Proof. unfold serveNow. follow. Qed.

Lemma rounds_sent (rounds : nat) (h offset : string) : triple (sent a) (sse_rounds cfg env rounds h offset) (fun _ => sent a).
Proof.
  revert offset. induction rounds as [|rounds IH]; intros offset; cbn [sse_rounds]; [by apply triple_ret|].
  follow; try (eapply triple_bind; [apply sent_write_after; intros ??; apply status_text|intros ?]; follow); apply IH.
Qed.
#[local] Hint Resolve initial_answers now_answers rounds_sent : answers.

Lemma stream_answers (rounds : nat) (r : Request) (req : ShapeRequest) (st : State) (messages : list Message) :
  answers (serveLiveSSE cfg is_print env rounds r req st messages).
Proof.
  unfold serveLiveSSE, stream_headers. follow.
Qed.

Lemma poll_answers (req : ShapeRequest) (def : Definition_) :
  triple (fresh a) (long_poll cfg error_text is_print env req def) (fun polled => match polled with Some _ => fresh a | None => sent a end).
Proof. unfold long_poll. follow. Qed.
#[local] Hint Resolve stream_answers poll_answers : answers.

Lemma continuation_answers (rounds : nat) (r : Request) (req : ShapeRequest) (def : Definition_) :
  answers (serveContinuation cfg error_text is_print env rounds r req def).
Proof. unfold serveContinuation, serve_messages. follow. Qed.

Lemma delete_handle_fresh (h : string) : keeps_fresh (delete_handle env h).
Proof. unfold delete_handle. follow. Qed.
#[local] Hint Resolve continuation_answers delete_handle_fresh : answers.

Lemma delete_answers (req : ShapeRequest) (def : Definition_) : answers (deleteShape cfg error_text is_print env req def).
Proof. unfold deleteShape. follow. apply (triple_bind _ (fun _ => fresh a)); [|intros ?]; follow. Qed.

Lemma resolve_fresh (req : ShapeRequest) (def : Definition_) : keeps_fresh (resolveSubsetShape env req def).
Proof. unfold resolveSubsetShape. follow. Qed.

Lemma resolution_error_answers (req : ShapeRequest) (def : Definition_) (e : serviceError) :
  answers (writeSubsetResolutionError error_text is_print env req def e).
Proof. unfold writeSubsetResolutionError. follow. Qed.
#[local] Hint Resolve delete_answers resolve_fresh resolution_error_answers : answers.

Lemma subset_answers (req : ShapeRequest) (shapeDef queryDef : Definition_) :
  answers (serveSubsetSnapshot error_text is_print env req shapeDef queryDef).
Proof. unfold serveSubsetSnapshot. follow. Qed.

Lemma kind_fresh (req : ShapeRequest) (def : Definition_) : keeps_fresh (request_kind env req def).
Proof. unfold request_kind. apply (triple_bind _ (fun _ => fresh a)); [|intros ?]; follow. Qed.

Lemma shape_answers (rounds : nat) (r : Request) (req : ShapeRequest) (def queryDef : Definition_) :
  answers (serve_shape cfg error_text is_print env rounds r req def queryDef).
Proof. unfold serve_shape. follow. Qed.

End served.

#[local] Hint Resolve unavailable_answers delete_answers subset_answers : answers.

(** ** Returning *)

Lemma returns_after {S A} (stream : Prop) (h : Handler S A) (f : A -> Handler S bool) : (forall v, returns stream (f v)) -> returns stream (h ≫= f).
Proof. intros Hf. by apply (triple_bind _ (fun _ _ => True)). Qed.

Lemma returns_true {S} (stream : Prop) : returns stream (mret true : Handler S bool).
Proof. by intros x. Qed.

Ltac finish :=
  repeat match goal with
  | |- returns _ (mbind _ _) => apply returns_after; intros ?
  | |- returns _ (mret true) => apply returns_true
  | |- returns _ (match ?x with _ => _ end) => destruct x eqn:?
  end.

Section returning.
Context {S : Type} {store_ops : Store S} {B : Type} {backend : Backend B}.
Variable cfg : Config.
Variable error_text : runtimeError -> string.
Variable json_error : string -> string.
Variable is_print : N -> bool.
Variable env : Env S B.

Lemma admitted_answers (rounds : nat) (r : Request) (req : ShapeRequest) (def queryDef : Definition_) (a : option admissionController) :
  triple (fresh a) (serve_admitted cfg error_text is_print env rounds r req def queryDef)
    (fun returned x => exists a', sent a' x /\ (returned = true -> a' = a)).
Proof.
  unfold serve_admitted. eapply triple_bind; [apply kind_fresh|intros kind].
  apply (triple_bind _ (fun ok x => if ok : bool then exists a', acquire a kind = Some a' /\ fresh a' x else fresh a x)).
  { intros x Hx. unfold enter. destruct Hx as [Hw Ha]. rewrite Ha. by destruct (acquire a kind) as [a'|]; [exists a'|]. }
  intros [].
  - intros x (a' & Ha & Hx). revert x Hx. change (triple (fresh a') (record_metric (ShapeRequested kind) ≫= fun _ =>
      serve_shape cfg error_text is_print env rounds r req def queryDef ≫= fun returned =>
      if returned : bool then leave kind ≫= fun _ => mret true else mret false)
      (fun returned x => exists a', sent a' x /\ (returned = true -> a' = a))).
    eapply triple_bind; [apply fresh_metric|intros ?].
    eapply triple_bind; [apply shape_answers|intros []].
    + apply (triple_bind _ (fun _ => sent a)); [|intros ?; apply triple_ret; intros ??; eexists; split; [eassumption|done]].
      intros x [Hs Hx]. unfold leave. rewrite Hx, (acquire_release _ _ _ Ha). by split.
    + apply triple_ret. intros ??. eexists. split; [eassumption|done].
  - eapply triple_bind; [apply fresh_metric|intros ?]. eapply triple_bind; [eapply sent_write; [sending|listed]|intros ?].
    apply triple_ret. intros ??. eexists. split; [eassumption|done].
Qed.

Lemma shape_returns (rounds : nat) (r : Request) (req : ShapeRequest) (def queryDef : Definition_) :
  returns (sr_LiveSSE req = true) (serve_shape cfg error_text is_print env rounds r req def queryDef).
Proof. unfold serve_shape, serveContinuation. finish. by intros x _ _. Qed.

Lemma admitted_returns (rounds : nat) (r : Request) (req : ShapeRequest) (def queryDef : Definition_) :
  returns (sr_LiveSSE req = true) (serve_admitted cfg error_text is_print env rounds r req def queryDef).
Proof.
  unfold serve_admitted. apply returns_after. intros kind. apply returns_after. intros []; [|finish].
  apply returns_after. intros _. apply (triple_bind _ (fun returned _ => returned = false -> sr_LiveSSE req = true)); [apply shape_returns|].
  intros []; [|by intros x Hx]. intros x _. by apply returns_after.
Qed.

Lemma handle_returns (rounds : nat) (r : Request) :
  returns (exists req, ParseShapeRequest json_error is_print r = Ok req /\ sr_LiveSSE req = true)
    (HandleShape cfg error_text json_error is_print env rounds r).
Proof.
  unfold HandleShape. finish. intros x _ Hr. eexists. split; [reflexivity|]. exact (admitted_returns _ _ _ _ _ x I Hr).
Qed.

Lemma parse_error_status (r : Request) (e : ParseError) : ParseShapeRequest json_error is_print r = Err e -> pe_Status e ∈ statuses.
Proof.
  unfold ParseShapeRequest. destruct (parseBody json_error r) as [e'|body] eqn:E.
  - intros [= <-]. unfold parseBody in E. repeat (case_match; simplify_eq/=; try listed).
  - by repeat case_match.
Qed.

Lemma handle_answers (rounds : nat) (r : Request) (a : option admissionController) :
  authorized cfg r = true ->
  triple (fresh a) (HandleShape cfg error_text json_error is_print env rounds r)
    (fun returned x => exists a', sent a' x /\ (returned = true -> a' = a)).
Proof.
  intros Hauth. unfold HandleShape. rewrite Hauth. cbn [negb].
  destruct (ParseShapeRequest json_error is_print r) as [e|req] eqn:Ep.
  { eapply triple_bind; [eapply sent_write; [sending|by eapply parse_error_status]|intros ?]. apply triple_ret. intros ??. eexists. split; [eassumption|done]. }
  assert (Hend : forall {A} (h : Handler S A), triple (fresh a) h (fun _ => sent a) ->
    triple (fresh a) (h ≫= fun _ => mret true) (fun returned x => exists a', sent a' x /\ (returned = true -> a' = a))).
  { intros A h Hh. eapply triple_bind; [exact Hh|intros ?]. apply triple_ret. intros ??. eexists. split; [eassumption|done]. }
  repeat case_match; try (apply Hend; first [eapply sent_write; [sending|listed] | solve [eauto with answers nocore]]).
  apply admitted_answers.
Qed.
End returning.

Lemma authorized_presents (cfg : Config) (r : Request) : authorized cfg r = true <-> presents_secret cfg r.
Proof.
  unfold authorized, presents_secret. destruct (cfg_Insecure cfg) eqn:Ei; cbn [orb]; [by intuition|].
  case_bool_decide as Hs; [by intuition|]. rewrite bool_decide_eq_true. case_decide as Hq; [|by intuition congruence].
  rewrite Hq. intuition congruence.
Qed.

(** ** A service for the examples *)

Definition demo_columns : list describedColumn := [mkDescribed "id" "int4" true (Some 0); mkDescribed "name" "text" false None].

(** A table with one row, whatever is asked. *)
Definition demo_table (name : string) : Database :=
  mkDatabase None (fun _ => Ok demo_columns) (fun _ => Ok None) (fun _ _ => Ok [[("id", Some "1"); ("name", Some name)]]) None
    (Ok ("10:10:", "0/10")) 7 None.

(** Nobody else is there; every wait times out. *)
Definition alone_env (name : string) : Env MemoryStore Database :=
  mkEnv (fun _ m => m) (fun _ => demo_table name) (fun n => 1700000000000000000 + Z.of_nat n) (fun n => mkClock 36000000 (Z.of_nat n))
    (fun n => n) (fun _ _ => Expired) (fun _ => false) true.

Definition secured_config : Config :=
  mkConfig "postgres://db" "postgres://db" "s3cret" false 3000 "" "default" 20 (mkLimits 1 1) 60 300 "memory" "" "/metrics" 20000 60000 true [].

(** A request for a table; the parameters of the query as a list. *)
Definition table_request (method secret : string) (params : list (string * string)) : Request :=
  Request.mkRequest method ("", None) (list_to_map ((fun kv => (kv.1, [kv.2])) <$> (("secret", secret) :: ("table", "items") :: params))) ∅ "/v1/shape".

Definition run (name : string) (r : Request) (m : Manager MemoryStore) : bool * Exchange MemoryStore :=
  HandleShape secured_config (fun _ => "error") (fun _ => "error") (fun _ => true) (alone_env name) 3 r (NewService secured_config m true).

(** * Properties *)

(** C14. Every request is answered, with one of the protocol's statuses, and only
    streams outlive their answer: a handler that returns has given back its
    place in the admission controller.  A request without the secret is
    answered 401 and touches nothing: no shape, no place, no metric; and no
    other request is answered 401. *)
Theorem request_answered {S} `{Store S} {B} `{Backend B} (cfg : Config) (error_text : runtimeError -> string) (json_error : string -> string)
    (is_print : N -> bool) (env : Env S B) (rounds : nat) (r : Request) (x : Exchange S) :
  w_Sent (ex_writer x) = None ->
  let '(returned, x') := HandleShape cfg error_text json_error is_print env rounds r x in
  (exists status, status_of (ex_writer x') = Some status /\ status ∈ 401 :: statuses /\ (status = 401 <-> ~ presents_secret cfg r)) /\
  (returned = true -> ex_admission x' = ex_admission x) /\
  (returned = false -> exists req, ParseShapeRequest json_error is_print r = Ok req /\ sr_LiveSSE req = true) /\
  (~ presents_secret cfg r -> ex_manager x' = ex_manager x /\ ex_admission x' = ex_admission x /\ ex_metrics x' = ex_metrics x).
Proof.
  intros Hw. pose proof (authorized_presents cfg r) as Hp. pose proof (handle_returns cfg error_text json_error is_print env rounds r x I) as Hr.
  destruct (authorized cfg r) eqn:Ea.
  - pose proof (handle_answers cfg error_text json_error is_print env rounds r (ex_admission x) Ea x (conj Hw eq_refl)) as Ha.
    assert (Hs : presents_secret cfg r) by tauto. destruct (HandleShape _ _ _ _ _ _ _ x) as [returned x']. cbn [fst snd] in *.
    destruct Ha as (a' & [(s & Es & Hin) Ha] & Hret). split_and!; [|intros Hx; by rewrite Ha, Hret|done|done].
    exists s. split_and!; [done|by right|]. split; [|done]. intros ->. exfalso. revert Hin. apply (bool_decide_unpack _). vm_compute. exact I.
  - clear Hr. assert (Hs : ~ presents_secret cfg r) by intuition congruence. unfold HandleShape. rewrite Ea. cbn [negb].
    split_and!; [|done|done|done]. exists 401. split_and!; [by apply sent_json|by left|done].
Qed.

Lemma request_answered_witness :
  let '(returned, x) := run "a" (table_request "GET" "guess" [("offset", "-1")]) (mkManager NewMemoryStore ∅ ∅ ∅ 0 ∅ ∅) in
  status_of (ex_writer x) = Some 401 /\ ex_metrics x = Some [].
Proof.
  pose proof (request_answered secured_config (fun _ => "error") (fun _ => "error") (fun _ => true) (alone_env "a") 3
    (table_request "GET" "guess" [("offset", "-1")]) (NewService secured_config (mkManager NewMemoryStore ∅ ∅ ∅ 0 ∅ ∅) true) eq_refl) as Ha.
  unfold run. destruct (HandleShape _ _ _ _ _ _ _ _) as [returned x]. destruct Ha as ((s & Hs & _ & Hu) & _ & _ & Hn).
  assert (Hp : ~ presents_secret secured_config (table_request "GET" "guess" [("offset", "-1")])).
  { rewrite <- authorized_presents. by vm_compute. }
  split; [by rewrite Hs, (proj2 Hu Hp)|]. by destruct (Hn Hp) as (_ & _ & ->).
Defined.
