(* ===== verification/Client.v ===== *)
(** What a client holds: the composition of the handlers of
    [src/internal/protocol/service.go] with the change log of
    [src/internal/shapes/manager.go].

    A client keeps a handle, an offset and rows.  It is in step with a shape
    when its rows are those the shape had at its offset.  The first response
    puts a client in step, nothing the server does to the shape's log takes it
    out of step, and every poll and every event of a stream brings it to the
    rows the shape has then. *)

From Stdlib Require Import Ascii String ZArith NArith Lia.
From S2P Require Import Prelude GoValue JsonText GoFormat Config Offset ShapeTypes Diff Storage Persist Manager ShapeLog Waiting Effects.
From S2P Require Import Admission Request Response ChangeBatch RelationCache Snapshot Service Answers.

#[local] Set Warnings "-clear-no-such-hyp".

(** * Definitions *)

(** A property of the manager and of the response. *)
Definition on {S} (P : Manager S -> Writer -> Prop) (x : Exchange S) : Prop := P (ex_manager x) (ex_writer x).

(** There is a place for a request of either kind. *)
Definition has_room {S} (x : Exchange S) : Prop := forall kind, acquire (ex_admission x) kind <> None.

(** The client at offset [o] with the rows [view]: the shape had these rows
    when it was at this offset, and its log has only grown since. *)
Definition in_step {S} (schema : Schema) (h o : string) (view : gmap string Row) (m : Manager S) : Prop :=
  exists st u l, live_at h u m /\ extends schema st u l /\ log_ordered st /\ o = st_CurrentOffset st /\ offset_ok o = true /\
    wire_equiv schema view (st_Materialized st).

(** The client has the rows the shape has now. *)
Definition caught_up {S} (schema : Schema) (h : string) (u : State) (view : gmap string Row) (m : Manager S) : Prop :=
  live_at h u m /\ in_step schema h (st_CurrentOffset u) view m /\ wire_equiv schema view (st_Materialized u).

(** The request is a read of a shape that passes authorization and
    validation. *)
Record accepts (cfg : Config) (json_error : string -> string) (is_print : N -> bool) (r : Request) (req : ShapeRequest) : Prop := {
  acc_secret : presents_secret cfg r;
  acc_method : r_Method r <> "DELETE";
  acc_parsed : ParseShapeRequest json_error is_print r = Ok req;
  acc_valid : ValidateShapeRequest req = ∅;
  acc_subset_valid : ValidateSubsetRequest req = ∅;
  acc_flags : validateFeatureFlags cfg req = ∅;
  acc_subset : sr_Subset req = None
}.

(** The text of a response. *)
Definition document (body : list json) : string := json_print (JArr body) +:+ str1 nl.

(** A response of status 200 for the shape as it is in [st]. *)
Definition served (st : State) (body : list json) (w : Writer) : Prop :=
  status_of w = Some 200 /\ sent_header "electric-handle" w = Some (st_Handle st) /\
  sent_header "electric-offset" w = Some (st_CurrentOffset st) /\ w_Body w = document body.

(** The result of a read that brings the client with the rows [view] to the
    present. *)
Definition present {S} (schema : Schema) (h : string) (view : gmap string Row) (st : State) (messages : list Message) (m : Manager S) : Prop :=
  caught_up schema h st (replay (def_Replica (st_Definition st)) view messages) m.

(** * Lemmas *)

(** ** Staying in step *)

Lemma in_step_same {S} (schema : Schema) (h o : string) (view : gmap string Row) (m m' : Manager S) :
  mgr_byHandle m' = mgr_byHandle m -> in_step schema h o view m -> in_step schema h o view m'.
Proof. intros E (st & u & l & Hl & Hr). exists st, u, l. split; [|exact Hr]. unfold live_at in *. by rewrite E. Qed.

Lemma in_step_refresh {S} `{Store S} (schema : Schema) (h o : string) (view : gmap string Row) (m m' : Manager S) :
  in_step schema h o view m -> rtc (refresh_step schema h) m m' -> in_step schema h o view m'.
Proof.
  intros (st & u & l & Hl & Hx & Hr) Hs. destruct (refresh_steps_extend schema h u m m' Hl Hs) as (v & Hv & l' & Hy).
  exists st, v, (l ++ l'). split; [done|]. split; [by eapply extends_trans|done].
Qed.

Lemma in_step_live {S} (schema : Schema) (h o : string) (view : gmap string Row) (m : Manager S) :
  in_step schema h o view m -> exists u, live_at h u m.
Proof. intros (st & u & l & Hl & _). by exists u. Qed.

(** A read brings the client to the present. *)
Lemma in_step_read {S} `{Store S} (schema : Schema) (h o : string) (view : gmap string Row) (m : Manager S) :
  in_step schema h o view m ->
  exists u l, readLocked h o m = (u, l, None) /\ caught_up schema h u (replay (def_Replica (st_Definition u)) view l) m.
Proof.
  intros (st & u & l & Hl & Hx & Ho & -> & Hok & Hw). exists u, l. split; [by eapply extends_read|].
  pose proof (ext_rows _ _ _ _ Hx) as Hr. destruct (ext_identity _ _ _ _ Hx) as (_ & _ & _ & Hd & _).
  assert (Hv : wire_equiv schema (replay (def_Replica (st_Definition u)) view l) (st_Materialized u)) by (by rewrite Hw, Hd).
  split_and!; [done| |done].
  exists u, u, []. split_and!; [done|apply extends_refl|by eapply log_ordered_extends|done|by eapply offset_ok_le, ext_offset|done].
Qed.

Section client.
Context {S : Type} {store_ops : Store S} {B : Type} {backend : Backend B}.
Variable cfg : Config.
Variable error_text : runtimeError -> string.
Variable json_error : string -> string.
Variable is_print : N -> bool.
Variable env : Env S B.

(** ** Calls *)

Lemma call_on {A} (P : Manager S -> Writer -> Prop) (Q : A -> Manager S -> Writer -> Prop) (f : nat -> Manager S -> Manager S * A) :
  (forall n m w, P m w -> P (env_others env n m) w) -> (forall n m w, P m w -> Q (f n m).2 (f n m).1 w) ->
  triple (on P) (manager_call env f) (fun a => on (Q a)).
Proof.
  intros Hs Hf x Hx. unfold manager_call, on_manager, on, mbind, handler_bind, tick in *. cbn [ex_manager].
  specialize (Hf (ex_step x) _ _ (Hs (ex_step x) _ _ Hx)). by destruct (f _ _).
Qed.

Lemma get_on {A} (P : Manager S -> Writer -> Prop) (f : Manager S -> A) :
  (forall n m w, P m w -> P (env_others env n m) w) -> triple (on P) (manager_get env f) (fun a => on (fun m w => P m w /\ a = f m)).
Proof. intros Hs. by apply call_on. Qed.

Lemma tick_on (P : Manager S -> Writer -> Prop) : triple (on P) (@tick S) (fun _ => on P).
Proof. by intros x. Qed.

Lemma clock_on (P : Manager S -> Writer -> Prop) : triple (on P) (read_clock env) (fun _ => on P).
Proof. by intros x. Qed.

Lemma write_on (P Q : Manager S -> Writer -> Prop) (f : Writer -> Writer) : (forall m w, P m w -> Q m (f w)) -> triple (on P) (write f) (fun _ => on Q).
Proof. intros Hf x Hx. by apply Hf. Qed.

Lemma pure_on {A} (P : Manager S -> Writer -> Prop) (R : Prop) (h : Handler S A) (Q : A -> Exchange S -> Prop) :
  (R -> triple (on P) h Q) -> triple (on (fun m w => P m w /\ R)) h Q.
Proof. intros Hh x [Hx Hr]. by apply Hh. Qed.

(** ** Responses *)

Lemma success_headers (req : ShapeRequest) (st : State) (o : SuccessHeaderOptions) (c : Clock) (w : Writer) :
  sr_LiveSSE req = false ->
  let w' := WriteSuccessHeaders is_print cfg req st o c w in
  w_Header w' !! canonical_key "electric-handle" = Some (st_Handle st) /\
  w_Header w' !! canonical_key "electric-offset" = Some (st_CurrentOffset st) /\ w_Sent w' = w_Sent w /\ w_Body w' = w_Body w.
Proof.
  intros Hs. unfold WriteSuccessHeaders, WriteSchemaHeader. rewrite Hs. cbn [andb]. cbv zeta.
  repeat (case_match || case_decide); cbn [set_header del_header w_Header w_Sent w_Body];
    (split_and!; [..|done|done]);
    repeat first [rewrite lookup_insert_eq; reflexivity | rewrite lookup_insert_ne by (by vm_compute) | rewrite lookup_delete_ne by (by vm_compute)].
Qed.

Lemma sent_json_header (key : string) (body : json) (w : Writer) : w_Sent w = None -> canonical_key key <> canonical_key "Content-Type" ->
  sent_header key (WriteJSON 200 body w) = w_Header w !! canonical_key key.
Proof.
  destruct w as [headers first written]. cbn [w_Sent w_Header]. intros -> Hk. unfold sent_header. cbn.
  by rewrite lookup_insert_ne by done.
Qed.

(** Without an If-None-Match header the body follows the headers. *)
Lemma headers_on (P : Manager S -> Prop) (r : Request) (req : ShapeRequest) (st : State) (o : SuccessHeaderOptions) :
  header_get "If-None-Match" r = "" ->
  triple (on (fun m w => P m /\ w = new_writer)) (write_headers cfg is_print env r req st o)
    (fun answered => on (fun m w => (P m /\ exists c, w = WriteSuccessHeaders is_print cfg req st o c new_writer) /\ answered = false)).
Proof.
  intros Hr. unfold write_headers, matchesIfNoneMatch. rewrite Hr. eapply triple_bind; [apply clock_on|]. intros c1. eapply triple_bind;
    [apply (write_on _ (fun m w => P m /\ exists c, w = WriteSuccessHeaders is_print cfg req st o c new_writer))|].
  - intros m w [Hp ->]. eauto.
  - intros ?. eapply triple_bind; [apply clock_on|]. intros c2. rewrite bool_decide_false by done. by apply triple_ret.
Qed.

Lemma respond_on (P : Manager S -> Prop) (r : Request) (req : ShapeRequest) (st : State) (o : SuccessHeaderOptions) (body : list json) :
  header_get "If-None-Match" r = "" -> sr_LiveSSE req = false ->
  triple (on (fun m w => P m /\ w = new_writer)) (respond cfg is_print env r req st o body) (fun _ => on (fun m w => P m /\ served st body w)).
Proof.
  intros Hr Hs. unfold respond. eapply triple_bind; [by apply headers_on|].
  intros answered. apply pure_on. intros ->. apply write_on. intros m w [Hp [c ->]]. split; [done|].
  destruct (success_headers req st o c new_writer Hs) as (H1 & H2 & H3 & H4). cbv zeta in *. unfold served.
  rewrite !sent_json_header by (by rewrite ?H3 || by vm_compute). split_and!; [by apply sent_json|done|done|].
  unfold WriteJSON, write_text. cbn [w_Body]. unfold write_header. cbn [set_header w_Sent w_Body]. rewrite H3. cbn [w_Sent new_writer w_Body]. by rewrite H4.
Qed.

(** ** Admission *)

#[local] Abbreviation stable P := (forall n m w, P m w -> P (env_others env n m) w).

Lemma kind_on (P : Manager S -> Writer -> Prop) (req : ShapeRequest) (def : Definition_) :
  stable P -> triple (on P) (request_kind env req def) (fun _ => on P).
Proof.
  intros Hs. assert (Hget : forall {A} (f : Manager S -> A), triple (on P) (manager_get env f) (fun _ => on P)) by (intros A f; by apply call_on).
  unfold request_kind. apply (triple_bind _ (fun _ => on P)).
  - case_bool_decide; [by apply triple_ret|]. eapply triple_bind; [apply Hget|]. intros ?. by apply triple_ret.
  - intros []; [by apply triple_ret|]. eapply triple_bind; [apply Hget|]. intros ?. by apply triple_ret.
Qed.

Lemma admitted_on (P : Manager S -> Writer -> Prop) (Q : bool -> Manager S -> Writer -> Prop) (rounds : nat) (r : Request) (req : ShapeRequest) (def queryDef : Definition_) :
  stable P -> (forall m w, P m w -> w_Sent w = None) ->
  triple (on P) (serve_shape cfg error_text is_print env rounds r req def queryDef) (fun returned => on (Q returned)) ->
  triple (fun x => on P x /\ has_room x) (serve_admitted cfg error_text is_print env rounds r req def queryDef) (fun returned => on (Q returned)).
Proof.
  intros Hs Hw Hshape. unfold serve_admitted. apply (triple_bind _ (fun _ x => on P x /\ has_room x)).
  { intros x [Hx Hr]. split; [by apply (kind_on P req def Hs)|]. unfold has_room.
    by destruct (kind_fresh env (ex_admission x) req def x (conj (Hw _ _ Hx) eq_refl)) as [_ ->]. }
  intros kind. apply (triple_bind _ (fun ok x => ok = true /\ on P x)).
  { intros x [Hx Hr]. unfold enter. specialize (Hr kind). destruct (acquire (ex_admission x) kind); [by split|congruence]. }
  intros ok. apply triple_pure. intros ->. apply (triple_bind _ (fun _ => on P)); [by intros x|]. intros ?.
  eapply triple_bind; [exact Hshape|]. intros []; [|by apply triple_ret].
  apply (triple_bind _ (fun _ => on (Q true))); [|intros ?; by apply triple_ret].
  intros x Hx. unfold on, leave in *. by destruct (release _ _).
Qed.

Lemma accepted_on (P : Manager S -> Writer -> Prop) (Q : bool -> Manager S -> Writer -> Prop) (rounds : nat) (r : Request) (req : ShapeRequest) :
  accepts cfg json_error is_print r req -> stable P -> (forall m w, P m w -> w_Sent w = None) ->
  triple (on P) (serve_shape cfg error_text is_print env rounds r req (shapeDefinitionFromRequest req) (shapeDefinitionFromRequest req))
    (fun returned => on (Q returned)) ->
  triple (fun x => on P x /\ has_room x) (HandleShape cfg error_text json_error is_print env rounds r) (fun returned => on (Q returned)).
Proof.
  intros [H1 H2 H3 H4 H5 H6 H7] Hs Hw Hshape. unfold HandleShape. apply authorized_presents in H1. rewrite H1, H3. cbn [negb].
  rewrite decide_False by done. rewrite H4, H5, H6, H7. cbn [negb]. rewrite !bool_decide_true by done. cbn [negb].
  replace (snapshotDefinitionFromRequest req) with (shapeDefinitionFromRequest req)
    by (unfold shapeDefinitionFromRequest, snapshotDefinitionFromRequest; by rewrite H7).
  by apply admitted_on.
Qed.
End client.

(** ** Continued reads *)

Section poll.
Context {S : Type} {store_ops : Store S} {B : Type} {backend : Backend B}.
Variable cfg : Config.
Variable error_text : runtimeError -> string.
Variable json_error : string -> string.
Variable is_print : N -> bool.
Variable env : Env S B.
Variable schema : Schema.
Variables h o hash replica : string.
Variable view : gmap string Row.
Variable W : Writer -> Prop.

(** Meanwhile the shape's log only grows. *)
Hypothesis others_refresh : forall n m, rtc (refresh_step schema h) m (env_others env n m).

(** The client is in step with the shape of the definition it asks for. *)
Definition follows (m : Manager S) : Prop :=
  in_step schema h o view m /\ forall u, live_at h u m -> st_Hash u = hash /\ def_Replica (st_Definition u) = replica.

Definition waiting_client (m : Manager S) (w : Writer) : Prop := follows m /\ W w.

Lemma follows_same (m m' : Manager S) : mgr_byHandle m' = mgr_byHandle m -> follows m -> follows m'.
Proof.
  intros E [Hi Hh]. split; [by eapply in_step_same|]. intros u [Hu Hd]. apply Hh. unfold live_at. by rewrite <- E.
Qed.

Lemma follows_others (n : nat) (m : Manager S) : follows m -> follows (env_others env n m).
Proof.
  intros [Hi Hh]. pose proof (others_refresh n m) as Hr. split; [by eapply in_step_refresh|]. intros u Hu.
  destruct (in_step_live _ _ _ _ _ Hi) as (v & Hv). destruct (refresh_steps_extend schema h v m _ Hv Hr) as (u' & Hu' & l & Hx).
  rewrite (live_at_fun h u u' _ Hu Hu'). destruct (ext_identity _ _ _ _ Hx) as (_ & -> & _ & -> & _). by apply Hh.
Qed.

Lemma waiting_stable (n : nat) (m : Manager S) (w : Writer) : waiting_client m w -> waiting_client (env_others env n m) w.
Proof. intros [Hf Hw]. split; [by apply follows_others|done]. Qed.

(** A read succeeds, and gives what brings the client to the present. *)
Lemma follows_read (m : Manager S) : follows m -> exists u l, readLocked h o m = (u, l, None) /\ present schema h view u l m.
Proof. intros [Hi _]. by apply in_step_read. Qed.

Lemma follows_check (m : Manager S) : follows m ->
  wait_check h o m = None \/ exists u l, wait_check h o m = Some (u, l, None) /\ present schema h view u l m.
Proof.
  intros Hf. destruct (follows_read m Hf) as (u & l & E & Hp). unfold wait_check. rewrite E.
  destruct (_ || _); [right; eauto|by left].
Qed.

Lemma register_same (n : nat) (m m' : Manager S) res : wait_register h o n m = (m', res) -> mgr_byHandle m' = mgr_byHandle m /\ (res = None \/ res = wait_check h o m).
Proof. unfold wait_register. destruct (wait_check h o m); intros [= <- <-]; split; auto. Qed.

Lemma remove_same (n : nat) (m : Manager S) : mgr_byHandle (removeWaiter h n m) = mgr_byHandle m.
Proof. unfold removeWaiter. by case_match. Qed.

(** How a wait ends: with news, or with its context. *)
Definition wait_end (res : State * list Message * option serviceError) (m : Manager S) : Prop :=
  let '(st, messages, e) := res in
  (e = None /\ present schema h view st messages m) \/ e = Some DeadlineExceeded \/
  (e = Some Canceled /\ exists n timeout, env_wait env n timeout = Disconnected).

Lemma read_gives : triple (on waiting_client) (read env h o)
  (fun '(st, messages, e) => on (fun m w => waiting_client m w /\ present schema h view st messages m /\ e = None)).
Proof.
  apply (triple_conseq _ (on waiting_client) _ (fun res => on (fun m w => waiting_client m w /\
    exists u l, res = (u, l, None) /\ present schema h view u l m))); [|done|].
  - apply call_on; [exact waiting_stable|]. intros n m w [Hf Hw]. cbn [fst snd]. split; [done|].
    destruct (follows_read m Hf) as (u & l & E & Hp). unfold Read. rewrite E. by exists u, l.
  - intros [[st messages] e] x [Hx (u & l & [= -> -> ->] & Hp)]. by split_and!.
Qed.

Lemma wait_gives (timeout : Z) :
  triple (on waiting_client) (WaitForChange env timeout h o) (fun res => on (fun m w => waiting_client m w /\ wait_end res m)).
Proof.
  unfold WaitForChange.
  apply (triple_bind _ (fun res => on (fun m w => waiting_client m w /\
    (res = None \/ exists u l, res = Some (u, l, None) /\ present schema h view u l m)))).
  { apply call_on; [exact waiting_stable|]. intros n m w [Hf Hw]. cbn [fst snd]. split; [done|by apply follows_check]. }
  assert (Hdone : forall res : outcome, triple (on (fun m w => waiting_client m w /\
      (Some res = None \/ exists u l, Some res = Some (u, l, None) /\ present schema h view u l m)))
      (mret (res.1.1, res.1.2, FromManager <$> res.2)) (fun res => on (fun m w => waiting_client m w /\ wait_end res m))).
  { intros res. apply triple_ret. intros x [Hx [|(u & l & [= ->] & Hp)]]; [done|]. split; [done|]. by left. }
  intros [[[st l] e]|]; [apply (Hdone (st, l, e))|].
  apply (triple_pre _ (on waiting_client)); [by intros x [Hx _]|].
  eapply triple_bind; [apply tick_on|]. intros n.
  apply (triple_bind _ (fun res => on (fun m w => waiting_client m w /\
    (res = None \/ exists u l, res = Some (u, l, None) /\ present schema h view u l m)))).
  { apply call_on; [exact waiting_stable|]. intros k m w [Hf Hw]. destruct (wait_register _ _ _ m) as [m' res] eqn:E. cbn [fst snd].
    apply register_same in E as [Hs Hr]. pose proof (follows_same m m' Hs Hf) as Hf'. split; [done|].
    destruct Hr as [->| ->]; [by left|]. rewrite <- (wait_check_lookup h o m m') by by rewrite Hs. by apply follows_check. }
  intros [[[st l] e]|]; [apply (Hdone (st, l, e))|].
  apply (triple_pre _ (on waiting_client)); [by intros x [Hx _]|].
  eapply triple_bind; [apply tick_on|]. intros k.
  assert (Hend : forall e, (e = DeadlineExceeded \/ (e = Canceled /\ exists n timeout, env_wait env n timeout = Disconnected)) ->
    triple (on waiting_client) (manager_call env (fun _ m => (removeWaiter h (env_channel env n) m, tt)) ≫= fun _ => mret (zero_state, [], Some e))
      (fun res => on (fun m w => waiting_client m w /\ wait_end res m))).
  { intros e He. apply (triple_bind _ (fun _ => on waiting_client)).
    - apply call_on; [exact waiting_stable|]. intros k' m w [Hf Hw]. split; [|done]. eapply follows_same, Hf. apply remove_same.
    - intros ?. apply triple_ret. intros x Hx. split; [done|]. right. destruct He as [-> | [-> He]]; auto. }
  destruct (env_wait env k timeout) eqn:Ew; [|apply Hend; by left|apply Hend; right; eauto].
  eapply triple_conseq; [apply read_gives|done|]. intros [[st l] e] x (Hx & Hp & ->). split; [done|]. by left.
Qed.

Section request.
Variables (r : Request) (req : ShapeRequest) (def : Definition_).
Hypothesis req_handle : sr_Handle req = h.
Hypothesis req_offset : sr_Offset req = o.
Hypothesis req_hash : definition_hash def = hash.
Hypothesis unwritten : forall w, W w -> w = new_writer.

#[local] Abbreviation fresh_read st l := (on (fun m w => waiting_client m w /\ present schema h view st l m)).

Lemma poll_gives : (forall n timeout, env_wait env n timeout <> Disconnected) ->
  triple (on waiting_client) (long_poll cfg error_text is_print env req def)
    (fun polled x => exists st l, polled = Some (st, l) /\ fresh_read st l x).
Proof.
  intros Hc. unfold long_poll. rewrite req_handle, req_offset. eapply triple_bind; [apply wait_gives|]. intros [[st l] e].
  destruct e as [e|].
  - apply (triple_pre _ (fun x => e = DeadlineExceeded /\ on waiting_client x)).
    { intros x [Hx [[? _]|[[= ->]|[_ (n & t & Ht)]]]]; [done|done|by apply Hc in Ht]. }
    apply triple_pure. intros ->. eapply triple_bind; [apply read_gives|]. intros [[st' l'] e] x (Hx & Hp & ->). by exists st', l'.
  - apply triple_ret. intros x [Hx [[_ Hp]|[?|[? _]]]]; [|done..]. by exists st, l.
Qed.

(** The response to a read of a shape that was found. *)
Definition caught_up_response (m : Manager S) (w : Writer) : Prop :=
  exists u l, present schema h view u l m /\ served u (map message_json l ++ [upToDateControl (currentGlobalLSN u)]) w.

Lemma messages_served (st : State) (l : list Message) : header_get "If-None-Match" r = "" -> sr_LiveSSE req = false ->
  triple (fresh_read st l) (_ ← serve_messages cfg is_print env r req st l; mret true)
    (fun returned => on (fun m w => returned = true /\ caught_up_response m w)).
Proof.
  intros Hr Hs. apply (triple_bind _ (fun _ => on caught_up_response)); [|intros ?; by apply triple_ret].
  eapply triple_conseq; [apply (respond_on cfg is_print env (fun m => present schema h view st l m)); done| |].
  - intros x [[_ Hw] Hp]. split; [done|by apply unwritten].
  - intros _ x [Hp Hw]. by exists st, l.
Qed.

Lemma continuation_catches_up (rounds : nat) :
  header_get "If-None-Match" r = "" -> sr_LiveSSE req = false -> (forall n timeout, env_wait env n timeout <> Disconnected) ->
  triple (on waiting_client) (serveContinuation cfg error_text is_print env rounds r req def)
    (fun returned => on (fun m w => returned = true /\ caught_up_response m w)).
Proof.
  intros Hr Hs Hc. unfold serveContinuation. rewrite req_handle, req_offset, req_hash, Hs.
  eapply triple_bind; [apply read_gives|]. intros [[st l] e].
  apply (triple_pre _ (fun x => (e = None /\ st_Hash st = hash) /\ fresh_read st l x)).
  { intros x (Hx & Hp & ->). split; [split; [done|]|by split]. destruct Hx as [[_ Hh] _]. apply Hh, Hp. }
  apply triple_pure. intros [-> Hh]. rewrite bool_decide_true by done. cbn [negb].
  destruct (bool_decide (l = []) && sr_Live req); [|by apply messages_served].
  apply (triple_pre _ (on waiting_client)); [by intros x [Hx _]|]. eapply triple_bind; [by apply poll_gives|].
  intros polled x (st' & l' & -> & Hx). by apply messages_served.
Qed.
End request.
End poll.

(** ** Initial reads *)

Section first.
Context {S : Type} {store_ops : Store S} {B : Type} {backend : Backend B}.
Variable cfg : Config.
Variable error_text : runtimeError -> string.
Variable json_error : string -> string.
Variable is_print : N -> bool.
Variable env : Env S B.
Variable r : Request.
Variable req : ShapeRequest.
Variable def : Definition_.
Variable I : Manager S -> Prop.
Hypothesis others_keep : forall n m, I m -> I (env_others env n m).
Hypothesis upsert_ready : forall m, I m -> well_formed m /\ forall n, handle_unused def (env_now env n) m.

(** The response that puts a client in step: the body holds the snapshot the
    backend took, and the headers say where the client is. *)
Definition first_response (m : Manager S) (w : Writer) : Prop :=
  exists st n snapshot, backend_Snapshot (env_backend env n) (Snapshot.mkRequest def SnapshotModeData true) = Ok snapshot /\
    st_Hash st = definition_hash def /\ st_Materialized st = materializedRows (snap_Schema snapshot) (snap_Rows snapshot) /\
    caught_up (snap_Schema snapshot) (st_Handle st) st (replay (def_Replica def) ∅ (st_Snapshot st)) m /\
    served st (map message_json (st_Snapshot st) ++ [snapshotEndControl (snap_Metadata snapshot)]) w.

Lemma upsert_in_step (snapshot : SnapshotResult) (now : Z) (m m' : Manager S) (st : State) :
  def_Log def <> "changes_only" -> well_formed m -> handle_unused def now m -> UpsertSnapshotAtOffset def snapshot InitialOffset now m = (m', Ok st) ->
  caught_up (snap_Schema snapshot) (st_Handle st) st (replay (def_Replica def) ∅ (st_Snapshot st)) m'.
Proof.
  intros Hlog Hwf Hu E. destruct (upsert_refines def snapshot InitialOffset now m m' st Hwf Hu E) as (_ & _ & Hcur & Hch & Hmat & _).
  destruct (upsert_installs def snapshot InitialOffset now m m' st Hwf Hu E) as (_ & Hl & _ & Hs).
  assert (Hv : replay (def_Replica def) ∅ (st_Snapshot st) = st_Materialized st) by (by rewrite Hs, replay_snapshot, Hmat).
  split_and!; [done| |by rewrite Hv]. exists st, st, []. rewrite Hv. split_and!; [done|apply extends_refl| |done|by rewrite Hcur|done].
  unfold log_ordered. rewrite Hch. split; constructor.
Qed.

Lemma initial_in_step : def_Log def <> "changes_only" -> header_get "If-None-Match" r = "" -> sr_LiveSSE req = false ->
  triple (on (fun m w => I m /\ w = new_writer)) (serveInitialSnapshot cfg error_text is_print env r req def)
    (fun _ => on (fun m w => status_of w = Some 200 -> first_response m w)).
Proof.
  intros Hlog Hr Hs. unfold serveInitialSnapshot.
  assert (Hfail : forall status body, status <> 200 -> triple (on (fun m w => w = new_writer)) (write (WriteError status body))
    (fun _ => on (fun (m : Manager S) w => status_of w = Some 200 -> first_response m w))).
  { intros status body Hn. apply write_on. intros m w ->. rewrite sent_error by done. by intros [= ->]. }
  apply (triple_bind _ (fun snap => on (fun m w => (I m /\ w = new_writer) /\
    exists n, snap = backend_Snapshot (env_backend env n) (Snapshot.mkRequest def SnapshotModeData true)))).
  { intros x Hx. split; [exact Hx|]. by eexists. }
  intros snap. apply pure_on. intros [n Hn]. destruct snap as [e|snapshot].
  { apply (triple_pre _ (on (fun m w => w = new_writer))); [by intros x [_ Hx]|]. unfold writeSnapshotError.
    destruct e; by apply Hfail. }
  apply (triple_bind _ (fun up => on (fun m w => w = new_writer /\ forall st, up = Ok st ->
    st_Hash st = definition_hash def /\ st_Materialized st = materializedRows (snap_Schema snapshot) (snap_Rows snapshot) /\
    caught_up (snap_Schema snapshot) (st_Handle st) st (replay (def_Replica def) ∅ (st_Snapshot st)) m))).
  { apply call_on; [intros k m w [HI Hw]; split; [by apply others_keep|done]|]. intros k m w [HI Hw].
    split; [done|]. intros st E. destruct (upsert_ready m HI) as [Hwf Hu]. destruct (UpsertSnapshotAtOffset _ _ _ _ m) as [m' res] eqn:Eu.
    cbn [fst snd] in *. subst res. destruct (upsert_refines def snapshot InitialOffset _ m m' st Hwf (Hu k) Eu) as (Hh & _ & _ & _ & Hmat & _).
    split_and!; [done|done|]. by eapply upsert_in_step. }
  intros [e|st]; [apply (triple_pre _ (on (fun m w => w = new_writer))); [by intros x [Hx _]|by apply Hfail]|].
  eapply triple_conseq; [apply (respond_on cfg is_print env (fun m => st_Hash st = definition_hash def /\
    st_Materialized st = materializedRows (snap_Schema snapshot) (snap_Rows snapshot) /\
    caught_up (snap_Schema snapshot) (st_Handle st) st (replay (def_Replica def) ∅ (st_Snapshot st)) m)); done| |].
  - intros x [Hw Hst]. split; [by apply Hst|done].
  - intros _ x ((H1 & H2 & H3) & Hw) _. exists st, n, snapshot. by split_and!.
Qed.
End first.

(** * Properties *)


Definition demo_none : Manager MemoryStore := mkManager NewMemoryStore ∅ ∅ ∅ 0 ∅ ∅.

Definition parsed_request (r : Request) : ShapeRequest :=
  match ParseShapeRequest (fun _ => "error") (fun _ => true) r with
  | Ok req => req
  | Err _ => mkShapeRequest "" "" zero_relation "" "" "" "" false false false "" ∅ "" [] "" "" "" None ∅ "" ""
  end.

Definition first_request : Request := table_request "GET" "s3cret" [("offset", "-1")].

Ltac accepted :=
  split; [right; right; left; vm_compute; reflexivity|discriminate|vm_compute; reflexivity..].

Lemma first_request_accepted : accepts secured_config (fun _ => "error") (fun _ => true) first_request (parsed_request first_request).
Proof. accepted. Qed.

Lemma new_service_room (m : Manager MemoryStore) (metrics : bool) : has_room (NewService secured_config m metrics).
Proof. by intros []. Qed.



Definition first_manager : Manager MemoryStore := ex_manager (run "a" first_request demo_none).2.
Definition first_handle : string := "fa19db76c4-1700000000000000".
Definition first_state : State := default zero_state (LookupByHandle first_handle first_manager).

(** The name in the table changes. *)
Definition renamed : SnapshotResult := mkSnapshot (st_Schema first_state) [<["id" := Some "1"]> {["name" := Some "b"]}] None.
Definition second_manager : Manager MemoryStore := (RefreshWithMetadata first_handle renamed zero_change_metadata 1700000000000000009 first_manager).1.

Lemma same_columns_check (previous current : gmap string Row) :
  map_Forall (fun k r1 => current !! k = None \/ dom r1 = dom (default ∅ (current !! k))) previous -> same_columns previous current.
Proof. intros Hc k r1 r2 H1 H2. destruct (Hc k r1 H1) as [?|Hd]; [congruence|]. by rewrite H2 in Hd. Qed.

Lemma first_state_live : live_at first_handle first_state first_manager.
Proof. split; vm_compute; reflexivity. Qed.

Lemma first_in_step : in_step (st_Schema first_state) first_handle "0_0" (st_Materialized first_state) first_manager.
Proof.
  exists first_state, first_state, []. split; [exact first_state_live|]. split; [apply extends_refl|]. split.
  { replace (st_Changes first_state) with (@nil Message) by (vm_compute; reflexivity). unfold log_ordered.
    replace (st_Changes first_state) with (@nil Message) by (vm_compute; reflexivity). split; constructor. }
  split; [vm_compute; reflexivity|]. split; [reflexivity|done].
Qed.

Lemma second_refresh : refresh_step (st_Schema first_state) first_handle first_manager second_manager.
Proof.
  destruct (RefreshWithMetadata first_handle renamed zero_change_metadata 1700000000000000009 first_manager) as [m' [e|[u l]]] eqn:E.
  { apply (f_equal snd) in E. vm_compute in E. discriminate E. }
  assert (Hm : second_manager = m') by exact (f_equal fst E). rewrite Hm.
  apply (refresh_full _ first_handle first_manager m' renamed zero_change_metadata 1700000000000000009 first_state u l); [exact first_state_live| |exact E].
  split; [reflexivity|]. split; [|vm_compute; reflexivity]. apply same_columns_check. apply (bool_decide_unpack _). vm_compute. exact Logic.I.
Qed.

Definition second_request : Request := table_request "GET" "s3cret" [("offset", "0_0"); ("handle", first_handle)].

Lemma second_request_accepted : accepts secured_config (fun _ => "error") (fun _ => true) second_request (parsed_request second_request).
Proof. accepted. Qed.

