(* ===== verification/Stream.v ===== *)
(** Streams: [serveLiveSSE] of [src/internal/protocol/service.go].

    A stream stays open and sends, round after round, what its waits bring.  Its
    text is a sequence of events; the messages of these events, in order, are
    the part of the shape's log the client misses, with no gap and nothing
    twice. *)

From Stdlib Require Import Ascii String ZArith NArith Lia.
From S2P Require Import Prelude GoValue JsonText GoFormat Config Offset ShapeTypes Diff Storage Persist Manager ShapeLog Waiting Effects.
From S2P Require Import Admission Request Response ChangeBatch RelationCache Snapshot Service Answers Client.

#[local] Set Warnings "-clear-no-such-hyp".

(** * Definitions *)

(** What one round of a stream sends. *)
Inductive event : Type :=
| KeepAlive
| UpToDate (lsn : string)
| Batch (messages : list Message) (lsn : string).

Definition event_text (e : event) : string :=
  match e with
  | KeepAlive => keepalive
  | UpToDate lsn => SSEPayload (controlBody "up-to-date" lsn)
  | Batch messages lsn => SSEPayload (messagesToBody messages lsn)
  end.

Definition event_messages (e : event) : list Message := match e with Batch messages _ => messages | _ => [] end.

Definition stream_text (events : list event) : string := fold_right (fun e rest => event_text e +:+ rest) "" events.

Definition stream_messages (events : list event) : list Message := flat_map event_messages events.

(** * Lemmas *)

Lemma stream_text_app (l1 l2 : list event) : stream_text (l1 ++ l2) = stream_text l1 +:+ stream_text l2.
Proof. induction l1 as [|e l1 IH]; [done|]. cbn [stream_text fold_right app]. rewrite app_assoc_str. f_equal. exact IH. Qed.

Lemma write_text_body (text : string) (w : Writer) : w_Body (write_text text w) = w_Body w +:+ text.
Proof. by destruct w as [headers [first|] body]. Qed.

Lemma write_header_body (n : Z) (w : Writer) : w_Body (write_header n w) = w_Body w.
Proof. by destruct w as [headers [first|] body]. Qed.

Section stream.
Context {S : Type} {store_ops : Store S} {B : Type} {backend : Backend B}.
Variable cfg : Config.
Variable error_text : runtimeError -> string.
Variable json_error : string -> string.
Variable is_print : N -> bool.
Variable env : Env S B.
Variable schema : Schema.
Variables h hash replica : string.
Hypothesis others_refresh : forall n m, rtc (refresh_step schema h) m (env_others env n m).

(** The connection ends. *)
Definition ends : Prop := (exists n, env_ctx_done env n = true) \/ exists n timeout, env_wait env n timeout = Disconnected.

(** The stream has sent [events] to a client that had [view] when it began. *)
Definition streamed (view : gmap string Row) (returned : bool) (m : Manager S) (w : Writer) : Prop :=
  exists events o, w_Body w = stream_text events /\ status_of w = Some 200 /\
    follows schema h o hash replica (replay replica view (stream_messages events)) m /\ (returned = true -> ends).

#[local] Abbreviation streaming o view events :=
  (on (waiting_client schema h o hash replica view (fun w => status_of w = Some 200 /\ w_Body w = stream_text events))).

(** One event more. *)
Lemma send_event (o : string) (view : gmap string Row) (events : list event) (e : event) {A} (k : Handler S A) (Q : A -> Exchange S -> Prop) :
  triple (streaming o view (events ++ [e])) k Q ->
  triple (streaming o view events) (_ ← write (write_text (event_text e)); _ ← flush; k) Q.
Proof.
  intros Hk. apply (triple_bind _ (fun _ => streaming o view (events ++ [e]))).
  - apply write_on. intros m w [Hf [Hs Hb]]. split; [done|]. split; [by apply status_text|].
    rewrite write_text_body, Hb, stream_text_app. cbn [stream_text fold_right]. by rewrite app_nil_r_str.
  - intros ?. apply (triple_bind _ (fun _ => streaming o view (events ++ [e]))); [|by intros ?].
    apply write_on. intros m w [Hf [Hs Hb]]. split; [done|]. split; [by apply status_header|]. by rewrite write_header_body.
Qed.

Lemma stream_messages_one (view : gmap string Row) (events : list event) (e : event) :
  replay replica view (stream_messages (events ++ [e])) = replay replica (replay replica view (stream_messages events)) (event_messages e).
Proof. unfold stream_messages. by rewrite flat_map_app, replay_app; cbn [flat_map]; rewrite app_nil_r. Qed.

Lemma follows_present (o : string) (view : gmap string Row) (st : State) (l : list Message) (m : Manager S) :
  follows schema h o hash replica view m -> present schema h view st l m -> follows schema h (st_CurrentOffset st) hash replica (replay replica view l) m.
Proof.
  intros [_ Hh] (Hl & Hi & _). split; [|done]. destruct (Hh st Hl) as [_ <-]. exact Hi.
Qed.

Lemma rounds_stream (rounds : nat) (view : gmap string Row) : forall (o : string) (events : list event),
  triple (streaming o (replay replica view (stream_messages events)) events) (sse_rounds cfg env rounds h o) (fun returned => on (streamed view returned)).
Proof.
  assert (Hstop : forall o events (returned : bool), (returned = true -> ends) ->
    triple (streaming o (replay replica view (stream_messages events)) events) (mret returned) (fun returned => on (streamed view returned))).
  { intros o events returned He. apply triple_ret. intros x [Hf [Hs Hb]]. by exists events, o. }
  induction rounds as [|rounds IH]; intros o events; cbn [sse_rounds]; [by apply Hstop|].
  eapply triple_bind; [by apply wait_gives|]. intros [[st l] e].
  destruct e as [e|].
  - apply (triple_pre _ (fun x => (e = DeadlineExceeded \/ (e = Canceled /\ ends)) /\ streaming o (replay replica view (stream_messages events)) events x)).
    { intros x [Hx [[? _]|[[= ->]|[[= ->] Hd]]]]; [done|split; [by left|done]|]. split; [right; split; [done|by right]|done]. }
    apply triple_pure. intros [->|[-> He]]; [|by apply Hstop].
    eapply triple_bind; [apply tick_on|]. intros n. destruct (env_ctx_done env n) eqn:Ed; [apply Hstop; intros _; left; by exists n|].
    apply (send_event o _ events KeepAlive). apply (triple_pre _ (streaming o (replay replica view (stream_messages (events ++ [KeepAlive]))) (events ++ [KeepAlive]))); [|apply IH].
    intros x Hx. by rewrite stream_messages_one.
  - destruct l as [|msg l].
    + apply (triple_pre _ (streaming o (replay replica view (stream_messages (events ++ [UpToDate (currentGlobalLSN st)]))) events)).
      { intros x [Hx _]. by rewrite stream_messages_one. }
      apply (send_event o _ events (UpToDate (currentGlobalLSN st))). apply IH.
    + set (l' := msg :: l).
      apply (triple_pre _ (streaming (st_CurrentOffset st) (replay replica view (stream_messages (events ++ [Batch l' (currentGlobalLSN st)]))) events)).
      { intros x [[Hf Hw] [[_ Hp]|[?|[? _]]]]; [|done..]. rewrite stream_messages_one. split; [by eapply follows_present|done]. }
      apply (send_event _ _ events (Batch l' (currentGlobalLSN st))). apply IH.
Qed.


Lemma live_stream (rounds : nat) (r : Request) (req : ShapeRequest) (o : string) (view : gmap string Row) (st : State) (l : list Message) :
  sr_Handle req = h -> sr_Offset req = o -> header_get "If-None-Match" r = "" -> env_flusher env = true ->
  triple (on (fun m w => waiting_client schema h o hash replica view (fun w => w = new_writer) m w /\ present schema h view st l m))
    (serveLiveSSE cfg is_print env rounds r req st l) (fun returned => on (streamed view returned)).
Proof.
  intros Hh Ho Hr Hf. unfold serveLiveSSE. rewrite Hh, Ho, Hf. cbn [negb].
  apply (triple_pre _ (on (fun m w => (follows schema h o hash replica view m /\ present schema h view st l m) /\ w = new_writer)));
    [by intros x [[? ?] ?]|].
  eapply triple_bind; [by apply headers_on|]. intros answered. apply pure_on. intros ->.
  apply (triple_bind _ (fun _ => on (fun m w => (follows schema h o hash replica view m /\ present schema h view st l m) /\ status_of w = Some 200 /\ w_Body w = ""))).
  { apply write_on. intros m w [Hp [c ->]]. split; [done|]. unfold stream_headers.
    rewrite write_header_body. split; [apply sent_headers; cbn [set_header w_Sent]; by rewrite unsent_success|].
    cbn [set_header w_Body]. unfold WriteSuccessHeaders, WriteSchemaHeader. by repeat (case_match || case_decide). }
  intros ?. destruct l as [|msg l].
  - apply (triple_bind _ (fun _ => streaming o (replay replica view (stream_messages [])) [])); [|intros ?; by apply rounds_stream].
    apply write_on. intros m w [[Hp _] [Hs Hb]]. split; [done|]. rewrite write_header_body. split; [by apply status_header|done].
  - set (l' := msg :: l). change (@writeSSEEvents S (messagesToBody l' (currentGlobalLSN st))) with (@write S (write_text (event_text (Batch l' (currentGlobalLSN st))))).
    apply (triple_pre _ (streaming (st_CurrentOffset st) (replay replica view (stream_messages ([] ++ [Batch l' (currentGlobalLSN st)]))) [])).
    { intros x [[Hp Hx] [Hs Hb]]. rewrite stream_messages_one. split; [by eapply follows_present|done]. }
    apply send_event. by apply rounds_stream.
Qed.
End stream.

(** * Properties *)


Definition stream_request : Request :=
  table_request "GET" "s3cret" [("offset", "0_0"); ("handle", first_handle); ("live", "true"); ("live_sse", "true")].

Lemma stream_request_accepted : accepts secured_config (fun _ => "error") (fun _ => true) stream_request (parsed_request stream_request).
Proof. accepted. Qed.


(** ** Behaviours at the edge of these theorems *)

(** A request with a handle the server does not know empties the live shape of
    the same table: the rows are gone, the answer hands out the handle of the
    emptied shape, and a client that was further on is told its request is
    invalid. *)
Definition stale_request : Request := table_request "GET" "s3cret" [("offset", "0_0"); ("handle", "stale")].
Definition stale_manager : Manager MemoryStore := ex_manager (run "a" stale_request second_manager).2.
Definition later_request : Request := table_request "GET" "s3cret" [("offset", "0_1"); ("handle", first_handle)].

Example stale_handle_empties_shape :
  let answer := ex_writer (run "a" stale_request second_manager).2 in
  (status_of answer, sent_header "electric-handle" answer) = (Some 409, Some first_handle) /\
  (size <$> (st_Materialized <$> LookupByHandle first_handle second_manager)) = Some 1%nat /\
  (size <$> (st_Materialized <$> LookupByHandle first_handle stale_manager)) = Some 0%nat /\
  status_of (ex_writer (run "a" later_request second_manager).2) = Some 200 /\
  status_of (ex_writer (run "a" later_request stale_manager).2) = Some 400.
Proof. vm_compute. split_and!; reflexivity. Qed.

(** A long poll that times out just as its shape is deleted is answered 503,
    where a read of a deleted shape is answered 409. *)
Definition deleting_env : Env MemoryStore Database :=
  mkEnv (fun n m => if (7 <=? n)%nat then (Delete first_handle 1 m).1 else m) (fun _ => demo_table "a") (fun n => 1700000000000000000 + Z.of_nat n)
    (fun n => mkClock 36000000 (Z.of_nat n)) (fun n => n) (fun _ _ => Expired) (fun _ => false) true.
Definition poll_request (live : string) : Request :=
  table_request "GET" "s3cret" [("offset", "0_0"); ("handle", first_handle); ("live", live)].

Example deleted_during_poll :
  status_of (ex_writer (HandleShape secured_config (fun _ => "error") (fun _ => "error") (fun _ => true) deleting_env 3 (poll_request "true")
    (NewService secured_config first_manager true)).2) = Some 503 /\
  status_of (ex_writer (run "a" (poll_request "false") (Delete first_handle 1 first_manager).1).2) = Some 409.
Proof. vm_compute. split; reflexivity. Qed.

(** Subset requests need no place: with every place taken they are still
    served. *)
Definition subset_request : Request := table_request "GET" "s3cret" [("offset", "-1"); ("subset__limit", "1"); ("subset__order_by", "id")].

Definition crowded (r : Request) : Exchange MemoryStore :=
  (HandleShape secured_config (fun _ => "error") (fun _ => "error") (fun _ => true) (alone_env "a") 3 r
    (mkExchange first_manager (Some (mkController (mkChannel 1 1) (mkChannel 1 1))) new_writer (Some []) 0)).2.

Example subset_needs_no_place :
  (status_of (ex_writer (crowded first_request)), status_of (ex_writer (crowded subset_request)), ex_metrics (crowded subset_request)) =
  (Some 503, Some 200, Some []).
Proof. vm_compute. reflexivity. Qed.
