(* ===== verification/Replication.v ===== *)
(** Applying the replication stream to the shapes: [src/internal/pg/replication.go],
    and the parts of [src/internal/pg/relation_cache.go] that change shapes.

    The runtime is a state; its methods are computations that change it and
    return a result or an error, in a small monad.  What the code reads from
    outside at a step (the clock, the server, the outcome of a status update)
    comes from an environment, indexed by the number of steps taken, so that
    nothing is assumed to stay the same between two steps. *)

From Stdlib Require Import Ascii String ZArith NArith Lia.
From stdpp Require Import relations.
From S2P Require Import Prelude GoValue ShapeTypes Diff Storage Persist Manager ShapeLog Effects ChangeBatch DependencyScan RelationCache Snapshot.

#[local] Set Warnings "-clear-no-such-hyp".

(** * Definitions *)

(** The answer of IDENTIFY_SYSTEM. *)
Record systemIdentity : Type := mkSystem { sys_SystemID : string; sys_Timeline : Z; sys_XLogPos : Z }.

(** The configuration the runtime reads: the stream's id and the name of the
    database in its URL. *)
Record runtimeConfig : Type := mkRuntimeConfig { rcfg_StreamID : string; rcfg_DatabaseName : string }.

(** What the runtime finds outside at one step: readings of the clock, the
    server, the error of the status updates sent during the step. *)
Record World : Type := mkWorld { w_clock : nat -> Z; w_db : Database; w_standby : option string }.

(** The messages of the logical replication protocol.  A [true] key flag says
    that the old tuple is a key tuple. *)
Inductive logicalMessage : Type :=
| RelationMessage (relationID : Z) (relation : Relation)
| BeginMessage (xid : Z)
| InsertMessage (relationID : Z) (tuple : option (list TupleColumn))
| UpdateMessage (relationID : Z) (key : bool) (oldTuple newTuple : option (list TupleColumn))
| DeleteMessage (relationID : Z) (key : bool) (oldTuple : option (list TupleColumn))
| TruncateMessage (relationIDs : list Z)
| CommitMessage (commitLSN transactionEndLSN : Z)
| OtherMessage.

(** ** Names of slots and publications *)

(** The letter or digit the lower-case form of the first rune of a text is,
    underscore otherwise, and the number of bytes of the rune.  Two runes
    outside ASCII have an ASCII lower-case form. *)
Definition compact_rune (s : string) : ascii * nat :=
  let width := default 1%nat (utf8_width s) in
  match s with
  | EmptyString => (byte_of 95, 1%nat)
  | String a _ =>
      if has_prefix (bytes [226; 132; 170]%N) s then (byte_of 107, width)
      else if has_prefix (bytes [196; 176]%N) s then (byte_of 105, width)
      else
        let c := lower_byte a in
        (if is_lower c || is_digit c then c else byte_of 95, width)
  end.

(** The loop over the runes; [skip] counts the bytes left of the current one. *)
Fixpoint compact_from (skip : nat) (s : string) : string :=
  match s with
  | EmptyString => ""
  | String _ s' =>
      match skip with
      | S k => compact_from k s'
      | O => let '(c, width) := compact_rune s in String c (compact_from (pred width) s')
      end
  end.

Fixpoint trim_underscores (s : string) : string :=
  match s with
  | String a s' => if decide (a = byte_of 95) then trim_underscores s' else s
  | EmptyString => ""
  end.

Definition compactIdentifier (value : string) (maxLen : nat) : string :=
  let compact := String.rev (trim_underscores (String.rev (trim_underscores (compact_from 0 value)))) in
  let compact := if decide (compact = "") then "postgres_sync_go" else compact in
  take_bytes maxLen compact.

(** strings.Contains. *)
Fixpoint has_infix (p s : string) : bool :=
  has_prefix p s || match s with String _ s' => has_infix p s' | EmptyString => false end.

Definition publicationName (cfg : runtimeConfig) : string :=
  compactIdentifier ("postgres_sync_go_" +:+ rcfg_StreamID cfg +:+ "_pub") 63.

(** The lower-case hexadecimal digits of a positive number. *)
Fixpoint hex_fuel (fuel : nat) (n : N) (acc : string) : string :=
  match fuel with
  | O => acc
  | S f => let acc := String (hex_digit (n mod 16)) acc in if (n <? 16)%N then acc else hex_fuel f (n / 16) acc
  end.
Definition format_hex (z : Z) : string := hex_fuel 16 (Z.to_N z) "".

Definition replicationSlotName (cfg : runtimeConfig) (kind : string) (now : Z) : string :=
  let name := "postgres_sync_go_" +:+ rcfg_StreamID cfg +:+ "_slot" in
  if decide (kind = "disk") then compactIdentifier name 63
  else compactIdentifier (compactIdentifier name 48 +:+ "_" +:+ format_hex now) 63.

Definition checkpointCompatible (checkpoint : RuntimeCheckpoint) (slotName : string) (sysident : systemIdentity) (dbName : string) : bool :=
  bool_decide (cp_SlotName checkpoint = slotName) && bool_decide (cp_SystemID checkpoint = sys_SystemID sysident) &&
  (cp_Timeline checkpoint =? sys_Timeline sysident) && bool_decide (cp_DBName checkpoint = dbName) &&
  negb (is_blank (cp_LastConfirmedLSN checkpoint)).

Section runtime.
Context {S : Type} {store_ops : Store S}.

(** ** The state and its computations *)

(** The store is the shape manager's: the engine gives both the same one. *)
Record Runtime : Type := mkRuntime {
  rt_shapes : Manager S;
  rt_step : nat;
  rt_relationCache : gmap Z relationMetadata;
  rt_replicationSlot : string;
  rt_systemIdentity : systemIdentity;
  rt_connected : bool;
  rt_lastConfirmedLSN : Z;
  rt_lastReceivedLSN : Z;
  rt_serverWALEnd : Z;
  rt_changeBatches : Z;
  rt_changeRecords : Z;
  rt_invalidations : gmap string Z;
  rt_replicationErrors : Z;
  rt_reconnects : Z
}.

Definition set_shapes (m : Manager S) (r : Runtime) : Runtime :=
  mkRuntime m (rt_step r) (rt_relationCache r) (rt_replicationSlot r) (rt_systemIdentity r) (rt_connected r)
    (rt_lastConfirmedLSN r) (rt_lastReceivedLSN r) (rt_serverWALEnd r) (rt_changeBatches r) (rt_changeRecords r)
    (rt_invalidations r) (rt_replicationErrors r) (rt_reconnects r).
Definition next_step (r : Runtime) : Runtime :=
  mkRuntime (rt_shapes r) (Datatypes.S (rt_step r)) (rt_relationCache r) (rt_replicationSlot r) (rt_systemIdentity r) (rt_connected r)
    (rt_lastConfirmedLSN r) (rt_lastReceivedLSN r) (rt_serverWALEnd r) (rt_changeBatches r) (rt_changeRecords r)
    (rt_invalidations r) (rt_replicationErrors r) (rt_reconnects r).
Definition set_cache (c : gmap Z relationMetadata) (r : Runtime) : Runtime :=
  mkRuntime (rt_shapes r) (rt_step r) c (rt_replicationSlot r) (rt_systemIdentity r) (rt_connected r)
    (rt_lastConfirmedLSN r) (rt_lastReceivedLSN r) (rt_serverWALEnd r) (rt_changeBatches r) (rt_changeRecords r)
    (rt_invalidations r) (rt_replicationErrors r) (rt_reconnects r).
Definition set_positions (confirmed received serverEnd : Z) (r : Runtime) : Runtime :=
  mkRuntime (rt_shapes r) (rt_step r) (rt_relationCache r) (rt_replicationSlot r) (rt_systemIdentity r) (rt_connected r)
    confirmed received serverEnd (rt_changeBatches r) (rt_changeRecords r)
    (rt_invalidations r) (rt_replicationErrors r) (rt_reconnects r).
Definition set_counters (batches records : Z) (invalidations : gmap string Z) (r : Runtime) : Runtime :=
  mkRuntime (rt_shapes r) (rt_step r) (rt_relationCache r) (rt_replicationSlot r) (rt_systemIdentity r) (rt_connected r)
    (rt_lastConfirmedLSN r) (rt_lastReceivedLSN r) (rt_serverWALEnd r) batches records
    invalidations (rt_replicationErrors r) (rt_reconnects r).
Definition set_connection (slot : string) (sysident : systemIdentity) (connected : bool) (c : gmap Z relationMetadata)
    (errors reconnects : Z) (r : Runtime) : Runtime :=
  mkRuntime (rt_shapes r) (rt_step r) c slot sysident connected
    (rt_lastConfirmedLSN r) (rt_lastReceivedLSN r) (rt_serverWALEnd r) (rt_changeBatches r) (rt_changeRecords r)
    (rt_invalidations r) errors reconnects.

Definition Run (A : Type) : Type := Runtime -> Runtime * result runtimeError A.

#[export] Instance run_ret : MRet Run := fun A a r => (r, Ok a).
#[export] Instance run_bind : MBind Run := fun A B f x r =>
  match x r with (r', Ok a) => f a r' | (r', Err e) => (r', Err e) end.

Definition fail {A} (e : runtimeError) : Run A := fun r => (r, Err e).
Definition modify (f : Runtime -> Runtime) : Run unit := fun r => (f r, Ok tt).
Definition reads {A} (f : Runtime -> A) : Run A := fun r => (r, Ok (f r)).
Definition lift {A} (x : result runtimeError A) : Run A := fun r => (r, x).

(** A loop with a value that goes through it. *)
Fixpoint loop {A B} (f : A -> B -> Run B) (l : list A) (b : B) : Run B :=
  match l with [] => mret b | x :: rest => f x b ≫= loop f rest end.

Definition each {A} (f : A -> Run unit) (l : list A) : Run unit := loop (fun x _ => f x) l tt.

(** A call of the shape manager.  Not found and deleted are its only errors
    that are not the store's here. *)
Definition shapes_error (e : ManagerError) : runtimeError :=
  match e with
  | ErrStore message => ErrShapes message
  | _ => ErrShapes "shape"
  end.

Definition call {A} (f : Manager S -> Manager S * result ManagerError A) : Run A := fun r =>
  let '(m, res) := f (rt_shapes r) in
  (set_shapes m r, match res with Ok a => Ok a | Err e => Err (shapes_error e) end).

(** The same where the code ignores ErrShapeNotFound and ErrShapeDeleted. *)
Definition call_ignoring {A} (zero : A) (f : Manager S -> Manager S * result ManagerError A) : Run A := fun r =>
  let '(m, res) := f (rt_shapes r) in
  (set_shapes m r,
   match res with
   | Ok a => Ok a
   | Err ErrShapeNotFound | Err ErrShapeDeleted => Ok zero
   | Err e => Err (shapes_error e)
   end).

(** The environment of the next step. *)
Variable env : nat -> World.
Definition world : Run World := fun r => (next_step r, Ok (env (rt_step r))).

(** ** Positions and counters *)

Definition recordConfirmedLSN (lsn : Z) : Run unit := modify (fun r =>
  if rt_lastConfirmedLSN r <? lsn then set_positions lsn (rt_lastReceivedLSN r) (rt_serverWALEnd r) r else r).

Definition lastSafeConfirmedLSN : Run Z := reads rt_lastConfirmedLSN.

Definition recordReceivedLSN (received serverEnd : Z) : Run unit := modify (fun r =>
  set_positions (rt_lastConfirmedLSN r)
    (if rt_lastReceivedLSN r <? received then received else rt_lastReceivedLSN r)
    (if rt_serverWALEnd r <? serverEnd then serverEnd else rt_serverWALEnd r) r).

Definition recordServerWALEnd (lsn : Z) : Run unit := modify (fun r =>
  if rt_serverWALEnd r <? lsn then set_positions (rt_lastConfirmedLSN r) (rt_lastReceivedLSN r) lsn r else r).

Definition recordChangeBatch (records : nat) : Run unit := modify (fun r =>
  set_counters (wrapu64 (rt_changeBatches r + 1))
    (if (0 <? records)%nat then wrapu64 (rt_changeRecords r + Z.of_nat records) else rt_changeRecords r) (rt_invalidations r) r).

Definition recordInvalidation (reason : string) (count : nat) : Run unit := modify (fun r =>
  if (count =? 0)%nat then r
  else set_counters (rt_changeBatches r) (rt_changeRecords r)
    (<[reason := wrapu64 (default 0 (rt_invalidations r !! reason) + Z.of_nat count)]> (rt_invalidations r)) r).

(** ** Candidate shapes and schema changes *)

Fixpoint dedupe_handles (l : list State) (seen : gset string) : list State :=
  match l with
  | [] => []
  | st :: rest =>
      if decide (st_Handle st ∈ seen) then dedupe_handles rest seen
      else st :: dedupe_handles rest ({[st_Handle st]} ∪ seen)
  end.

Definition candidateShapes (metadata : relationMetadata) (m : Manager S) : list State :=
  let states := ActiveByRelation (md_Relation metadata) m ++
    (if decide (md_RootRelation metadata = md_Relation metadata) then [] else ActiveByRelation (md_RootRelation metadata) m) in
  dedupe_handles (sort_states states) ∅.

Definition deleteShape (h : string) : Run bool :=
  w ← world; call_ignoring false (Delete h (w_clock w 0%nat)).

(** The body of the loop; the number of shapes invalidated goes through it. *)
Definition schema_change_shape (metadata : relationMetadata) (st : State) (invalidated : nat) : Run nat :=
  let currentSchema := schemaForColumns (projectedColumns (md_Columns metadata) (def_Columns (st_Definition st))) in
  if shapeSchemasEqual (st_Schema st) currentSchema then mret invalidated
  else
    deleted ← deleteShape (st_Handle st);
    mret (if (deleted : bool) then Datatypes.S invalidated else invalidated).

Definition invalidateShapesForSchemaChange (metadata : relationMetadata) : Run unit :=
  states ← reads (fun r => candidateShapes metadata (rt_shapes r));
  invalidated ← loop (schema_change_shape metadata) states 0%nat;
  recordInvalidation "schema_change" invalidated.

Definition cacheRelationMetadata (relationID : Z) (relation : Relation) : Run relationMetadata :=
  w ← world;
  match db_connect (w_db w) with
  | Some e => fail (ErrConnection e)
  | None =>
      columns ← lift (describeRelation (w_db w) relation);
      rootRelation ← lift (lookupPartitionRoot (w_db w) relation);
      let metadata := mkRelationMetadata relation rootRelation columns (primaryKeyColumns columns) in
      modify (fun r => set_cache (<[relationID := metadata]> (rt_relationCache r)) r) ≫= fun _ =>
      invalidateShapesForSchemaChange metadata ≫= fun _ =>
      mret metadata
  end.

(** ** Dependent shapes *)

(** A definition whose shape a change of the relation concerns, and that is
    not refreshed row by row.  The scan always has a result. *)
Definition depends_on (metadata : relationMetadata) (def : Definition_) : bool :=
  negb (definitionSupportsTargetedRefresh def) &&
  default true (definitionRequiresInvalidationForRelation def (md_Relation metadata) (md_RootRelation metadata)).

Definition invalidateDependentShapesForRelation (metadata : relationMetadata) : Run unit :=
  states ← reads (fun r => ActiveStates (rt_shapes r));
  each (fun st =>
    if depends_on metadata (st_Definition st) then
      deleteShape (st_Handle st) ≫= fun _ => recordInvalidation "truncate_dependency" 1
    else mret tt) states.

(** The handles refreshed so far are in [refreshed]. *)
Definition refresh_dependent (metadata : relationMetadata) (batch : ChangeBatch) (st : State) (refreshed : gset string) : Run (gset string) :=
  let refreshed' := {[st_Handle st]} ∪ refreshed in
  if negb (depends_on metadata (st_Definition st)) then mret refreshed
  else if decide (st_Handle st ∈ refreshed) then mret refreshed
  else if negb (default false (definitionSupportsDependentRefresh (st_Definition st))) then
    deleteShape (st_Handle st) ≫= fun _ =>
    recordInvalidation "unsupported_dependency" 1 ≫= fun _ => mret refreshed'
  else
    w ← world;
    match Snapshot (w_db w) (mkRequest (st_Definition st) SnapshotModeData false) with
    | Err e =>
        if errMissing e then
          deleteShape (st_Handle st) ≫= fun _ =>
          recordInvalidation "relation_missing" 1 ≫= fun _ => mret refreshed'
        else fail e
    | Ok snapshot =>
        call_ignoring (zero_state, []) (RefreshWithMetadata (st_Handle st) snapshot
          (mkChangeMetadata (md_Relation metadata) (bat_CommitLSN batch) (bat_XID batch) true) (w_clock w 0%nat)) ≫= fun _ =>
        mret refreshed'
    end.

Definition refreshDependentShapesForRelation (metadata : relationMetadata) (batch : ChangeBatch) (refreshed : gset string) : Run (gset string) :=
  states ← reads (fun r => ActiveStates (rt_shapes r));
  loop (refresh_dependent metadata batch) states refreshed.

(** ** Applying a batch *)

(** One candidate shape: its changed keys are read again and refreshed. *)
Definition refresh_candidate (metadata : relationMetadata) (batch : ChangeBatch) (keyRows : list Row) (st : State) : Run unit :=
  let def := st_Definition st in
  if negb (definitionSupportsTargetedRefresh def) then mret tt
  else
    w ← world;
    match snapshotChangedKeys (w_db w) def metadata keyRows with
    | Err e =>
        if errMissing e then
          invalidated ← call (InvalidateByRelation (def_Relation def) (w_clock w));
          recordInvalidation "relation_missing" (length (invalidated : list string))
        else fail e
    | Ok snapshot =>
        call_ignoring (zero_state, []) (RefreshKeysWithMetadata (st_Handle st) snapshot keyRows
          (mkChangeMetadata (md_Relation metadata) (bat_CommitLSN batch) (bat_XID batch) false) (w_clock w 0%nat)) ≫= fun _ =>
        mret tt
    end.

(** The keys of the changes that have one. *)
Definition key_rows (changes : list ChangeRecord) : list Row :=
  filter (fun row => row <> ∅) (map chg_PrimaryKey changes).

(** The body of the loop over the relations; the handles refreshed as
    dependents and the number of changes go through it. *)
Definition apply_relation (batch : ChangeBatch) (relationID : Z) (acc : gset string * nat) : Run (gset string * nat) :=
  cache ← reads rt_relationCache;
  match cache !! relationID with
  | None => mret acc
  | Some metadata =>
      let changes := ChangesForRelation relationID batch in
      if decide (changes = []) then mret acc
      else
        let count := (acc.2 + length changes)%nat in
        let keyRows := key_rows changes in
        if decide (keyRows = []) then mret (acc.1, count)
        else
          states ← reads (fun r => candidateShapes metadata (rt_shapes r));
          each (refresh_candidate metadata batch keyRows) states ≫= fun _ =>
          refreshed ← refreshDependentShapesForRelation metadata batch acc.1;
          mret (refreshed, count)
  end.

(** The configuration, and the text form of positions in pglogrepl. *)
Variable cfg : runtimeConfig.
Variable lsn_String : Z -> string.
Variable ParseLSN : string -> option Z.

Definition saveRuntimeCheckpoint (slotName : string) (lsn : Z) (sysident : systemIdentity) : Run unit := fun r =>
  let '(s, err) := SaveRuntimeCheckpoint
    (mkCheckpoint slotName (lsn_String lsn) (sys_SystemID sysident) (sys_Timeline sysident) (rcfg_DatabaseName cfg))
    (mgr_store (rt_shapes r)) in
  (set_shapes (set_store s (rt_shapes r)) r, match err with Some e => Err (ErrShapes e) | None => Ok tt end).

Definition applyChangeBatch (batch : ChangeBatch) : Run unit :=
  acc ← loop (apply_relation batch) (RelationIDs batch) (∅, 0%nat);
  if 0 <? bat_CommitLSN batch then
    recordChangeBatch (acc.2 : nat) ≫= fun _ =>
    w ← world;
    slotName ← reads rt_replicationSlot;
    sysident ← reads rt_systemIdentity;
    kind ← reads (fun r => Kind (mgr_store (rt_shapes r)));
    let slotName := if decide (slotName = "") then replicationSlotName cfg kind (w_clock w 0%nat) else slotName in
    saveRuntimeCheckpoint slotName (bat_CommitLSN batch) sysident
  else mret tt.

(** The status updates sent while a batch is applied confirm the position
    that is confirmed already, so they only add their error. *)
Definition applyChangeBatchWithKeepalive (batch : ChangeBatch) : Run unit :=
  w ← world;
  applyChangeBatch batch ≫= fun _ =>
  match w_standby w with Some e => fail (ErrConnection e) | None => mret tt end.

Definition sendStandbyStatus (lsn : Z) : Run unit :=
  w ← world;
  match w_standby w with
  | Some e => fail (ErrConnection e)
  | None => recordConfirmedLSN lsn
  end.

(** ** Messages *)

Definition with_metadata (relationID : Z) (batch : ChangeBatch) (f : relationMetadata -> ChangeBatch) : Run (ChangeBatch * Z) :=
  cache ← reads rt_relationCache;
  mret (match cache !! relationID with Some metadata => f metadata | None => batch end, 0).

Definition invalidate_relation (reason : string) (relation : Relation) : Run unit :=
  w ← world;
  invalidated ← call (InvalidateByRelation relation (w_clock w));
  recordInvalidation reason (length (invalidated : list string)).

Definition truncate_relation (relationID : Z) : Run unit :=
  cache ← reads rt_relationCache;
  match cache !! relationID with
  | None => mret tt
  | Some metadata =>
      invalidateDependentShapesForRelation metadata ≫= fun _ =>
      invalidate_relation "truncate" (md_Relation metadata) ≫= fun _ =>
      if decide (md_RootRelation metadata = md_Relation metadata) then mret tt
      else invalidate_relation "truncate" (md_RootRelation metadata)
  end.

(** The batch after the message, and the position the message ends at. *)
Definition handleLogicalMessage (message : logicalMessage) (batch : ChangeBatch) : Run (ChangeBatch * Z) :=
  match message with
  | RelationMessage relationID relation =>
      cacheRelationMetadata relationID relation ≫= fun _ => mret (batch, 0)
  | BeginMessage xid => mret (Reset xid batch, 0)
  | InsertMessage relationID tuple =>
      with_metadata relationID batch (fun md => recordInsert md relationID tuple batch)
  | UpdateMessage relationID key oldTuple newTuple =>
      with_metadata relationID batch (fun md => recordUpdate md relationID key oldTuple newTuple batch)
  | DeleteMessage relationID key oldTuple =>
      with_metadata relationID batch (fun md => recordDelete md relationID key oldTuple batch)
  | TruncateMessage relationIDs => each truncate_relation relationIDs ≫= fun _ => mret (batch, 0)
  | CommitMessage commitLSN transactionEndLSN =>
      let batch := mkBatch (bat_XID batch) commitLSN (bat_byRelation batch) (bat_relationIDs batch) in
      applyChangeBatchWithKeepalive batch ≫= fun _ =>
      sendStandbyStatus commitLSN ≫= fun _ =>
      mret (Reset 0 batch, transactionEndLSN)
  | OtherMessage => mret (batch, 0)
  end.

(** ** The replication loop *)

(** What one round of the loop receives.  A deadline is a round in which a
    status update is due: after its timeout, or when the server asked. *)
Inductive replicationEvent : Type :=
| StatusDue
| KeepaliveReceived (serverWALEnd : Z)
| DataReceived (walStart : Z) (message : result string logicalMessage)
| ConnectionFailed (message : string)
| NothingReceived.

Definition max_lsn (a b : Z) : Z := if a <? b then b else a.

(** One round: the client's position and the batch after it. *)
Definition loop_round (event : replicationEvent) (clientXLogPos : Z) (batch : ChangeBatch) : Run (Z * ChangeBatch) :=
  match event with
  | StatusDue => sendStandbyStatus clientXLogPos ≫= fun _ => mret (clientXLogPos, batch)
  | KeepaliveReceived serverWALEnd =>
      recordServerWALEnd serverWALEnd ≫= fun _ => mret (max_lsn clientXLogPos serverWALEnd, batch)
  | DataReceived walStart (Err e) => fail (ErrProtocol e)
  | DataReceived walStart (Ok message) =>
      bl ← handleLogicalMessage message batch;
      let pos := max_lsn (max_lsn clientXLogPos bl.2) walStart in
      recordReceivedLSN walStart pos ≫= fun _ => mret (pos, bl.1)
  | ConnectionFailed e => fail (ErrConnection e)
  | NothingReceived => mret (clientXLogPos, batch)
  end.

(** The connection is closed: its slot and its relations are forgotten. *)
Definition handleReplicationError (r : Runtime) : Runtime :=
  if rt_connected r then
    set_connection "" (rt_systemIdentity r) false ∅ (wrapu64 (rt_replicationErrors r + 1)) (wrapu64 (rt_reconnects r + 1)) r
  else r.

(** The rounds until the first error. *)
Fixpoint replicationLoop (events : list replicationEvent) (clientXLogPos : Z) (batch : ChangeBatch) (r : Runtime) : Runtime :=
  match events with
  | [] => r
  | event :: rest =>
      match loop_round event clientXLogPos batch r with
      | (r', Ok (pos, batch')) => replicationLoop rest pos batch' r'
      | (r', Err _) => handleReplicationError r'
      end
  end.

(** ** Starting *)

(** The server's answers while a start is prepared: whether the slot exists,
    and the consistent point of the slot it creates. *)
Record slotAnswers : Type := mkSlotAnswers {
  slot_exists : result dbError bool;
  slot_created : result string string
}.

Definition call_invalidate_all (clock : nat -> Z) : Run (list string) := fun r =>
  let '(m, (invalidated, err)) := InvalidateAll clock (rt_shapes r) in
  (set_shapes m r, match err with Some e => Err (shapes_error e) | None => Ok invalidated end).

Definition invalidate_all (reason : string) : Run unit :=
  w ← world;
  invalidated ← call_invalidate_all (w_clock w);
  recordInvalidation reason (length (invalidated : list string)).

(** The end of the start: a slot is created where there is none, and its
    consistent point is the position; an existing slot is resumed where the
    checkpoint says, if it is valid.  That a slot "already exists" is no
    error. *)
Definition start_position (answers : slotAnswers) (slotExists validCheckpoint : bool) (checkpoint : RuntimeCheckpoint) (startLSN : Z) :
    Run Z :=
  if negb slotExists then
    match slot_created answers with
    | Err e => if negb (has_infix "already exists" (ascii_lower e)) then fail (ErrConnection e) else mret startLSN
    | Ok consistentPoint =>
        if decide (consistentPoint = "") then mret startLSN else mret (default startLSN (ParseLSN consistentPoint))
    end
  else if validCheckpoint then mret (default startLSN (ParseLSN (cp_LastConfirmedLSN checkpoint)))
  else mret startLSN.

Definition prepareReplicationStart (answers : slotAnswers) (sysident : systemIdentity) : Run (string * Z) :=
  w ← world;
  kind ← reads (fun r => Kind (mgr_store (rt_shapes r)));
  let slotName := replicationSlotName cfg kind (w_clock w 0%nat) in
  loaded ← reads (fun r => LoadRuntimeCheckpoint (mgr_store (rt_shapes r)));
  match loaded with
  | Err e => fail (ErrShapes e)
  | Ok found =>
      match slot_exists answers with
      | Err e => fail (ErrDatabase e)
      | Ok slotExists =>
          let found := if decide (kind = "memory") then None else found in
          let checkpoint := default zero_checkpoint found in
          let disk := bool_decide (kind = "disk") in
          let validCheckpoint := disk && bool_decide (is_Some found) && checkpointCompatible checkpoint slotName sysident (rcfg_DatabaseName cfg) in
          (if disk && bool_decide (is_Some found) && negb validCheckpoint
           then invalidate_all "checkpoint_incompatible" else mret tt) ≫= fun _ =>
          (if disk && validCheckpoint && negb slotExists then invalidate_all "slot_missing" else mret tt) ≫= fun _ =>
          let validCheckpoint := validCheckpoint && negb (disk && negb slotExists) in
          startLSN ← start_position answers slotExists validCheckpoint checkpoint (sys_XLogPos sysident);
          mret (slotName, startLSN)
      end
  end.
End runtime.
Arguments Runtime S : clear implicits.

(** * Lemmas *)

Section lemmas.
Context {S : Type} {store_ops : Store S} {store_laws : CheckpointLaws S}.
#[local] Abbreviation Runtime := (Runtime S).
#[local] Abbreviation Manager := (Manager S).
#[local] Abbreviation Run := (@Run S).

Lemma bind_Ok {A B} (x : Run A) (f : A -> Run B) (r r' : Runtime) (b : B) :
  (x ≫= f) r = (r', Ok b) <-> exists r1 a, x r = (r1, Ok a) /\ f a r1 = (r', Ok b).
Proof.
  unfold mbind, run_bind. destruct (x r) as [r1 [e|a]]; split; intros H.
  - done.
  - by destruct H as (? & ? & [=] & _).
  - by exists r1, a.
  - by destruct H as (? & ? & [= <- <-] & ?).
Qed.

(** ** What every computation keeps *)

(** The shapes move by transitions of the manager, none appears, and the
    checkpoint stays. *)
Definition kept (m m' : Manager) : Prop :=
  well_formed m' /\ shrinks m m' /\ checkpoint_of (mgr_store m') = checkpoint_of (mgr_store m) /\ rtc mstep m m'.

Lemma kept_refl (m : Manager) : well_formed m -> kept m m.
Proof. done. Qed.

Lemma kept_trans (m1 m2 m3 : Manager) : kept m1 m2 -> kept m2 m3 -> kept m1 m3.
Proof. intros (_ & H1 & H2 & H3) (H4 & H5 & H6 & H7). split_and!; [done|by trans m2|congruence|by trans m2]. Qed.

(** A computation that leaves the shapes as they are. *)
Definition quiet {A} (x : Run A) : Prop := forall r, rt_shapes (x r).1 = rt_shapes r.

(** A computation that keeps the invariant, from every well-formed state. *)
Definition keeps {A} (x : Run A) : Prop := forall r, well_formed (rt_shapes r) -> kept (rt_shapes r) (rt_shapes (x r).1).

(** A computation for a live shape that touches no other one. *)
Definition acts_at {A} (h : string) (x : Run A) : Prop := forall r,
  well_formed (rt_shapes r) -> (exists s, live_at h s (rt_shapes r)) ->
  kept (rt_shapes r) (rt_shapes (x r).1) /\ only_at h (rt_shapes r) (rt_shapes (x r).1).

Lemma quiet_bind {A B} (x : Run A) (f : A -> Run B) : quiet x -> (forall a, quiet (f a)) -> quiet (x ≫= f).
Proof.
  intros Hx Hf r. unfold mbind, run_bind. specialize (Hx r). destruct (x r) as [r1 [e|a]]; [exact Hx|].
  cbn [fst] in Hx. by rewrite Hf.
Qed.

Lemma quiet_keeps {A} (x : Run A) : quiet x -> keeps x.
Proof. intros Hx r Hwf. rewrite Hx. by apply kept_refl. Qed.

Lemma quiet_acts {A} (h : string) (x : Run A) : quiet x -> acts_at h x.
Proof. intros Hx r Hwf _. rewrite Hx. split; [by apply kept_refl|done]. Qed.

Lemma keeps_bind {A B} (x : Run A) (f : A -> Run B) : keeps x -> (forall a, keeps (f a)) -> keeps (x ≫= f).
Proof.
  intros Hx Hf r Hwf. unfold mbind, run_bind. specialize (Hx r Hwf). destruct (x r) as [r1 [e|a]]; [exact Hx|].
  cbn [fst] in Hx. eapply kept_trans; [exact Hx|]. apply Hf, Hx.
Qed.

Lemma acts_bind_l {A B} (h : string) (x : Run A) (f : A -> Run B) : quiet x -> (forall a, acts_at h (f a)) -> acts_at h (x ≫= f).
Proof.
  intros Hx Hf r Hwf Hl. unfold mbind, run_bind. specialize (Hx r). destruct (x r) as [r1 [e|a]]; cbn [fst] in Hx |- *.
  - rewrite Hx. split; [by apply kept_refl|done].
  - rewrite <- Hx in *. by apply Hf.
Qed.

Lemma acts_bind_r {A B} (h : string) (x : Run A) (f : A -> Run B) : acts_at h x -> (forall a, quiet (f a)) -> acts_at h (x ≫= f).
Proof.
  intros Hx Hf r Hwf Hl. unfold mbind, run_bind. specialize (Hx r Hwf Hl). destruct (x r) as [r1 [e|a]]; [exact Hx|].
  cbn [fst] in Hx. by rewrite Hf.
Qed.

Lemma quiet_ret {A} (a : A) : quiet (mret a : Run A).
Proof. done. Qed.
Lemma quiet_fail {A} (e : runtimeError) : quiet (fail e : Run A).
Proof. done. Qed.
Lemma quiet_lift {A} (x : result runtimeError A) : quiet (lift x : Run A).
Proof. done. Qed.
Lemma quiet_reads {A} (f : Runtime -> A) : quiet (reads f).
Proof. done. Qed.
Lemma quiet_world (env : nat -> World) : quiet (world env : Run World).
Proof. done. Qed.
Lemma quiet_invalidation (reason : string) (n : nat) : quiet (recordInvalidation reason n : Run unit).
Proof. intros r. unfold recordInvalidation, modify. cbn. by destruct n. Qed.
Lemma quiet_confirmed (lsn : Z) : quiet (recordConfirmedLSN lsn : Run unit).
Proof. intros r. unfold recordConfirmedLSN, modify. cbn. by destruct (_ <? _). Qed.
Lemma quiet_change_batch (n : nat) : quiet (recordChangeBatch n : Run unit).
Proof. done. Qed.
Lemma quiet_cache (c : Runtime -> gmap Z relationMetadata) : quiet (modify (fun r => set_cache (c r) r) : Run unit).
Proof. done. Qed.
End lemmas.

#[export] Hint Resolve quiet_bind quiet_ret quiet_fail quiet_lift quiet_reads quiet_world quiet_invalidation quiet_confirmed
  quiet_change_batch quiet_cache : runs.

Section invariant.
Context {S : Type} {store_ops : Store S} {store_laws : CheckpointLaws S}.
#[local] Abbreviation Runtime := (Runtime S).
#[local] Abbreviation Manager := (Manager S).
#[local] Abbreviation Run := (@Run S).
Variable env : nat -> World.

(** ** Calls of the shape manager *)

Lemma call_kept {A} (P : Manager -> Prop) (Q : Manager -> Manager -> Prop) (f : Manager -> Manager * result ManagerError A) (zero : A) (r : Runtime) :
  (forall m, P m -> Q m (f m).1) -> P (rt_shapes r) ->
  Q (rt_shapes r) (rt_shapes (call f r).1) /\ Q (rt_shapes r) (rt_shapes (call_ignoring zero f r).1).
Proof. intros Hf HP. specialize (Hf _ HP). unfold call, call_ignoring. by destruct (f (rt_shapes r)). Qed.

Lemma delete_kept (h : string) (now : Z) (m : Manager) :
  well_formed m -> (exists s, live_at h s m) -> kept m (Delete h now m).1 /\ only_at h m (Delete h now m).1.
Proof.
  intros Hwf (s & Hs & Hd). assert (Hst : not_stale h m) by (intros s' Hs'; congruence).
  pose proof (wf_delete h now m Hwf Hst) as Hw. pose proof (step_delete m h now Hst) as Hm.
  destruct (Delete h now m) as [m' res] eqn:E. apply delete_effect in E as (H1 & H2 & H3 & _). cbn [fst] in *.
  split; [|done]. split_and!; [done..|]. by apply rtc_once, step_operation.
Qed.

Lemma deleteShape_acts (h : string) : acts_at h (deleteShape env h : Run bool).
Proof.
  unfold deleteShape. apply acts_bind_l; [auto with runs|]. intros w r Hwf Hl.
  apply (call_kept (fun m => well_formed m /\ exists s, live_at h s m) (fun m m' => kept m m' /\ only_at h m m')); [|done].
  intros m [H1 H2]. by apply delete_kept.
Qed.

Lemma invalidate_keeps (relation : Relation) (clock : nat -> Z) : keeps (call (InvalidateByRelation relation clock) : Run (list string)).
Proof.
  intros r Hwf. apply (call_kept well_formed kept _ []); [|done]. intros m Hm.
  pose proof (step_invalidate_relation m relation clock) as Hs.
  destruct (InvalidateByRelation relation clock m) as [m' res] eqn:E. apply invalidate_effect in E as (H1 & H2 & H3 & _); [|done].
  split_and!; [done..|]. by apply rtc_once, step_operation.
Qed.

Lemma refresh_kept (h : string) (snapshot : SnapshotResult) (md : ChangeMetadata) (now : Z) (m : Manager) :
  well_formed m -> kept m (RefreshWithMetadata h snapshot md now m).1 /\ only_at h m (RefreshWithMetadata h snapshot md now m).1.
Proof.
  intros Hwf. pose proof (wf_refresh h snapshot md now m Hwf) as Hw. pose proof (step_refresh m h snapshot md now) as Hs.
  destruct (RefreshWithMetadata _ _ _ _ _) as [m' res] eqn:E. apply refresh_effect in E as (H1 & H2 & H3 & _).
  split; [|done]. split_and!; [done..|]. by apply rtc_once, step_operation.
Qed.

Lemma refresh_keys_kept (h : string) (snapshot : SnapshotResult) (keyRows : list Row) (md : ChangeMetadata) (now : Z) (m : Manager) :
  well_formed m -> kept m (RefreshKeysWithMetadata h snapshot keyRows md now m).1.
Proof.
  intros Hwf. pose proof (wf_refresh_keys h snapshot keyRows md now m Hwf) as Hw. pose proof (step_refresh_keys m h snapshot keyRows md now) as Hs.
  destruct (RefreshKeysWithMetadata _ _ _ _ _ _) as [m' res] eqn:E. apply refresh_keys_effect in E as (H1 & H2 & H3 & _).
  split_and!; [done..|]. by apply rtc_once, step_operation.
Qed.

(** ** Loops *)

Lemma loop_keeps {A B} (f : A -> B -> Run B) (l : list A) (b : B) : (forall x b, keeps (f x b)) -> keeps (loop f l b).
Proof.
  intros Hf. revert b. induction l as [|x l IH]; intros b; cbn [loop]; [by apply quiet_keeps|].
  apply keeps_bind; [apply Hf|exact IH].
Qed.

(** The shapes of a list are live, at different handles. *)
Definition all_live (l : list State) (m : Manager) : Prop :=
  NoDup (map st_Handle l) /\ Forall (fun st => exists s, live_at (st_Handle st) s m) l.

Lemma all_live_next (st : State) (l : list State) (m m' : Manager) :
  all_live (st :: l) m -> only_at (st_Handle st) m m' -> all_live l m'.
Proof.
  intros [Hnd Hl] Ho. cbn [map] in Hnd. apply NoDup_cons in Hnd as [Hn Hnd]. apply Forall_cons in Hl as [_ Hl].
  split; [done|]. rewrite Forall_forall in Hl |- *. intros x Hx. destruct (Hl x Hx) as [s Hs]. exists s. apply Ho; [|done].
  intros He. apply Hn. rewrite <- He. by apply (list_elem_of_fmap_2 st_Handle).
Qed.

Lemma loop_acts {B} (f : State -> B -> Run B) (l : list State) (b : B) (r : Runtime) :
  (forall st b, acts_at (st_Handle st) (f st b)) -> well_formed (rt_shapes r) -> all_live l (rt_shapes r) ->
  kept (rt_shapes r) (rt_shapes (loop f l b r).1).
Proof.
  intros Hf. revert b r. induction l as [|st l IH]; intros b r Hwf Hl; cbn [loop]; [by apply kept_refl|].
  unfold mbind, run_bind. assert (Hst : exists s, live_at (st_Handle st) s (rt_shapes r)) by (by destruct Hl as [_ Hl]; inv Hl).
  destruct (Hf st b r Hwf Hst) as [Hk Ho]. destruct (f st b r) as [r1 [e|b']]; cbn [fst] in *; [exact Hk|].
  eapply kept_trans; [exact Hk|]. apply IH; [apply Hk|]. by eapply all_live_next.
Qed.

Lemma all_live_active (m : Manager) : well_formed m -> all_live (ActiveStates m) m.
Proof.
  intros Hwf. split; [by apply NoDup_active_states|]. apply Forall_forall. intros st Hst. exists st. by apply elem_of_active_states.
Qed.

Lemma elem_of_dedupe (l : list State) (seen : gset string) :
  NoDup (map st_Handle (dedupe_handles l seen)) /\
  forall st, st ∈ dedupe_handles l seen -> st ∈ l /\ st_Handle st ∉ seen.
Proof.
  revert seen. induction l as [|x l IH]; intros seen; cbn [dedupe_handles].
  { split; [constructor|]. intros st Hst. by apply elem_of_nil in Hst. }
  case_decide as Hx.
  - destruct (IH seen) as [H1 H2]. split; [done|]. intros st Hst. apply H2 in Hst as [? ?]. split; [by apply elem_of_cons; right|done].
  - destruct (IH ({[st_Handle x]} ∪ seen)) as [H1 H2]. split.
    + cbn [map]. apply NoDup_cons. split; [|done]. intros (y & He & Hy)%(list_elem_of_fmap st_Handle). apply H2 in Hy as [_ Hy]. set_solver.
    + intros st [-> |Hst]%elem_of_cons; [split; [by apply elem_of_cons; left|done]|].
      apply H2 in Hst as [H3 H4]. split; [by apply elem_of_cons; right|set_solver].
Qed.

Lemma dedupe_covers_handles (l : list State) (seen : gset string) (st : State) :
  st ∈ l -> st_Handle st ∉ seen -> exists st', st' ∈ dedupe_handles l seen /\ st_Handle st' = st_Handle st.
Proof.
  revert seen. induction l as [|x l IH]; intros seen Hst Hn; [by apply elem_of_nil in Hst|]. cbn [dedupe_handles].
  apply elem_of_cons in Hst as [<-|Hst].
  - rewrite decide_False by done. exists st. split; [apply list_elem_of_here|done].
  - case_decide as Hx; [by apply IH|].
    destruct (decide (st_Handle st = st_Handle x)) as [He|He].
    + exists x. split; [apply list_elem_of_here|done].
    + destruct (IH ({[st_Handle x]} ∪ seen) Hst) as (st' & H1 & H2); [set_solver|]. exists st'. split; [by apply list_elem_of_further|done].
Qed.

(** The candidates are the live shapes on the relation or its root. *)
Definition concerned (metadata : relationMetadata) (st : State) : Prop :=
  in_relation (md_Relation metadata) st \/ in_relation (md_RootRelation metadata) st.

Lemma candidates_live (metadata : relationMetadata) (m : Manager) :
  well_formed m ->
  all_live (candidateShapes metadata m) m /\
  (forall st, st ∈ candidateShapes metadata m -> live_at (st_Handle st) st m /\ concerned metadata st) /\
  (forall h st, live_at h st m -> concerned metadata st -> st ∈ candidateShapes metadata m).
Proof.
  intros Hwf. unfold candidateShapes. set (states := _ ++ _).
  assert (Hin : forall st, st ∈ states <-> live_at (st_Handle st) st m /\ concerned metadata st).
  { intros st. unfold states, concerned. rewrite elem_of_app, elem_of_active_by_relation by done.
    case_decide as He; [|rewrite elem_of_active_by_relation by done; tauto]. rewrite elem_of_nil, He. tauto. }
  destruct (elem_of_dedupe (sort_states states) ∅) as [Hnd Hsub].
  assert (Hlive : forall st, st ∈ dedupe_handles (sort_states states) ∅ -> live_at (st_Handle st) st m /\ concerned metadata st).
  { intros st Hst. apply Hsub in Hst as [Hst _]. rewrite sort_states_perm in Hst. by apply Hin. }
  split_and!; [|done|].
  - split; [done|]. apply Forall_forall. intros st Hst. exists st. by apply Hlive.
  - intros h st Hl Hc. assert (st_Handle st = h) as <- by (by eapply wf_handle; [|apply Hl]).
    destruct (dedupe_covers_handles (sort_states states) ∅ st) as (st' & H1 & H2); [|set_solver|].
    { rewrite sort_states_perm. by apply Hin. }
    assert (st' = st) as ->; [|done]. apply Hlive in H1 as [H1 _]. rewrite H2 in H1. by eapply live_at_fun.
Qed.

(** ** The handlers keep the invariant *)

Lemma keeps_reads {A B} (f : Runtime -> A) (g : A -> Run B) :
  (forall r, well_formed (rt_shapes r) -> kept (rt_shapes r) (rt_shapes (g (f r) r).1)) -> keeps (reads f ≫= g).
Proof. intros Hg r Hwf. by apply Hg. Qed.

Lemma schema_change_shape_acts (metadata : relationMetadata) (st : State) (n : nat) :
  acts_at (st_Handle st) (schema_change_shape env metadata st n : Run nat).
Proof.
  unfold schema_change_shape. destruct (shapeSchemasEqual _ _); [apply quiet_acts; auto with runs|].
  apply acts_bind_r; [apply deleteShape_acts|auto with runs].
Qed.

Lemma schema_change_keeps (metadata : relationMetadata) : keeps (invalidateShapesForSchemaChange env metadata : Run unit).
Proof.
  apply keeps_reads. intros r Hwf. unfold mbind at 1, run_bind at 1.
  pose proof (loop_acts (schema_change_shape env metadata) (candidateShapes metadata (rt_shapes r)) 0%nat r
    (schema_change_shape_acts metadata) Hwf (proj1 (candidates_live metadata _ Hwf))) as Hk.
  destruct (loop _ _ _ r) as [r1 [e|n]]; cbn [fst] in Hk; [exact Hk|]. by rewrite quiet_invalidation.
Qed.

Lemma cache_keeps (relationID : Z) (relation : Relation) : keeps (cacheRelationMetadata env relationID relation : Run relationMetadata).
Proof.
  unfold cacheRelationMetadata. apply keeps_bind; [apply quiet_keeps; auto with runs|]. intros w.
  destruct (db_connect _); [apply quiet_keeps; auto with runs|].
  repeat (apply keeps_bind; [solve [apply quiet_keeps; auto with runs | apply schema_change_keeps]|intros ?]).
  apply quiet_keeps; auto with runs.
Qed.

Lemma refresh_dependent_acts (metadata : relationMetadata) (batch : ChangeBatch) (st : State) (refreshed : gset string) :
  acts_at (st_Handle st) (refresh_dependent env metadata batch st refreshed : Run (gset string)).
Proof.
  unfold refresh_dependent. destruct (negb _); [apply quiet_acts; auto with runs|].
  case_decide; [apply quiet_acts; auto with runs|]. destruct (negb _).
  { apply acts_bind_r; [apply deleteShape_acts|auto with runs]. }
  apply acts_bind_l; [auto with runs|]. intros w. destruct (Snapshot _ _) as [e|snapshot].
  - destruct (errMissing e); [|apply quiet_acts; auto with runs].
    apply acts_bind_r; [apply deleteShape_acts|auto with runs].
  - apply acts_bind_r; [|auto with runs]. intros r Hwf _.
    apply (call_kept well_formed (fun m m' => kept m m' /\ only_at (st_Handle st) m m')); [|done].
    intros m Hm. by apply refresh_kept.
Qed.

Lemma refresh_dependents_keeps (metadata : relationMetadata) (batch : ChangeBatch) (refreshed : gset string) :
  keeps (refreshDependentShapesForRelation env metadata batch refreshed : Run (gset string)).
Proof.
  apply keeps_reads. intros r Hwf. apply loop_acts; [|done|by apply all_live_active].
  intros st acc. apply refresh_dependent_acts.
Qed.

Lemma invalidate_dependent_keeps (metadata : relationMetadata) : keeps (invalidateDependentShapesForRelation env metadata : Run unit).
Proof.
  apply keeps_reads. intros r Hwf. apply loop_acts; [|done|by apply all_live_active]. intros st _.
  destruct (depends_on _ _); [|apply quiet_acts; auto with runs]. apply acts_bind_r; [apply deleteShape_acts|auto with runs].
Qed.

Lemma refresh_candidate_keeps (metadata : relationMetadata) (batch : ChangeBatch) (keyRows : list Row) (st : State) :
  keeps (refresh_candidate env metadata batch keyRows st : Run unit).
Proof.
  unfold refresh_candidate. destruct (negb _); [apply quiet_keeps; auto with runs|].
  apply keeps_bind; [apply quiet_keeps; auto with runs|]. intros w. destruct (snapshotChangedKeys _ _ _ _) as [e|snapshot].
  - destruct (errMissing e); [|apply quiet_keeps; auto with runs].
    apply keeps_bind; [apply invalidate_keeps|]. intros l. apply quiet_keeps; auto with runs.
  - apply keeps_bind; [|intros ?; apply quiet_keeps; auto with runs]. intros r Hwf.
    apply (call_kept well_formed kept); [|done]. intros m Hm. by apply refresh_keys_kept.
Qed.

Lemma apply_relation_keeps (batch : ChangeBatch) (id : Z) (acc : gset string * nat) :
  keeps (apply_relation env batch id acc : Run (gset string * nat)).
Proof.
  unfold apply_relation. apply keeps_bind; [apply quiet_keeps; auto with runs|]. intros cache.
  destruct (cache !! id) as [metadata|]; [|apply quiet_keeps; auto with runs].
  repeat (case_decide; [apply quiet_keeps; auto with runs|]).
  apply keeps_bind; [apply quiet_keeps; auto with runs|]. intros states.
  apply keeps_bind; [apply loop_keeps; intros; apply refresh_candidate_keeps|]. intros _.
  apply keeps_bind; [apply refresh_dependents_keeps|]. intros refreshed. apply quiet_keeps; auto with runs.
Qed.

Lemma truncate_keeps (id : Z) : keeps (truncate_relation env id : Run unit).
Proof.
  assert (Hinv : forall reason relation, keeps (invalidate_relation env reason relation : Run unit)).
  { intros reason relation. unfold invalidate_relation. apply keeps_bind; [apply quiet_keeps; auto with runs|]. intros w.
    apply keeps_bind; [apply invalidate_keeps|]. intros l. apply quiet_keeps; auto with runs. }
  unfold truncate_relation. apply keeps_bind; [apply quiet_keeps; auto with runs|]. intros cache.
  destruct (cache !! id) as [metadata|]; [|apply quiet_keeps; auto with runs].
  apply keeps_bind; [apply invalidate_dependent_keeps|]. intros _. apply keeps_bind; [apply Hinv|]. intros _.
  case_decide; [apply quiet_keeps; auto with runs|apply Hinv].
Qed.
End invariant.

(** ** Shapes that are up to date

    [truth] is what the rows of a definition should be. *)

(** A key the changed rows of a relation name for a definition. *)
Definition changed_key (metadata : relationMetadata) (keyRows : list Row) (def : Definition_) (k : string) : Prop :=
  k <> "" /\ exists row, row ∈ keyRows /\
    PrimaryKeySignature (schemaForColumns (targetedSnapshotColumns metadata (def_Columns def))) row = k.

Definition changed_by (cache : gmap Z relationMetadata) (batch : ChangeBatch) (id : Z) (def : Definition_) (k : string) : Prop :=
  exists metadata, cache !! id = Some metadata /\
    (relationKey (def_Relation def) = relationKey (md_Relation metadata) \/
     relationKey (def_Relation def) = relationKey (md_RootRelation metadata)) /\
    changed_key metadata (key_rows (ChangesForRelation id batch)) def k.

(** The rows of a live shape that is refreshed row by row differ from the
    truth only where [R] says so. *)
Definition stale_only {S} (truth : Definition_ -> gmap string Row) (R : string -> Definition_ -> string -> Prop) (m : Manager S) : Prop :=
  forall h st k, live_at h st m -> definitionSupportsTargetedRefresh (st_Definition st) = true ->
    st_Materialized st !! k <> truth (st_Definition st) !! k -> R h (st_Definition st) k.

(** The server answers the queries for the changed keys of the batch with the
    true rows of these keys. *)
Definition answers_truly {S} (db : Database) (truth : Definition_ -> gmap string Row) (cache : gmap Z relationMetadata)
    (batch : ChangeBatch) (m : Manager S) : Prop :=
  forall id metadata h st snapshot, cache !! id = Some metadata -> live_at h st m ->
    snapshotChangedKeys db (st_Definition st) metadata (key_rows (ChangesForRelation id batch)) = Ok snapshot ->
    forall k, k ∈ targetedKeySet (snap_Schema snapshot) (key_rows (ChangesForRelation id batch)) (snap_Rows snapshot) ->
      materializedRows (snap_Schema snapshot) (snap_Rows snapshot) !! k = truth (st_Definition st) !! k.

Section sync.
Context {S : Type} {store_ops : Store S} {store_laws : CheckpointLaws S}.
#[local] Abbreviation Runtime := (Runtime S).
#[local] Abbreviation Manager := (Manager S).
#[local] Abbreviation Run := (@Run S).
Variable env : nat -> World.
Variable db : Database.
Hypothesis env_db : forall n, w_db (env n) = db.
Variable truth : Definition_ -> gmap string Row.
Variable batch : ChangeBatch.

Lemma call_ignoring_Ok {A} (zero a : A) (f : Manager -> Manager * result ManagerError A) (r r' : Runtime) :
  call_ignoring zero f r = (r', Ok a) ->
  exists res, f (rt_shapes r) = (rt_shapes r', res) /\ match res with Err (ErrStore _) => False | _ => True end.
Proof.
  unfold call_ignoring. destruct (f (rt_shapes r)) as [m res]. intros E. exists res.
  destruct res as [[]|]; by inv E.
Qed.

Lemma call_Ok {A} (a : A) (f : Manager -> Manager * result ManagerError A) (r r' : Runtime) :
  call f r = (r', Ok a) -> f (rt_shapes r) = (rt_shapes r', Ok a).
Proof. unfold call. destruct (f (rt_shapes r)) as [m [e|x]]; intros E; by inv E. Qed.

(** The state listed has the definition of the live one at its handle. *)
Definition known (st : State) (m : Manager) : Prop :=
  forall u, live_at (st_Handle st) u m -> st_Definition u = st_Definition st.

Lemma known_shrinks (st : State) (m m' : Manager) : known st m -> shrinks m m' -> known st m'.
Proof. intros Hk Hs u Hu. destruct (Hs _ _ Hu) as (v & Hv & Hi). rewrite (identity_definition _ _ Hi). by apply Hk. Qed.

Lemma known_list_shrinks (l : list State) (m m' : Manager) :
  Forall (fun st => known st m) l -> shrinks m m' -> Forall (fun st => known st m') l.
Proof. intros Hl Hs. rewrite Forall_forall in Hl |- *. intros st Hst. apply (known_shrinks st m m'); [by apply Hl|done]. Qed.

Lemma known_live (st : State) (m : Manager) : live_at (st_Handle st) st m -> known st m.
Proof. intros Hl u Hu. by rewrite (live_at_fun _ _ _ _ Hu Hl). Qed.

Lemma answers_shrinks (cache : gmap Z relationMetadata) (m m' : Manager) :
  answers_truly db truth cache batch m -> shrinks m m' -> answers_truly db truth cache batch m'.
Proof.
  intros Ha Hs id md h st snapshot Hid Hl Hq k Hk. destruct (Hs _ _ Hl) as (v & Hv & Hi).
  rewrite (identity_definition _ _ Hi) in *. by eapply Ha.
Qed.

Lemma stale_weaken (R R' : string -> Definition_ -> string -> Prop) (m : Manager) :
  (forall h d k, R h d k -> R' h d k) -> stale_only truth R m -> stale_only truth R' m.
Proof. intros HR Hs h st k H1 H2 H3. by apply HR, Hs. Qed.

(** A candidate is left with no stale row of a changed key. *)
Lemma refresh_candidate_sync (cache : gmap Z relationMetadata) (id : Z) (metadata : relationMetadata) (st : State) (r r' : Runtime)
    (R : string -> Definition_ -> string -> Prop) :
  let keyRows := key_rows (ChangesForRelation id batch) in
  cache !! id = Some metadata -> answers_truly db truth cache batch (rt_shapes r) ->
  well_formed (rt_shapes r) -> known st (rt_shapes r) ->
  stale_only truth (fun h d k => (h = st_Handle st /\ changed_key metadata keyRows d k) \/ R h d k) (rt_shapes r) ->
  refresh_candidate env metadata batch keyRows st r = (r', Ok tt) ->
  stale_only truth R (rt_shapes r').
Proof.
  intros keyRows Hid Ha Hwf Hk Hs. unfold refresh_candidate.
  destruct (definitionSupportsTargetedRefresh (st_Definition st)) eqn:Et; cbn [negb].
  2: { intros [= <-] h u k Hl Ht Hne. destruct (Hs h u k Hl Ht Hne) as [[-> _]|]; [|done]. rewrite (Hk u Hl) in Ht. congruence. }
  intros (r1 & w & Hw & E)%bind_Ok. injection Hw as <- <-. rewrite env_db in E. cbn [rt_shapes next_step] in E.
  destruct (snapshotChangedKeys db (st_Definition st) metadata keyRows) as [e|snapshot] eqn:Eq.
  - destruct (errMissing e); [|done]. apply bind_Ok in E as (r2 & l & Hc & E). apply call_Ok in Hc.
    apply invalidate_effect in Hc as (_ & _ & _ & Hl); [|done].
    assert (rt_shapes r' = rt_shapes r2) as -> by (rewrite <- (quiet_invalidation "relation_missing" (length l) r2); by rewrite E).
    intros h u k Hu Ht Hne. apply Hl in Hu as [Hu Hr]. destruct (Hs h u k Hu Ht Hne) as [[-> _]|]; [|done].
    destruct Hr. unfold in_relation. by rewrite (Hk u Hu).
  - apply bind_Ok in E as (r2 & x & Hc & E). injection E as <-. apply call_ignoring_Ok in Hc as (res & Hc & Hres).
    apply refresh_keys_effect in Hc as (Ho & Hsh & _ & Hto). cbn [rt_shapes next_step] in *.
    intros h u k Hu Ht Hne. destruct (decide (h = st_Handle st)) as [->|Hh].
    2: { destruct (Hs h u k (proj1 (Ho h u Hh) Hu) Ht Hne) as [[? _]|]; done. }
    destruct res as [[]|p]; cbn in Hto; try done; try (destruct Hto as [Hm Hto]; rewrite Hm in Hu; by destruct (Hto u)).
    destruct Hto as (s & u' & Hls & Hlu & Hi & Hrows). rewrite (live_at_fun _ _ _ _ Hu Hlu) in *.
    assert (Hd : st_Definition u' = st_Definition st) by (rewrite (identity_definition _ _ Hi); by apply Hk).
    rewrite Hrows in Hne. rewrite Hd in Hne, Ht |- *. rewrite <- (Hk s Hls) in *. case_decide as HK.
    + destruct Hne. by apply (Ha id metadata (st_Handle st) s snapshot Hid Hls Eq).
    + destruct (Hs (st_Handle st) s k Hls Ht Hne) as [[_ Hck]|]; [|done]. destruct HK.
      unfold targetedKeySet. apply elem_of_list_to_set, list_elem_of_filter. destruct Hck as [Hnil (row & Hrow & Hsig)].
      split; [done|]. rewrite (snapshotChangedKeys_schema _ _ _ _ _ Eq). apply list_elem_of_fmap.
      exists row. split; [done|]. apply elem_of_app. by left.
Qed.

Lemma candidates_sync (cache : gmap Z relationMetadata) (id : Z) (metadata : relationMetadata) (l : list State) (r r' : Runtime)
    (R : string -> Definition_ -> string -> Prop) :
  let keyRows := key_rows (ChangesForRelation id batch) in
  cache !! id = Some metadata -> answers_truly db truth cache batch (rt_shapes r) ->
  well_formed (rt_shapes r) -> Forall (fun st => known st (rt_shapes r)) l ->
  stale_only truth (fun h d k => (h ∈ map st_Handle l /\ changed_key metadata keyRows d k) \/ R h d k) (rt_shapes r) ->
  each (refresh_candidate env metadata batch keyRows) l r = (r', Ok tt) ->
  stale_only truth R (rt_shapes r').
Proof.
  intros keyRows Hid. unfold each. revert r. induction l as [|st l IH]; intros r Ha Hwf Hk Hs; cbn [loop].
  { intros [= <-]. revert Hs. apply stale_weaken. intros h d k [[Hh _]|]; [by apply elem_of_nil in Hh|done]. }
  intros (r1 & [] & E1 & E2)%bind_Ok. apply Forall_cons in Hk as [Hst Hk].
  pose proof (refresh_candidate_keeps env metadata batch keyRows st r Hwf) as (Hwf1 & Hsh & _). rewrite E1 in Hwf1, Hsh. cbn [fst] in *.
  apply (IH r1); [by eapply answers_shrinks|done|by eapply known_list_shrinks| |exact E2].
  apply (refresh_candidate_sync cache id metadata st r r1); try done.
  revert Hs. apply stale_weaken. intros h d k. cbn [map]. rewrite elem_of_cons. tauto.
Qed.

(** Dependent shapes are other shapes. *)
Lemma refresh_dependent_sync (metadata : relationMetadata) (st : State) (acc acc' : gset string) (r r' : Runtime)
    (R : string -> Definition_ -> string -> Prop) :
  known st (rt_shapes r) -> stale_only truth R (rt_shapes r) ->
  refresh_dependent env metadata batch st acc r = (r', Ok acc') -> stale_only truth R (rt_shapes r').
Proof.
  intros Hk Hs. assert (Hother : only_at (st_Handle st) (rt_shapes r) (rt_shapes r') -> shrinks (rt_shapes r) (rt_shapes r') ->
    definitionSupportsTargetedRefresh (st_Definition st) = false -> stale_only truth R (rt_shapes r')).
  { intros Ho Hsh Hn h u k Hu Ht. destruct (decide (h = st_Handle st)) as [->|Hh].
    - rewrite (known_shrinks _ _ _ Hk Hsh u Hu) in Ht. congruence.
    - intros Hne. apply (Hs h u k); [by apply Ho|done|done]. }
  assert (Hdel : forall r1 r2 b, rt_shapes r1 = rt_shapes r -> deleteShape env (st_Handle st) r1 = (r2, Ok b) -> rt_shapes r' = rt_shapes r2 ->
    definitionSupportsTargetedRefresh (st_Definition st) = false -> stale_only truth R (rt_shapes r')).
  { intros r1 r2 b H1 Hd H2 Hn. apply bind_Ok in Hd as (r3 & w & Hw & Hd). injection Hw as <- <-.
    apply call_ignoring_Ok in Hd as (res & Hd & _). cbn [rt_shapes next_step] in Hd. rewrite H1 in Hd.
    apply delete_effect in Hd as (Ho & Hsh & _). rewrite <- H2 in *. by apply Hother. }
  unfold refresh_dependent. destruct (depends_on metadata (st_Definition st)) eqn:Ed; cbn [negb]; [|by intros [= <- _]].
  assert (Hn : definitionSupportsTargetedRefresh (st_Definition st) = false).
  { unfold depends_on in Ed. apply andb_true_iff in Ed as [Ed _]. by apply negb_true_iff. }
  case_decide; [by intros [= <- _]|].
  assert (Hrec : forall reason n (r1 : Runtime) B (y : B), (recordInvalidation reason n ≫= fun _ => mret y) r1 = (r', Ok y) -> rt_shapes r' = rt_shapes r1).
  { intros reason n r1 B y (r2 & [] & E1 & E2)%bind_Ok. injection E2 as <-.
    rewrite <- (quiet_invalidation reason n r1). by rewrite E1. }
  destruct (negb _).
  { intros (r1 & b & E1 & E2)%bind_Ok. pose proof E2 as E3. apply bind_Ok in E3 as (? & ? & _ & [= _ <-]).
    by eapply Hdel; [|exact E1|eapply Hrec; exact E2|]. }
  intros (r1 & w & Hw & E)%bind_Ok. injection Hw as <- <-. destruct (Snapshot _ _) as [e|snapshot].
  - destruct (errMissing e); [|done]. apply bind_Ok in E as (r1 & b & E1 & E2). pose proof E2 as E3. apply bind_Ok in E3 as (? & ? & _ & [= _ <-]).
    by eapply Hdel; [|exact E1|eapply Hrec; exact E2|].
  - apply bind_Ok in E as (r1 & x & Hc & E). injection E as <- _. apply call_ignoring_Ok in Hc as (res & Hc & _).
    apply refresh_effect in Hc as (Ho & Hsh & _). by apply Hother.
Qed.

Lemma dependents_sync (metadata : relationMetadata) (l : list State) (acc acc' : gset string) (r r' : Runtime)
    (R : string -> Definition_ -> string -> Prop) :
  well_formed (rt_shapes r) -> all_live l (rt_shapes r) -> Forall (fun st => known st (rt_shapes r)) l -> stale_only truth R (rt_shapes r) ->
  loop (refresh_dependent env metadata batch) l acc r = (r', Ok acc') -> stale_only truth R (rt_shapes r').
Proof.
  revert acc r. induction l as [|st l IH]; intros acc r Hwf Hl Hk Hs; cbn [loop]; [by intros [= <- _]|].
  intros (r1 & acc1 & E1 & E2)%bind_Ok. apply Forall_cons in Hk as [Hst Hk].
  assert (Hex : exists s, live_at (st_Handle st) s (rt_shapes r)) by (destruct Hl as [_ Hl]; by inv Hl).
  destruct (refresh_dependent_acts env metadata batch st acc r Hwf Hex) as [(Hwf1 & Hsh & _) Ho]. rewrite E1 in Hwf1, Hsh, Ho. cbn [fst] in *.
  apply (IH acc1 r1); [done|by eapply all_live_next|by eapply known_list_shrinks| |exact E2].
  by eapply refresh_dependent_sync.
Qed.

(** The relations, the connection and the positions stay as they are while a
    batch is applied. *)
Definition frame (r : Runtime) :=
  (rt_relationCache r, rt_replicationSlot r, rt_systemIdentity r, rt_connected r,
   rt_lastConfirmedLSN r, rt_lastReceivedLSN r, rt_serverWALEnd r).

Definition framed {A} (x : Run A) : Prop := forall r, frame (x r).1 = frame r.

Lemma framed_bind {A B} (x : Run A) (f : A -> Run B) : framed x -> (forall a, framed (f a)) -> framed (x ≫= f).
Proof.
  intros Hx Hf r. unfold mbind, run_bind. specialize (Hx r). destruct (x r) as [r1 [e|a]]; [exact Hx|].
  cbn [fst] in Hx. by rewrite Hf.
Qed.

Lemma framed_call {A} (f : Manager -> Manager * result ManagerError A) (zero : A) :
  framed (call f : Run A) /\ framed (call_ignoring zero f : Run A).
Proof. split; intros r; unfold call, call_ignoring; by destruct (f (rt_shapes r)). Qed.

Lemma framed_invalidation (reason : string) (n : nat) : framed (recordInvalidation reason n : Run unit).
Proof. intros r. unfold recordInvalidation, modify. cbn. by destruct n. Qed.

Lemma framed_loop {A B} (f : A -> B -> Run B) (l : list A) (b : B) : (forall x b, framed (f x b)) -> framed (loop f l b).
Proof. intros Hf. revert b. induction l as [|x l IH]; intros b; cbn [loop]; [done|]. by apply framed_bind. Qed.

Lemma framed_delete (h : string) : framed (deleteShape env h : Run bool).
Proof. apply framed_bind; [done|]. intros w. apply framed_call. Qed.

#[local] Hint Resolve framed_bind framed_invalidation framed_delete : runs.

Lemma apply_relation_framed (id : Z) (acc : gset string * nat) : framed (apply_relation env batch id acc : Run (gset string * nat)).
Proof.
  unfold apply_relation. apply framed_bind; [done|]. intros cache. destruct (cache !! id) as [metadata|]; [|done].
  repeat (case_decide; [done|]). apply framed_bind; [done|]. intros states. apply framed_bind.
  { apply framed_loop. intros st _. unfold refresh_candidate. destruct (negb _); [done|]. apply framed_bind; [done|]. intros w.
    destruct (snapshotChangedKeys _ _ _ _); [|by apply framed_bind; [apply framed_call|]].
    destruct (errMissing _); [|done]. apply framed_bind; [by apply (framed_call _ [])|auto with runs]. }
  intros _. apply framed_bind; [|done]. apply framed_bind; [done|]. intros l. apply framed_loop. intros st refreshed.
  unfold refresh_dependent. destruct (negb _); [done|]. case_decide; [done|].
  assert (Hd : forall reason (y : gset string), framed (deleteShape env (st_Handle st) ≫= fun _ => recordInvalidation reason 1 ≫= fun _ => mret y : Run (gset string))).
  { intros reason y. apply framed_bind; [apply framed_delete|]. intros _. by apply framed_bind; [apply framed_invalidation|]. }
  destruct (negb _); [apply Hd|]. apply framed_bind; [done|]. intros w. destruct (Snapshot _ _).
  - destruct (errMissing _); [apply Hd|done].
  - by apply framed_bind; [apply framed_call|].
Qed.

(** One relation of the batch: afterwards none of its changes is missing. *)
Lemma apply_relation_sync (id : Z) (acc acc' : gset string * nat) (r r' : Runtime) (R : string -> Definition_ -> string -> Prop) :
  answers_truly db truth (rt_relationCache r) batch (rt_shapes r) -> well_formed (rt_shapes r) ->
  stale_only truth (fun h d k => changed_by (rt_relationCache r) batch id d k \/ R h d k) (rt_shapes r) ->
  apply_relation env batch id acc r = (r', Ok acc') -> stale_only truth R (rt_shapes r').
Proof.
  intros Ha Hwf Hs. unfold apply_relation. intros (r1 & cache & E1 & E)%bind_Ok. injection E1 as <- <-.
  destruct (rt_relationCache r !! id) as [metadata|] eqn:Hid.
  2: { injection E as <- _. revert Hs. apply stale_weaken. intros h d k [(md & Hmd & _)|]; [congruence|done]. }
  assert (Hnone : key_rows (ChangesForRelation id batch) = [] -> stale_only truth R (rt_shapes r)).
  { intros He. revert Hs. apply stale_weaken. intros h d k [(md & _ & _ & _ & row & Hrow & _)|]; [|done].
    rewrite He in Hrow. by apply elem_of_nil in Hrow. }
  case_decide as Hc; [injection E as <- _; apply Hnone; by rewrite Hc|]. case_decide as Hr; [injection E as <- _; by apply Hnone|].
  apply bind_Ok in E as (r1 & states & E1 & E). injection E1 as <- <-.
  destruct (candidates_live metadata (rt_shapes r) Hwf) as (_ & Hcl & Hcc).
  assert (Hkn : Forall (fun st => known st (rt_shapes r)) (candidateShapes metadata (rt_shapes r))).
  { apply Forall_forall. intros st Hst. apply known_live. by apply Hcl. }
  apply bind_Ok in E as (r1 & [] & E1 & E).
  assert (Hs1 : stale_only truth R (rt_shapes r1)).
  { eapply candidates_sync; [exact Hid|done|done|exact Hkn| |exact E1].
    intros h u k Hu Ht Hne. destruct (Hs h u k Hu Ht Hne) as [(md & Hmd & Hrel & Hck)|]; [|by right]. left.
    assert (md = metadata) as -> by congruence. split; [|done].
    assert (st_Handle u = h) as <- by (by eapply wf_handle; [|apply Hu]).
    apply (list_elem_of_fmap_2 st_Handle), (Hcc (st_Handle u)); done. }
  assert (Hk1 : keeps (each (refresh_candidate env metadata batch (key_rows (ChangesForRelation id batch)))
    (candidateShapes metadata (rt_shapes r)))) by (apply loop_keeps; intros; apply refresh_candidate_keeps).
  specialize (Hk1 r Hwf). rewrite E1 in Hk1. destruct Hk1 as (Hwf1 & Hsh1 & _).
  apply bind_Ok in E as (r2 & refreshed & E2 & E). injection E as <- _.
  unfold refreshDependentShapesForRelation in E2. apply bind_Ok in E2 as (r3 & active & E3 & E2). injection E3 as <- <-.
  eapply dependents_sync; [done|by apply all_live_active| |exact Hs1|exact E2].
  apply Forall_forall. intros st Hst. apply known_live. by apply elem_of_active_states.
Qed.

Lemma apply_relations_sync (ids : list Z) (acc acc' : gset string * nat) (r r' : Runtime) (R : string -> Definition_ -> string -> Prop) :
  answers_truly db truth (rt_relationCache r) batch (rt_shapes r) -> well_formed (rt_shapes r) ->
  stale_only truth (fun h d k => (exists id, id ∈ ids /\ changed_by (rt_relationCache r) batch id d k) \/ R h d k) (rt_shapes r) ->
  loop (apply_relation env batch) ids acc r = (r', Ok acc') -> stale_only truth R (rt_shapes r').
Proof.
  revert acc r. induction ids as [|id ids IH]; intros acc r Ha Hwf Hs; cbn [loop].
  { intros [= <- _]. revert Hs. apply stale_weaken. intros h d k [(id & Hid & _)|]; [by apply elem_of_nil in Hid|done]. }
  intros (r1 & acc1 & E1 & E2)%bind_Ok.
  pose proof (apply_relation_framed id acc r) as Hf. rewrite E1 in Hf.
  assert (Hc : rt_relationCache r1 = rt_relationCache r) by (by injection Hf).
  pose proof (apply_relation_keeps env batch id acc r Hwf) as (Hwf1 & Hsh & _). rewrite E1 in Hwf1, Hsh. cbn [fst] in *.
  apply (IH acc1 r1); [rewrite Hc; by eapply answers_shrinks|done| |exact E2].
  eapply (apply_relation_sync id acc acc1 r r1); [done|done| |exact E1]. rewrite Hc.
  revert Hs. apply stale_weaken. intros h d k. setoid_rewrite elem_of_cons. naive_solver.
Qed.
End sync.

(** ** A whole batch *)

Section batch.
Context {S : Type} {store_ops : Store S} {store_laws : CheckpointLaws S}.
#[local] Abbreviation Runtime := (Runtime S).
Variable env : nat -> World.
Variable cfg : runtimeConfig.
Variable lsn_String : Z -> string.

(** The checkpoint a commit leaves. *)
Definition checkpoint_at (lsn : Z) (r r' : Runtime) : Prop :=
  exists slot, checkpoint_of (mgr_store (rt_shapes r')) =
    Some (mkCheckpoint slot (lsn_String lsn) (sys_SystemID (rt_systemIdentity r)) (sys_Timeline (rt_systemIdentity r)) (rcfg_DatabaseName cfg)) /\
    (rt_replicationSlot r <> "" -> slot = rt_replicationSlot r).

Lemma save_effect (slot : string) (lsn : Z) (sysident : systemIdentity) (r r' : Runtime) (res : result runtimeError unit) :
  saveRuntimeCheckpoint cfg lsn_String slot lsn sysident r = (r', res) ->
  same_indices (rt_shapes r') (rt_shapes r) /\ frame r' = frame r /\
  (res = Ok tt -> checkpoint_of (mgr_store (rt_shapes r')) =
     Some (mkCheckpoint slot (lsn_String lsn) (sys_SystemID sysident) (sys_Timeline sysident) (rcfg_DatabaseName cfg))).
Proof.
  unfold saveRuntimeCheckpoint. destruct (SaveRuntimeCheckpoint _ _) as [s err] eqn:E. intros [= <- <-].
  split_and!; [done|done|]. destruct err; [done|]. intros _. cbn. by apply save_checkpoint_law in E as ->.
Qed.

Lemma apply_batch_effect (batch : ChangeBatch) (r r' : Runtime) (res : result runtimeError unit) :
  applyChangeBatch env cfg lsn_String batch r = (r', res) ->
  match loop (apply_relation env batch) (RelationIDs batch) (∅, 0%nat) r with
  | (r1, Err e) => r' = r1 /\ res = Err e
  | (r1, Ok _) => same_indices (rt_shapes r') (rt_shapes r1) /\ frame r' = frame r1 /\
      (res = Ok tt -> 0 < bat_CommitLSN batch -> checkpoint_at (bat_CommitLSN batch) r1 r')
  end.
Proof.
  unfold applyChangeBatch. unfold mbind at 1, run_bind at 1.
  destruct (loop _ _ _ r) as [r1 [e|acc]]; [by intros [= <- <-]|].
  destruct (Z.ltb_spec 0 (bat_CommitLSN batch)) as [Hc|Hc]; [|intros [= <- <-]; split_and!; [done|done|lia]].
  unfold mbind, run_bind. cbn -[saveRuntimeCheckpoint]. intros E. pose proof E as E2.
  apply save_effect in E as (H1 & H2 & H3). split_and!; [exact H1|exact H2|].
  intros Hres _. eexists. split; [by apply H3|]. cbn. intros Hs. by rewrite decide_False.
Qed.

Lemma batch_keeps (batch : ChangeBatch) (r r' : Runtime) (res : result runtimeError unit) :
  well_formed (rt_shapes r) -> applyChangeBatch env cfg lsn_String batch r = (r', res) ->
  well_formed (rt_shapes r') /\ shrinks (rt_shapes r) (rt_shapes r') /\ frame r' = frame r /\
  (res = Ok tt -> 0 < bat_CommitLSN batch -> checkpoint_at (bat_CommitLSN batch) r r').
Proof.
  intros Hwf E. apply apply_batch_effect in E.
  assert (Hk : keeps (loop (apply_relation env batch) (RelationIDs batch) (∅, 0%nat))) by (apply loop_keeps; intros; apply apply_relation_keeps).
  assert (Hf : framed (loop (apply_relation env batch) (RelationIDs batch) (∅, 0%nat))) by (apply framed_loop; intros; apply apply_relation_framed).
  specialize (Hk r Hwf). specialize (Hf r). destruct (loop _ _ _ r) as [r1 [e|acc]]; cbn [fst] in *; destruct Hk as (H1 & H2 & _).
  - destruct E as [-> ->]. done.
  - destruct E as (E1 & E2 & E3). split_and!.
    + by apply (well_formed_same (rt_shapes r1)).
    + trans (rt_shapes r1); [done|]. by apply same_shrinks.
    + congruence.
    + intros Hr Hc. destruct (E3 Hr Hc) as (slot & Hck & Hslot). exists slot. injection Hf as _ Hs Hi _ _ _ _.
      rewrite Hck, Hi. split; [done|]. by rewrite <- Hs.
Qed.

Lemma message_keeps (message : logicalMessage) (batch : ChangeBatch) :
  (forall c e, message <> CommitMessage c e) -> keeps (handleLogicalMessage env cfg lsn_String message batch : @Run S _).
Proof.
  intros Hm. destruct message as [id relation|xid|id t|id k o t|id k o|ids|c e|]; cbn [handleLogicalMessage];
    try (apply quiet_keeps; unfold with_metadata; auto with runs; fail).
  - apply keeps_bind; [apply cache_keeps|]. intros md. apply quiet_keeps; auto with runs.
  - apply keeps_bind; [|intros; apply quiet_keeps; auto with runs]. apply loop_keeps. intros id _. apply truncate_keeps.
  - by destruct (Hm c e).
Qed.

Lemma send_effect (lsn : Z) (r r' : Runtime) (res : result runtimeError unit) :
  sendStandbyStatus env lsn r = (r', res) ->
  rt_shapes r' = rt_shapes r /\
  (rt_lastConfirmedLSN r' <> rt_lastConfirmedLSN r -> rt_lastConfirmedLSN r < lsn /\ rt_lastConfirmedLSN r' = lsn).
Proof.
  unfold sendStandbyStatus, mbind, run_bind. cbn. destruct (w_standby _); [by intros [= <- _]|].
  unfold recordConfirmedLSN, modify. cbn. destruct (Z.ltb_spec (rt_lastConfirmedLSN r) lsn); by intros [= <- _].
Qed.

Lemma commit_effect (commit last : Z) (batch : ChangeBatch) (r r' : Runtime) (res : result runtimeError (ChangeBatch * Z)) :
  well_formed (rt_shapes r) -> handleLogicalMessage env cfg lsn_String (CommitMessage commit last) batch r = (r', res) ->
  well_formed (rt_shapes r') /\ shrinks (rt_shapes r) (rt_shapes r') /\
  (forall out, res = Ok out -> 0 < commit -> checkpoint_at commit r r' /\ out.2 = last /\ bat_byRelation out.1 = ∅) /\
  (rt_lastConfirmedLSN r' <> rt_lastConfirmedLSN r -> rt_lastConfirmedLSN r < commit /\ rt_lastConfirmedLSN r' = commit /\
     exists r0 r1, rt_shapes r0 = rt_shapes r /\ frame r0 = frame r /\
       applyChangeBatch env cfg lsn_String (mkBatch (bat_XID batch) commit (bat_byRelation batch) (bat_relationIDs batch)) r0 = (r1, Ok tt) /\
       rt_shapes r' = rt_shapes r1).
Proof.
  intros Hwf. cbn [handleLogicalMessage]. set (b := mkBatch _ _ _ _). unfold applyChangeBatchWithKeepalive, mbind, run_bind.
  cbn -[applyChangeBatch sendStandbyStatus]. destruct (applyChangeBatch env cfg lsn_String b (next_step r)) as [r1 res1] eqn:Ea.
  destruct (batch_keeps b (next_step r) r1 res1 Hwf Ea) as (H1 & H2 & H3 & H4).
  assert (Hlsn : rt_lastConfirmedLSN r1 = rt_lastConfirmedLSN r) by (by injection H3).
  destruct res1 as [e|[]]; [intros [= <- <-]; by split_and!|].
  destruct (w_standby (env (rt_step r))) as [e|]; [intros [= <- <-]; by split_and!|].
  unfold mret, run_ret. cbn -[sendStandbyStatus].
  destruct (sendStandbyStatus env commit r1) as [r2 res2] eqn:Es. apply send_effect in Es as [Hs Hc]. rewrite Hlsn in Hc.
  assert (Hwhy : rt_lastConfirmedLSN r2 <> rt_lastConfirmedLSN r -> rt_lastConfirmedLSN r < commit /\ rt_lastConfirmedLSN r2 = commit /\
     exists r0 r3, rt_shapes r0 = rt_shapes r /\ frame r0 = frame r /\ applyChangeBatch env cfg lsn_String b r0 = (r3, Ok tt) /\
       rt_shapes r1 = rt_shapes r3).
  { intros Hn. destruct (Hc Hn) as [? ?]. split_and!; [done|done|]. by exists (next_step r), r1. }
  destruct res2 as [e|[]]; intros [= <- <-]; rewrite Hs; split_and!; try done.
  intros out [= <-] Hpos. split_and!; [|done|done]. unfold checkpoint_at in *. rewrite Hs. by apply H4.
Qed.
End batch.

(** ** What an invalidation leaves *)

Section invalidation.
Context {S : Type} {store_ops : Store S} {store_laws : CheckpointLaws S}.
#[local] Abbreviation Runtime := (Runtime S).
#[local] Abbreviation Manager := (Manager S).
#[local] Abbreviation Run := (@Run S).
Variable env : nat -> World.

(** A property of definitions that no live shape has is not gained. *)
Definition none_live (P : Definition_ -> Prop) (m : Manager) : Prop := forall h st, live_at h st m -> ~ P (st_Definition st).

Lemma none_live_shrinks (P : Definition_ -> Prop) (m m' : Manager) : none_live P m -> shrinks m m' -> none_live P m'.
Proof. intros Hn Hs h u Hu. destruct (Hs h u Hu) as (st & Hst & Hi). rewrite (identity_definition _ _ Hi). by eapply Hn. Qed.

Lemma deleteShape_Ok (h : string) (r r' : Runtime) (b : bool) :
  deleteShape env h r = (r', Ok b) -> only_at h (rt_shapes r) (rt_shapes r') /\ shrinks (rt_shapes r) (rt_shapes r') /\
    forall s, ~ live_at h s (rt_shapes r').
Proof.
  intros (r1 & w & Hw & E)%bind_Ok. injection Hw as <- <-. apply call_ignoring_Ok in E as (res & E & Hres).
  apply delete_effect in E as (H1 & H2 & _ & H3). cbn [rt_shapes next_step] in *. split_and!; [done|done|].
  destruct res as [e|b']; [|done]. destruct H3 as [x ->]. done.
Qed.

(** The loop over the listed states deletes those it is meant to delete. *)
Lemma each_deletes (P : Definition_ -> bool) (f : State -> Run unit) (l : list State) (r r' : Runtime) :
  (forall st r r', f st r = (r', Ok tt) -> shrinks (rt_shapes r) (rt_shapes r') /\
     (P (st_Definition st) = true -> forall s, ~ live_at (st_Handle st) s (rt_shapes r'))) ->
  each f l r = (r', Ok tt) ->
  shrinks (rt_shapes r) (rt_shapes r') /\
  forall st, st ∈ l -> P (st_Definition st) = true -> forall s, ~ live_at (st_Handle st) s (rt_shapes r').
Proof.
  intros Hf. unfold each. revert r. induction l as [|st l IH]; intros r; cbn [loop].
  { intros [= <-]. split; [done|]. intros st Hst. by apply elem_of_nil in Hst. }
  intros (r1 & [] & E1 & E2)%bind_Ok. apply Hf in E1 as [H1 H2]. apply IH in E2 as [H3 H4]. split; [by trans (rt_shapes r1)|].
  intros x [-> |Hx]%elem_of_cons HP; [|by apply H4]. intros s Hs. destruct (H3 _ _ Hs) as (v & Hv & _). by eapply H2.
Qed.

Lemma invalidate_dependent_none (metadata : relationMetadata) (r r' : Runtime) :
  well_formed (rt_shapes r) -> invalidateDependentShapesForRelation env metadata r = (r', Ok tt) ->
  none_live (fun d => depends_on metadata d = true) (rt_shapes r').
Proof.
  intros Hwf (r1 & states & E1 & E)%bind_Ok. injection E1 as <- <-.
  apply (each_deletes (depends_on metadata)) in E as [Hs Hd].
  - intros h u Hu Hp. destruct (Hs h u Hu) as (v & Hv & Hi). rewrite (identity_definition _ _ Hi) in Hp.
    assert (st_Handle v = h) as <- by (by eapply wf_handle; [|apply Hv]).
    apply (Hd v) with (s := u); [by apply elem_of_active_states|done|done].
  - clear E Hwf r r'. intros st r r' E. destruct (depends_on metadata (st_Definition st)); [|injection E as <-; done].
    apply bind_Ok in E as (r1 & b & E1 & E2). apply deleteShape_Ok in E1 as (_ & H1 & H2).
    assert (rt_shapes r' = rt_shapes r1) as -> by (rewrite <- (quiet_invalidation "truncate_dependency" 1 r1); by rewrite E2).
    split; [done|]. intros _. exact H2.
Qed.

Lemma invalidate_relation_none (reason : string) (relation : Relation) (r r' : Runtime) :
  well_formed (rt_shapes r) -> invalidate_relation env reason relation r = (r', Ok tt) ->
  well_formed (rt_shapes r') /\ shrinks (rt_shapes r) (rt_shapes r') /\
  none_live (fun d => relationKey (def_Relation d) = relationKey relation) (rt_shapes r').
Proof.
  intros Hwf (r1 & w & Hw & E)%bind_Ok. injection Hw as <- <-. apply bind_Ok in E as (r2 & l & E1 & E2).
  apply call_Ok in E1. apply invalidate_effect in E1 as (H1 & H2 & _ & H3); [|done]. cbn [rt_shapes next_step] in *.
  assert (rt_shapes r' = rt_shapes r2) as -> by (rewrite <- (quiet_invalidation reason (length l) r2); by rewrite E2).
  split_and!; [done|done|]. intros h st Hl Hr. apply H3 in Hl as [_ Hn]. by apply Hn.
Qed.

(** The definitions a truncated relation invalidates. *)
Definition truncated_by (metadata : relationMetadata) (d : Definition_) : Prop :=
  relationKey (def_Relation d) = relationKey (md_Relation metadata) \/
  relationKey (def_Relation d) = relationKey (md_RootRelation metadata) \/ depends_on metadata d = true.

Lemma truncate_none (id : Z) (metadata : relationMetadata) (r r' : Runtime) :
  well_formed (rt_shapes r) -> rt_relationCache r !! id = Some metadata -> truncate_relation env id r = (r', Ok tt) ->
  none_live (truncated_by metadata) (rt_shapes r').
Proof.
  intros Hwf Hid (r1 & cache & E1 & E)%bind_Ok. injection E1 as <- <-. rewrite Hid in E.
  apply bind_Ok in E as (r1 & [] & E1 & E). pose proof (invalidate_dependent_keeps env metadata r Hwf) as (Hwf1 & _).
  rewrite E1 in Hwf1. apply invalidate_dependent_none in E1; [|done].
  apply bind_Ok in E as (r2 & [] & E2 & E). apply invalidate_relation_none in E2 as (Hwf2 & Hs2 & H2); [|done].
  pose proof (none_live_shrinks _ _ _ E1 Hs2) as H1. case_decide as Hroot.
  - injection E as <-. intros h st Hl [Hr|[Hr|Hr]]; [by eapply H2|rewrite Hroot in Hr; by eapply H2|by eapply H1].
  - apply invalidate_relation_none in E as (_ & Hs3 & H3); [|done].
    intros h st Hl [Hr|[Hr|Hr]].
    + by apply (none_live_shrinks _ _ _ H2 Hs3 h st).
    + by apply (H3 h st).
    + by apply (none_live_shrinks _ _ _ H1 Hs3 h st).
Qed.

Lemma framed_invalidate (reason : string) (relation : Relation) : framed (invalidate_relation env reason relation : Run unit).
Proof.
  apply framed_bind; [done|]. intros w. apply framed_bind; [by apply (framed_call _ [])|]. intros l. apply framed_invalidation.
Qed.

Lemma truncate_framed (id : Z) : framed (truncate_relation env id : Run unit).
Proof.
  apply framed_bind; [done|]. intros cache. destruct (cache !! id) as [md|]; [|done].
  apply framed_bind.
  { apply framed_bind; [done|]. intros l. apply framed_loop. intros st _. destruct (depends_on _ _); [|done].
    apply framed_bind; [apply framed_delete|]. intros _. apply framed_invalidation. }
  intros _. apply framed_bind; [apply framed_invalidate|]. intros _. case_decide; [done|apply framed_invalidate].
Qed.

Lemma truncates_none (ids : list Z) (id : Z) (metadata : relationMetadata) (r r' : Runtime) :
  well_formed (rt_shapes r) -> id ∈ ids -> rt_relationCache r !! id = Some metadata ->
  each (truncate_relation env) ids r = (r', Ok tt) -> none_live (truncated_by metadata) (rt_shapes r').
Proof.
  unfold each. revert r. induction ids as [|x ids IH]; intros r Hwf Hin Hid; [by apply elem_of_nil in Hin|]. cbn [loop].
  intros (r1 & [] & E1 & E2)%bind_Ok. pose proof (truncate_keeps env x r Hwf) as (Hwf1 & _). rewrite E1 in Hwf1. cbn [fst] in Hwf1.
  pose proof (truncate_framed x r) as Hf. rewrite E1 in Hf. assert (Hc : rt_relationCache r1 = rt_relationCache r) by (by injection Hf).
  apply elem_of_cons in Hin as [<-|Hin]; [|by apply (IH r1); [done|done|by rewrite Hc|]].
  apply truncate_none with (metadata := metadata) in E1; [|done|done].
  apply (none_live_shrinks _ _ _ E1).
  assert (Hk : keeps (loop (fun (x : Z) (_ : unit) => truncate_relation env x) ids tt)) by (apply loop_keeps; intros; apply truncate_keeps).
  specialize (Hk r1 Hwf1). rewrite E2 in Hk. apply Hk.
Qed.

(** ** What a schema change leaves *)

Definition current_schema (metadata : relationMetadata) (st : State) : Prop :=
  st_Schema st = schemaForColumns (projectedColumns (md_Columns metadata) (def_Columns (st_Definition st))).

Lemma schema_loop (metadata : relationMetadata) (l : list State) (n n' : nat) (r r' : Runtime) :
  NoDup (map st_Handle l) -> (forall st, st ∈ l -> live_at (st_Handle st) st (rt_shapes r)) ->
  (forall h st, live_at h st (rt_shapes r) -> concerned metadata st -> current_schema metadata st \/ h ∈ map st_Handle l) ->
  loop (schema_change_shape env metadata) l n r = (r', Ok n') ->
  forall h st, live_at h st (rt_shapes r') -> concerned metadata st -> current_schema metadata st.
Proof.
  revert n r. induction l as [|x l IH]; intros n r Hnd Hl Hs; cbn [loop].
  { intros [= <- _] h st Hst Hc. destruct (Hs h st Hst Hc) as [?|Hh]; [done|]. by apply elem_of_nil in Hh. }
  cbn [map] in *. apply NoDup_cons in Hnd as [Hx Hnd]. intros (r1 & n1 & E1 & E2)%bind_Ok.
  assert (Hxl : live_at (st_Handle x) x (rt_shapes r)) by (apply Hl, list_elem_of_here).
  assert (Hstep : only_at (st_Handle x) (rt_shapes r) (rt_shapes r1) /\
    forall s, live_at (st_Handle x) s (rt_shapes r1) -> current_schema metadata s).
  { unfold schema_change_shape in E1. destruct (shapeSchemasEqual _ _) eqn:Ee.
    - injection E1 as <- _. split; [done|]. intros s Hsl. rewrite (live_at_fun _ _ _ _ Hsl Hxl). by apply shapeSchemasEqual_spec.
    - apply bind_Ok in E1 as (r2 & b & E1 & E3). injection E3 as <- _. apply deleteShape_Ok in E1 as (H1 & _ & H2).
      split; [done|]. intros s Hsl. by destruct (H2 s). }
  destruct Hstep as [Ho Hcur]. apply (IH n1 r1 Hnd); [| |exact E2].
  - intros st Hst. apply Ho; [|by apply Hl, list_elem_of_further]. intros He. apply Hx. rewrite <- He. by apply (list_elem_of_fmap_2 st_Handle).
  - intros h st Hst Hc. destruct (decide (h = st_Handle x)) as [->|Hne]; [left; by apply Hcur|].
    destruct (Hs h st (proj1 (Ho h st Hne) Hst) Hc) as [?|[? |?]%elem_of_cons]; [by left|done|by right].
Qed.

Lemma cached_schema (relationID : Z) (relation : Relation) (metadata : relationMetadata) (r r' : Runtime) :
  well_formed (rt_shapes r) -> cacheRelationMetadata env relationID relation r = (r', Ok metadata) ->
  md_Relation metadata = relation /\
  forall h st, live_at h st (rt_shapes r') -> concerned metadata st -> current_schema metadata st.
Proof.
  intros Hwf (r1 & w & Hw & E)%bind_Ok. injection Hw as <- <-. destruct (db_connect _); [done|].
  apply bind_Ok in E as (r1 & columns & E1 & E). injection E1 as <- _. apply bind_Ok in E as (r1 & root & E1 & E). injection E1 as <- _.
  apply bind_Ok in E as (r1 & [] & E1 & E). injection E1 as <-. apply bind_Ok in E as (r2 & [] & E2 & E). injection E as <- <-.
  split; [done|]. set (md := mkRelationMetadata _ _ _ _) in *.
  apply bind_Ok in E2 as (r3 & states & E3 & E2). injection E3 as <- <-. apply bind_Ok in E2 as (r4 & n & E4 & E5).
  assert (rt_shapes r2 = rt_shapes r4) as -> by (rewrite <- (quiet_invalidation "schema_change" n r4); by rewrite E5).
  destruct (candidates_live md (rt_shapes r) Hwf) as ([Hnd _] & Hcl & Hcc). cbn [rt_shapes next_step set_cache] in E4.
  eapply schema_loop; [exact Hnd| | |exact E4]; cbn [rt_shapes next_step set_cache].
  - intros st Hst. by apply Hcl.
  - intros h st Hst Hc. right. assert (st_Handle st = h) as <- by (by eapply wf_handle; [|apply Hst]).
    apply (list_elem_of_fmap_2 st_Handle), (Hcc (st_Handle st)); done.
Qed.
End invalidation.

(** ** Positions *)

Section positions.
Context {S : Type} {store_ops : Store S}.
#[local] Abbreviation Runtime := (Runtime S).
#[local] Abbreviation Run := (@Run S).
Variable env : nat -> World.
Variable cfg : runtimeConfig.
Variable lsn_String : Z -> string.

Definition positions_le (r r' : Runtime) : Prop :=
  rt_lastConfirmedLSN r <= rt_lastConfirmedLSN r' /\ rt_lastReceivedLSN r <= rt_lastReceivedLSN r' /\
  rt_serverWALEnd r <= rt_serverWALEnd r'.

#[export] Instance positions_le_preorder : PreOrder positions_le.
Proof. split; [intros r; unfold positions_le; lia|]. intros a b c. unfold positions_le. lia. Qed.

Definition advances {A} (x : Run A) : Prop := forall r, positions_le r (x r).1.

Lemma advances_bind {A B} (x : Run A) (f : A -> Run B) : advances x -> (forall a, advances (f a)) -> advances (x ≫= f).
Proof.
  intros Hx Hf r. unfold mbind, run_bind. specialize (Hx r). destruct (x r) as [r1 [e|a]]; [exact Hx|].
  cbn [fst] in Hx. trans r1; [exact Hx|apply Hf].
Qed.

Lemma framed_advances {A} (x : Run A) : framed x -> advances x.
Proof. intros Hx r. specialize (Hx r). injection Hx as _ _ _ _ H1 H2 H3. unfold positions_le. lia. Qed.

Lemma advances_confirmed (lsn : Z) : advances (recordConfirmedLSN lsn : Run unit).
Proof. intros r. unfold recordConfirmedLSN, modify, positions_le. cbn. destruct (Z.ltb_spec (rt_lastConfirmedLSN r) lsn); cbn; lia. Qed.

Lemma advances_received (received serverEnd : Z) : advances (recordReceivedLSN received serverEnd : Run unit).
Proof.
  intros r. unfold recordReceivedLSN, modify, positions_le. cbn.
  destruct (Z.ltb_spec (rt_lastReceivedLSN r) received), (Z.ltb_spec (rt_serverWALEnd r) serverEnd); lia.
Qed.

Lemma advances_server (lsn : Z) : advances (recordServerWALEnd lsn : Run unit).
Proof. intros r. unfold recordServerWALEnd, modify, positions_le. cbn. destruct (Z.ltb_spec (rt_serverWALEnd r) lsn); cbn; lia. Qed.

Lemma advances_send (lsn : Z) : advances (sendStandbyStatus env lsn : Run unit).
Proof.
  apply advances_bind; [by apply framed_advances|]. intros w. destruct (w_standby w); [by apply framed_advances|apply advances_confirmed].
Qed.

Lemma schema_change_framed (metadata : relationMetadata) : framed (invalidateShapesForSchemaChange env metadata : Run unit).
Proof.
  apply framed_bind; [done|]. intros l. apply framed_bind; [|intros n; apply framed_invalidation].
  apply framed_loop. intros st n. unfold schema_change_shape. destruct (shapeSchemasEqual _ _); [done|].
  by apply framed_bind; [apply framed_delete|].
Qed.

Lemma cached_entry (id : Z) (relation : Relation) (metadata : relationMetadata) (r r' : Runtime) :
  cacheRelationMetadata env id relation r = (r', Ok metadata) ->
  rt_relationCache r' !! id = Some metadata /\ md_PKColumns metadata = primaryKeyColumns (md_Columns metadata).
Proof.
  intros (r1 & w & Hw & E)%bind_Ok. destruct (db_connect _); [done|].
  apply bind_Ok in E as (r2 & columns & _ & E). apply bind_Ok in E as (r3 & root & _ & E).
  apply bind_Ok in E as (r4 & [] & E1 & E). injection E1 as <-. apply bind_Ok in E as (r5 & [] & E2 & E). injection E as <- <-.
  match goal with |- _ !! id = Some ?x /\ _ => pose proof (schema_change_framed x) as Hf end.
  match type of E2 with _ ?x = _ => specialize (Hf x) end. rewrite E2 in Hf. injection Hf as Hc _ _ _ _ _ _.
  cbn [fst] in Hc. rewrite Hc. cbn. by rewrite lookup_insert_eq.
Qed.

Lemma advances_cache (id : Z) (relation : Relation) : advances (cacheRelationMetadata env id relation : Run relationMetadata).
Proof.
  apply advances_bind; [by apply framed_advances|]. intros w. destruct (db_connect _); [by apply framed_advances|].
  do 2 (apply advances_bind; [by apply framed_advances|intros ?]).
  apply advances_bind; [intros r; unfold positions_le; cbn; lia|]. intros _.
  apply advances_bind; [|intros _; by apply framed_advances]. apply framed_advances, schema_change_framed.
Qed.

Lemma framed_save (slot : string) (lsn : Z) (sysident : systemIdentity) : framed (saveRuntimeCheckpoint cfg lsn_String slot lsn sysident : Run unit).
Proof. intros r. unfold saveRuntimeCheckpoint. by destruct (SaveRuntimeCheckpoint _ _). Qed.

Lemma framed_batch (batch : ChangeBatch) : framed (applyChangeBatch env cfg lsn_String batch : Run unit).
Proof.
  apply framed_bind; [apply framed_loop; intros; apply apply_relation_framed|]. intros acc. destruct (0 <? _); [|done].
  repeat (apply framed_bind; [done|intros ?]). apply framed_save.
Qed.

Lemma advances_message (message : logicalMessage) (batch : ChangeBatch) :
  advances (handleLogicalMessage env cfg lsn_String message batch : Run (ChangeBatch * Z)).
Proof.
  destruct message as [id relation|xid|id t|id k o t|id k o|ids|c e|]; cbn [handleLogicalMessage]; try by apply framed_advances.
  - apply advances_bind; [apply advances_cache|]. intros md. by apply framed_advances.
  - apply framed_advances, framed_bind; [|done]. apply framed_loop. intros id _. apply truncate_framed.
  - apply advances_bind; [apply framed_advances|intros _; apply advances_bind; [apply advances_send|intros _; by apply framed_advances]].
    apply framed_bind; [done|]. intros w. apply framed_bind; [apply framed_batch|]. intros _. by destruct (w_standby w).
Qed.

Lemma advances_round (event : replicationEvent) (pos : Z) (batch : ChangeBatch) :
  advances (loop_round env cfg lsn_String event pos batch : Run (Z * ChangeBatch)).
Proof.
  destruct event as [|lsn|start [e|message]|e|]; cbn [loop_round]; try by apply framed_advances.
  - apply advances_bind; [apply advances_send|]. intros _. by apply framed_advances.
  - apply advances_bind; [apply advances_server|]. intros _. by apply framed_advances.
  - apply advances_bind; [apply advances_message|]. intros [b l]. apply advances_bind; [apply advances_received|].
    intros _. by apply framed_advances.
Qed.

Lemma loop_positions (events : list replicationEvent) (pos : Z) (batch : ChangeBatch) (r : Runtime) :
  positions_le r (replicationLoop env cfg lsn_String events pos batch r).
Proof.
  revert pos batch r. induction events as [|event events IH]; intros pos batch r; cbn [replicationLoop]; [done|].
  pose proof (advances_round event pos batch r) as Ha. destruct (loop_round _ _ _ event pos batch r) as [r1 [e|[pos' batch']]]; cbn [fst] in Ha.
  - trans r1; [exact Ha|]. unfold handleReplicationError. by destruct (rt_connected r1).
  - trans r1; [exact Ha|apply IH].
Qed.
End positions.

(** ** Starting *)

Section start.
Context {S : Type} {store_ops : Store S} {store_laws : CheckpointLaws S}.
#[local] Abbreviation Runtime := (Runtime S).
Variable env : nat -> World.

Lemma invalidate_all_none_live (reason : string) (r r' : Runtime) :
  invalidate_all env reason r = (r', Ok tt) -> forall h s, ~ live_at h s (rt_shapes r').
Proof.
  intros (r1 & w & Hw & E)%bind_Ok. apply bind_Ok in E as (r2 & l & E1 & E2).
  assert (rt_shapes r' = rt_shapes r2) as -> by (rewrite <- (quiet_invalidation reason (length l) r2); by rewrite E2).
  unfold call_invalidate_all in E1. destruct (InvalidateAll _ _) as [m [l' [e|]]] eqn:Ei; [done|]. injection E1 as <- _.
  exact (invalidate_all_none _ _ _ _ Ei).
Qed.

Lemma start_position_effect (ParseLSN : string -> option Z) (answers : slotAnswers) (slotExists valid : bool)
    (checkpoint : RuntimeCheckpoint) (start0 start : Z) (r r' : Runtime) :
  start_position ParseLSN answers slotExists valid checkpoint start0 r = (r', Ok start) ->
  r' = r /\ (slotExists = true -> valid = true -> start = default start0 (ParseLSN (cp_LastConfirmedLSN checkpoint))).
Proof.
  unfold start_position. destruct slotExists; cbn [negb].
  - destruct valid; intros [= <- <-]; split; done.
  - destruct (slot_created answers) as [e|p]; [destruct (negb _); [done|]|case_decide]; intros [= <- _]; split; done.
Qed.
End start.

(** ** Names *)

Definition slot_byte (a : ascii) : bool := is_lower a || is_digit a || bool_decide (a = byte_of 95).

Lemma compact_rune_byte (s : string) : slot_byte (compact_rune s).1 = true.
Proof.
  unfold compact_rune. destruct s as [|a s]; [done|]. destruct (has_prefix _ _); [done|]. destruct (has_prefix _ _); [done|].
  cbn [fst]. unfold slot_byte. destruct (is_lower (lower_byte a)) eqn:E1; [cbn; by rewrite E1|].
  destruct (is_digit (lower_byte a)) eqn:E2; cbn; [by rewrite E2, orb_true_r|done].
Qed.

Lemma compact_from_bytes (s : string) (skip : nat) : all_bytes slot_byte (compact_from skip s) = true.
Proof.
  revert skip. induction s as [|a s IH]; intros skip; [done|]. cbn [compact_from]. destruct skip as [|k]; [|apply IH].
  pose proof (compact_rune_byte (String a s)) as Hb. destruct (compact_rune (String a s)) as [c w]. cbn [fst] in Hb.
  cbn [all_bytes]. by rewrite Hb, IH.
Qed.

Lemma trim_underscores_bytes (f : ascii -> bool) (s : string) : all_bytes f s = true -> all_bytes f (trim_underscores s) = true.
Proof. induction s as [|a s IH]; [done|]. cbn [all_bytes trim_underscores]. intros [Ha Hs]%andb_true_iff. case_decide; [by apply IH|]. cbn. by rewrite Ha, Hs. Qed.

Lemma take_bytes_length (n : nat) (s : string) : (String.length (take_bytes n s) <= n)%nat.
Proof. revert s. induction n as [|n IH]; intros [|a s]; cbn; try lia. specialize (IH s). lia. Qed.

(** ** A small run

    A table with the key (b, a), a shape on it, and a server that answers
    every query with one row. *)

Definition demo_items : Relation := mkRelation "public" "items".
Definition demo_described : list describedColumn :=
  [mkDescribed "b" "text" true (Some 0); mkDescribed "a" "int4" true (Some 1); mkDescribed "v" "text" false None].
Definition demo_relation : relationMetadata := mkRelationMetadata demo_items demo_items demo_described (primaryKeyColumns demo_described).
Definition demo_key (a b : string) : string := PrimaryKeySignature demo_schema (demo_row a b "").
Definition demo_live : State :=
  mkState "h" (definition_hash demo_def) demo_def demo_schema [] []
    (<[demo_key "1" "x" := demo_row "1" "x" "old"]> {[demo_key "2" "y" := demo_row "2" "y" "kept"]}) "0_2" 0 1 false.
Definition demo_truth (_ : Definition_) : gmap string Row :=
  <[demo_key "1" "x" := demo_row "1" "x" "new"]> {[demo_key "2" "y" := demo_row "2" "y" "kept"]}.

Definition demo_shapes : Manager MemoryStore :=
  mkManager NewMemoryStore {["h" := demo_live]} {[definition_hash demo_def := "h"]}
    {[relationKey demo_items := {["h"]}]} 1 ∅ ∅.
Definition demo_db : Database :=
  mkDatabase None (fun _ => Ok demo_described) (fun _ => Ok None)
    (fun _ _ => Ok [[("b", Some "x"); ("a", Some "1"); ("v", Some "new")]]) None (Ok ("10:10:", "0/10")) 0 None.
Definition demo_env (_ : nat) : World := mkWorld (fun _ => 1700000000000000) demo_db None.
Definition demo_config : runtimeConfig := mkRuntimeConfig "default" "app".
Definition demo_lsn (lsn : Z) : string := format_Z lsn.
Definition demo_system : systemIdentity := mkSystem "7" 1 90.
Definition demo_runtime : Runtime MemoryStore :=
  mkRuntime demo_shapes 0 {[1 := demo_relation]} "slot" demo_system true 50 60 70 0 0 ∅ 0 0.
Definition demo_batch : ChangeBatch :=
  recordUpdate demo_relation 1 false None
    (Some [mkCell (byte_of 116) "x"; mkCell (byte_of 116) "1"; mkCell (byte_of 116) "new"]) (mkBatch 9 80 ∅ []).

Lemma demo_shapes_live (h : string) (st : State) : live_at h st demo_shapes <-> h = "h" /\ st = demo_live.
Proof.
  unfold live_at, demo_shapes; cbn [mgr_byHandle]. rewrite lookup_singleton_Some. split; [by intros [[<- <-] _]|by intros [-> ->]].
Qed.

#[local] Opaque definition_hash.

Lemma demo_shapes_wf : well_formed demo_shapes.
Proof.
  split.
  - intros h st. unfold demo_shapes; cbn [mgr_byHandle]. by intros [<- <-]%lookup_singleton_Some.
  - intros hash h. unfold demo_shapes at 1; cbn [mgr_byHash]. rewrite lookup_singleton_Some. setoid_rewrite demo_shapes_live.
    split; [intros [<- <-]; by exists demo_live|by intros (st & [-> ->] & <-)].
  - intros key h. setoid_rewrite demo_shapes_live. unfold related, demo_shapes; cbn [mgr_byRelation].
    destruct (decide (key = relationKey demo_items)) as [->|Hk].
    + rewrite lookup_singleton_eq. unfold default, from_option, id. rewrite elem_of_singleton.
      split; [intros ->; by exists demo_live|by intros (st & [-> ->] & _)].
    + rewrite lookup_singleton_ne by done. split; [by intros ?%not_elem_of_empty|]. by intros (st & [-> ->] & <-).
  - intros h st [-> ->]%demo_shapes_live. reflexivity.
Qed.

#[local] Transparent definition_hash.

(** * Properties *)

(** C1. A batch brings the shapes up to date.  If, before a transaction is
    applied, a shape that is refreshed row by row is out of date only at keys
    the transaction changed, and the server answers the queries for these keys
    with the true rows, then after the batch is applied every such shape that
    is still live holds exactly the true rows. *)
Theorem batch_brings_shapes_up_to_date {S} `{CheckpointLaws S} (env : nat -> World) (cfg : runtimeConfig) (lsn_String : Z -> string)
    (db : Database) (truth : Definition_ -> gmap string Row) (batch : ChangeBatch) (r r' : Runtime S) :
  well_formed (rt_shapes r) -> (forall n, w_db (env n) = db) ->
  answers_truly db truth (rt_relationCache r) batch (rt_shapes r) ->
  stale_only truth (fun _ def k => exists id, id ∈ RelationIDs batch /\ changed_by (rt_relationCache r) batch id def k) (rt_shapes r) ->
  applyChangeBatch env cfg lsn_String batch r = (r', Ok tt) ->
  forall h st, live_at h st (rt_shapes r') -> definitionSupportsTargetedRefresh (st_Definition st) = true ->
    st_Materialized st = truth (st_Definition st).
Proof.
  intros Hwf Hdb Ha Hs E h st Hl Ht. apply apply_batch_effect in E.
  destruct (loop _ _ _ r) as [r1 [e|acc]] eqn:El; [by destruct E|]. destruct E as (Hsame & _ & _).
  apply (apply_relations_sync env db Hdb truth batch _ _ _ _ _ (fun _ _ _ => False)) in El; [|done|done|].
  - apply map_eq. intros k. destruct (decide (st_Materialized st !! k = truth (st_Definition st) !! k)) as [|Hne]; [done|].
    exfalso. apply (El h st k); [by apply (live_at_same (rt_shapes r'))|done|done].
  - revert Hs. apply stale_weaken. intros ???. by left.
Qed.

Definition demo_after_batch : Runtime MemoryStore := (applyChangeBatch demo_env demo_config demo_lsn demo_batch demo_runtime).1.
Definition demo_refreshed : State := default zero_state (mgr_byHandle (rt_shapes demo_after_batch) !! "h").

Lemma demo_applied : applyChangeBatch demo_env demo_config demo_lsn demo_batch demo_runtime = (demo_after_batch, Ok tt).
Proof. vm_compute. reflexivity. Qed.

Lemma demo_refreshed_live : live_at "h" demo_refreshed (rt_shapes demo_after_batch).
Proof. split; vm_compute; reflexivity. Qed.

Lemma demo_answers : answers_truly demo_db demo_truth (rt_relationCache demo_runtime) demo_batch demo_shapes.
Proof.
  intros id md h st snapshot Hid [-> ->]%demo_shapes_live E k Hk.
  unfold demo_runtime in Hid; cbn [rt_relationCache] in Hid. apply lookup_singleton_Some in Hid as [<- <-]. vm_compute in E. injection E as <-.
  unfold targetedKeySet in Hk. apply elem_of_list_to_set in Hk. vm_compute in Hk.
  apply elem_of_cons in Hk as [->|Hk]; [vm_compute; reflexivity|].
  apply elem_of_cons in Hk as [->|Hk]; [vm_compute; reflexivity|]. by apply not_elem_of_nil in Hk.
Qed.

Lemma demo_stale : stale_only demo_truth
  (fun _ def k => exists id, id ∈ RelationIDs demo_batch /\ changed_by (rt_relationCache demo_runtime) demo_batch id def k) demo_shapes.
Proof.
  intros h st k [-> ->]%demo_shapes_live _ Hk. destruct (decide (k = demo_key "1" "x")) as [->|Hn].
  - exists 1. split; [apply (bool_decide_unpack _); vm_compute; exact I|].
    exists demo_relation. split_and!; [reflexivity|by left|split; [vm_compute; discriminate|]].
    exists (<["a" := Some "1"]> {["b" := Some "x"]}). split; [apply (bool_decide_unpack _); vm_compute; exact I|vm_compute; reflexivity].
  - destruct Hk. unfold demo_live, demo_truth; cbn [st_Materialized]. by rewrite !lookup_insert_ne by done.
Qed.

Lemma batch_brings_shapes_up_to_date_witness :
  st_Materialized demo_live <> demo_truth demo_def /\ st_Materialized demo_refreshed = demo_truth demo_def.
Proof.
  split; [apply (bool_decide_unpack _); vm_compute; exact I|].
  refine (eq_trans (batch_brings_shapes_up_to_date demo_env demo_config demo_lsn demo_db demo_truth demo_batch demo_runtime demo_after_batch
    demo_shapes_wf (fun _ => eq_refl) demo_answers demo_stale demo_applied "h" demo_refreshed demo_refreshed_live _) eq_refl).
  vm_compute. reflexivity.
Defined.



(** C18. A truncation leaves nothing that could be wrong: after the message is
    handled, no live shape is on a truncated relation or on its partition
    root, or depends on one through a subquery. *)
Theorem truncate_invalidates {S} `{CheckpointLaws S} (env : nat -> World) (cfg : runtimeConfig) (lsn_String : Z -> string)
    (relationIDs : list Z) (relationID : Z) (metadata : relationMetadata) (batch : ChangeBatch) (r r' : Runtime S) out :
  well_formed (rt_shapes r) -> relationID ∈ relationIDs -> rt_relationCache r !! relationID = Some metadata ->
  handleLogicalMessage env cfg lsn_String (TruncateMessage relationIDs) batch r = (r', Ok out) ->
  forall h st, live_at h st (rt_shapes r') -> ~ truncated_by metadata (st_Definition st).
Proof.
  intros Hwf Hin Hid E. cbn [handleLogicalMessage] in E. apply bind_Ok in E as (r1 & [] & E & E2). injection E2 as <- _.
  by apply (truncates_none env relationIDs relationID metadata r r1).
Qed.

Definition demo_truncated : Runtime MemoryStore :=
  (handleLogicalMessage demo_env demo_config demo_lsn (TruncateMessage [1]) demo_batch demo_runtime).1.

Lemma truncate_invalidates_witness : ~ live_at "h" demo_live (rt_shapes demo_truncated).
Proof.
  intros Hl. apply (truncate_invalidates demo_env demo_config demo_lsn [1] 1 demo_relation demo_batch demo_runtime demo_truncated (demo_batch, 0)
    demo_shapes_wf ltac:(by left) eq_refl ltac:(vm_compute; reflexivity) "h" demo_live Hl).
  left. reflexivity.
Defined.

(** C19. A relation message brings the schemas in line: the relation is cached
    under its id, and every shape on it or on its root that is still live has
    exactly the schema of the columns it projects. *)
Theorem relation_message_checks_schemas {S} `{CheckpointLaws S} (env : nat -> World) (cfg : runtimeConfig) (lsn_String : Z -> string)
    (relationID : Z) (relation : Relation) (batch : ChangeBatch) (r r' : Runtime S) out :
  well_formed (rt_shapes r) ->
  handleLogicalMessage env cfg lsn_String (RelationMessage relationID relation) batch r = (r', Ok out) ->
  exists metadata, rt_relationCache r' !! relationID = Some metadata /\ md_Relation metadata = relation /\
    md_PKColumns metadata = primaryKeyColumns (md_Columns metadata) /\
    forall h st, live_at h st (rt_shapes r') -> concerned metadata st -> current_schema metadata st.
Proof.
  intros Hwf E. cbn [handleLogicalMessage] in E. apply bind_Ok in E as (r1 & md & E & E2). injection E2 as <- _.
  exists md. pose proof (cached_schema env relationID relation md r r1 Hwf E) as [H1 H2].
  destruct (cached_entry env relationID relation md r r1 E) as [H3 H4]. done.
Qed.

(** The server's table lost a column: the shape is invalidated. *)
Definition demo_altered (_ : nat) : World :=
  mkWorld (fun _ => 1700000000000000)
    (mkDatabase None (fun _ => Ok (take 2 demo_described)) (fun _ => Ok None) (fun _ _ => Ok []) None (Ok ("10:10:", "0/10")) 0 None) None.

Lemma relation_message_checks_schemas_witness :
  let r' := (handleLogicalMessage demo_altered demo_config demo_lsn (RelationMessage 1 demo_items) demo_batch demo_runtime).1 in
  st_Deleted <$> (mgr_byHandle (rt_shapes r') !! "h") = Some true /\
  exists metadata, rt_relationCache r' !! 1 = Some metadata /\ md_Relation metadata = demo_items.
Proof.
  intros r'. split; [vm_compute; reflexivity|].
  destruct (relation_message_checks_schemas demo_altered demo_config demo_lsn 1 demo_items demo_batch demo_runtime r' (demo_batch, 0))
    as (md & H1 & H2 & _).
  - exact demo_shapes_wf.
  - vm_compute. reflexivity.
  - exists md. split; [exact H1|exact H2].
Defined.

(** The positions of the stream only go forward: through any rounds of
    the loop, failures included, the confirmed, the received and the server's
    position never decrease. *)
Theorem positions_never_go_back {S} `{CheckpointLaws S} (env : nat -> World) (cfg : runtimeConfig) (lsn_String : Z -> string)
    (events : list replicationEvent) (clientXLogPos : Z) (batch : ChangeBatch) (r : Runtime S) :
  positions_le r (replicationLoop env cfg lsn_String events clientXLogPos batch r).
Proof. apply loop_positions. Qed.

(** Names of slots and publications are valid: at most [maxLen] bytes,
    not empty, and only lower-case letters, digits and underscores. *)
Theorem compact_identifier_valid (value : string) (maxLen : nat) :
  (0 < maxLen)%nat ->
  let name := compactIdentifier value maxLen in
  (0 < String.length name <= maxLen)%nat /\ all_bytes slot_byte name = true.
Proof.
  intros Hn. unfold compactIdentifier. set (compact := String.rev _).
  assert (Hc : all_bytes slot_byte compact = true).
  { unfold compact. rewrite all_bytes_rev. apply trim_underscores_bytes. rewrite all_bytes_rev.
    apply trim_underscores_bytes, compact_from_bytes. }
  split; [split; [|apply take_bytes_length]|apply take_bytes_bytes; by case_decide].
  destruct maxLen as [|n]; [lia|]. case_decide as He; [cbn; lia|]. destruct compact; [done|]. cbn. lia.
Qed.

Lemma compact_identifier_valid_witness :
  all_bytes slot_byte (compactIdentifier "_My-App/Stream 1_" 10) = true /\ compactIdentifier "_My-App/Stream 1_" 10 = "my_app_str".
Proof. split; [apply (compact_identifier_valid "_My-App/Stream 1_" 10); lia|vm_compute; reflexivity]. Defined.


