(* ===== verification/Moves.v ===== *)
(** How the runtime moves the shapes and their store: the computations of
    [src/internal/pg/replication.go] as transitions of the shape manager and
    saves of the checkpoint. *)

From Stdlib Require Import Ascii String ZArith NArith Lia.
From stdpp Require Import relations.
From S2P Require Import Prelude ShapeTypes Diff Storage Manager Restart Effects ChangeBatch RelationCache Snapshot Replication.

#[local] Set Warnings "-clear-no-such-hyp".

(** * Definitions *)

(** A checkpoint is saved, or not: the store says which, and its error is
    another matter. *)
Definition with_checkpoint {S} `{Store S} (c : RuntimeCheckpoint) (m : Manager S) : Manager S :=
  set_store (SaveRuntimeCheckpoint c (mgr_store m)).1 m.

Inductive rstep {S} `{Store S} (m : Manager S) : Manager S -> Prop :=
| rstep_shapes m' : mstep m m' -> rstep m m'
| rstep_checkpoint c : rstep m (with_checkpoint c m).

(** * Lemmas *)

Section moves.
Context {S : Type} {store_ops : Store S} {store_laws : CheckpointLaws S}.
#[local] Abbreviation Runtime := (Runtime S).
#[local] Abbreviation Manager := (Manager S).
#[local] Abbreviation Run := (@Run S).
Variable env : nat -> World.
Variable cfg : runtimeConfig.
Variable lsn_String : Z -> string.
Variable ParseLSN : string -> option Z.

Lemma rstep_wf (m m' : Manager) : well_formed m -> rstep m m' -> well_formed m'.
Proof. intros Hwf [m1 Hm|c]; [by eapply mstep_well_formed|by apply (well_formed_same m)]. Qed.

Lemma rsteps_wf (m m' : Manager) : well_formed m -> rtc rstep m m' -> well_formed m'.
Proof. intros Hwf Hr. revert Hwf. induction Hr as [|a b c Hs _ IH]; [done|]. intros Hwf. by apply IH, (rstep_wf a). Qed.

Lemma msteps_rsteps (m m' : Manager) : rtc mstep m m' -> rtc rstep m m'.
Proof. apply rtc_subrel. intros a b. apply rstep_shapes. Qed.

(** A computation that does nothing else to well-formed shapes. *)
Definition moves {A} (x : Run A) : Prop := forall r,
  well_formed (rt_shapes r) -> rtc rstep (rt_shapes r) (rt_shapes (x r).1).

Lemma moves_bind {A B} (x : Run A) (f : A -> Run B) : moves x -> (forall a, moves (f a)) -> moves (x ≫= f).
Proof.
  intros Hx Hf r Hwf. unfold mbind, run_bind. specialize (Hx r Hwf). destruct (x r) as [r1 [e|a]]; [exact Hx|].
  cbn [fst] in Hx. etrans; [exact Hx|]. apply Hf. by eapply rsteps_wf.
Qed.

Lemma keeps_moves {A} (x : Run A) : keeps x -> moves x.
Proof. intros Hx r Hwf. apply msteps_rsteps. by apply Hx. Qed.

Lemma quiet_moves {A} (x : Run A) : quiet x -> moves x.
Proof. intros Hx. by apply keeps_moves, quiet_keeps. Qed.

Lemma checkpoint_moves (slot : string) (lsn : Z) (sysident : systemIdentity) : moves (saveRuntimeCheckpoint cfg lsn_String slot lsn sysident : Run unit).
Proof.
  intros r _. unfold saveRuntimeCheckpoint. set (c := mkCheckpoint _ _ _ _ _).
  pose proof (rstep_checkpoint (rt_shapes r) c) as Hs. unfold with_checkpoint in Hs.
  destruct (SaveRuntimeCheckpoint c _) as [s err]. by apply rtc_once.
Qed.

Lemma invalidate_all_moves (reason : string) : moves (invalidate_all env reason : Run unit).
Proof.
  apply moves_bind; [by apply quiet_moves|]. intros w. apply moves_bind; [|intros l; apply quiet_moves; auto with runs].
  intros r _. unfold call_invalidate_all. pose proof (step_invalidate_all (rt_shapes r) (w_clock w)) as Hs.
  destruct (InvalidateAll _ _) as [m [l err]]. by apply rtc_once, rstep_shapes, step_operation.
Qed.

(** ** The stream *)

Lemma batch_moves (batch : ChangeBatch) : moves (applyChangeBatch env cfg lsn_String batch : Run unit).
Proof.
  apply moves_bind; [apply keeps_moves, loop_keeps; intros; apply apply_relation_keeps|]. intros acc.
  destruct (0 <? _); [|by apply quiet_moves].
  do 5 (apply moves_bind; [by apply quiet_moves|intros ?]). apply checkpoint_moves.
Qed.

Lemma send_moves (lsn : Z) : moves (sendStandbyStatus env lsn : Run unit).
Proof. intros r _. destruct (sendStandbyStatus env lsn r) as [r' res] eqn:E. apply send_effect in E as [Hs _]. cbn [fst]. by rewrite Hs. Qed.

Lemma message_moves (message : logicalMessage) (batch : ChangeBatch) :
  moves (handleLogicalMessage env cfg lsn_String message batch : Run (ChangeBatch * Z)).
Proof.
  assert (Hk : (forall c e, message <> CommitMessage c e) -> moves (handleLogicalMessage env cfg lsn_String message batch : Run (ChangeBatch * Z)))
    by (intros Hm; by apply keeps_moves, message_keeps).
  destruct message as [| | | | | |c e|]; try (by apply Hk). cbn [handleLogicalMessage].
  apply moves_bind; [|intros _; apply moves_bind; [apply send_moves|intros _; by apply quiet_moves]].
  apply moves_bind; [by apply quiet_moves|]. intros w. apply moves_bind; [apply batch_moves|]. intros _.
  destruct (w_standby w); by apply quiet_moves.
Qed.

Lemma round_moves (event : replicationEvent) (pos : Z) (batch : ChangeBatch) :
  moves (loop_round env cfg lsn_String event pos batch : Run (Z * ChangeBatch)).
Proof.
  destruct event as [|lsn|start [e|message]|e|]; cbn [loop_round]; try by apply quiet_moves.
  - apply moves_bind; [apply send_moves|]. intros _. by apply quiet_moves.
  - apply moves_bind; [|intros _; by apply quiet_moves]. apply quiet_moves. intros r. unfold recordServerWALEnd, modify. cbn. by destruct (_ <? _).
  - apply moves_bind; [apply message_moves|]. intros [b l]. by apply moves_bind; [|intros _]; apply quiet_moves.
Qed.

(** ** The preparation of a start *)

Lemma prepare_moves (answers : slotAnswers) (sysident : systemIdentity) :
  moves (prepareReplicationStart env cfg ParseLSN answers sysident : Run (string * Z)).
Proof.
  do 3 (apply moves_bind; [by apply quiet_moves|intros ?]). case_match; [by apply quiet_moves|].
  destruct (slot_exists answers) as [e|ex]; [by apply quiet_moves|].
  do 2 (apply moves_bind; [destruct (_ && _); [apply invalidate_all_moves|by apply quiet_moves]|intros _]).
  apply moves_bind; [|intros ?; by apply quiet_moves]. apply quiet_moves. intros r. unfold start_position. destruct (negb ex).
  - destruct (slot_created answers); [by destruct (negb _)|by case_decide].
  - by destruct (_ && _).
Qed.
End moves.
