(* ===== verification/Lifecycle.v ===== *)
(** The life cycle of the runtime: [src/internal/pg/runtime.go], and what
    [src/internal/pg/replication.go] does to connect and to disconnect.

    Goroutines share the fields of the runtime under its lock.  A section of
    code that holds the lock is one step, and so is what lies between two
    sections: a question to the server, a round of a replication loop, the
    preparation of a start, a save of the checkpoint.  Four kinds of goroutines
    take steps in any order: the one that connects (first inside [Start], then
    the supervisor), the replication loops, the one that closes, and requests
    that need the pool.  The answers of the server are arguments of a step and
    differ from step to step; connections and pools are numbers. *)

From Stdlib Require Import Ascii String ZArith NArith Lia.
From stdpp Require Import relations.
From S2P Require Import Prelude GoValue ShapeTypes Diff Storage Persist Manager ShapeLog Effects ChangeBatch RelationCache Snapshot Replication Moves.

#[local] Set Warnings "-clear-no-such-hyp".

(** * Definitions *)

Inductive ServiceStatus : Type := StatusStarting | StatusWaiting | StatusActive | StatusSleeping | StatusStopped.

#[export] Instance ServiceStatus_eq_dec : EqDecision ServiceStatus.
Proof. solve_decision. Defined.

(** int32. *)
Definition wrap32 (z : Z) : Z := (z + 2147483648) mod 4294967296 - 2147483648.

(** Where the goroutine that connects is: the points of [ensurePool] and
    [ensureReplication] in their order, with the values held there. *)
Inductive connect_point : Type :=
| AtPool
| AtPoolInstall (pool : nat)
| AtFirstCheck
| AtCheck
| AtPublication
| AtDial
| AtIdentify (conn : nat)
| AtPrepare (conn : nat) (sysident : systemIdentity)
| AtStream (conn : nat) (slot : string) (start : Z) (sysident : systemIdentity)
| AtInstall (conn : nat) (slot : string) (start : Z) (sysident : systemIdentity)
| AtSpawn (conn : nat) (slot : string) (start : Z) (sysident : systemIdentity)
| AtSave (slot : string) (start : Z) (sysident : systemIdentity)
| AtStatus (connected : bool).

(** [Connecting false] is the attempt inside [Start], before the supervisor
    exists and is counted in [runWG]. *)
Inductive connector : Type :=
| NotStarted
| Connecting (supervised : bool) (at_ : connect_point)
| Ticking
| Exited.

(** Where [Close] is: [hadCtx] says that it found a run context. *)
Inductive closer : Type :=
| Open
| ClosingConn (replConn : option nat) (hadCtx : bool)
| WaitingLoops (hadCtx : bool)
| WaitingRun (hadCtx : bool)
| Closed (hadCtx : bool).

#[export] Instance closer_eq_dec : EqDecision closer.
Proof. solve_decision. Defined.

(** What the server answers to one attempt to connect. *)
Record connectAnswers : Type := mkConnectAnswers {
  ans_pool : bool;
  ans_publicationExists : result string bool;
  ans_createPublication : option string;
  ans_dial : bool;
  ans_sysident : result string systemIdentity;
  ans_slots : slotAnswers;
  ans_stream : bool
}.

Section life.
Context {S : Type} {store_ops : Store S}.

(** The fields of the runtime that its life cycle changes.  The run context
    and its cancel function are only compared with nil. *)
Record Fields : Type := mkFields {
  rf_rt : Runtime S;
  rf_status : ServiceStatus;
  rf_poolConfig : option Z;
  rf_pool : option nat;
  rf_conn : option nat;
  rf_cancel : option nat;
  rf_runCtx : bool;
  rf_runCancel : bool;
  rf_lastReplError : string
}.

(** What exists outside the fields: whether the run context is done, the
    loops whose context is done, the connections and the pools that are open,
    and the next number. *)
Record Resources : Type := mkResources {
  rs_ctxDone : bool;
  rs_cancelled : gset nat;
  rs_conns : gset nat;
  rs_pools : gset nat;
  rs_next : nat
}.

(** The goroutines; a loop has the client's position and its batch, a request
    the pool it has opened. *)
Record Life : Type := mkLife {
  lf_fields : Fields;
  lf_res : Resources;
  lf_connector : connector;
  lf_closer : closer;
  lf_loops : gmap nat (Z * ChangeBatch);
  lf_requests : gmap nat nat
}.

Definition set_fields (f : Fields) (l : Life) : Life :=
  mkLife f (lf_res l) (lf_connector l) (lf_closer l) (lf_loops l) (lf_requests l).
Definition set_res (r : Resources) (l : Life) : Life :=
  mkLife (lf_fields l) r (lf_connector l) (lf_closer l) (lf_loops l) (lf_requests l).
Definition set_connector (c : connector) (l : Life) : Life :=
  mkLife (lf_fields l) (lf_res l) c (lf_closer l) (lf_loops l) (lf_requests l).
Definition set_closer (c : closer) (l : Life) : Life :=
  mkLife (lf_fields l) (lf_res l) (lf_connector l) c (lf_loops l) (lf_requests l).
Definition set_loops (loops : gmap nat (Z * ChangeBatch)) (l : Life) : Life :=
  mkLife (lf_fields l) (lf_res l) (lf_connector l) (lf_closer l) loops (lf_requests l).
Definition set_requests (requests : gmap nat nat) (l : Life) : Life :=
  mkLife (lf_fields l) (lf_res l) (lf_connector l) (lf_closer l) (lf_loops l) requests.

Definition with_rt (r : Runtime S) (f : Fields) : Fields :=
  mkFields r (rf_status f) (rf_poolConfig f) (rf_pool f) (rf_conn f) (rf_cancel f) (rf_runCtx f) (rf_runCancel f) (rf_lastReplError f).
Definition with_status (s : ServiceStatus) (f : Fields) : Fields :=
  mkFields (rf_rt f) s (rf_poolConfig f) (rf_pool f) (rf_conn f) (rf_cancel f) (rf_runCtx f) (rf_runCancel f) (rf_lastReplError f).
Definition with_pool (p : option nat) (f : Fields) : Fields :=
  mkFields (rf_rt f) (rf_status f) (rf_poolConfig f) p (rf_conn f) (rf_cancel f) (rf_runCtx f) (rf_runCancel f) (rf_lastReplError f).

Definition on_rt (g : Runtime S -> Runtime S) (l : Life) : Life := set_fields (with_rt (g (rf_rt (lf_fields l))) (lf_fields l)) l.

Definition close_conn (c : nat) (l : Life) : Life :=
  let r := lf_res l in set_res (mkResources (rs_ctxDone r) (rs_cancelled r) (rs_conns r ∖ {[c]}) (rs_pools r) (rs_next r)) l.
Definition close_pool (p : nat) (l : Life) : Life :=
  let r := lf_res l in set_res (mkResources (rs_ctxDone r) (rs_cancelled r) (rs_conns r) (rs_pools r ∖ {[p]}) (rs_next r)) l.
(** A new connection or pool has the next number. *)
Definition open_conn (l : Life) : Life :=
  let r := lf_res l in
  set_res (mkResources (rs_ctxDone r) (rs_cancelled r) ({[rs_next r]} ∪ rs_conns r) (rs_pools r) (Datatypes.S (rs_next r))) l.
Definition open_pool (l : Life) : Life :=
  let r := lf_res l in
  set_res (mkResources (rs_ctxDone r) (rs_cancelled r) (rs_conns r) ({[rs_next r]} ∪ rs_pools r) (Datatypes.S (rs_next r))) l.
Definition fresh (l : Life) : nat := rs_next (lf_res l).

(** ** Sections under the lock *)

Definition NewRuntime (manager : Manager S) : Life :=
  mkLife (mkFields (mkRuntime manager 0 ∅ "" (mkSystem "" 0 0) false 0 0 0 0 0 ∅ 0 0) StatusStarting None None None None false false "")
    (mkResources false ∅ ∅ ∅ 0) NotStarted Open ∅ ∅.

Definition Status (l : Life) : ServiceStatus := rf_status (lf_fields l).

Definition hasReplicationConnection (l : Life) : bool := bool_decide (is_Some (rf_conn (lf_fields l))).

Definition setStatus (s : ServiceStatus) (l : Life) : Life :=
  if decide (Status l = StatusStopped) then l else set_fields (with_status s (lf_fields l)) l.

(** The first section of [Start]; a URL that does not parse is its error. *)
Definition start_fields (poolSize : Z) (f : Fields) : Fields :=
  mkFields (rf_rt f) StatusStarting (Some (wrap32 poolSize)) (rf_pool f) (rf_conn f) (rf_cancel f)
    true (if rf_runCtx f then rf_runCancel f else true) (rf_lastReplError f).
Definition Start (parsed : bool) (poolSize : Z) (l : Life) : Life :=
  if parsed then set_connector (Connecting false AtPool) (set_fields (start_fields poolSize (lf_fields l)) l)
  else set_connector Exited l.

(** The end of [ensurePool]: the pool is taken if there is none yet, else it
    is closed. *)
Definition install_pool (p : nat) (l : Life) : Life :=
  match rf_pool (lf_fields l) with
  | None => set_fields (with_pool (Some p) (lf_fields l)) l
  | Some _ => close_pool p l
  end.

(** The section of [ensureReplication] that makes a connection the runtime's. *)
Definition install_rt (slotName : string) (startLSN : Z) (sysident : systemIdentity) (r : Runtime S) : Runtime S :=
  set_positions startLSN startLSN (sys_XLogPos sysident)
    (set_connection slotName sysident true ∅ (rt_replicationErrors r) (rt_reconnects r) r).
Definition install (conn : nat) (slotName : string) (startLSN : Z) (sysident : systemIdentity) (l : Life) : Life :=
  let f := lf_fields l in
  set_fields (mkFields (install_rt slotName startLSN sysident (rf_rt f)) StatusActive (rf_poolConfig f) (rf_pool f)
    (Some conn) (Some conn) (rf_runCtx f) (rf_runCancel f) (rf_lastReplError f)) l.

(** [handleReplicationError]: it forgets the connection if it is still the
    runtime's. *)
Definition disconnect_rt (r : Runtime S) : Runtime S :=
  set_connection "" (rt_systemIdentity r) false ∅ (wrapu64 (rt_replicationErrors r + 1)) (wrapu64 (rt_reconnects r + 1)) r.
Definition handleReplicationError (err : string) (conn : nat) (l : Life) : Life :=
  let l := close_conn conn l in
  let f := lf_fields l in
  if decide (rf_conn f = Some conn) then
    set_fields (mkFields (disconnect_rt (rf_rt f))
      (if decide (rf_status f = StatusStopped) then rf_status f else StatusWaiting) (rf_poolConfig f) (rf_pool f)
      None None (rf_runCtx f) (rf_runCancel f) err) l
  else l.

(** The first section of [Close]: both contexts are cancelled. *)
Definition close_fields (f : Fields) : Fields :=
  mkFields (set_connection "" (rt_systemIdentity (rf_rt f)) false (rt_relationCache (rf_rt f))
      (rt_replicationErrors (rf_rt f)) (rt_reconnects (rf_rt f)) (rf_rt f))
    (rf_status f) (rf_poolConfig f) (rf_pool f) None None false false (rf_lastReplError f).
Definition close_begin (l : Life) : Life :=
  let f := lf_fields l in
  let r := lf_res l in
  mkLife (close_fields f)
    (mkResources (rs_ctxDone r || rf_runCancel f)
      (match rf_cancel f with Some c => {[c]} ∪ rs_cancelled r | None => rs_cancelled r end)
      (rs_conns r) (rs_pools r) (rs_next r))
    (lf_connector l) (ClosingConn (rf_conn f) (rf_runCtx f)) (lf_loops l) (lf_requests l).

Definition close_connection (replConn : option nat) (l : Life) : Life :=
  match replConn with Some c => close_conn c l | None => l end.

(** Its last section. *)
Definition close_end (l : Life) : Life :=
  let l := match rf_pool (lf_fields l) with Some p => close_pool p l | None => l end in
  set_fields (with_status StatusStopped (with_pool None (lf_fields l))) l.

(** The waits of [Close]: [replicationWG] counts the loops, [runWG] the
    supervisor. *)
Definition loops_done (l : Life) : bool := bool_decide (lf_loops l = ∅).
Definition run_done (l : Life) : bool :=
  match lf_connector l with Connecting true _ | Ticking => false | _ => true end.

(** ** Connecting *)

Variable env : nat -> World.
Variable cfg : runtimeConfig.
Variable lsn_String : Z -> string.
Variable ParseLSN : string -> option Z.
Variable error_text : runtimeError -> string.

Definition ensurePublication (a : connectAnswers) : option string :=
  match ans_publicationExists a with
  | Err e => Some e
  | Ok true => None
  | Ok false => ans_createPublication a
  end.

(** From one point of [connectRuntime] to the next.  A failure after the
    connection is dialled closes it. *)
Definition connect_step (a : connectAnswers) (p : connect_point) (l : Life) : Life * connect_point :=
  match p with
  | AtPool =>
      match rf_pool (lf_fields l), rf_poolConfig (lf_fields l) with
      | Some _, _ => (l, AtFirstCheck)
      | None, None => (l, AtStatus false)
      | None, Some _ => if ans_pool a then (open_pool l, AtPoolInstall (fresh l)) else (l, AtStatus false)
      end
  | AtPoolInstall pool => (install_pool pool l, AtFirstCheck)
  | AtFirstCheck => (l, if hasReplicationConnection l then AtStatus true else AtCheck)
  | AtCheck =>
      (l, if hasReplicationConnection l then AtStatus true
          else match rf_pool (lf_fields l) with None => AtStatus false | Some _ => AtPublication end)
  | AtPublication => (l, match ensurePublication a with Some _ => AtStatus false | None => AtDial end)
  | AtDial => if ans_dial a then (open_conn l, AtIdentify (fresh l)) else (l, AtStatus false)
  | AtIdentify conn =>
      match ans_sysident a with
      | Err _ => (close_conn conn l, AtStatus false)
      | Ok sysident => (l, AtPrepare conn sysident)
      end
  | AtPrepare conn sysident =>
      let '(r, res) := prepareReplicationStart env cfg ParseLSN (ans_slots a) sysident (rf_rt (lf_fields l)) in
      let l := on_rt (fun _ => r) l in
      match res with
      | Err _ => (close_conn conn l, AtStatus false)
      | Ok (slotName, startLSN) => (l, AtStream conn slotName startLSN sysident)
      end
  | AtStream conn slotName startLSN sysident =>
      if ans_stream a then (l, AtInstall conn slotName startLSN sysident) else (close_conn conn l, AtStatus false)
  | AtInstall conn slotName startLSN sysident =>
      (install conn slotName startLSN sysident l, AtSpawn conn slotName startLSN sysident)
  | AtSpawn conn slotName startLSN sysident =>
      (set_loops (<[conn := (startLSN, mkBatch 0 0 ∅ [])]> (lf_loops l)) l, AtSave slotName startLSN sysident)
  | AtSave slotName startLSN sysident =>
      let '(r, res) := saveRuntimeCheckpoint cfg lsn_String slotName startLSN sysident (rf_rt (lf_fields l)) in
      (on_rt (fun _ => r) l, AtStatus (match res with Ok _ => true | Err _ => false end))
  | AtStatus connected => (l, AtStatus connected)
  end.

(** The status that an attempt ends with: Active in [connectRuntime], Waiting
    where it is called. *)
Definition connect_status (connected : bool) (l : Life) : Life :=
  setStatus (if connected then StatusActive else StatusWaiting) l.

(** An attempt with nothing in between: [connectRuntime] from a point on. *)
Fixpoint connect_from (fuel : nat) (a : connectAnswers) (p : connect_point) (l : Life) : Life * option bool :=
  match p with
  | AtStatus connected => (connect_status connected l, Some connected)
  | _ =>
      match fuel with
      | O => (l, None)
      | Datatypes.S k => let '(l', p') := connect_step a p l in connect_from k a p' l'
      end
  end.
Definition connectRuntime (a : connectAnswers) (l : Life) : Life * option bool := connect_from 12 a AtPool l.

(** What the supervisor does at a tick. *)
Definition tick (l : Life) : Life :=
  if hasReplicationConnection l then l else set_connector (Connecting true AtPool) l.

(** ** Steps *)

Inductive lstep (l : Life) : Life -> Prop :=
| step_start parsed poolSize : lf_connector l = NotStarted -> lstep l (Start parsed poolSize l)
| step_connect a supervised p l' p' :
    lf_connector l = Connecting supervised p -> connect_step a p l = (l', p') -> p' <> p ->
    lstep l (set_connector (Connecting supervised p') l')
| step_connected supervised connected :
    lf_connector l = Connecting supervised (AtStatus connected) ->
    lstep l (set_connector Ticking (connect_status connected l))
| step_tick : lf_connector l = Ticking -> lstep l (tick l)
| step_exit : lf_connector l = Ticking -> rs_ctxDone (lf_res l) = true -> lstep l (set_connector Exited l)
| step_round conn pos batch event r pos' batch' :
    lf_loops l !! conn = Some (pos, batch) ->
    loop_round env cfg lsn_String event pos batch (rf_rt (lf_fields l)) = (r, Ok (pos', batch')) ->
    lstep l (set_loops (<[conn := (pos', batch')]> (lf_loops l)) (on_rt (fun _ => r) l))
| step_loop_fails conn pos batch event r e :
    lf_loops l !! conn = Some (pos, batch) ->
    loop_round env cfg lsn_String event pos batch (rf_rt (lf_fields l)) = (r, Err e) ->
    lstep l (handleReplicationError (error_text e) conn (set_loops (delete conn (lf_loops l)) (on_rt (fun _ => r) l)))
| step_loop_cancelled conn :
    is_Some (lf_loops l !! conn) -> conn ∈ rs_cancelled (lf_res l) -> lstep l (set_loops (delete conn (lf_loops l)) l)
| step_close : lf_closer l = Open -> lstep l (close_begin l)
| step_close_connection replConn hadCtx :
    lf_closer l = ClosingConn replConn hadCtx -> lstep l (set_closer (WaitingLoops hadCtx) (close_connection replConn l))
| step_loops_done hadCtx :
    lf_closer l = WaitingLoops hadCtx -> loops_done l = true -> lstep l (set_closer (WaitingRun hadCtx) l)
| step_close_end hadCtx :
    lf_closer l = WaitingRun hadCtx -> (hadCtx = true -> run_done l = true) -> lstep l (set_closer (Closed hadCtx) (close_end l))
| step_request n :
    lf_requests l !! n = None -> rf_pool (lf_fields l) = None -> is_Some (rf_poolConfig (lf_fields l)) ->
    lstep l (set_requests (<[n := fresh l]> (lf_requests l)) (open_pool l))
| step_request_pool n p :
    lf_requests l !! n = Some p -> lstep l (set_requests (delete n (lf_requests l)) (install_pool p l))
| step_shapes m : mstep (rt_shapes (rf_rt (lf_fields l))) m -> lstep l (on_rt (Replication.set_shapes m) l).

(** Steps in which nothing is connected once the run context is done. *)
Definition timely (l l' : Life) : Prop :=
  lstep l l' /\ (rs_ctxDone (lf_res l) = true -> rf_conn (lf_fields l') = None \/ rf_conn (lf_fields l') = rf_conn (lf_fields l)).

(** ** Metrics *)

Record MetricsSnapshot : Type := mkMetricsSnapshot {
  ms_Status : ServiceStatus;
  ms_ReplicationConnected : bool;
  ms_ReplicationSlot : string;
  ms_LastConfirmedLSN : string;
  ms_LastConfirmedBytes : Z;
  ms_LastReceivedLSN : string;
  ms_LastReceivedBytes : Z;
  ms_ServerWALEnd : string;
  ms_ServerWALEndBytes : Z;
  ms_WALRetainedBytes : Z;
  ms_Reconnects : Z;
  ms_ReplicationErrors : Z;
  ms_ChangeBatches : Z;
  ms_ChangeRecords : Z;
  ms_Invalidations : gmap string Z;
  ms_LastReplicationError : string
}.

Definition metrics (l : Life) : MetricsSnapshot :=
  let f := lf_fields l in
  let r := rf_rt f in
  let walRetained := if rt_lastConfirmedLSN r <? rt_serverWALEnd r then wrapu64 (rt_serverWALEnd r - rt_lastConfirmedLSN r) else 0 in
  mkMetricsSnapshot (rf_status f) (hasReplicationConnection l) (rt_replicationSlot r)
    (lsn_String (rt_lastConfirmedLSN r)) (rt_lastConfirmedLSN r) (lsn_String (rt_lastReceivedLSN r)) (rt_lastReceivedLSN r)
    (lsn_String (rt_serverWALEnd r)) (rt_serverWALEnd r) walRetained (rt_reconnects r) (rt_replicationErrors r)
    (rt_changeBatches r) (rt_changeRecords r) (rt_invalidations r) (rf_lastReplError f).
End life.
Arguments Fields S : clear implicits.
Arguments Life S : clear implicits.

(** ** Who holds what *)

(** The connection that the connecting goroutine has dialled and not yet given
    to the runtime, the one it has given to it and not yet started a loop for,
    and the pool it has opened. *)
Definition hand (c : connector) : option nat :=
  match c with
  | Connecting _ (AtIdentify conn | AtPrepare conn _ | AtStream conn _ _ _ | AtInstall conn _ _ _) => Some conn
  | _ => None
  end.
Definition spawning (c : connector) : option nat :=
  match c with Connecting _ (AtSpawn conn _ _ _) => Some conn | _ => None end.
Definition pool_hand (c : connector) : option nat :=
  match c with Connecting _ (AtPoolInstall pool) => Some pool | _ => None end.
(** Past the check for a connection, and not yet connected. *)
Definition unconnected (c : connector) : bool :=
  match c with
  | Connecting _ (AtPublication | AtDial | AtIdentify _ | AtPrepare _ _ | AtStream _ _ _ _ | AtInstall _ _ _ _) => true
  | _ => false
  end.
Definition closing (c : closer) : option nat := match c with ClosingConn replConn _ => replConn | _ => None end.

(** Loops, connections and the field agree. *)
Record streams_ok {S} (l : Life S) : Prop := {
  ok_cancel : rf_cancel (lf_fields l) = rf_conn (lf_fields l);
  ok_connected : rt_connected (rf_rt (lf_fields l)) = hasReplicationConnection l;
  ok_loop c : is_Some (lf_loops l !! c) -> rf_conn (lf_fields l) = Some c \/ c ∈ rs_cancelled (lf_res l);
  ok_conn c : rf_conn (lf_fields l) = Some c ->
    (c ∉ rs_cancelled (lf_res l)) /\ (is_Some (lf_loops l !! c) \/ spawning (lf_connector l) = Some c);
  ok_unconnected : unconnected (lf_connector l) = true -> rf_conn (lf_fields l) = None;
  ok_spawning c : spawning (lf_connector l) = Some c ->
    lf_loops l !! c = None /\ (rf_conn (lf_fields l) = Some c \/ c ∈ rs_cancelled (lf_res l));
  ok_hand c : hand (lf_connector l) = Some c -> (c ∉ rs_cancelled (lf_res l)) /\ lf_loops l !! c = None;
  ok_fresh c : (rf_conn (lf_fields l) = Some c \/ c ∈ rs_cancelled (lf_res l) \/ is_Some (lf_loops l !! c) \/
    hand (lf_connector l) = Some c \/ spawning (lf_connector l) = Some c) -> (c < fresh l)%nat
}.

(** What is open has an owner, and what an owner holds is open.  The
    connection that [Close] has taken may already be closed by its loop. *)
Record owned {S} (l : Life S) : Prop := {
  own_conn c : c ∈ rs_conns (lf_res l) ->
    (rf_conn (lf_fields l) = Some c \/ hand (lf_connector l) = Some c \/ closing (lf_closer l) = Some c);
  own_conn_open c : (rf_conn (lf_fields l) = Some c \/ hand (lf_connector l) = Some c) -> c ∈ rs_conns (lf_res l);
  own_closing c : closing (lf_closer l) = Some c -> c ∈ rs_cancelled (lf_res l);
  own_pool p : p ∈ rs_pools (lf_res l) <->
    (rf_pool (lf_fields l) = Some p \/ pool_hand (lf_connector l) = Some p \/ exists n, lf_requests l !! n = Some p);
  own_pool_fresh p : p ∈ rs_pools (lf_res l) -> (p < fresh l)%nat;
  own_pool_hand p : pool_hand (lf_connector l) = Some p -> rf_pool (lf_fields l) <> Some p;
  own_request n p : lf_requests l !! n = Some p ->
    rf_pool (lf_fields l) <> Some p /\ pool_hand (lf_connector l) <> Some p /\
    forall m, lf_requests l !! m = Some p -> m = n
}.

(** * Lemmas *)

Section runs.
Context {S : Type} {store_ops : Store S} {store_laws : CheckpointLaws S}.
#[local] Abbreviation Runtime := (Runtime S).
#[local] Abbreviation Run := (@Run S).
Variable env : nat -> World.
Variable cfg : runtimeConfig.
Variable lsn_String : Z -> string.
Variable ParseLSN : string -> option Z.

(** A computation that leaves the connection alone. *)
Definition steady {A} (x : Run A) : Prop := forall r, rt_connected (x r).1 = rt_connected r.

Lemma steady_bind {A B} (x : Run A) (f : A -> Run B) : steady x -> (forall a, steady (f a)) -> steady (x ≫= f).
Proof.
  intros Hx Hf r. unfold mbind, run_bind. specialize (Hx r). destruct (x r) as [r1 [e|a]]; [exact Hx|].
  cbn [fst] in Hx. by rewrite Hf.
Qed.

Lemma framed_steady {A} (x : Run A) : framed x -> steady x.
Proof. intros Hx r. by injection (Hx r). Qed.

Lemma steady_send (lsn : Z) : steady (sendStandbyStatus env lsn : Run unit).
Proof.
  apply steady_bind; [by apply framed_steady|]. intros w. destruct (w_standby w); [by apply framed_steady|].
  intros r. unfold recordConfirmedLSN, modify. cbn. by destruct (_ <? _).
Qed.

Lemma steady_message (message : logicalMessage) (batch : ChangeBatch) :
  steady (handleLogicalMessage env cfg lsn_String message batch : Run (ChangeBatch * Z)).
Proof.
  destruct message as [id relation|xid|id t|id k o t|id k o|ids|c e|]; cbn [handleLogicalMessage]; try by apply framed_steady.
  - apply steady_bind; [|intros md; by apply framed_steady].
    apply steady_bind; [by apply framed_steady|]. intros w. destruct (db_connect _); [by apply framed_steady|].
    do 2 (apply steady_bind; [by apply framed_steady|intros ?]). apply steady_bind; [done|]. intros _.
    apply steady_bind; [|intros _; by apply framed_steady]. apply framed_steady, schema_change_framed.
  - apply framed_steady, framed_bind; [|done]. apply framed_loop. intros id _. apply truncate_framed.
  - apply steady_bind; [apply framed_steady|intros _; apply steady_bind; [apply steady_send|intros _; by apply framed_steady]].
    apply framed_bind; [done|]. intros w. apply framed_bind; [apply framed_batch|]. intros _. by destruct (w_standby w).
Qed.

Lemma steady_round (event : replicationEvent) (pos : Z) (batch : ChangeBatch) :
  steady (loop_round env cfg lsn_String event pos batch : Run (Z * ChangeBatch)).
Proof.
  destruct event as [|lsn|start [e|message]|e|]; cbn [loop_round]; try by apply framed_steady.
  - apply steady_bind; [apply steady_send|]. intros _. by apply framed_steady.
  - apply steady_bind; [|intros _; by apply framed_steady]. intros r. unfold recordServerWALEnd, modify. cbn. by destruct (_ <? _).
  - apply steady_bind; [apply steady_message|]. intros [b l]. by apply steady_bind; [|intros _; apply framed_steady].
Qed.

Lemma steady_prepare (answers : slotAnswers) (sysident : systemIdentity) :
  steady (prepareReplicationStart env cfg ParseLSN answers sysident : Run (string * Z)).
Proof.
  assert (Hinv : forall reason, framed (invalidate_all env reason : Run unit)).
  { intros reason. apply framed_bind; [done|]. intros w. apply framed_bind; [|intros l; apply framed_invalidation].
    intros r. unfold call_invalidate_all. by destruct (InvalidateAll _ _) as [m [l err]]. }
  apply framed_steady. apply framed_bind; [done|]. intros w. apply framed_bind; [done|]. intros kind.
  apply framed_bind; [done|]. intros [e|found]; [done|]. destruct (slot_exists answers) as [e|ex]; [done|].
  apply framed_bind; [by destruct (_ && _)|]. intros _. apply framed_bind; [by destruct (_ && _)|]. intros _.
  apply framed_bind; [|done]. intros r. unfold start_position. destruct (negb ex).
  - destruct (slot_created answers); [by destruct (negb _)|by case_decide].
  - by destruct (_ && _).
Qed.
End runs.

Section streams.
Context {S : Type} {store_ops : Store S} {store_laws : CheckpointLaws S}.
#[local] Abbreviation Life := (Life S).
Variable env : nat -> World.
Variable cfg : runtimeConfig.
Variable lsn_String : Z -> string.
Variable ParseLSN : string -> option Z.
Variable error_text : runtimeError -> string.

(** Only the connecting goroutine moves, and what it holds does not change
    but for a connection it gives up. *)
Lemma move_streams (c : connector) (l : Life) :
  streams_ok l -> (spawning c = None \/ spawning c = spawning (lf_connector l)) ->
  (hand c = None \/ hand c = hand (lf_connector l)) ->
  (spawning c = None -> spawning (lf_connector l) = None) ->
  (unconnected c = true -> unconnected (lf_connector l) = true \/ rf_conn (lf_fields l) = None) ->
  streams_ok (set_connector c l).
Proof.
  intros [H1 H2 H3 H4 H5 H6 H7 H8] Hs Hh Hn Hu. split; cbn; try done.
  - naive_solver congruence.
  - intros Hc. destruct (Hu Hc); auto.
  - intros x Hx. apply H6. destruct Hs; congruence.
  - intros x Hx. apply H7. destruct Hh; congruence.
  - intros x Hx. apply H8. destruct Hs as [Hs|Hs], Hh as [Hh|Hh]; rewrite ?Hs, ?Hh in Hx; naive_solver.
Qed.

(** A part of the state that streams do not depend on changes. *)
Lemma frame_streams (l l' : Life) :
  streams_ok l -> rf_cancel (lf_fields l') = rf_cancel (lf_fields l) -> rf_conn (lf_fields l') = rf_conn (lf_fields l) ->
  rt_connected (rf_rt (lf_fields l')) = rt_connected (rf_rt (lf_fields l)) ->
  rs_cancelled (lf_res l') = rs_cancelled (lf_res l) -> (fresh l <= fresh l')%nat ->
  lf_connector l' = lf_connector l -> (forall c, is_Some (lf_loops l' !! c) <-> is_Some (lf_loops l !! c)) -> streams_ok l'.
Proof.
  intros [H1 H2 H3 H4 H5 H6 H7 H8] E1 E2 E3 E4 E5 E6 E7.
  assert (Hnone : forall c, lf_loops l' !! c = None <-> lf_loops l !! c = None) by (intros c; rewrite !eq_None_not_Some; by rewrite E7).
  split; unfold hasReplicationConnection; rewrite ?E1, ?E2, ?E3, ?E4, ?E6; try done;
    intros c; rewrite ?E7, ?Hnone; [apply H3|apply H4|apply H6|apply H7|].
  intros Hc. apply Nat.lt_le_trans with (fresh l); [by apply H8|done].
Qed.

(** The connecting goroutine dials a connection. *)
Lemma dial_streams (supervised : bool) (l : Life) :
  streams_ok l -> lf_connector l = Connecting supervised AtDial ->
  streams_ok (set_connector (Connecting supervised (AtIdentify (fresh l))) (open_conn l)).
Proof.
  intros [H1 H2 H3 H4 H5 H6 H7 H8] Hc. rewrite Hc in *. cbn in *.
  assert (Hf : (fresh l ∉ rs_cancelled (lf_res l)) /\ lf_loops l !! fresh l = None).
  { split; [intros Hin|apply eq_None_not_Some; intros Hin]; pose proof (H8 (fresh l)); naive_solver lia. }
  split; cbn; try done.
  - by intros c <-%(inj Some).
  - intros c Hx. fold (fresh l) in *. destruct Hx as [?|[?|[?|[<-%(inj Some)|?]]]]; [..|lia|done];
      apply Nat.lt_lt_succ_r, H8; naive_solver.
Qed.

Lemma install_streams (supervised : bool) (conn : nat) (slot : string) (start : Z) (sysident : systemIdentity) (l : Life) :
  streams_ok l -> lf_connector l = Connecting supervised (AtInstall conn slot start sysident) ->
  streams_ok (set_connector (Connecting supervised (AtSpawn conn slot start sysident)) (install conn slot start sysident l)).
Proof.
  intros [H1 H2 H3 H4 H5 H6 H7 H8] Hc. rewrite Hc in *. cbn in *. specialize (H5 eq_refl). destruct (H7 conn eq_refl) as [H9 H10].
  split; cbn; try done.
  - intros c Hl. right. destruct (H3 c Hl); congruence.
  - intros c [= <-]. auto.
  - intros c [= <-]. auto.
  - unfold fresh; cbn. intros c. specialize (H8 c). naive_solver.
Qed.

Lemma spawn_streams (supervised : bool) (conn : nat) (slot : string) (start : Z) (sysident : systemIdentity) (l : Life) x :
  streams_ok l -> lf_connector l = Connecting supervised (AtSpawn conn slot start sysident) ->
  streams_ok (set_connector (Connecting supervised (AtSave slot start sysident)) (set_loops (<[conn := x]> (lf_loops l)) l)).
Proof.
  intros [H1 H2 H3 H4 H5 H6 H7 H8] Hc. rewrite Hc in *. cbn in *. destruct (H6 conn eq_refl) as [H9 H10].
  split; cbn; try done.
  - intros c. rewrite lookup_insert_is_Some. intros [<-|[_ Hl]]; auto.
  - intros c Hl. destruct (H4 c Hl) as [? Hx]; (split; [done|left]); rewrite lookup_insert_is_Some; destruct (decide (conn = c)); naive_solver.
  - unfold fresh in *; cbn. intros c. rewrite lookup_insert_is_Some. specialize (H8 c). naive_solver.
Qed.

(** A loop that is not the runtime's ends. *)
Lemma end_streams (conn : nat) (l : Life) :
  streams_ok l -> conn ∈ rs_cancelled (lf_res l) -> streams_ok (set_loops (delete conn (lf_loops l)) l).
Proof.
  intros [H1 H2 H3 H4 H5 H6 H7 H8] Hc. split; cbn; try done; intros c; rewrite ?lookup_delete_is_Some, ?lookup_delete_None.
  - naive_solver.
  - intros Hx. destruct (H4 c Hx) as [? [?|?]]; split; auto. left. split; [congruence|done].
  - naive_solver.
  - naive_solver.
  - unfold fresh in *; cbn. naive_solver.
Qed.

Lemma error_streams (err : string) (conn : nat) (l : Life) :
  streams_ok l -> is_Some (lf_loops l !! conn) ->
  streams_ok (handleReplicationError err conn (set_loops (delete conn (lf_loops l)) l)).
Proof.
  intros Hok Hl. unfold handleReplicationError. cbn. case_decide as Hc.
  - destruct Hok as [H1 H2 H3 H4 H5 H6 H7 H8]. split; cbn; try done; intros c; rewrite ?lookup_delete_is_Some, ?lookup_delete_None.
    + intros [Hne Hx]. right. destruct (H3 c Hx); congruence.
    + intros Hx. destruct (H6 c Hx) as [H9 H10]. split; [auto|]. right. destruct H10 as [H10|]; [|done].
      rewrite Hc in H10. injection H10 as <-. rewrite H9 in Hl. by destruct Hl.
    + naive_solver.
    + unfold fresh in *; cbn. naive_solver.
  - apply (frame_streams (set_loops (delete conn (lf_loops l)) l)); try done. apply end_streams; [done|].
    by destruct (ok_loop l Hok conn Hl).
Qed.

Lemma close_begin_streams (l : Life) : streams_ok l -> streams_ok (close_begin l).
Proof.
  intros [H1 H2 H3 H4 H5 H6 H7 H8]. unfold close_begin. rewrite H1. split; cbn; try done.
  - intros c Hl. right. destruct (H3 c Hl) as [->|]; [set_solver|]. destruct (rf_conn (lf_fields l)); set_solver.
  - intros c Hs. destruct (H6 c Hs) as [H9 H10]. split; [done|]. right. destruct H10 as [->|]; [set_solver|].
    destruct (rf_conn (lf_fields l)); set_solver.
  - intros c Hs. destruct (H7 c Hs) as [H9 H10]. split; [|done]. destruct (rf_conn (lf_fields l)) as [x|] eqn:E; [|done].
    destruct (H4 x eq_refl) as [_ [Hx|Hx]].
    + intros [<-%elem_of_singleton|]%elem_of_union; [|done]. rewrite H10 in Hx. by destruct Hx.
    + destruct (lf_connector l) as [|s []| |]; done.
  - unfold fresh in *; cbn. intros c Hx. apply H8. destruct (rf_conn (lf_fields l)) as [x|] eqn:E; [|naive_solver].
    destruct Hx as [?|[Hx|?]]; [done| |naive_solver]. apply elem_of_union in Hx as [->%elem_of_singleton|?]; auto.
Qed.

#[local] Abbreviation connect_step := (connect_step env cfg lsn_String ParseLSN).
#[local] Abbreviation lstep := (lstep env cfg lsn_String ParseLSN error_text).

(** The connecting goroutine gives up what it holds, or goes on with it. *)
Ltac moves Hc := apply move_streams; [|cbn; rewrite ?Hc; cbn; by auto..].

Lemma connect_streams (a : connectAnswers) (supervised : bool) (p p' : connect_point) (l l' : Life) :
  streams_ok l -> lf_connector l = Connecting supervised p -> connect_step a p l = (l', p') ->
  streams_ok (set_connector (Connecting supervised p') l').
Proof.
  intros Hok Hc E.
  assert (Hclose : forall c, streams_ok (close_conn c l)) by (intros c; by apply (frame_streams l)).
  assert (Hrt : forall r, rt_connected r = rt_connected (rf_rt (lf_fields l)) -> streams_ok (on_rt (fun _ => r) l)).
  { intros r Hr. by apply (frame_streams l). }
  assert (Hnone : hasReplicationConnection l = false -> rf_conn (lf_fields l) = None).
  { unfold hasReplicationConnection. rewrite bool_decide_eq_false. by intros ?%eq_None_not_Some. }
  destruct p as [|pool| | | | |conn|conn sys|conn slot start sys|conn slot start sys|conn slot start sys|slot start sys|ok]; cbn in E.
  - repeat case_match; injection E as <- <-; moves Hc; try done. apply (frame_streams l); try done. unfold fresh; cbn; lia.
  - injection E as <- <-. unfold install_pool. destruct (rf_pool (lf_fields l)); moves Hc; by apply (frame_streams l).
  - injection E as <- <-. destruct (hasReplicationConnection l); by moves Hc.
  - injection E as <- <-. destruct (hasReplicationConnection l) eqn:Eh; [by moves Hc|]. destruct (rf_pool (lf_fields l)); by moves Hc.
  - injection E as <- <-. destruct (ensurePublication a); by moves Hc.
  - destruct (ans_dial a); injection E as <- <-; [by apply dial_streams|by moves Hc].
  - destruct (ans_sysident a); injection E as <- <-; by moves Hc.
  - pose proof (steady_prepare env cfg ParseLSN (ans_slots a) sys (rf_rt (lf_fields l))) as Hr.
    destruct (prepareReplicationStart _ _ _ _ _ _) as [r [e|[slot start]]]; injection E as <- <-; moves Hc; [|by apply Hrt].
    by apply (frame_streams (on_rt (fun _ => r) l)); [apply Hrt|..].
  - destruct (ans_stream a); injection E as <- <-; by moves Hc.
  - injection E as <- <-. by apply install_streams.
  - injection E as <- <-. by apply spawn_streams.
  - pose proof (framed_steady _ (framed_save cfg lsn_String slot start sys) (rf_rt (lf_fields l))) as Hr.
    destruct (saveRuntimeCheckpoint _ _ _ _ _ _) as [r res]; injection E as <- <-; moves Hc. by apply Hrt.
  - injection E as <- <-. by moves Hc.
Qed.

Lemma setStatus_streams (s : ServiceStatus) (l : Life) : streams_ok l -> streams_ok (setStatus s l).
Proof. intros Hok. unfold setStatus. case_decide; [done|]. by apply (frame_streams l). Qed.

Lemma lstep_streams (l l' : Life) : streams_ok l -> lstep l l' -> streams_ok l'.
Proof.
  intros Hok Hs.
  assert (Hpool : forall p, streams_ok (install_pool p l)).
  { intros p. unfold install_pool. destruct (rf_pool (lf_fields l)); by apply (frame_streams l). }
  destruct Hs as [parsed poolSize Hc|a sup p l' p' Hc E _|sup ok Hc|Hc|Hc Hd|conn pos batch event r pos' batch' Hl E|conn pos batch event r e Hl E
    |conn Hl Hin|Ho|replConn hadCtx Hcl|hadCtx Hcl Hd|hadCtx Hcl Hd|n Hn Hp Hcfg|n p Hn|m Hm].
  - unfold Start. destruct parsed; moves Hc; [|done]. by apply (frame_streams l).
  - by eapply connect_streams.
  - assert (Hc' : lf_connector (connect_status ok l) = Connecting sup (AtStatus ok)).
    { unfold connect_status, setStatus. by case_decide. }
    moves Hc'. by apply setStatus_streams.
  - unfold tick. destruct (hasReplicationConnection l); [done|by moves Hc].
  - by moves Hc.
  - pose proof (steady_round env cfg lsn_String event pos batch (rf_rt (lf_fields l))) as Hr. rewrite E in Hr.
    apply (frame_streams l); try done. intros c. cbn. rewrite lookup_insert_is_Some. split; [|destruct (decide (conn = c)); auto].
    intros [<-|[_ ?]]; [by eexists|done].
  - pose proof (steady_round env cfg lsn_String event pos batch (rf_rt (lf_fields l))) as Hr. rewrite E in Hr.
    apply (error_streams _ conn (on_rt (fun _ => r) l)); [by apply (frame_streams l)|by eexists].
  - by apply end_streams.
  - by apply close_begin_streams.
  - destruct replConn; by apply (frame_streams l).
  - by apply (frame_streams l).
  - unfold close_end. destruct (rf_pool (lf_fields l)); by apply (frame_streams l).
  - apply (frame_streams l); try done. unfold fresh; cbn; lia.
  - apply (frame_streams (install_pool p l)); try done.
  - by apply (frame_streams l).
Qed.

Lemma init_streams (m : Manager S) : streams_ok (NewRuntime m).
Proof.
  assert (Hn : forall c, ~ is_Some ((∅ : gmap nat (Z * ChangeBatch)) !! c)) by (intros c; rewrite lookup_empty; apply is_Some_None).
  split; try done.
  - by intros c Hc%Hn.
  - intros c [?|[?%elem_of_empty|[?%Hn|[?|?]]]]; done.
Qed.

(** ** Owners *)

Lemma frame_owned (l l' : Life) :
  owned l -> rf_conn (lf_fields l') = rf_conn (lf_fields l) -> rf_pool (lf_fields l') = rf_pool (lf_fields l) ->
  lf_res l' = lf_res l -> hand (lf_connector l') = hand (lf_connector l) -> pool_hand (lf_connector l') = pool_hand (lf_connector l) ->
  closing (lf_closer l') = closing (lf_closer l) -> lf_requests l' = lf_requests l -> owned l'.
Proof.
  intros [H1 H2 H3 H4 H5 H6 H7] E1 E2 E3 E4 E5 E6 E7. split; unfold fresh; rewrite ?E1, ?E2, ?E3, ?E4, ?E5, ?E6, ?E7; done.
Qed.

(** The connecting goroutine closes the connection it holds. *)
Lemma close_hand_owned (supervised : bool) (p : connect_point) (conn : nat) (connected : bool) (l : Life) :
  streams_ok l -> owned l -> lf_connector l = Connecting supervised p -> hand (lf_connector l) = Some conn ->
  owned (set_connector (Connecting supervised (AtStatus connected)) (close_conn conn l)).
Proof.
  intros Hok [H1 H2 H3 H4 H5 H6 H7] Hc Hh.
  assert (Hp : pool_hand (lf_connector l) = None) by (rewrite Hc in *; by destruct p).
  assert (Hn : rf_conn (lf_fields l) = None) by (apply (ok_unconnected l Hok); rewrite Hc in *; by destruct p).
  split; cbn; rewrite ?Hp in *; try done.
  - intros c [Hin Hne]%elem_of_difference. destruct (H1 c Hin) as [?|[Hx|?]]; [by left| |by right; right].
    rewrite Hh in Hx. injection Hx as ->. by destruct Hne; apply elem_of_singleton.
  - rewrite Hn. by intros c [?|?].
Qed.

Lemma dial_owned (supervised : bool) (l : Life) :
  owned l -> lf_connector l = Connecting supervised AtDial ->
  owned (set_connector (Connecting supervised (AtIdentify (fresh l))) (open_conn l)).
Proof.
  intros [H1 H2 H3 H4 H5 H6 H7] Hc. rewrite Hc in *. cbn in *. fold (fresh l). split; cbn; try done.
  - set_solver.
  - set_solver.
  - intros p Hp. apply Nat.lt_lt_succ_r. by apply H5.
Qed.

Lemma open_pool_owned (supervised : bool) (l : Life) :
  owned l -> lf_connector l = Connecting supervised AtPool -> rf_pool (lf_fields l) = None ->
  owned (set_connector (Connecting supervised (AtPoolInstall (fresh l))) (open_pool l)).
Proof.
  intros [H1 H2 H3 H4 H5 H6 H7] Hc Hn. rewrite Hc, Hn in *. cbn in *. fold (fresh l). split; cbn; rewrite ?Hn; try done.
  - intros p. rewrite elem_of_union, elem_of_singleton, H4. naive_solver.
  - intros p [->%elem_of_singleton|Hp%H5]%elem_of_union; unfold fresh in *; cbn; lia.
  - intros n p Hr. split_and!; [done| |by apply H7]. intros [= <-].
    assert (Hf : (fresh l < fresh l)%nat) by (apply H5, H4; eauto). lia.
Qed.

Lemma request_owned (n : nat) (l : Life) :
  owned l -> lf_requests l !! n = None -> rf_pool (lf_fields l) = None ->
  owned (set_requests (<[n := fresh l]> (lf_requests l)) (open_pool l)).
Proof.
  intros [H1 H2 H3 H4 H5 H6 H7] Hn Hp. rewrite Hp in *.
  assert (Hf : forall p, (pool_hand (lf_connector l) = Some p \/ exists m, lf_requests l !! m = Some p) -> p <> fresh l).
  { intros p Hx ->. assert (Hf : (fresh l < fresh l)%nat) by (apply H5, H4; auto). lia. }
  split; cbn; rewrite ?Hp; try done.
  - intros p. fold (fresh l). rewrite elem_of_union, elem_of_singleton, H4. split.
    + intros [->|[?|[?|(m & Hm)]]]; [right; right; exists n; apply lookup_insert_eq|done|auto|].
      right; right. exists m. rewrite lookup_insert_ne; congruence.
    + intros [?|[?|(m & Hm)]]; [done|auto|]. apply lookup_insert_Some in Hm as [[_ <-]|[_ Hm]]; [auto|]. right. right. right. eauto.
  - intros p [->%elem_of_singleton|Hx%H5]%elem_of_union; unfold fresh in *; cbn; lia.
  - intros m p [[<- <-]|[Hne Hm]]%lookup_insert_Some; split_and!; try done.
    + intros Hx. apply (Hf (fresh l)); auto.
    + intros m [[? _]|[_ Hm]]%lookup_insert_Some; [done|]. exfalso. apply (Hf (fresh l)); eauto.
    + by apply (H7 m p).
    + intros k [[<- <-]|[_ Hk]]%lookup_insert_Some; [|by apply (H7 m p)]. exfalso. apply (Hf (fresh l)); eauto.
Qed.

Lemma install_pool_owned (supervised : bool) (p : nat) (l : Life) :
  owned l -> lf_connector l = Connecting supervised (AtPoolInstall p) ->
  owned (set_connector (Connecting supervised AtFirstCheck) (install_pool p l)).
Proof.
  intros [H1 H2 H3 H4 H5 H6 H7] Hc. rewrite Hc in *. cbn in *. unfold install_pool.
  destruct (rf_pool (lf_fields l)) as [q|] eqn:Eq; split; cbn; rewrite ?Eq; try done.
  - intros x. rewrite elem_of_difference, elem_of_singleton, H4. split.
    + intros [[?|[[= ->]|?]] Hne]; auto. by destruct Hne.
    + intros [[= <-]|[?|(n & Hn)]]; [|done|]; (split; [eauto|]); [specialize (H6 p eq_refl); congruence|].
      intros ->. by destruct (H7 n p Hn) as (_ & ? & _).
  - intros x [Hx%H5 _]%elem_of_difference. done.
  - intros n x Hn. destruct (H7 n x Hn) as (? & _ & ?). done.
  - intros x. rewrite H4. naive_solver.
  - intros n x Hn. destruct (H7 n x Hn) as (_ & ? & ?). done.
Qed.

Lemma request_pool_owned (n p : nat) (l : Life) :
  owned l -> lf_requests l !! n = Some p -> owned (set_requests (delete n (lf_requests l)) (install_pool p l)).
Proof.
  intros [H1 H2 H3 H4 H5 H6 H7] Hn. destruct (H7 n p Hn) as (Hp1 & Hp2 & Hp3). unfold install_pool.
  assert (Hd : forall m x, delete n (lf_requests l) !! m = Some x -> lf_requests l !! m = Some x /\ x <> p).
  { intros m x [Hne Hm]%lookup_delete_Some. split; [done|]. intros ->. by apply Hne, eq_sym, Hp3. }
  destruct (rf_pool (lf_fields l)) as [q|] eqn:Eq; split; cbn; rewrite ?Eq; try done.
  - intros x. rewrite elem_of_difference, elem_of_singleton, H4. split.
    + intros [[?|[?|(m & Hm)]] Hne]; auto. right; right. exists m. rewrite lookup_delete_ne; [done|]. congruence.
    + intros [[= <-]|[?|(m & [Hm ?]%Hd)]]; (split; [eauto|]); congruence.
  - intros x [Hx%H5 _]%elem_of_difference. done.
  - intros m x [Hm Hne]%Hd. destruct (H7 m x Hm) as (? & ? & Hu). split_and!; [done..|]. intros k [Hk _]%Hd. by apply Hu.
  - intros x. rewrite H4. split.
    + intros [?|[?|(m & Hm)]]; auto; [done|]. destruct (decide (m = n)) as [->|]; [left; congruence|].
      right; right. exists m. by rewrite lookup_delete_ne.
    + intros [[= <-]|[?|(m & [Hm ?]%Hd)]]; eauto.
  - intros x Hx [= <-]. done.
  - intros m x [Hm Hne]%Hd. destruct (H7 m x Hm) as (_ & ? & Hu). split_and!; [congruence|done|]. intros k [Hk _]%Hd. by apply Hu.
Qed.

Lemma install_owned (supervised : bool) (conn : nat) (slot : string) (start : Z) (sysident : systemIdentity) (l : Life) :
  streams_ok l -> owned l -> lf_connector l = Connecting supervised (AtInstall conn slot start sysident) ->
  owned (set_connector (Connecting supervised (AtSpawn conn slot start sysident)) (install conn slot start sysident l)).
Proof.
  intros Hok [H1 H2 H3 H4 H5 H6 H7] Hc. pose proof (ok_unconnected l Hok) as Hn. rewrite Hc in *. cbn in *. rewrite Hn in * by done.
  split; cbn; try done.
  - naive_solver.
  - naive_solver.
Qed.

Lemma error_owned (err : string) (conn : nat) (l : Life) (loops : gmap nat (Z * ChangeBatch)) :
  streams_ok l -> owned l -> is_Some (lf_loops l !! conn) -> owned (handleReplicationError err conn (set_loops loops l)).
Proof.
  intros Hok [H1 H2 H3 H4 H5 H6 H7] Hl.
  assert (Hh : hand (lf_connector l) <> Some conn).
  { intros Hx. destruct (ok_hand l Hok conn Hx) as [_ Hn]. rewrite Hn in Hl. by destruct Hl. }
  unfold handleReplicationError. cbn. case_decide as Hc; split; cbn; try done.
  - intros c [Hin Hne%not_elem_of_singleton]%elem_of_difference. destruct (H1 c Hin) as [?|?]; [congruence|auto].
  - intros c [?|Hx]; [done|]. apply elem_of_difference. split; [auto|]. apply not_elem_of_singleton. congruence.
  - intros c [Hin _]%elem_of_difference. auto.
  - intros c Hx. apply elem_of_difference. split; [auto|]. apply not_elem_of_singleton. intros ->. by destruct Hx.
Qed.

Lemma close_begin_owned (l : Life) : streams_ok l -> owned l -> lf_closer l = Open -> owned (close_begin l).
Proof.
  intros Hok [H1 H2 H3 H4 H5 H6 H7] Ho. rewrite Ho in *. unfold close_begin. rewrite (ok_cancel l Hok). split; cbn; try done.
  - intros c Hin. destruct (H1 c Hin) as [?|[?|?]]; auto.
  - intros c [?|?]; auto. done.
  - intros c ->. set_solver.
Qed.

Lemma close_connection_owned (replConn : option nat) (hadCtx : bool) (l : Life) :
  streams_ok l -> owned l -> lf_closer l = ClosingConn replConn hadCtx ->
  owned (set_closer (WaitingLoops hadCtx) (close_connection replConn l)).
Proof.
  intros Hok [H1 H2 H3 H4 H5 H6 H7] Hc. rewrite Hc in *. cbn in *. destruct replConn as [x|]; split; cbn; try done.
  - intros c [Hin Hne%not_elem_of_singleton]%elem_of_difference. destruct (H1 c Hin) as [?|[?|?]]; [auto..|congruence].
  - intros c Hx. apply elem_of_difference. split; [auto|]. apply not_elem_of_singleton. intros ->.
    destruct Hx as [Hx|Hx]; [by destruct (ok_conn l Hok x Hx) as [Hn _]; apply Hn, H3|].
    by destruct (ok_hand l Hok x Hx) as [Hn _]; apply Hn, H3.
Qed.

Lemma close_end_owned (hadCtx : bool) (l : Life) :
  owned l -> lf_closer l = WaitingRun hadCtx -> owned (set_closer (Closed hadCtx) (close_end l)).
Proof.
  intros [H1 H2 H3 H4 H5 H6 H7] Hc. rewrite Hc in *. unfold close_end. destruct (rf_pool (lf_fields l)) as [p|] eqn:Ep; split; cbn; rewrite ?Ep; try done.
  - intros q. rewrite elem_of_difference, elem_of_singleton, H4. split.
    + intros [[?|?] Hne]; [congruence|auto].
    + intros [?|[Hx|(n & Hx)]]; [done|..].
      * split; [auto|]. intros ->. by apply (H6 p).
      * split; [eauto|]. intros ->. by destruct (H7 n p Hx).
  - intros q [Hq%H5 _]%elem_of_difference. done.
  - intros n q Hq. destruct (H7 n q Hq) as (_ & ? & ?). done.
Qed.

Ltac keeps_owners Hc := eapply frame_owned; [eassumption|cbn; rewrite ?Hc; reflexivity..].

Lemma connect_owned (a : connectAnswers) (supervised : bool) (p p' : connect_point) (l l' : Life) :
  streams_ok l -> owned l -> lf_connector l = Connecting supervised p -> connect_step a p l = (l', p') ->
  owned (set_connector (Connecting supervised p') l').
Proof.
  intros Hok Ho Hc E.
  destruct p as [|pool| | | | |conn|conn sys|conn slot start sys|conn slot start sys|conn slot start sys|slot start sys|ok]; cbn in E.
  - destruct (rf_pool (lf_fields l)) eqn:Ep; [|destruct (rf_poolConfig (lf_fields l)); [destruct (ans_pool a)|]]; injection E as <- <-;
      first [by apply open_pool_owned|keeps_owners Hc].
  - injection E as <- <-. by apply install_pool_owned.
  - injection E as <- <-. destruct (hasReplicationConnection l); keeps_owners Hc.
  - injection E as <- <-. destruct (hasReplicationConnection l); [keeps_owners Hc|]. destruct (rf_pool (lf_fields l)); keeps_owners Hc.
  - injection E as <- <-. destruct (ensurePublication a); keeps_owners Hc.
  - destruct (ans_dial a); injection E as <- <-; [by apply dial_owned|keeps_owners Hc].
  - destruct (ans_sysident a); injection E as <- <-; [|keeps_owners Hc]. eapply close_hand_owned; [done..|by rewrite Hc].
  - destruct (prepareReplicationStart _ _ _ _ _ _) as [r [e|[slot start]]]; injection E as <- <-; [|keeps_owners Hc].
    eapply frame_owned; [apply (close_hand_owned supervised (AtPrepare conn sys) conn false l); [done..|by rewrite Hc]|reflexivity..].
  - destruct (ans_stream a); injection E as <- <-; [keeps_owners Hc|]. eapply close_hand_owned; [done..|by rewrite Hc].
  - injection E as <- <-. by apply install_owned.
  - injection E as <- <-. keeps_owners Hc.
  - destruct (saveRuntimeCheckpoint _ _ _ _ _ _) as [r res]; injection E as <- <-; keeps_owners Hc.
  - injection E as <- <-. keeps_owners Hc.
Qed.

Lemma lstep_owned (l l' : Life) : streams_ok l -> owned l -> lstep l l' -> owned l'.
Proof.
  intros Hok Ho Hs.
  destruct Hs as [parsed poolSize Hc|a sup p l' p' Hc E _|sup ok Hc|Hc|Hc Hd|conn pos batch event r pos' batch' Hl E|conn pos batch event r e Hl E
    |conn Hl Hin|Hop|replConn hadCtx Hcl|hadCtx Hcl Hd|hadCtx Hcl Hd|n Hn Hp Hcfg|n p Hn|m Hm].
  - unfold Start. destruct parsed; keeps_owners Hc.
  - by eapply connect_owned.
  - unfold connect_status, setStatus. case_decide; keeps_owners Hc.
  - unfold tick. destruct (hasReplicationConnection l); [done|keeps_owners Hc].
  - keeps_owners Hc.
  - by apply (frame_owned l).
  - apply (error_owned _ conn (on_rt (fun _ => r) l)); [|by apply (frame_owned l)|by eexists].
    pose proof (steady_round env cfg lsn_String event pos batch (rf_rt (lf_fields l))) as Hr. rewrite E in Hr. by apply (frame_streams l).
  - by apply (frame_owned l).
  - by apply close_begin_owned.
  - by apply close_connection_owned.
  - apply (frame_owned l); rewrite ?Hcl; done.
  - by apply close_end_owned.
  - by apply request_owned.
  - by apply request_pool_owned.
  - by apply (frame_owned l).
Qed.

Lemma init_owned (m : Manager S) : owned (NewRuntime m).
Proof. split; cbn; try done; set_solver. Qed.

(** ** Shapes *)

(** A step of the runtime moves the shapes by transitions of the manager and
    saves of the checkpoint. *)
Lemma lstep_moves (l l' : Life) :
  well_formed (rt_shapes (rf_rt (lf_fields l))) -> lstep l l' ->
  rtc rstep (rt_shapes (rf_rt (lf_fields l))) (rt_shapes (rf_rt (lf_fields l'))).
Proof.
  intros Hwf Hs.
  assert (Hpool : forall p, rf_rt (lf_fields (install_pool p l)) = rf_rt (lf_fields l)).
  { intros p. unfold install_pool. by destruct (rf_pool (lf_fields l)). }
  destruct Hs as [parsed poolSize Hc|a sup p l' p' Hc E _|sup ok Hc|Hc|Hc Hd|conn pos batch event r pos' batch' Hl E|conn pos batch event r e Hl E
    |conn Hl Hin|Hop|replConn hadCtx Hcl|hadCtx Hcl Hd|hadCtx Hcl Hd|n Hn Hp Hcfg|n p Hn|m Hm]; cbn; try done.
  - unfold Start. by destruct parsed.
  - destruct p; cbn in E; try (repeat case_match; by injection E as <- _).
    + injection E as <- _. by rewrite Hpool.
    + pose proof (prepare_moves env cfg ParseLSN (ans_slots a) sysident _ Hwf) as Hm.
      destruct (prepareReplicationStart _ _ _ _ _ _) as [r [e|[slot start]]]; by injection E as <- _.
    + pose proof (checkpoint_moves cfg lsn_String slot start sysident _ Hwf) as Hm.
      destruct (saveRuntimeCheckpoint _ _ _ _ _ _) as [r res]. by injection E as <- _.
  - unfold connect_status, setStatus. by case_decide.
  - unfold tick. by destruct (hasReplicationConnection l).
  - pose proof (round_moves env cfg lsn_String event pos batch _ Hwf) as Hm. by rewrite E in Hm.
  - pose proof (round_moves env cfg lsn_String event pos batch _ Hwf) as Hm. rewrite E in Hm.
    unfold handleReplicationError. cbn. by case_decide.
  - by destruct replConn.
  - unfold close_end. by destruct (rf_pool (lf_fields l)).
  - by rewrite Hpool.
  - by apply rtc_once, rstep_shapes.
Qed.

Lemma lstep_wf (l l' : Life) :
  well_formed (rt_shapes (rf_rt (lf_fields l))) -> lstep l l' -> well_formed (rt_shapes (rf_rt (lf_fields l'))).
Proof. intros Hwf Hs. by eapply rsteps_wf, lstep_moves. Qed.

(** ** Reachable states *)

Record life_ok (l : Life) : Prop := {
  ok_streams : streams_ok l;
  ok_owned : owned l;
  ok_shapes : well_formed (rt_shapes (rf_rt (lf_fields l)))
}.

Lemma steps_ok (l l' : Life) : life_ok l -> rtc lstep l l' -> life_ok l'.
Proof.
  intros Hok Hr. revert Hok. induction Hr as [|x y z Hs _ IH]; [done|]. intros [H1 H2 H3]. apply IH.
  split; [by apply (lstep_streams x)|by apply (lstep_owned x)|by apply (lstep_wf x)].
Qed.

Lemma init_ok (m : Manager S) : well_formed m -> life_ok (NewRuntime m).
Proof. split; [apply init_streams|apply init_owned|done]. Qed.

Lemma reachable_ok (m : Manager S) (l : Life) : well_formed m -> rtc lstep (NewRuntime m) l -> life_ok l.
Proof. intros Hm. apply steps_ok. by apply init_ok. Qed.

(** ** Attempts to connect *)

(** The steps an attempt still has to make, at most. *)
Definition rank (p : connect_point) : nat :=
  match p with
  | AtPool => 12 | AtPoolInstall _ => 11 | AtFirstCheck => 10 | AtCheck => 9 | AtPublication => 8 | AtDial => 7
  | AtIdentify _ => 6 | AtPrepare _ _ => 5 | AtStream _ _ _ _ => 4 | AtInstall _ _ _ _ => 3 | AtSpawn _ _ _ _ => 2
  | AtSave _ _ _ => 1 | AtStatus _ => 0
  end.

Lemma connect_rank (a : connectAnswers) (p p' : connect_point) (l l' : Life) :
  connect_step a p l = (l', p') -> rank p <> 0%nat -> (rank p' < rank p)%nat.
Proof.
  intros E Hp. destruct p; cbn in E; try done; repeat case_match; injection E as _ <-; cbn; try lia; unfold hasReplicationConnection in *;
    repeat case_match; cbn; lia.
Qed.

(** The connecting goroutine's own place plays no part in its steps. *)
Lemma connect_step_connector (a : connectAnswers) (p : connect_point) (c : connector) (l : Life) :
  connect_step a p (set_connector c l) = ((set_connector c (connect_step a p l).1), (connect_step a p l).2).
Proof.
  destruct p; cbn; try reflexivity; unfold install_pool; cbn; try (by repeat case_match).
Qed.

Lemma connect_status_connector (connected : bool) (c : connector) (l : Life) :
  connect_status connected (set_connector c l) = set_connector c (connect_status connected l).
Proof. unfold connect_status, setStatus, Status. cbn. by case_decide. Qed.

#[local] Abbreviation connect_from := (connect_from env cfg lsn_String ParseLSN).

(** One more step, with fuel for it. *)
Lemma connect_from_next (k : nat) (a : connectAnswers) (p p1 : connect_point) (l l1 : Life) :
  connect_step a p l = (l1, p1) -> rank p <> 0%nat -> connect_from (Datatypes.S k) a p l = connect_from k a p1 l1.
Proof. intros E Hp. destruct p; cbn [rank] in Hp; try done; cbn [Lifecycle.connect_from]; by rewrite E. Qed.

(** What every step of an attempt keeps holds where it ends. *)
Lemma connect_from_inv (P : connect_point -> Life -> Prop) (fuel : nat) (a : connectAnswers) (p : connect_point) (l l' : Life) (connected : bool) :
  (forall p l l1 p1, P p l -> connect_step a p l = (l1, p1) -> rank p <> 0%nat -> P p1 l1) ->
  P p l -> connect_from fuel a p l = (l', Some connected) ->
  exists l1, P (AtStatus connected) l1 /\ l' = connect_status connected l1.
Proof.
  intros Hstep. revert p l. induction fuel as [|k IH]; intros p l HP E.
  { destruct p; try done. injection E as <- <-. by exists l. }
  destruct (decide (rank p = 0%nat)) as [Hz|Hz]; [destruct p; try done; injection E as <- <-; by exists l|].
  destruct (connect_step a p l) as [l1 p1] eqn:E1. rewrite (connect_from_next _ _ _ _ _ _ E1 Hz) in E.
  apply (IH p1 l1); [|done]. by apply (Hstep p l).
Qed.

(** Enough fuel: an attempt comes to its end. *)
Lemma connect_from_total (fuel : nat) (a : connectAnswers) (p : connect_point) (l : Life) :
  (rank p <= fuel)%nat -> exists l' connected, connect_from fuel a p l = (l', Some connected).
Proof.
  revert p l. induction fuel as [|k IH]; intros p l Hr; [destruct p; cbn in Hr; try lia; by eexists _, _|].
  destruct (decide (rank p = 0%nat)) as [Hz|Hp]; [destruct p; try done; by eexists _, _|].
  destruct (connect_step a p l) as [l1 p1] eqn:E1. pose proof (connect_rank _ _ _ _ _ E1 Hp).
  rewrite (connect_from_next _ _ _ _ _ _ E1 Hp). apply IH. lia.
Qed.

Lemma connectRuntime_total (a : connectAnswers) (l : Life) :
  exists l' connected, connectRuntime env cfg lsn_String ParseLSN a l = (l', Some connected).
Proof. by apply connect_from_total. Qed.

(** An attempt is a sequence of steps of the connecting goroutine. *)
Lemma connect_from_steps (fuel : nat) (a : connectAnswers) (supervised : bool) (p : connect_point) (l l' : Life) (connected : bool) :
  connect_from fuel a p l = (l', Some connected) ->
  rtc lstep (set_connector (Connecting supervised p) l) (set_connector Ticking l').
Proof.
  intros E. apply (connect_from_inv (fun p1 l1 => rtc lstep (set_connector (Connecting supervised p) l) (set_connector (Connecting supervised p1) l1)))
    in E as (l1 & Hr & ->); [| |done].
  - eapply rtc_r; [exact Hr|]. pose proof (step_connected env cfg lsn_String ParseLSN error_text
      (set_connector (Connecting supervised (AtStatus connected)) l1) supervised connected eq_refl) as Hs.
    by rewrite connect_status_connector in Hs.
  - intros p1 l1 l2 p2 Hr E1 Hz. pose proof (connect_rank _ _ _ _ _ E1 Hz) as Hlt. eapply rtc_r; [exact Hr|].
    apply (step_connect env cfg lsn_String ParseLSN error_text _ a supervised p1 (set_connector (Connecting supervised p1) l2)); [done| |intros ->; lia].
    by rewrite connect_step_connector, E1.
Qed.

Lemma connectRuntime_steps (a : connectAnswers) (supervised : bool) (l l' : Life) (connected : bool) :
  connectRuntime env cfg lsn_String ParseLSN a l = (l', Some connected) ->
  rtc lstep (set_connector (Connecting supervised AtPool) l) (set_connector Ticking l').
Proof. apply connect_from_steps. Qed.

(** From the moment a connection is the runtime's, the attempt can only fail
    to save the checkpoint. *)
Definition past_install (p : connect_point) : bool :=
  match p with AtSpawn _ _ _ _ | AtSave _ _ _ | AtStatus true => true | _ => false end.

Lemma connect_step_past (a : connectAnswers) (p p' : connect_point) (l l' : Life) :
  (past_install p = true -> is_Some (rf_conn (lf_fields l))) -> connect_step a p l = (l', p') ->
  past_install p' = true -> is_Some (rf_conn (lf_fields l')).
Proof.
  intros Hp E1.
  assert (Hh : hasReplicationConnection l = true -> is_Some (rf_conn (lf_fields l))) by (unfold hasReplicationConnection; by rewrite bool_decide_eq_true).
  destruct p; cbn in E1, Hp; try (repeat case_match; by injection E1 as <- <-).
Qed.

Lemma connect_from_outcome (fuel : nat) (a : connectAnswers) (p : connect_point) (l l' : Life) (connected : bool) :
  past_install p = false -> connect_from fuel a p l = (l', Some connected) ->
  (Status l' = StatusStopped \/ Status l' = if connected then StatusActive else StatusWaiting) /\
  (connected = true -> is_Some (rf_conn (lf_fields l'))).
Proof.
  intros Hp E. apply (connect_from_inv (fun p1 l1 => past_install p1 = true -> is_Some (rf_conn (lf_fields l1)))) in E as (l1 & Hc & ->).
  - unfold connect_status, setStatus. case_decide; (split; [auto|by intros ->; apply Hc]).
  - intros p1 l1 l2 p2 HP E1 _. by eapply connect_step_past.
  - by rewrite Hp.
Qed.

Lemma connectRuntime_outcome (a : connectAnswers) (l l' : Life) (connected : bool) :
  connectRuntime env cfg lsn_String ParseLSN a l = (l', Some connected) ->
  (Status l' = StatusStopped \/ Status l' = if connected then StatusActive else StatusWaiting) /\
  (connected = true -> is_Some (rf_conn (lf_fields l'))).
Proof. by apply connect_from_outcome. Qed.

(** An attempt does not stop the runtime. *)
Lemma connect_step_status (a : connectAnswers) (p p' : connect_point) (l l' : Life) :
  connect_step a p l = (l', p') -> Status l' = Status l \/ Status l' = StatusActive.
Proof.
  intros E. destruct p; cbn in E; try (repeat case_match; injection E as <- <-; first [by left|by right]).
  injection E as <- <-. left. unfold install_pool. by destruct (rf_pool _).
Qed.

Lemma connect_from_running (fuel : nat) (a : connectAnswers) (p : connect_point) (l l' : Life) (connected : bool) :
  Status l <> StatusStopped -> connect_from fuel a p l = (l', Some connected) ->
  Status l' = if connected then StatusActive else StatusWaiting.
Proof.
  intros Hl E. apply (connect_from_inv (fun _ l1 => Status l1 <> StatusStopped)) in E as (l1 & Hl1 & ->); [| |done].
  - unfold connect_status, setStatus. by rewrite decide_False.
  - intros p1 l1 l2 p2 H1 E1 _. destruct (connect_step_status _ _ _ _ _ E1) as [-> | ->]; done.
Qed.

Lemma connectRuntime_running (a : connectAnswers) (l l' : Life) (connected : bool) :
  Status l <> StatusStopped -> connectRuntime env cfg lsn_String ParseLSN a l = (l', Some connected) ->
  Status l' = if connected then StatusActive else StatusWaiting.
Proof. apply connect_from_running. Qed.

(** ** An attempt that connects *)

Definition succeeded {E A} (res : result E A) : bool := match res with Ok _ => true | Err _ => false end.

Definition answers_well (a : connectAnswers) (sysident : systemIdentity) : Prop :=
  ans_pool a = true /\ ensurePublication a = None /\ ans_dial a = true /\ ans_sysident a = Ok sysident /\ ans_stream a = true.

Lemma connect_from_end (k : nat) (a : connectAnswers) (connected : bool) (l : Life) :
  connect_from k a (AtStatus connected) l = (connect_status connected l, Some connected).
Proof. by destruct k. Qed.

(** From the first check on, with a pool and no connection. *)
Lemma connect_from_check (k : nat) (a : connectAnswers) (l : Life) (sysident : systemIdentity) (r r' : Runtime S)
    (slotName : string) (startLSN : Z) (res : result runtimeError unit) :
  rf_conn (lf_fields l) = None -> is_Some (rf_pool (lf_fields l)) -> answers_well a sysident ->
  prepareReplicationStart env cfg ParseLSN (ans_slots a) sysident (rf_rt (lf_fields l)) = (r, Ok (slotName, startLSN)) ->
  saveRuntimeCheckpoint cfg lsn_String slotName startLSN sysident (install_rt slotName startLSN sysident r) = (r', res) ->
  exists l', connect_from (10 + k) a AtFirstCheck l = (l', Some (succeeded res)) /\ exists c, rf_conn (lf_fields l') = Some c /\
    lf_loops l' !! c = Some (startLSN, mkBatch 0 0 ∅ []) /\ Status l' = (if succeeded res then StatusActive else StatusWaiting) /\
    rf_rt (lf_fields l') = r'.
Proof.
  intros Hn [p Hp] (_ & H2 & H3 & H4 & H5) Hprep Hsave.
  assert (Hh : hasReplicationConnection l = false) by (unfold hasReplicationConnection; by rewrite Hn).
  cbn [Nat.add].
  erewrite connect_from_next; [|cbn; rewrite Hh; reflexivity|done].
  erewrite connect_from_next; [|cbn; rewrite Hh, Hp; reflexivity|done].
  erewrite connect_from_next; [|cbn; rewrite H2; reflexivity|done].
  erewrite connect_from_next; [|cbn; rewrite H3; reflexivity|done].
  erewrite connect_from_next; [|cbn; rewrite H4; reflexivity|done].
  erewrite connect_from_next; [|cbn; rewrite Hprep; reflexivity|done].
  erewrite connect_from_next; [|cbn; rewrite H5; reflexivity|done].
  erewrite connect_from_next; [|reflexivity|done].
  erewrite connect_from_next; [|reflexivity|done].
  erewrite connect_from_next; [|cbn; rewrite Hsave; reflexivity|done].
  eexists. split; [apply (connect_from_end k a (succeeded res))|]. exists (fresh l). unfold connect_status, setStatus.
  destruct res; case_decide; cbn; by rewrite lookup_insert_eq.
Qed.

Lemma connectRuntime_succeeds (a : connectAnswers) (l : Life) (sysident : systemIdentity) (r r' : Runtime S) (slotName : string)
    (startLSN : Z) (res : result runtimeError unit) :
  rf_conn (lf_fields l) = None -> is_Some (rf_poolConfig (lf_fields l)) -> answers_well a sysident ->
  prepareReplicationStart env cfg ParseLSN (ans_slots a) sysident (rf_rt (lf_fields l)) = (r, Ok (slotName, startLSN)) ->
  saveRuntimeCheckpoint cfg lsn_String slotName startLSN sysident (install_rt slotName startLSN sysident r) = (r', res) ->
  exists l', connectRuntime env cfg lsn_String ParseLSN a l = (l', Some (succeeded res)) /\ exists c, rf_conn (lf_fields l') = Some c /\
    lf_loops l' !! c = Some (startLSN, mkBatch 0 0 ∅ []) /\ Status l' = (if succeeded res then StatusActive else StatusWaiting) /\
    rf_rt (lf_fields l') = r'.
Proof.
  intros Hn [size Hcfg] Ha Hprep Hsave. unfold connectRuntime. destruct (rf_pool (lf_fields l)) as [p|] eqn:Ep.
  - erewrite connect_from_next; [|cbn; rewrite Ep; reflexivity|done].
    apply (connect_from_check 1 a l sysident r r' slotName startLSN res); [done|by eexists|done..].
  - erewrite connect_from_next; [|cbn; rewrite Ep, Hcfg; destruct Ha as [-> _]; reflexivity|done].
    erewrite connect_from_next; [|reflexivity|done]. unfold install_pool. cbn [lf_fields open_pool set_res]. rewrite Ep.
    apply (connect_from_check 0 a _ sysident r r' slotName startLSN res); [done|by eexists|done..].
Qed.

(** ** Closing *)

(** [Close] has begun, on a runtime that was started, and nothing was
    connected since. *)
Record shut (l : Life) : Prop := {
  shut_closer : match lf_closer l with Open => False | ClosingConn _ c | WaitingLoops c | WaitingRun c | Closed c => c = true end;
  shut_ctx : rs_ctxDone (lf_res l) = true;
  shut_conn : rf_conn (lf_fields l) = None;
  shut_connector : match lf_connector l with Connecting false _ | NotStarted => False | _ => True end;
  shut_closed : lf_closer l = Closed true -> lf_connector l = Exited /\ Status l = StatusStopped
}.

(** The run context has a cancel function. *)
Definition run_ok (l : Life) : Prop := rf_runCtx (lf_fields l) = rf_runCancel (lf_fields l) /\
  (lf_closer l = Open -> match lf_connector l with Connecting _ _ | Ticking => rf_runCtx (lf_fields l) = true | _ => True end).

Lemma connect_step_closer (a : connectAnswers) (p p' : connect_point) (l l' : Life) :
  connect_step a p l = (l', p') -> lf_closer l' = lf_closer l /\ rs_ctxDone (lf_res l') = rs_ctxDone (lf_res l) /\
  rf_runCtx (lf_fields l') = rf_runCtx (lf_fields l) /\ rf_runCancel (lf_fields l') = rf_runCancel (lf_fields l).
Proof.
  intros E. destruct p; cbn in E; try (repeat case_match; by injection E as <- <-).
  injection E as <- <-. unfold install_pool. by destruct (rf_pool _).
Qed.

Lemma lstep_run_ok (l l' : Life) : run_ok l -> lstep l l' -> run_ok l'.
Proof.
  intros [H1 H2] Hs.
  destruct Hs as [parsed poolSize Hc|a sup p l' p' Hc E _|sup ok Hc|Hc|Hc Hd|conn pos batch event r pos' batch' Hl E|conn pos batch event r e Hl E
    |conn Hl Hin|Hop|replConn hadCtx Hcl|hadCtx Hcl Hd|hadCtx Hcl Hd|n Hn Hp Hcfg|n p Hn|m Hm].
  - unfold Start. destruct parsed; [|done]. split; cbn; [|done]. by destruct (rf_runCtx (lf_fields l)).
  - apply connect_step_closer in E as (E1 & E2 & E3 & E4). rewrite Hc in H2. split; cbn; [congruence|].
    rewrite E1, E3. done.
  - rewrite Hc in H2. unfold connect_status, setStatus. by case_decide.
  - unfold tick. destruct (hasReplicationConnection l); [done|]. rewrite Hc in H2. done.
  - done.
  - done.
  - unfold handleReplicationError. cbn. by case_decide.
  - done.
  - done.
  - by destruct replConn.
  - by rewrite Hcl in H2.
  - unfold close_end. by destruct (rf_pool (lf_fields l)).
  - done.
  - unfold install_pool. by destruct (rf_pool (lf_fields l)).
  - done.
Qed.

Lemma steps_run_ok (l l' : Life) : run_ok l -> rtc lstep l l' -> run_ok l'.
Proof. intros Hok Hr. revert Hok. induction Hr as [|x y z Hs _ IH]; [done|]. intros Hok. by apply IH, (lstep_run_ok x). Qed.

#[local] Abbreviation timely := (timely env cfg lsn_String ParseLSN error_text).

Lemma close_begin_shut (l : Life) :
  run_ok l -> lf_closer l = Open -> match lf_connector l with Connecting true _ | Ticking => True | _ => False end ->
  shut (close_begin l).
Proof.
  intros [H1 H2] Ho Hc. assert (Hx : rf_runCtx (lf_fields l) = true) by (destruct (lf_connector l) as [|[] ?| |]; try done; auto).
  split; cbn; try done.
  - by rewrite <- H1, Hx, orb_true_r.
  - by destruct (lf_connector l) as [|[] ?| |].
Qed.

Lemma timely_shut (l l' : Life) : shut l -> timely l l' -> shut l'.
Proof.
  intros [H1 H2 H3 H4 H5] [Hs Hconn]. specialize (Hconn H2). rewrite H3 in Hconn.
  assert (Hn : rf_conn (lf_fields l') = None) by (by destruct Hconn). clear Hconn. revert Hn.
  destruct Hs as [parsed poolSize Hc|a sup p l' p' Hc E _|sup ok Hc|Hc|Hc Hd|conn pos batch event r pos' batch' Hl E|conn pos batch event r e Hl E
    |conn Hl Hin|Hop|replConn hadCtx Hcl|hadCtx Hcl Hd|hadCtx Hcl Hd|n Hn Hp Hcfg|n p Hn|m Hm]; intros Hnone.
  - by rewrite Hc in H4.
  - apply connect_step_closer in E as (E1 & E2 & E3 & E4). rewrite Hc in *. split; cbn; rewrite ?E1, ?E2; try done. by intros [? _]%H5.
  - rewrite Hc in *. unfold connect_status, setStatus in *. case_decide; split; cbn; try done; by intros [? _]%H5.
  - unfold tick in *. destruct (hasReplicationConnection l); [done|]. rewrite Hc in *. split; cbn; try done. by intros [? _]%H5.
  - split; cbn; try done. rewrite Hc in *. by intros [? _]%H5.
  - by split.
  - unfold handleReplicationError in *. cbn in *. case_decide; [congruence|by split].
  - by split.
  - by rewrite Hop in H1.
  - rewrite Hcl in *. subst. by destruct replConn; split.
  - rewrite Hcl in *. subst. by split.
  - rewrite Hcl in *. subst. unfold close_end, run_done in *. specialize (Hd eq_refl).
    assert (Hx : lf_connector l = Exited) by (by destruct (lf_connector l) as [|[] ?| |]).
    destruct (rf_pool (lf_fields l)); split; cbn; by rewrite ?Hx.
  - by split.
  - unfold install_pool in *. by destruct (rf_pool (lf_fields l)); split.
  - by split.
Qed.

Lemma timely_steps (l l' : Life) : rtc timely l l' -> rtc lstep l l'.
Proof. induction 1 as [|x y z [Hs _] _ IH]; [done|]. by eapply rtc_l. Qed.

Lemma timely_shut_steps (l l' : Life) : shut l -> rtc timely l l' -> shut l'.
Proof. intros Hok Hr. revert Hok. induction Hr as [|x y z Hs _ IH]; [done|]. intros Hok. by apply IH, (timely_shut x). Qed.

(** A server that answers nothing. *)
Definition no_answers : connectAnswers :=
  mkConnectAnswers false (Err "no answer") None false (Err "no answer") (mkSlotAnswers (Ok false) (Err "no answer")) false.

Definition installing (c : connector) : bool := match c with Connecting _ (AtInstall _ _ _ _) => true | _ => false end.

Lemma timely_idle (l l' : Life) : lstep l l' -> rf_conn (lf_fields l') = rf_conn (lf_fields l) -> timely l l'.
Proof. intros Hs E. split; auto. Qed.

(** Steps of the connecting goroutine. *)
Definition advances (l l' : Life) : Prop :=
  timely l l' /\ lf_closer l' = lf_closer l /\ lf_requests l' = lf_requests l.

Lemma advances_timely (l l' : Life) : rtc advances l l' -> rtc timely l l'.
Proof. induction 1 as [|x y z [Hs _] _ IH]; [done|]. by eapply rtc_l. Qed.

Lemma connect_step_requests (a : connectAnswers) (p p' : connect_point) (l l' : Life) :
  connect_step a p l = (l', p') -> lf_requests l' = lf_requests l.
Proof.
  intros E. destruct p; cbn in E; try (repeat case_match; by injection E as <- <-).
  injection E as <- <-. unfold install_pool. by destruct (rf_pool _).
Qed.

Lemma connect_advances (a : connectAnswers) (supervised : bool) (p p' : connect_point) (l l1 : Life) :
  lf_connector l = Connecting supervised p -> connect_step a p l = (l1, p') -> rank p <> 0%nat ->
  (rs_ctxDone (lf_res l) = true -> rf_conn (lf_fields l1) = rf_conn (lf_fields l)) ->
  advances l (set_connector (Connecting supervised p') l1) /\ (rank p' < rank p)%nat.
Proof.
  intros Hc E Hz Hn. pose proof (connect_rank _ _ _ _ _ E Hz) as Hr. split; [|done].
  pose proof (connect_step_closer _ _ _ _ _ E) as (Hcl & _). pose proof (connect_step_requests _ _ _ _ _ E) as Hq.
  split_and!; [split|done..]; [|by intros Hd; right; apply Hn].
  apply (step_connect env cfg lsn_String ParseLSN error_text l a supervised p l1 p'); [done..|intros ->; lia].
Qed.

Lemma no_answer_step (supervised : bool) (p : connect_point) (l : Life) :
  lf_connector l = Connecting supervised p -> rank p <> 0%nat ->
  (rs_ctxDone (lf_res l) = true -> installing (Connecting supervised p) = false) ->
  exists l1 p1, advances l (set_connector (Connecting supervised p1) l1) /\ (rank p1 < rank p)%nat /\
    installing (Connecting supervised p1) = false.
Proof.
  intros Hc Hz Hi. destruct (connect_step no_answers p l) as [l1 p1] eqn:E. exists l1, p1.
  assert (Hx : (installing (Connecting supervised p) = false -> rf_conn (lf_fields l1) = rf_conn (lf_fields l)) /\
    installing (Connecting supervised p1) = false).
  { clear Hi. destruct p; cbn in E; try done; try (repeat case_match; by injection E as <- <-).
    injection E as <- <-. unfold install_pool. by destruct (rf_pool _). }
  destruct Hx as [Hx Hi1]. destruct (connect_advances no_answers supervised p p1 l l1) as [H1 H2]; auto.
Qed.

Lemma no_answer_ticks (supervised : bool) (p : connect_point) (l : Life) :
  lf_connector l = Connecting supervised p -> (rs_ctxDone (lf_res l) = true -> installing (lf_connector l) = false) ->
  exists l', rtc advances l l' /\ lf_connector l' = Ticking /\ lf_closer l' = lf_closer l.
Proof.
  remember (rank p) as n eqn:Hn. revert p l Hn. induction (lt_wf n) as [n _ IH]. intros p l -> Hc Hi.
  destruct (decide (rank p = 0%nat)) as [Hz|Hz].
  - destruct p as [| | | | | | | | | | | |ok]; try done.
    assert (Hsame : lf_closer (connect_status ok l) = lf_closer l /\ lf_requests (connect_status ok l) = lf_requests l /\
      rf_conn (lf_fields (connect_status ok l)) = rf_conn (lf_fields l)) by (unfold connect_status, setStatus; by case_decide).
    destruct Hsame as (H1 & H2 & H3). exists (set_connector Ticking (connect_status ok l)). split_and!; [|done..].
    apply rtc_once. split_and!; [|done..]. apply timely_idle; [by eapply step_connected|done].
  - rewrite Hc in Hi. destruct (no_answer_step supervised p l Hc Hz Hi) as (l1 & p1 & H1 & H3 & H4).
    destruct (IH (rank p1) H3 p1 (set_connector (Connecting supervised p1) l1)) as (l' & G1 & G2 & G3); [done..|].
    destruct H1 as (H1 & H2 & H5). exists l'. split_and!; [by eapply rtc_l|done|by rewrite G3].
Qed.

Lemma loops_end (l : Life) :
  (forall c, is_Some (lf_loops l !! c) -> c ∈ rs_cancelled (lf_res l)) -> rtc timely l (set_loops ∅ l).
Proof.
  intros Hc. remember (lf_loops l) as loops eqn:El. revert l El Hc. induction loops as [|c x loops Hn IH] using map_ind; intros l El Hc.
  - by destruct l; cbn in El; subst.
  - assert (Hd : delete c (lf_loops l) = loops) by (rewrite <- El; by apply delete_insert_id).
    eapply rtc_l; [|apply (IH (set_loops (delete c (lf_loops l)) l)); [done|]].
    + apply timely_idle; [|done]. assert (Hl : is_Some (lf_loops l !! c)) by (rewrite <- El, lookup_insert_eq; by eexists).
      apply step_loop_cancelled; [done|]. apply Hc. by rewrite El.
    + intros d Hl. apply Hc. rewrite lookup_insert_is_Some. destruct (decide (c = d)); auto.
Qed.

(** Unless a connection is just being given to the runtime, [Close] can come
    to its end with no answer from the server. *)
Lemma shut_finishes (l : Life) :
  life_ok l -> shut l -> installing (lf_connector l) = false -> exists l', rtc timely l l' /\ lf_closer l' = Closed true.
Proof.
  intros Hok Hsh Hi.
  assert (H1 : exists l1, rtc timely l l1 /\ lf_connector l1 = Exited /\ lf_closer l1 = lf_closer l).
  { assert (Htick : exists l1, rtc timely l l1 /\ (lf_connector l1 = Ticking \/ lf_connector l1 = Exited) /\ lf_closer l1 = lf_closer l).
    { pose proof (shut_connector l Hsh) as Hc. destruct (lf_connector l) as [|[] p| |] eqn:Ec; try done; [|exists l; split_and!; rewrite ?Ec; auto; done..].
      destruct (no_answer_ticks true p l) as (l1 & Hr & ? & ?); [done|by rewrite Ec|]. apply advances_timely in Hr. exists l1. auto. }
    destruct Htick as (l1 & Hr & [Ht|Hx] & Hcl); [|by exists l1]. exists (set_connector Exited l1). split_and!; [|done..].
    eapply rtc_r; [exact Hr|]. apply timely_idle; [|done]. apply step_exit; [done|]. by apply (shut_ctx l1), (timely_shut_steps l). }
  destruct H1 as (l1 & Hr1 & Hx1 & Hc1).
  assert (Hsh1 : shut l1) by (by apply (timely_shut_steps l)).
  assert (Hok1 : life_ok l1) by (by apply (steps_ok l), timely_steps).
  assert (Hr2 : rtc timely l1 (set_loops ∅ l1)).
  { apply loops_end. intros c Hl. destruct (ok_loop l1 (ok_streams l1 Hok1) c Hl) as [Hn|]; [|done]. by rewrite (shut_conn l1 Hsh1) in Hn. }
  set (l2 := set_loops ∅ l1) in *. assert (Hsh2 : shut l2) by (by apply (timely_shut_steps l1)).
  assert (Hl2 : lf_loops l2 = ∅) by done. assert (Hx2 : lf_connector l2 = Exited) by done. assert (Hc2 : lf_closer l2 = lf_closer l1) by done.
  assert (Hfin : forall l3, lf_closer l3 = WaitingRun true -> lf_connector l3 = Exited -> exists l', rtc timely l3 l' /\ lf_closer l' = Closed true).
  { intros l3 E1 E2. exists (set_closer (Closed true) (close_end l3)). split; [|done]. apply rtc_once, timely_idle.
    - apply step_close_end; [done|]. intros _. unfold run_done. by rewrite E2.
    - unfold close_end. by destruct (rf_pool _). }
  assert (Hloops : forall l3, lf_closer l3 = WaitingLoops true -> lf_connector l3 = Exited -> lf_loops l3 = ∅ ->
    exists l', rtc timely l3 l' /\ lf_closer l' = Closed true).
  { intros l3 E1 E2 E3. destruct (Hfin (set_closer (WaitingRun true) l3)) as (l' & G1 & G2); [done..|]. exists l'. split; [|done].
    eapply rtc_l; [|exact G1]. apply timely_idle; [|done]. apply step_loops_done; [done|]. unfold loops_done. by rewrite bool_decide_eq_true. }
  assert (Hend : exists l', rtc timely l2 l' /\ lf_closer l' = Closed true).
  { pose proof (shut_closer l2 Hsh2) as Hcl. destruct (lf_closer l2) as [|rc ?|?|?|?] eqn:Ecl; subst; [done| |by apply Hloops|by apply Hfin|by exists l2].
    destruct (Hloops (set_closer (WaitingLoops true) (close_connection rc l2))) as (l' & G1 & G2); [done|by destruct rc..|].
    exists l'. split; [|done]. eapply rtc_l; [|exact G1]. apply timely_idle; [by apply step_close_connection|by destruct rc]. }
  destruct Hend as (l' & Hr3 & Hcl). exists l'. split; [|done]. etrans; [exact Hr1|]. by etrans.
Qed.
End streams.

(** * Properties *)

(** C10. There is at most one live stream.  In every state the runtime can
    reach, a replication loop whose context is not cancelled is the one of the
    runtime's connection, so there are never two, and a connection of the
    runtime has a running loop, or is about to get it; the metrics say
    connected exactly then. *)
Theorem one_live_stream {S} `{CheckpointLaws S} (env : nat -> World) (cfg : runtimeConfig) (lsn_String : Z -> string)
    (ParseLSN : string -> option Z) (error_text : runtimeError -> string) (m : Manager S) (l : Life S) :
  well_formed m -> rtc (lstep env cfg lsn_String ParseLSN error_text) (NewRuntime m) l ->
  (forall c, is_Some (lf_loops l !! c) -> (c ∉ rs_cancelled (lf_res l)) -> rf_conn (lf_fields l) = Some c) /\
  (forall c, rf_conn (lf_fields l) = Some c ->
     (c ∉ rs_cancelled (lf_res l)) /\ (is_Some (lf_loops l !! c) \/ spawning (lf_connector l) = Some c)) /\
  ms_ReplicationConnected (metrics lsn_String l) = rt_connected (rf_rt (lf_fields l)) /\
  well_formed (rt_shapes (rf_rt (lf_fields l))).
Proof.
  intros Hm Hr. destruct (reachable_ok env cfg lsn_String ParseLSN error_text m l Hm Hr) as [Hs Ho Hw]. split_and!.
  - intros c Hl Hc. by destruct (ok_loop l Hs c Hl).
  - apply (ok_conn l Hs).
  - symmetry. apply (ok_connected l Hs).
  - done.
Qed.

(** C21. Nothing is leaked.  An open connection is the runtime's, held by the
    goroutine that connects, or being closed; an open pool is the runtime's or
    held by a goroutine that is about to install or to close it; and what they
    hold is open. *)
Theorem nothing_leaks {S} `{CheckpointLaws S} (env : nat -> World) (cfg : runtimeConfig) (lsn_String : Z -> string)
    (ParseLSN : string -> option Z) (error_text : runtimeError -> string) (m : Manager S) (l : Life S) :
  well_formed m -> rtc (lstep env cfg lsn_String ParseLSN error_text) (NewRuntime m) l ->
  (forall c, c ∈ rs_conns (lf_res l) ->
     (rf_conn (lf_fields l) = Some c \/ hand (lf_connector l) = Some c \/ closing (lf_closer l) = Some c)) /\
  (forall c, (rf_conn (lf_fields l) = Some c \/ hand (lf_connector l) = Some c) -> c ∈ rs_conns (lf_res l)) /\
  (forall p, p ∈ rs_pools (lf_res l) <->
     (rf_pool (lf_fields l) = Some p \/ pool_hand (lf_connector l) = Some p \/ exists n, lf_requests l !! n = Some p)).
Proof.
  intros Hm Hr. destruct (reachable_ok env cfg lsn_String ParseLSN error_text m l Hm Hr) as [Hs Ho Hw].
  split_and!; [apply (own_conn l Ho)|apply (own_conn_open l Ho)|apply (own_pool l Ho)].
Qed.



(** C12. A runtime that lost its stream gets it back.  At the next tick, if
    the server answers well, there is a run after which the runtime has a new
    connection, with a loop and positions that start where the preparation
    says.  Its status is active if the checkpoint was saved, else waiting. *)
Theorem reconnects {S} `{CheckpointLaws S} (env : nat -> World) (cfg : runtimeConfig) (lsn_String : Z -> string)
    (ParseLSN : string -> option Z) (error_text : runtimeError -> string) (a : connectAnswers) (l : Life S)
    (sysident : systemIdentity) (r : Runtime S) (slotName : string) (startLSN : Z) :
  lf_connector l = Ticking -> rf_conn (lf_fields l) = None -> is_Some (rf_poolConfig (lf_fields l)) -> answers_well a sysident ->
  prepareReplicationStart env cfg ParseLSN (ans_slots a) sysident (rf_rt (lf_fields l)) = (r, Ok (slotName, startLSN)) ->
  exists l' c, rtc (lstep env cfg lsn_String ParseLSN error_text) l l' /\ lf_connector l' = Ticking /\
    rf_conn (lf_fields l') = Some c /\ lf_loops l' !! c = Some (startLSN, mkBatch 0 0 ∅ []) /\
    Status l' = (if succeeded (saveRuntimeCheckpoint cfg lsn_String slotName startLSN sysident (install_rt slotName startLSN sysident r)).2
                 then StatusActive else StatusWaiting) /\
    rt_lastConfirmedLSN (rf_rt (lf_fields l')) = startLSN /\ rt_replicationSlot (rf_rt (lf_fields l')) = slotName.
Proof.
  intros Hc Hn Hcfg Ha Hprep.
  assert (Htick : lstep env cfg lsn_String ParseLSN error_text l (set_connector (Connecting true AtPool) l)).
  { pose proof (step_tick env cfg lsn_String ParseLSN error_text l Hc) as Hs. unfold tick, hasReplicationConnection in Hs. by rewrite Hn in Hs. }
  destruct (saveRuntimeCheckpoint cfg lsn_String slotName startLSN sysident _) as [r2 res] eqn:Es.
  destruct (connectRuntime_succeeds env cfg lsn_String ParseLSN a l sysident r r2 slotName startLSN res) as (l' & E & c & H1 & H2 & H3 & H4); [done..|].
  pose proof (framed_save cfg lsn_String slotName startLSN sysident (install_rt slotName startLSN sysident r)) as Hf. rewrite Es in Hf.
  injection Hf as _ Hslot _ _ Hconf _ _.
  exists (set_connector Ticking l'), c. split_and!; [|done..|cbn; by rewrite H4|cbn; by rewrite H4].
  eapply rtc_l; [exact Htick|]. exact (connectRuntime_steps env cfg lsn_String ParseLSN error_text a true l l' _ E).
Qed.

(** ** Small runs *)

Definition demo_parse (_ : string) : option Z := Some 90.
Definition demo_error (_ : runtimeError) : string := "connection lost".
#[local] Abbreviation demo_step := (lstep demo_env demo_config demo_lsn demo_parse demo_error).
#[local] Abbreviation demo_timely := (timely demo_env demo_config demo_lsn demo_parse demo_error).
Definition demo_good : connectAnswers :=
  mkConnectAnswers true (Ok true) None true (Ok demo_system) (mkSlotAnswers (Ok false) (Ok "0/5A")) true.

Definition demo_new : Life MemoryStore := NewRuntime demo_shapes.
Definition demo_connect (a : connectAnswers) (l : Life MemoryStore) : Life MemoryStore :=
  set_connector Ticking (connectRuntime demo_env demo_config demo_lsn demo_parse a l).1.
(** Started with a server that answers, and with one that does not. *)
Definition demo_started : Life MemoryStore := demo_connect demo_good (Start true 20 demo_new).
Definition demo_waiting : Life MemoryStore := demo_connect no_answers (Start true 20 demo_new).

Lemma demo_connect_steps (a : connectAnswers) (supervised : bool) (l : Life MemoryStore) :
  lf_connector l = Connecting supervised AtPool -> rtc demo_step l (demo_connect a l).
Proof.
  intros Hc. unfold demo_connect.
  destruct (connectRuntime_total demo_env demo_config demo_lsn demo_parse a l) as (l' & ok & E).
  pose proof (connectRuntime_steps demo_env demo_config demo_lsn demo_parse demo_error a supervised l l' ok E) as Hr.
  rewrite E. destruct l as [f r c cl loops reqs]. cbn in Hc. subst c. exact Hr.
Qed.

Lemma demo_started_steps (a : connectAnswers) : rtc demo_step demo_new (demo_connect a (Start true 20 demo_new)).
Proof.
  refine (rtc_l _ _ _ _ (step_start demo_env demo_config demo_lsn demo_parse demo_error demo_new true 20 eq_refl) _).
  exact (demo_connect_steps a false (Start true 20 demo_new) eq_refl).
Qed.

(** Any number of steps of the connecting goroutine. *)
Fixpoint demo_advance (n : nat) (a : connectAnswers) (p : connect_point) (l : Life MemoryStore) : connect_point * Life MemoryStore :=
  match n with
  | O => (p, l)
  | S k => let '(l', p') := connect_step demo_env demo_config demo_lsn demo_parse a p l in demo_advance k a p' l'
  end.

Lemma demo_advance_steps (n : nat) (a : connectAnswers) (supervised : bool) (p : connect_point) (l : Life MemoryStore) :
  rtc demo_step (set_connector (Connecting supervised p) l)
    (let '(p', l') := demo_advance n a p l in set_connector (Connecting supervised p') l').
Proof.
  revert p l. induction n as [|n IH]; intros p l; cbn [demo_advance]; [done|].
  destruct (connect_step demo_env demo_config demo_lsn demo_parse a p l) as [l1 p1] eqn:E.
  destruct (decide (rank p = 0%nat)) as [Hz|Hz].
  - destruct p; try done. cbn in E. injection E as <- <-. apply IH.
  - eapply rtc_l; [|apply IH]. pose proof (connect_rank _ _ _ _ _ _ _ _ _ E Hz) as Hr.
    apply (step_connect demo_env demo_config demo_lsn demo_parse demo_error _ a supervised p (set_connector (Connecting supervised p) l1) p1);
      [done| |intros ->; lia]. by rewrite connect_step_connector, E.
Qed.

Lemma one_live_stream_witness : rf_conn (lf_fields demo_started) = Some 1%nat /\ rt_connected (rf_rt (lf_fields demo_started)) = true.
Proof.
  destruct (one_live_stream demo_env demo_config demo_lsn demo_parse demo_error demo_shapes demo_started
    demo_shapes_wf (demo_started_steps demo_good)) as (H1 & H2 & H3 & _).
  split; [|rewrite <- H3; vm_compute; reflexivity].
  apply H1; [vm_compute; by eexists|]. apply (bool_decide_unpack _). vm_compute. exact I.
Defined.

Lemma nothing_leaks_witness : (1%nat ∈ rs_conns (lf_res demo_started)) /\ (0%nat ∈ rs_pools (lf_res demo_started)).
Proof.
  destruct (nothing_leaks demo_env demo_config demo_lsn demo_parse demo_error demo_shapes demo_started
    demo_shapes_wf (demo_started_steps demo_good)) as (_ & H2 & H3).
  split; [apply H2; left; vm_compute; reflexivity|]. apply H3. left. vm_compute. reflexivity.
Defined.

(** The runtime that was started is closed. *)
Definition demo_closing : Life MemoryStore := close_begin demo_started.
Definition demo_closing_loops : Life MemoryStore := set_closer (WaitingLoops true) (close_connection (Some 1%nat) demo_closing).
Definition demo_ended : Life MemoryStore := set_loops (delete 1%nat (lf_loops demo_closing_loops)) demo_closing_loops.
Definition demo_closing_run : Life MemoryStore := set_closer (WaitingRun true) demo_ended.
Definition demo_exited : Life MemoryStore := set_connector Exited demo_closing_run.
Definition demo_closed : Life MemoryStore := set_closer (Closed true) (close_end demo_exited).

Ltac demo_timely_step c := eapply rtc_l; [apply timely_idle; [c|vm_compute; reflexivity]|].

Lemma demo_closed_steps : rtc demo_timely demo_closing demo_closed.
Proof.
  demo_timely_step ltac:(apply (step_close_connection _ _ _ _ _ demo_closing (Some 1%nat) true); vm_compute; reflexivity).
  demo_timely_step ltac:(apply (step_loop_cancelled _ _ _ _ _ demo_closing_loops 1%nat);
    [vm_compute; by eexists|apply (bool_decide_unpack _); vm_compute; exact I]).
  demo_timely_step ltac:(apply (step_loops_done _ _ _ _ _ demo_ended true); vm_compute; reflexivity).
  demo_timely_step ltac:(apply (step_exit _ _ _ _ _ demo_closing_run); vm_compute; reflexivity).
  demo_timely_step ltac:(apply (step_close_end _ _ _ _ _ demo_exited true); [|intros _]; vm_compute; reflexivity).
  apply rtc_refl.
Qed.


Lemma reconnects_witness : exists l' c, rtc demo_step demo_waiting l' /\ Status demo_waiting = StatusWaiting /\
  rf_conn (lf_fields l') = Some c /\ Status l' = StatusActive.
Proof.
  destruct (reconnects demo_env demo_config demo_lsn demo_parse demo_error demo_good demo_waiting demo_system
    (prepareReplicationStart demo_env demo_config demo_parse (ans_slots demo_good) demo_system (rf_rt (lf_fields demo_waiting))).1
    (replicationSlotName demo_config "memory" 1700000000000000) 90) as (l' & c & H1 & H2 & H3 & H4 & H5 & H6).
  - reflexivity.
  - vm_compute. reflexivity.
  - vm_compute. by eexists.
  - by split_and!.
  - vm_compute. reflexivity.
  - exists l', c. split_and!; [exact H1|vm_compute; reflexivity|exact H3|]. rewrite H5. vm_compute. reflexivity.
Defined.

(** ** What can go wrong *)

Definition demo_at (connector_ : bool) (pl : connect_point * Life MemoryStore) : Life MemoryStore :=
  set_connector (Connecting connector_ pl.1) pl.2.

Lemma demo_at_steps (n : nat) (a : connectAnswers) (p : connect_point) (l : Life MemoryStore) :
  lf_connector l = Connecting true p -> rtc demo_step l (demo_at true (demo_advance n a p l)).
Proof.
  intros Hc. pose proof (demo_advance_steps n a true p l) as Hr. unfold demo_at. destruct (demo_advance n a p l) as [p' l'].
  destruct l as [f r c cl loops reqs]. cbn in Hc. subst c. exact Hr.
Qed.

(** The server has started the stream, and the connection is not yet the
    runtime's. *)
Definition race_streaming : Life MemoryStore := demo_at true (demo_advance 9 demo_good AtPool (tick demo_waiting)).
(** [Close] begins, finds no connection and no loop, and waits for the
    supervisor. *)
Definition race_closing : Life MemoryStore :=
  set_closer (WaitingRun true) (set_closer (WaitingLoops true) (close_connection None (close_begin race_streaming))).
(** The supervisor installs the connection, starts its loop, sees the end of
    its context and exits. *)
Definition race_installed : Life MemoryStore :=
  demo_at true (demo_advance 3 demo_good (AtInstall 1 (replicationSlotName demo_config "memory" 1700000000000000) 90 demo_system) race_closing).
Definition race_exited : Life MemoryStore := set_connector Exited (set_connector Ticking (connect_status true race_installed)).
Definition race_closed : Life MemoryStore := set_closer (Closed true) (close_end race_exited).

Lemma race_steps : rtc demo_step demo_new race_closed.
Proof.
  trans demo_waiting; [exact (demo_started_steps no_answers)|].
  eapply rtc_l; [apply (step_tick _ _ _ _ _ demo_waiting); reflexivity|].
  trans race_streaming; [apply demo_at_steps; vm_compute; reflexivity|].
  eapply rtc_l; [apply (step_close _ _ _ _ _ race_streaming); vm_compute; reflexivity|].
  eapply rtc_l; [apply (step_close_connection _ _ _ _ _ (close_begin race_streaming) None true); vm_compute; reflexivity|].
  eapply rtc_l; [apply (step_loops_done _ _ _ _ _ (set_closer (WaitingLoops true) (close_connection None (close_begin race_streaming))) true);
    vm_compute; reflexivity|].
  trans race_installed; [apply demo_at_steps; vm_compute; reflexivity|].
  eapply rtc_l; [apply (step_connected _ _ _ _ _ race_installed true true); vm_compute; reflexivity|].
  eapply rtc_l; [apply (step_exit _ _ _ _ _ (set_connector Ticking (connect_status true race_installed))); vm_compute; reflexivity|].
  eapply rtc_l; [apply (step_close_end _ _ _ _ _ race_exited true); [|intros _]; vm_compute; reflexivity|]. apply rtc_refl.
Qed.

(** Close can return and leave a stream behind: the connection that the
    supervisor was about to install is installed after [Close] has cancelled
    what there was to cancel, and nothing ever cancels its loop. *)
Example close_leaves_stream : rtc demo_step demo_new race_closed /\ lf_closer race_closed = Closed true /\
  Status race_closed = StatusStopped /\ rf_conn (lf_fields race_closed) = Some 1%nat /\
  is_Some (lf_loops race_closed !! 1%nat) /\ (1%nat ∉ rs_cancelled (lf_res race_closed)) /\ (1%nat ∈ rs_conns (lf_res race_closed)).
Proof.
  split_and!; [exact race_steps|..]; try (vm_compute; reflexivity).
  all: first [vm_compute; by eexists|apply (bool_decide_unpack _); vm_compute; exact I].
Qed.

(** The status can be active without a stream: the loop fails before the
    attempt that started it sets the status. *)
Definition demo_saving : Life MemoryStore := demo_at true (demo_advance 11 demo_good AtPool (tick demo_waiting)).
Definition demo_lost : Life MemoryStore :=
  handleReplicationError "connection lost" 1 (set_loops (delete 1%nat (lf_loops demo_saving)) (on_rt (fun r => r) demo_saving)).
Definition demo_saved_late : Life MemoryStore :=
  demo_at true (demo_advance 1 demo_good (AtSave (replicationSlotName demo_config "memory" 1700000000000000) 90 demo_system) demo_lost).
Definition demo_idle_active : Life MemoryStore := set_connector Ticking (connect_status true demo_saved_late).

Example active_without_stream : rtc demo_step demo_new demo_idle_active /\ Status demo_lost = StatusWaiting /\
  Status demo_idle_active = StatusActive /\ rf_conn (lf_fields demo_idle_active) = None /\ lf_loops demo_idle_active = ∅.
Proof.
  split; [|split_and!; vm_compute; reflexivity].
  assert (H1 : lf_connector demo_lost = Connecting true (AtSave (replicationSlotName demo_config "memory" 1700000000000000) 90 demo_system))
    by (vm_compute; reflexivity).
  assert (H2 : lf_connector demo_saved_late = Connecting true (AtStatus true)) by (vm_compute; reflexivity).
  trans demo_waiting; [exact (demo_started_steps no_answers)|].
  eapply rtc_l; [apply (step_tick _ _ _ _ _ demo_waiting); reflexivity|].
  trans demo_saving; [apply demo_at_steps; vm_compute; reflexivity|]. trans demo_lost.
  { apply rtc_once, (step_loop_fails demo_env demo_config demo_lsn demo_parse demo_error demo_saving 1%nat 90 (mkBatch 0 0 ∅ [])
      (ConnectionFailed "reset") (rf_rt (lf_fields demo_saving)) (ErrConnection "reset")); vm_compute; reflexivity. }
  trans demo_saved_late; [exact (demo_at_steps 1 demo_good _ demo_lost H1)|].
  exact (rtc_once _ _ (step_connected demo_env demo_config demo_lsn demo_parse demo_error demo_saved_late true true H2)).
Qed.

(** A request can open a pool after [Close]: nothing closes it. *)
Example pool_after_close : exists l, rtc demo_step demo_closed l /\ lf_closer l = Closed true /\ Status l = StatusStopped /\
  is_Some (rf_pool (lf_fields l)).
Proof.
  eexists. split_and!.
  - eapply rtc_l; [apply (step_request _ _ _ _ _ demo_closed 7%nat); [reflexivity|vm_compute; reflexivity|vm_compute; by eexists]|].
    eapply rtc_once, (step_request_pool _ _ _ _ _ _ 7%nat). apply lookup_insert_eq.
  - vm_compute. reflexivity.
  - vm_compute. reflexivity.
  - vm_compute. by eexists.
Qed.

(** The checkpoint can go back: the loop is started before the start position
    is saved, and a transaction it applies in between saves a later one. *)
Definition demo_committed : Life MemoryStore :=
  set_loops (<[1%nat := (95, mkBatch 0 0 ∅ [])]> (lf_loops demo_saving))
    (on_rt (fun r => (loop_round demo_env demo_config demo_lsn (DataReceived 91 (Ok (CommitMessage 95 95))) 90 (mkBatch 0 0 ∅ []) r).1) demo_saving).
Definition demo_overwritten : Life MemoryStore :=
  demo_at true (demo_advance 1 demo_good (AtSave (replicationSlotName demo_config "memory" 1700000000000000) 90 demo_system) demo_committed).
Definition demo_checkpoint (l : Life MemoryStore) : option string :=
  cp_LastConfirmedLSN <$> checkpoint_of (mgr_store (rt_shapes (rf_rt (lf_fields l)))).

Example checkpoint_goes_back : rtc demo_step demo_saving demo_overwritten /\
  demo_checkpoint demo_committed = Some "95" /\ demo_checkpoint demo_overwritten = Some "90".
Proof.
  split; [|split; vm_compute; reflexivity].
  assert (H1 : lf_connector demo_committed = Connecting true (AtSave (replicationSlotName demo_config "memory" 1700000000000000) 90 demo_system))
    by (vm_compute; reflexivity).
  trans demo_committed; [|exact (demo_at_steps 1 demo_good _ demo_committed H1)].
  apply rtc_once.
  refine (step_round demo_env demo_config demo_lsn demo_parse demo_error demo_saving 1%nat 90 (mkBatch 0 0 ∅ [])
    (DataReceived 91 (Ok (CommitMessage 95 95))) _ 95 (mkBatch 0 0 ∅ []) _ _); vm_compute; reflexivity.
Qed.
