(* ===== verification/Telemetry.v ===== *)
(** The metrics page: [src/internal/telemetry/provider.go].

    A provider counts requests by kind and writes one text with what the
    runtime and the store say at the moment.  The text is a list of families,
    each with a help line, a type line and its samples; a label is quoted with
    the verb %q of Go. *)

From Stdlib Require Import Ascii String ZArith NArith Lia.
From stdpp Require Import sorting.
From S2P Require Import Prelude GoValue JsonText GoFormat Config Storage Admission Request Response Service Lifecycle.

(** * Definitions *)

Record RuntimeMetrics : Type := mkRuntimeMetrics {
  rm_Status : string;
  rm_ReplicationConnected : bool;
  rm_ReplicationSlot : string;
  rm_LastConfirmedLSN : string;
  rm_LastConfirmedBytes : Z;
  rm_LastReceivedLSN : string;
  rm_LastReceivedBytes : Z;
  rm_ServerWALEnd : string;
  rm_ServerWALEndBytes : Z;
  rm_WALRetainedBytes : Z;
  rm_Reconnects : Z;
  rm_ReplicationErrors : Z;
  rm_ChangeBatches : Z;
  rm_ChangeRecords : Z;
  rm_Invalidations : gmap string Z;
  rm_LastReplicationError : string
}.

(** The counters are atomic: each addition is one step.  The first of a pair
    is the one of the kind "initial". *)
Record Provider : Type := mkProvider {
  pv_version : string;
  pv_MetricsPath : string;
  pv_admissionLimits : MaxConcurrentRequests;
  pv_shapeRequests : Z * Z;
  pv_shapeOverloads : Z * Z
}.

Definition NewProvider (version metricsPath : string) (limits : MaxConcurrentRequests) : Provider :=
  mkProvider version (if decide (metricsPath = "") then "/metrics" else metricsPath) limits (0, 0) (0, 0).

Definition MetricsPath (p : Provider) : string := pv_MetricsPath p.

(** [counterForKind(kind, counters).Add(1)]. *)
Definition counterForKind (kind : string) (counters : Z * Z) : Z * Z :=
  if decide (kind = "existing") then (counters.1, wrapu64 (counters.2 + 1)) else (wrapu64 (counters.1 + 1), counters.2).

Definition RecordShapeRequest (kind : string) (p : Provider) : Provider :=
  mkProvider (pv_version p) (pv_MetricsPath p) (pv_admissionLimits p) (counterForKind kind (pv_shapeRequests p)) (pv_shapeOverloads p).
Definition RecordShapeOverload (kind : string) (p : Provider) : Provider :=
  mkProvider (pv_version p) (pv_MetricsPath p) (pv_admissionLimits p) (pv_shapeRequests p) (counterForKind kind (pv_shapeOverloads p)).

(** The recorder of the service. *)
Definition record_event (p : Provider) (e : metric) : Provider :=
  match e with
  | ShapeRequested kind => RecordShapeRequest (admission_text kind) p
  | ShapeOverloaded kind => RecordShapeOverload (admission_text kind) p
  end.

(** ** Reasons in order

    The keys of a map come in any order; the loops of the code sort them by
    swapping neighbours. *)

(** The inner loop, from the index [j] down. *)
Fixpoint sift (j : nat) (reasons : list string) : list string :=
  match j with
  | O => reasons
  | S i =>
      match reasons !! j, reasons !! i with
      | Some x, Some y => if String.ltb x y then sift i (<[i := x]> (<[j := y]> reasons)) else reasons
      | _, _ => reasons
      end
  end.

Definition sortedInvalidationReasons (reasons : list string) : list string :=
  foldl (fun l i => sift i l) reasons (seq 1 (length reasons - 1)).

(** ** Families *)

Record family : Type := mkFamily { fam_name : string; fam_help : string; fam_type : string; fam_samples : list (string * string) }.

(** A sample is its labels, with their braces, and its value. *)
Definition sample_line (name : string) (s : string * string) : string := name +:+ s.1 +:+ " " +:+ s.2 +:+ str1 nl.

Definition print_family (f : family) : string :=
  "# HELP " +:+ fam_name f +:+ " " +:+ fam_help f +:+ str1 nl +:+
  "# TYPE " +:+ fam_name f +:+ " " +:+ fam_type f +:+ str1 nl +:+
  join "" (map (sample_line (fam_name f)) (fam_samples f)).

Definition quoted (s : string) : string := str1 dquote +:+ s +:+ str1 dquote.
Definition label (key value : string) : string := key +:+ "=" +:+ value.
Definition braces (labels : list string) : string := "{" +:+ join "," labels +:+ "}".

Section page.
(** Go's table of printable runes. *)
Variable is_print : N -> bool.

Definition kinds (key : string) (counters : list (string * Z)) : list (string * string) :=
  map (fun kv => (braces [label key (quoted kv.1)], format_Z kv.2)) counters.

Definition info (labels : list (string * string)) : list (string * string) :=
  [(braces (map (fun kv => label kv.1 (go_quote is_print kv.2)) labels), "1")].

Definition provider_families (p : Provider) : list family := [
  mkFamily "postgres_sync_go_info" "Static postgres-sync-go build information." "gauge" (info [("version", pv_version p)]);
  mkFamily "postgres_sync_go_admission_control_limit" "Configured concurrent Shape request limit." "gauge"
    (kinds "kind" [("initial", lim_Initial (pv_admissionLimits p)); ("existing", lim_Existing (pv_admissionLimits p))]);
  mkFamily "postgres_sync_go_shape_requests_total" "Shape requests admitted by admission bucket." "counter"
    (kinds "kind" [("initial", (pv_shapeRequests p).1); ("existing", (pv_shapeRequests p).2)]);
  mkFamily "postgres_sync_go_shape_overloads_total" "Shape requests rejected by admission bucket." "counter"
    (kinds "kind" [("initial", (pv_shapeOverloads p).1); ("existing", (pv_shapeOverloads p).2)])].

Definition count (z : Z) : list (string * string) := [("", format_Z z)].

(** [order]: the keys of the map of invalidations as the loop meets them. *)
Definition runtime_families (order : list string) (m : RuntimeMetrics) : list family := [
  mkFamily "postgres_sync_go_runtime_status" "Current runtime status as a labeled gauge." "gauge" (info [("status", rm_Status m)]);
  mkFamily "postgres_sync_go_replication_connected" "Whether the logical replication stream is connected." "gauge"
    (count (if rm_ReplicationConnected m then 1 else 0));
  mkFamily "postgres_sync_go_replication_lsn_bytes" "Runtime replication LSN positions converted to bytes." "gauge"
    (kinds "kind" [("confirmed", rm_LastConfirmedBytes m); ("received", rm_LastReceivedBytes m); ("server_wal_end", rm_ServerWALEndBytes m)]);
  mkFamily "postgres_sync_go_wal_retained_bytes" "Approximate bytes between server WAL end and confirmed replication LSN." "gauge"
    (count (rm_WALRetainedBytes m));
  mkFamily "postgres_sync_go_replication_reconnects_total" "Replication reconnect attempts after a connected stream failed." "counter"
    (count (rm_Reconnects m));
  mkFamily "postgres_sync_go_replication_errors_total" "Replication stream errors." "counter" (count (rm_ReplicationErrors m));
  mkFamily "postgres_sync_go_change_batches_total" "Applied logical replication transactions." "counter" (count (rm_ChangeBatches m));
  mkFamily "postgres_sync_go_change_records_total" "Changed primary keys processed from logical replication." "counter" (count (rm_ChangeRecords m));
  mkFamily "postgres_sync_go_invalidations_total" "Shape invalidations by reason." "counter"
    (if decide (rm_Invalidations m = ∅) then kinds "reason" [("none", 0)]
     else map (fun reason => (braces [label "reason" (go_quote is_print reason)], format_Z (default 0 (rm_Invalidations m !! reason))))
       (sortedInvalidationReasons order))] ++
  (if decide (rm_ReplicationSlot m = "") then []
   else [mkFamily "postgres_sync_go_replication_slot_info" "Current replication slot label." "gauge" (info [("slot", rm_ReplicationSlot m)])]) ++
  (if is_blank (rm_LastReplicationError m) then []
   else [mkFamily "postgres_sync_go_last_replication_error_info" "Last replication error label." "gauge" (info [("message", rm_LastReplicationError m)])]).

(** Samples of a store, with its kind under the given key. *)
Definition of_store (key kindKey kind : string) (counters : list (string * Z)) : list (string * string) :=
  map (fun kv => (braces [label key (quoted kv.1); label kindKey (go_quote is_print kind)], format_Z kv.2)) counters.

Definition store_families (stats : result string StoreStats) : list family :=
  match stats with
  | Err e => [mkFamily "postgres_sync_go_storage_stats_error" "Storage stats collection error." "gauge" (info [("message", e)])]
  | Ok s => [
      mkFamily "postgres_sync_go_storage_shapes" "Shape catalog entries by state." "gauge"
        (of_store "state" "kind" (stats_Kind s)
          [("active", stats_ActiveShapeCount s); ("deleted", stats_DeletedShapeCount s); ("total", stats_ShapeCount s)]);
      mkFamily "postgres_sync_go_storage_chunks" "Persisted change-log chunks and messages." "gauge"
        (of_store "kind" "store" (stats_Kind s) [("files", stats_ChunkCount s); ("messages", stats_ChangeCount s)]);
      mkFamily "postgres_sync_go_storage_bytes" "Storage bytes by component." "gauge"
        (of_store "component" "kind" (stats_Kind s)
          [("metadata", stats_MetadataBytes s); ("chunks", stats_ChunkBytes s); ("total", stats_TotalBytes s)])] ++
      (if stats_HasCheckpoint s then
         [mkFamily "postgres_sync_go_runtime_checkpoint_info" "Persisted runtime checkpoint label." "gauge"
            (info [("slot", cp_SlotName (stats_Checkpoint s)); ("lsn", cp_LastConfirmedLSN (stats_Checkpoint s));
               ("db", cp_DBName (stats_Checkpoint s))])]
       else [])
  end.

(** The runtime and the store are there once the engine has attached them. *)
Definition families (order : list string) (runtime : option RuntimeMetrics) (stats : option (result string StoreStats)) (p : Provider) : list family :=
  provider_families p ++ match runtime with Some m => runtime_families order m | None => [] end ++
  match stats with Some s => store_families s | None => [] end.

Definition ServeMetrics (order : list string) (runtime : option RuntimeMetrics) (stats : option (result string StoreStats)) (p : Provider) (w : Writer) : Writer :=
  foldl (fun w f => write_text (print_family f) w)
    (write_header 200 (set_header "Content-Type" "text/plain; version=0.0.4; charset=utf-8" w)) (families order runtime stats p).
End page.

(** ** A reader

    What a scraper makes of the page. *)

(** A line up to its last space, and what follows it. *)
Fixpoint cut_last_space (s : string) : option (string * string) :=
  match s with
  | EmptyString => None
  | String a s' =>
      match cut_last_space s' with
      | Some (x, y) => Some (String a x, y)
      | None => if decide (a = byte_of 32) then Some ("", s') else None
      end
  end.

(** The series and the values of the lines that are no comments. *)
Definition read_line (line : string) : list (string * string) :=
  if has_prefix "#" line then [] else match cut_last_space line with Some s => [s] | None => [] end.

Fixpoint lines_from (fuel : nat) (s : string) : list string :=
  match fuel with
  | O => []
  | S k => match cut_byte nl s with Some (line, rest) => line :: lines_from k rest | None => [] end
  end.

Definition scrape (page : string) : list (string * string) :=
  concat (map read_line (lines_from (String.length page) page)).

(** The value of a label after its opening quote, as the exposition format has
    it: three escapes, no newline. *)
Fixpoint read_label (s : string) : option (string * string) :=
  match s with
  | EmptyString => None
  | String a s' =>
      if decide (a = dquote) then Some ("", s')
      else if decide (a = backslash) then
        match s' with
        | String b s'' =>
            if decide (b = backslash \/ b = dquote) then '(v, r) ← read_label s''; Some (String b v, r)
            else if decide (b = byte_of 110) then '(v, r) ← read_label s''; Some (String nl v, r)
            else None
        | EmptyString => None
        end
      else if decide (a = nl) then None
      else '(v, r) ← read_label s'; Some (String a v, r)
  end.

Definition read_quoted (s : string) : option (string * string) :=
  match s with String a s' => if decide (a = dquote) then read_label s' else None | EmptyString => None end.

(** A text of printable runes and newlines. *)
Fixpoint printable_from (is_print : N -> bool) (k : nat) (s : string) : bool :=
  match s with
  | EmptyString => true
  | String a s' =>
      match k with
      | S k' => printable_from is_print k' s'
      | O =>
          match utf8_width s with
          | None => false
          | Some (S O) => (byte_between 32 126 a || bool_decide (a = nl)) && printable_from is_print 0 s'
          | Some w => is_print (rune_at s) && printable_from is_print (Nat.pred w) s'
          end
      end
  end.

(** ** Statements *)

(** The samples of a family, with its name. *)
Definition series (f : family) : list (string * string) := map (fun s => (fam_name f +:+ s.1, s.2)) (fam_samples f).

(** * Lemmas *)

(** ** Sorting *)

Lemma ltb_le (x y : string) : String.ltb x y = true -> String.le x y.
Proof. unfold String.ltb, String.le, String.leb. by destruct (String.compare x y). Qed.

Lemma ltb_ge (x y : string) : String.ltb x y = false -> String.le y x.
Proof. unfold String.ltb, String.le, String.leb. rewrite (String.compare_antisym y x). by destruct (String.compare x y). Qed.

(** An element is sifted into the sorted part in front of it. *)
Lemma sift_sorted (pre post : list string) (x : string) :
  StronglySorted String.le pre ->
  exists l, sift (length pre) (pre ++ x :: post) = l ++ post /\ l ≡ₚ x :: pre /\ StronglySorted String.le l.
Proof.
  revert post. induction pre as [|y pre IH] using rev_ind; intros post Hs; [exists [x]; by repeat constructor|].
  rewrite length_app. cbn [length]. rewrite Nat.add_1_r. cbn [sift].
  rewrite <- app_assoc. cbn [app]. rewrite (list_lookup_middle pre (x :: post) y (length pre) eq_refl).
  assert (Hx : (pre ++ y :: x :: post) !! S (length pre) = Some x).
  { rewrite lookup_app_r by lia. by replace (S (length pre) - length pre)%nat with 1%nat by lia. }
  rewrite Hx. apply StronglySorted_app in Hs as (Hle & Hs & _).
  destruct (String.ltb x y) eqn:E.
  - assert (Hswap : <[length pre:=x]> (<[S (length pre):=y]> (pre ++ y :: x :: post)) = pre ++ x :: y :: post).
    { rewrite insert_app_r_alt by lia. replace (S (length pre) - length pre)%nat with 1%nat by lia. cbn [list_insert insert].
      rewrite insert_app_r_alt by lia. by rewrite Nat.sub_diag. }
    rewrite Hswap. destruct (IH (y :: post)) as (l & -> & Hp & Hl); [done|]. exists (l ++ [y]). split_and!.
    + by rewrite <- app_assoc.
    + rewrite Hp. cbn. by rewrite (Permutation_app_comm pre [y]).
    + apply StronglySorted_app. split_and!; [|done|by repeat constructor].
      intros a b Ha ->%list_elem_of_singleton. rewrite Hp in Ha. apply elem_of_cons in Ha as [->|Ha]; [by apply ltb_le|].
      apply Hle; [done|by left].
  - exists (pre ++ [y; x]). split_and!; [by rewrite <- app_assoc| |].
    + change (pre ++ [y; x]) with (pre ++ [y] ++ [x]). rewrite app_assoc. by rewrite Permutation_app_comm.
    + apply StronglySorted_app. split_and!; [|done|repeat constructor; by apply ltb_ge].
      intros a b Ha Hb. assert (Hay : String.le a y) by (apply Hle; [done|by left]).
      apply elem_of_cons in Hb as [->|Hb]; [done|]. apply list_elem_of_singleton in Hb as ->. trans y; [done|by apply ltb_ge].
Qed.

Lemma insertion_sorted (n : nat) (pre post : list string) :
  n = length post -> StronglySorted String.le pre ->
  exists l, foldl (fun l i => sift i l) (pre ++ post) (seq (length pre) n) = l /\ l ≡ₚ pre ++ post /\ StronglySorted String.le l.
Proof.
  revert pre post. induction n as [|n IH]; intros pre post Hn Hs.
  { destruct post; [|done]. exists pre. by rewrite app_nil_r. }
  destruct post as [|x post]; [done|]. injection Hn as Hn. cbn [seq foldl].
  destruct (sift_sorted pre post x Hs) as (l & -> & Hp & Hl).
  replace (S (length pre)) with (length l) by (by rewrite Hp).
  destruct (IH l post Hn Hl) as (l' & E & Hp' & Hs'). exists l'. split_and!; [done| |done].
  rewrite Hp', Hp. by rewrite <- Permutation_middle.
Qed.

Lemma sortedInvalidationReasons_sorts (l : list string) : sortedInvalidationReasons l = sort_strings l.
Proof.
  destruct l as [|x l]; [done|]. unfold sortedInvalidationReasons. cbn [length]. rewrite Nat.sub_succ, Nat.sub_0_r.
  destruct (insertion_sorted (length l) [x] l eq_refl) as (l' & E & Hp & Hs); [by repeat constructor|].
  cbn [app length] in E. rewrite E. rewrite <- (sort_strings_id l' Hs). by apply sort_strings_unique.
Qed.

(** ** Quoting *)

(** A byte of a rune outside ASCII. *)
Definition high (c : ascii) : bool := (128 <=? code c)%N.

Lemma utf8_head (a : ascii) (s : string) (w : nat) : utf8_width (String a s) = Some w -> w <> 1%nat ->
  exists head rest, s = head +:+ rest /\ String.length head = Nat.pred w /\ all_bytes high (String a head) = true.
Proof.
  assert (Hc : forall lo hi b, byte_between lo hi b = true -> (128 <= lo)%N -> high b = true).
  { intros lo hi b [Hb _]%byte_between_spec Hlo. apply N.leb_le. lia. }
  unfold utf8_width. destruct (code a <? 128)%N; [by intros [= <-]|].
  destruct (byte_between 194 223 a) eqn:E2; [|destruct (byte_between 224 239 a) eqn:E3; [|destruct (byte_between 240 244 a) eqn:E4; [|done]]].
  - destruct s as [|b s]; [done|]. destruct (is_cont b) eqn:Eb; [|done]. intros [= <-] _.
    exists (String b ""), s. split_and!; [done|done|]. cbn. by rewrite (Hc _ _ _ E2), (Hc _ _ _ Eb) by lia.
  - destruct s as [|b [|c s]]; [done..|]. destruct (byte_between _ _ b && is_cont c) eqn:Eb; [|done]. intros [= <-] _.
    apply andb_true_iff in Eb as [Eb Ec]. exists (String b (String c "")), s. split_and!; [done|done|]. cbn.
    rewrite (Hc _ _ _ E3), (Hc _ _ _ Ec) by lia. rewrite (Hc _ _ _ Eb); [done|]. by destruct (code a =? 224)%N.
  - destruct s as [|b [|c [|d s]]]; [done..|]. destruct (byte_between _ _ b && is_cont c && is_cont d) eqn:Eb; [|done]. intros [= <-] _.
    rewrite !andb_true_iff in Eb. destruct Eb as [[Eb Ec] Ed]. exists (String b (String c (String d ""))), s. split_and!; [done|done|]. cbn.
    rewrite (Hc _ _ _ E4), (Hc _ _ _ Ec), (Hc _ _ _ Ed) by lia. rewrite (Hc _ _ _ Eb); [done|]. by destruct (code a =? 240)%N.
Qed.

Lemma utf8_width_pos (s : string) : utf8_width s <> Some 0%nat.
Proof. unfold utf8_width. repeat case_match; congruence. Qed.

Section quoting.
Variable is_print : N -> bool.

Lemma quote_skip (head rest : string) : quote_from is_print (String.length head) (head +:+ rest) = quote_from is_print 0 rest.
Proof. induction head as [|a head IH]; [done|exact IH]. Qed.

Lemma printable_skip (head rest : string) : printable_from is_print (String.length head) (head +:+ rest) = printable_from is_print 0 rest.
Proof. induction head as [|a head IH]; [done|exact IH]. Qed.

Lemma take_bytes_head (a : ascii) (head rest : string) : take_bytes (S (String.length head)) (String a (head +:+ rest)) = String a head.
Proof. revert a. induction head as [|b head IH]; intros a; [done|]. exact (f_equal (String a) (IH b)). Qed.

(** The three forms of a quoted rune. *)
Lemma quote_from_cases (a : ascii) (s : string) :
  (utf8_width (String a s) = None /\ quote_from is_print 0 (String a s) = "\x" +:+ hex_byte (code a) +:+ quote_from is_print 0 s) \/
  (utf8_width (String a s) = Some 1%nat /\ quote_from is_print 0 (String a s) = quote_ascii a +:+ quote_from is_print 0 s) \/
  (exists head rest, s = head +:+ rest /\ utf8_width (String a s) = Some (S (String.length head)) /\ head <> "" /\
    all_bytes high (String a head) = true /\
    quote_from is_print 0 (String a s) =
      (if is_print (rune_at (String a s)) then String a head
       else if (rune_at (String a s) <? 65536)%N then "\u" +:+ hex_digits 4 (rune_at (String a s))
       else "\U" +:+ hex_digits 8 (rune_at (String a s))) +:+ quote_from is_print 0 rest).
Proof.
  cbn [quote_from]. destruct (utf8_width (String a s)) as [w|] eqn:Ew; [|by left].
  destruct (decide (w = 1%nat)) as [->|Hw]; [right; left; done|]. right. right.
  destruct (utf8_head a s w Ew Hw) as (head & rest & -> & Hlen & Hh). exists head, rest.
  assert (Ew' : w = S (String.length head)) by (pose proof (utf8_width_pos (String a (head +:+ rest))) as H0; rewrite Ew in H0; destruct w; [done|by rewrite Hlen]).
  rewrite Ew' in *. assert (Hne : head <> "") by (by intros ->).
  split_and!; try done. destruct (String.length head) as [|n] eqn:En; [by destruct head|].
  cbn [Nat.pred]. rewrite <- En, quote_skip, take_bytes_head. done.
Qed.

(** No quoted text has a newline. *)
Lemma ascii_lines (a : ascii) : one_line (quote_ascii a) /\ one_line (hex_byte (code a)).
Proof. destruct a as [[] [] [] [] [] [] [] []]; split; reflexivity. Qed.

Lemma hex_digits_line (k : nat) (n : N) : one_line (hex_digits k n).
Proof.
  assert (Hd : forall m, (m < 16)%N -> one_line (str1 (hex_digit m))).
  { intros m Hm. assert (Hin : m ∈ (N.of_nat <$> seq 0 16)) by (apply list_elem_of_fmap; exists (N.to_nat m); split; [lia|apply elem_of_seq; lia]).
    revert Hin. cbn. rewrite !elem_of_cons, elem_of_nil. by intuition subst. }
  revert n. induction k as [|k IH]; intros n; cbn [hex_digits]; [done|]. apply one_line_app. split; [apply IH|]. apply Hd, N.mod_lt. lia.
Qed.

Lemma high_line (s : string) : all_bytes high s = true -> one_line s.
Proof. apply all_bytes_free. reflexivity. Qed.

Lemma quote_one_line (s : string) : one_line (go_quote is_print s).
Proof.
  unfold go_quote. rewrite !one_line_app. split_and!; [done| |done].
  induction s as [s IH] using string_strong_ind. destruct s as [|a s]; [done|].
  destruct (quote_from_cases a s) as [[_ ->]|[[_ ->]|(head & rest & -> & _ & _ & Hh & ->)]].
  - rewrite !one_line_app. split_and!; [done|apply ascii_lines|]. apply IH. simpl. lia.
  - rewrite one_line_app. split; [apply ascii_lines|]. apply IH. simpl. lia.
  - rewrite one_line_app. split; [|apply IH; simpl; rewrite length_app_str; lia].
    destruct (is_print _); [by apply high_line|]. destruct (_ <? 65536)%N; apply one_line_app; split; try done; apply hex_digits_line.
Qed.

(** ** Reading labels *)

Lemma read_high (head s : string) : all_bytes high head = true ->
  read_label (head +:+ s) = '(v, r) ← read_label s; Some (head +:+ v, r).
Proof.
  induction head as [|a head IH]; cbn [all_bytes]; [intros _; change ("" +:+ s) with s; by destruct (read_label s) as [[]|]|]. intros [Ha Hh]%andb_true_iff.
  rewrite app_cons_str. cbn [read_label]. rewrite !decide_False by (intros ->; discriminate Ha). rewrite IH by done.
  by destruct (read_label s) as [[]|].
Qed.

Lemma read_ascii (a : ascii) (s : string) : (byte_between 32 126 a || bool_decide (a = nl)) = true ->
  read_label (quote_ascii a +:+ s) = '(v, r) ← read_label s; Some (String a v, r).
Proof. destruct a as [[] [] [] [] [] [] [] []]; intros Ha; try discriminate Ha; reflexivity. Qed.

Lemma label_read (s rest : string) : printable_from is_print 0 s = true ->
  read_label (quote_from is_print 0 s +:+ String dquote rest) = Some (s, rest).
Proof.
  induction s as [s IH] using string_strong_ind. destruct s as [|a s]; [done|].
  destruct (quote_from_cases a s) as [[Ew E]|[[Ew E]|(head & tl & -> & Ew & Hne & Hh & E)]]; rewrite E; clear E; cbn [printable_from]; rewrite Ew.
  - done.
  - intros [Ha Hs]%andb_true_iff. rewrite app_assoc_str, read_ascii by done. rewrite IH; [done|simpl; lia|done].
  - destruct (String.length head) as [|n] eqn:En; [by destruct head|]. cbn [Nat.pred]. rewrite <- En, printable_skip.
    intros [Hp Hs]%andb_true_iff. rewrite Hp. rewrite app_assoc_str, read_high by done.
    rewrite IH; [done|simpl; rewrite length_app_str; lia|done].
Qed.
End quoting.

(** ** Reading pages *)

Definition spaceless (s : string) : Prop := contains_byte (byte_of 32) s = false.

(** A family whose lines are read as they were meant. *)
Definition family_ok (f : family) : Prop :=
  one_line (fam_name f) /\ fam_name f <> "" /\ has_prefix "#" (fam_name f) = false /\ one_line (fam_help f) /\ one_line (fam_type f) /\
  Forall (fun s => one_line s.1 /\ one_line s.2 /\ spaceless s.2) (fam_samples f).

Lemma cut_last_spaceless (s : string) : spaceless s -> cut_last_space s = None.
Proof.
  unfold spaceless. induction s as [|a s IH]; [done|]. cbn [contains_byte cut_last_space]. case_decide; [done|]. intros Hs. by rewrite IH.
Qed.

Lemma cut_last_app (x y : string) : spaceless y -> cut_last_space (x +:+ " " +:+ y) = Some (x, y).
Proof.
  intros Hy. induction x as [|a x IH].
  - change (cut_last_space (String (byte_of 32) y) = Some ("", y)). cbn [cut_last_space]. rewrite cut_last_spaceless by done. by rewrite decide_True.
  - rewrite app_cons_str. cbn [cut_last_space]. by rewrite IH.
Qed.

Lemma lines_cons (k : nat) (line rest : string) : one_line line -> lines_from (S k) (line +:+ str1 nl +:+ rest) = line :: lines_from k rest.
Proof. intros Hl. change (str1 nl +:+ rest) with (String nl rest). cbn [lines_from]. by rewrite (cut_byte_app nl line rest Hl). Qed.

Definition text_of (lines : list string) : string := join "" (map (fun l => l +:+ str1 nl) lines).

Lemma join_empty_cons (x : string) (l : list string) : join "" (x :: l) = x +:+ join "" l.
Proof. destruct l as [|y l]; [by rewrite app_nil_r_str|done]. Qed.

Lemma text_cons (l : string) (lines : list string) : text_of (l :: lines) = l +:+ str1 nl +:+ text_of lines.
Proof. unfold text_of. cbn [map]. by rewrite join_empty_cons, app_assoc_str. Qed.

Lemma text_app (l1 l2 : list string) : text_of (l1 ++ l2) = text_of l1 +:+ text_of l2.
Proof. induction l1 as [|x l1 IH]; [done|]. by rewrite <- app_comm_cons, !text_cons, IH, !app_assoc_str. Qed.

Lemma scrape_text (lines : list string) : Forall one_line lines -> scrape (text_of lines) = concat (map read_line lines).
Proof.
  intros Hl. unfold scrape. do 2 f_equal.
  assert (Hk : forall k, (String.length (text_of lines) <= k)%nat -> lines_from k (text_of lines) = lines); [|by apply Hk].
  induction Hl as [|x lines Hx _ IH]; intros k Hk; [by destruct k|].
  rewrite text_cons, !length_app_str in Hk. destruct k as [|k]; [cbn in Hk; lia|].
  rewrite text_cons, lines_cons by done. f_equal. apply IH. cbn in Hk. lia.
Qed.

Definition family_lines (f : family) : list string :=
  ("# HELP " +:+ fam_name f +:+ " " +:+ fam_help f) :: ("# TYPE " +:+ fam_name f +:+ " " +:+ fam_type f) ::
  map (fun s => fam_name f +:+ s.1 +:+ " " +:+ s.2) (fam_samples f).

Lemma print_family_lines (f : family) : print_family f = text_of (family_lines f).
Proof.
  unfold family_lines. rewrite !text_cons, !app_assoc_str. unfold print_family. do 10 f_equal. unfold text_of. rewrite map_map. f_equal. apply map_ext. intros s. unfold sample_line. by rewrite !app_assoc_str.
Qed.

Lemma family_lines_ok (f : family) : family_ok f -> Forall one_line (family_lines f) /\ concat (map read_line (family_lines f)) = series f.
Proof.
  intros (Hn & Hne & Hh & Hhelp & Ht & Hs). split.
  - repeat constructor; [rewrite !one_line_app; by split_and!..|].
    apply Forall_fmap. eapply Forall_impl; [exact Hs|]. intros s (H1 & H2 & _). cbn. rewrite !one_line_app. by split_and!.
  - change (concat (map read_line (map (fun s => fam_name f +:+ s.1 +:+ " " +:+ s.2) (fam_samples f))) = series f). unfold series.
    induction Hs as [|s l (H1 & H2 & H3) _ IH]; [done|]. cbn [map concat]. rewrite IH.
    change (_ :: map ?g l) with ([(fam_name f +:+ s.1, s.2)] ++ map g l). f_equal.
    assert (Hp : has_prefix "#" (fam_name f +:+ s.1 +:+ " " +:+ s.2) = false) by (destruct (fam_name f); [done|]; revert Hh; rewrite app_cons_str; unfold has_prefix; cbn; by case_decide).
    unfold read_line. rewrite Hp. rewrite <- app_assoc_str, cut_last_app by done. done.
Qed.

Lemma scrape_families (fs : list family) : Forall family_ok fs -> scrape (join "" (map print_family fs)) = concat (map series fs).
Proof.
  intros Hok. assert (E : join "" (map print_family fs) = text_of (concat (map family_lines fs))).
  { induction fs as [|f fs IH]; [done|]. apply Forall_cons in Hok as [_ Hok]. cbn [map concat].
    by rewrite join_empty_cons, text_app, print_family_lines, IH. }
  rewrite E, scrape_text.
  - clear E. induction Hok as [|f fs Hf _ IH]; [done|]. cbn [map concat]. apply family_lines_ok in Hf as [_ Hf].
    by rewrite map_app, concat_app, Hf, IH.
  - clear E. apply Forall_concat, Forall_fmap. eapply Forall_impl; [exact Hok|]. intros f [Hf _]%family_lines_ok. exact Hf.
Qed.

(** ** The families of the page *)

Lemma format_plain (z : Z) : one_line (format_Z z) /\ spaceless (format_Z z).
Proof. split; by apply format_Z_no_byte. Qed.

Section families.
Variable is_print : N -> bool.

(** What a label may be made of. *)
Lemma braces_line (labels : list string) : Forall one_line labels -> one_line (braces labels).
Proof. intros Hl. unfold braces. rewrite !one_line_app. split_and!; [done|by apply join_one_line|done]. Qed.

Definition sample_ok (s : string * string) : Prop := one_line s.1 /\ one_line s.2 /\ spaceless s.2.

Lemma kinds_ok (key : string) (l : list (string * Z)) : one_line key -> Forall (fun kv => one_line kv.1) l -> Forall sample_ok (kinds key l).
Proof.
  intros Hk Hl. apply Forall_fmap. eapply Forall_impl; [exact Hl|]. intros [k z] Hx. split; [|apply format_plain]. cbn.
  apply braces_line. repeat constructor. unfold label, quoted. by rewrite !one_line_app.
Qed.

Lemma info_ok (l : list (string * string)) : Forall (fun kv => one_line kv.1) l -> Forall sample_ok (info is_print l).
Proof.
  intros Hl. repeat constructor. cbn. apply braces_line, Forall_fmap. eapply Forall_impl; [exact Hl|]. intros [k v] Hx. cbn.
  unfold label. rewrite !one_line_app. split_and!; [done..|]. apply quote_one_line.
Qed.

Lemma of_store_ok (key kindKey kind : string) (l : list (string * Z)) :
  one_line key -> one_line kindKey -> Forall (fun kv => one_line kv.1) l -> Forall sample_ok (of_store is_print key kindKey kind l).
Proof.
  intros Hk Hk2 Hl. apply Forall_fmap. eapply Forall_impl; [exact Hl|]. intros [k z] Hx. split; [|apply format_plain]. cbn.
  apply braces_line. repeat constructor; unfold label, quoted; rewrite !one_line_app; [by split_and!|]. split_and!; [done..|]. apply quote_one_line.
Qed.

Lemma count_ok (z : Z) : Forall sample_ok (count z).
Proof. repeat constructor. apply format_plain. apply format_plain. Qed.

Lemma families_ok (order : list string) (runtime : option RuntimeMetrics) (stats : option (result string StoreStats)) (p : Provider) :
  Forall family_ok (families is_print order runtime stats p).
Proof.
  assert (Hf : forall name help type samples, one_line name -> name <> "" -> has_prefix "#" name = false -> one_line help -> one_line type ->
    Forall sample_ok samples -> family_ok (mkFamily name help type samples)) by (intros; by split_and!).
  assert (Hi : forall l, Forall (fun kv : string * string => one_line kv.1) l -> Forall sample_ok (info is_print l)) by apply info_ok.
  unfold families, provider_families. repeat (apply Forall_app; split).
  - repeat (apply Forall_cons; split); [apply Hf; try done..|constructor]; first [apply Hi|apply kinds_ok]; by repeat constructor.
  - destruct runtime as [m|]; [|constructor]. unfold runtime_families. repeat (apply Forall_app; split).
    + repeat (apply Forall_cons; split); [apply Hf; try done..|constructor]; try apply count_ok; try (by apply Hi; repeat constructor);
        try (by apply kinds_ok; repeat constructor).
      case_decide; [by apply kinds_ok; repeat constructor|]. apply Forall_fmap, Forall_true. intros r. split; [|apply format_plain]. cbn.
      apply braces_line. repeat constructor. unfold label. rewrite !one_line_app. split_and!; [done..|]. apply quote_one_line.
    + case_decide; [constructor|]. apply Forall_singleton, Hf; try done. apply Hi. by repeat constructor.
    + destruct (is_blank _); [constructor|]. apply Forall_singleton, Hf; try done. apply Hi. by repeat constructor.
  - destruct stats as [[e|st]|]; [| |constructor]; unfold store_families.
    + apply Forall_singleton, Hf; try done. apply Hi. by repeat constructor.
    + apply Forall_app. split; [|destruct (stats_HasCheckpoint st); [|constructor]; apply Forall_singleton, Hf; try done; apply Hi; by repeat constructor].
      repeat (apply Forall_cons; split); [apply Hf; try done..|constructor]; apply of_store_ok; by repeat constructor.
Qed.

(** The body is the text of the families. *)
Lemma body_fold (fs : list family) (w : Writer) :
  w_Body (foldl (fun w f => write_text (print_family f) w) w fs) = w_Body w +:+ join "" (map print_family fs).
Proof.
  revert w. induction fs as [|f fs IH]; intros w; [by rewrite app_nil_r_str|]. cbn [foldl map]. rewrite IH, join_empty_cons, <- app_assoc_str.
  f_equal. unfold write_text, write_header. by destruct (w_Sent w).
Qed.
End families.

Lemma metrics_sent (is_print : N -> bool) (order : list string) (runtime : option RuntimeMetrics) (stats : option (result string StoreStats))
    (p : Provider) (w : Writer) :
  w_Sent w = None -> status_of (ServeMetrics is_print order runtime stats p w) = Some 200.
Proof.
  intros Hw. unfold ServeMetrics. generalize (families is_print order runtime stats p). intros fs.
  assert (Hs : forall w, status_of w = Some 200 -> status_of (foldl (fun w f => write_text (print_family f) w) w fs) = Some 200).
  { induction fs as [|f fs IH]; intros w' Hw'; [done|]. apply IH. by destruct w' as [h [first|] b]. }
  apply Hs. unfold write_header, status_of. cbn. by rewrite Hw.
Qed.

(** ** Counting *)


#[export] Instance metric_eq_dec : EqDecision metric.
Proof. solve_decision. Defined.

Definition events_of (e : metric) (events : list metric) : Z := Z.of_nat (length (filter (fun x => x = e) events)).

Lemma events_snoc (e x : metric) (events : list metric) :
  events_of e (events ++ [x]) = events_of e events + (if decide (x = e) then 1 else 0).
Proof.
  unfold events_of. rewrite filter_app, length_app, filter_cons. case_decide; cbn; lia.
Qed.

Lemma wrapu64_next (z : Z) : wrapu64 (wrapu64 z + 1) = wrapu64 (z + 1).
Proof. unfold wrapu64. by rewrite Zplus_mod_idemp_l. Qed.

Lemma counter_kind (kind : admissionKind) (c : Z * Z) :
  counterForKind (admission_text kind) c =
  match kind with admissionInitial => (wrapu64 (c.1 + 1), c.2) | admissionExisting => (c.1, wrapu64 (c.2 + 1)) end.
Proof. by destruct kind. Qed.

Definition counted (p0 : Provider) (events : list metric) : Provider :=
  mkProvider (pv_version p0) (pv_MetricsPath p0) (pv_admissionLimits p0)
    (wrapu64 (events_of (ShapeRequested admissionInitial) events), wrapu64 (events_of (ShapeRequested admissionExisting) events))
    (wrapu64 (events_of (ShapeOverloaded admissionInitial) events), wrapu64 (events_of (ShapeOverloaded admissionExisting) events)).

Lemma record_counts (version metricsPath : string) (limits : MaxConcurrentRequests) (events : list metric) :
  foldl record_event (NewProvider version metricsPath limits) events = counted (NewProvider version metricsPath limits) events.
Proof.
  induction events as [|e events IH] using rev_ind; [done|]. rewrite foldl_app, IH. cbn [foldl]. unfold counted. rewrite !events_snoc.
  destruct e as [kind|kind]; unfold record_event, RecordShapeRequest, RecordShapeOverload; rewrite counter_kind;
    cbn [pv_shapeRequests pv_shapeOverloads pv_version pv_MetricsPath pv_admissionLimits fst snd];
    destruct kind; cbn [fst snd]; rewrite wrapu64_next; f_equal;
    repeat (rewrite decide_True by done || rewrite decide_False by done); by rewrite ?Z.add_0_r.
Qed.

(** * Properties *)


Definition demo_metrics : RuntimeMetrics :=
  mkRuntimeMetrics "active" true "slot" "0/5A" 90 "0/5A" 90 "0/64" 100 10 1 2 3 4 {["truncate" := 5]} "".
Definition demo_stats : StoreStats := mkStats "memory" 2 1 1 0 3 0 0 0 false zero_checkpoint.


(** A label of printable text reads back: whatever follows it, a reader
    of the exposition format gets the text that was quoted, newlines, quotes
    and backslashes included. *)
Theorem label_reads_back (is_print : N -> bool) (s rest : string) :
  printable_from is_print 0 s = true -> read_quoted (go_quote is_print s +:+ rest) = Some (s, rest).
Proof.
  intros Hs. unfold go_quote. rewrite !app_assoc_str. by apply label_read.
Qed.

Lemma label_reads_back_witness :
  read_quoted (go_quote (fun _ => true) ("a " +:+ str1 dquote +:+ str1 backslash +:+ str1 nl) +:+ "} 1") =
  Some ("a " +:+ str1 dquote +:+ str1 backslash +:+ str1 nl, "} 1").
Proof. apply (label_reads_back (fun _ => true)). reflexivity. Defined.

(** Other text does not: the escape of a tab is none of the format's, and the
    page with such an error message cannot be read. *)
Example tab_breaks_label :
  read_quoted (go_quote (fun _ => true) ("column" +:+ str1 (byte_of 9) +:+ "x") +:+ "} 1") = None.
Proof. reflexivity. Qed.
