(* ===== verification/Router.v ===== *)
(** The routes: [src/internal/httpapi/router.go].

    A request is answered by the route of its path and its method: the root,
    the health of the runtime, the shapes, the metrics page, or nothing.  The
    router sets the headers that browsers need before the protocol service
    runs, and no handler of the service changes them. *)

From Stdlib Require Import Ascii String ZArith NArith Lia.
From S2P Require Import Prelude GoValue JsonText GoFormat Config ShapeTypes Storage Manager Admission Request Response RelationCache Snapshot Service Answers Lifecycle Telemetry.

#[local] Set Warnings "-clear-no-such-hyp".

(** * Definitions *)

Record Router : Type := mkRouter { rtr_serverHeader : string; rtr_telemetry : Provider }.

(** What the router finds outside at one moment: the status of the runtime,
    the counters, the order in which a loop over the map of invalidations meets
    its keys, and what the runtime and the store say. *)
Record Surroundings : Type := mkSurroundings {
  sur_status : ServiceStatus;
  sur_provider : Provider;
  sur_order : list string;
  sur_runtime : option RuntimeMetrics;
  sur_stats : option (result string StoreStats)
}.

Definition NewRouter (serverHeader : string) (telemetry : Provider) : Router := mkRouter serverHeader telemetry.

(** [http.NotFound]. *)
Definition NotFound (w : Writer) : Writer :=
  write_text ("404 page not found" +:+ str1 nl)
    (write_header 404 (set_header "X-Content-Type-Options" "nosniff"
      (set_header "Content-Type" "text/plain; charset=utf-8" (del_header "Content-Length" w)))).

Definition allowedOrigin (r : Request) : string :=
  let origin := header_get "Origin" r in if decide (origin = "") then "*" else origin.

Definition putStandardCORS (r : Request) (shape : bool) (w : Writer) : Writer :=
  let w := set_header "Access-Control-Expose-Headers" ExposedHeadersValue (set_header "Access-Control-Allow-Origin" (allowedOrigin r) w) in
  if shape then set_header "Access-Control-Allow-Methods" "GET, POST, HEAD, DELETE, OPTIONS" w
  else set_header "Access-Control-Allow-Methods" "GET, HEAD" w.

Definition serveShapeOptions (r : Request) (w : Writer) : Writer :=
  let requested := header_get "Access-Control-Request-Headers" r in
  let w := if decide (requested = "") then w else set_header "Access-Control-Allow-Headers" requested w in
  write_header 204 (set_header "Connection" "keep-alive" (set_header "Access-Control-Max-Age" "86400" w)).

(** The status code and the text of a status. *)
Definition health_of (status : ServiceStatus) : Z * string :=
  match status with
  | StatusActive | StatusSleeping => (200, "active")
  | StatusWaiting => (202, "waiting")
  | StatusStarting | StatusStopped => (202, "starting")
  end.

Definition serveHealth (status : ServiceStatus) (w : Writer) : Writer :=
  let '(statusCode, statusText) := health_of status in
  WriteJSON statusCode (obj [("status", JStr statusText)])
    (set_header "Cache-Control" "no-cache, no-store, must-revalidate" (set_header "Content-Type" "application/json; charset=utf-8" w)).

Definition is_method (methods : list string) (r : Request) : bool := bool_decide (r_Method r ∈ methods).

Section router.
Context {S : Type} {store_ops : Store S} {B : Type} {backend : Backend B}.
Variable cfg : Config.
Variable error_text : runtimeError -> string.
Variable json_error : string -> string.
Variable is_print : N -> bool.
Variable env : Env S B.
Variable surroundings : nat -> Surroundings.
Variable router : Router.

(** [false]: the request is a stream that is still open. *)
Definition ServeHTTP (rounds : nat) (r : Request) : Handler S bool :=
  _ ← write (set_header "electric-server" (rtr_serverHeader router));
  let not_found := _ ← write NotFound; mret true in
  if decide (r_Path r = "/") then
    if is_method ["GET"; "HEAD"] r then _ ← write (write_header 200); mret true else not_found
  else if decide (r_Path r = "/v1/health") then
    _ ← write (putStandardCORS r false);
    n ← Service.tick;
    _ ← write (serveHealth (sur_status (surroundings n)));
    mret true
  else if decide (r_Path r = "/v1/shape") then
    _ ← write (putStandardCORS r true);
    if is_method ["OPTIONS"] r then _ ← write (serveShapeOptions r); mret true
    else if is_method ["GET"; "HEAD"; "POST"; "DELETE"] r then HandleShape cfg error_text json_error is_print env rounds r
    else not_found
  else if decide (r_Path r = MetricsPath (rtr_telemetry router)) then
    if is_method ["GET"; "HEAD"] r then
      n ← Service.tick;
      let at_ := surroundings n in
      _ ← write (ServeMetrics is_print (sur_order at_) (sur_runtime at_) (sur_stats at_) (sur_provider at_));
      mret true
    else not_found
  else not_found.
End router.

(** ** Headers *)

(** The header [key] has the value, and was sent with it if headers were. *)
Definition carries (key value : string) (w : Writer) : Prop :=
  w_Header w !! key = Some value /\ forall status h, w_Sent w = Some (status, h) -> h !! key = Some value.

(** The headers that the service sets or deletes, canonical. *)
Definition service_headers : list string :=
  ["Content-Type"; "Surrogate-Control"; "Cache-Control"; "Retry-After"; "Connection"; "Etag"; "Electric-Internal-Known-Error";
   "Electric-Handle"; "Electric-Offset"; "Electric-Has-Data"; "Electric-Up-To-Date"; "Electric-Cursor"; "Electric-Schema"; "Electric-Snapshot";
   "Content-Length"; "X-Content-Type-Options"; "Access-Control-Max-Age"; "Access-Control-Allow-Headers"].

(** * Lemmas *)

Create HintDb headers.

Section carried.
Variables (key value : string).
Hypothesis Hforeign : key ∉ service_headers.

Lemma carries_set (name text : string) (w : Writer) :
  canonical_key name ∈ service_headers -> carries key value w -> carries key value (set_header name text w).
Proof. intros Hin [H1 H2]. split; [|exact H2]. cbn. rewrite lookup_insert_ne; [done|]. intros <-. by apply Hforeign. Qed.

Lemma carries_del (name : string) (w : Writer) :
  canonical_key name ∈ service_headers -> carries key value w -> carries key value (del_header name w).
Proof. intros Hin [H1 H2]. split; [|exact H2]. cbn. rewrite lookup_delete_ne; [done|]. intros <-. by apply Hforeign. Qed.

Lemma carries_status (status : Z) (w : Writer) : carries key value w -> carries key value (write_header status w).
Proof.
  intros [H1 H2]. unfold write_header. destruct (w_Sent w) as [p|] eqn:E; [by split; [|rewrite E]|]. split; [done|]. by intros ? ? [= _ <-].
Qed.

Lemma carries_text (text : string) (w : Writer) : carries key value w -> carries key value (write_text text w).
Proof. intros Hw. by apply (carries_status 200) in Hw. Qed.
End carried.

(** Follow the headers of a writer. *)
Ltac listed_header := apply (bool_decide_unpack _); vm_compute; exact I.
Ltac carry := repeat first
  [ assumption | apply carries_text | apply carries_status
  | apply carries_set; [assumption|listed_header|] | apply carries_del; [assumption|listed_header|]
  | match goal with |- carries _ _ (match ?x with _ => _ end) => destruct x end ].

Section writers.
Variables (key value : string).
Hypothesis Hforeign : key ∉ service_headers.
#[local] Abbreviation keeps f := (forall w, carries key value w -> carries key value (f w)).

Lemma carries_json (status : Z) (body : json) : keeps (WriteJSON status body).
Proof. intros w Hw. unfold WriteJSON. carry. Qed.

Lemma carries_error (status : Z) (body : json) : keeps (WriteError status body).
Proof. intros w Hw. apply carries_json. carry. Qed.

Lemma carries_overloaded (kind : admissionKind) (limits : MaxConcurrentRequests) : keeps (WriteOverloadedWithKind kind limits).
Proof. intros w Hw. apply carries_error. carry. Qed.

Lemma carries_success (is_print : N -> bool) (cfg : Config) (req : ShapeRequest) (st : State) (o : SuccessHeaderOptions) (c : Clock) :
  keeps (WriteSuccessHeaders is_print cfg req st o c).
Proof. intros w Hw. unfold WriteSuccessHeaders, WriteSchemaHeader. carry. Qed.

Lemma carries_subset (st : State) (schema : Schema) : keeps (WriteSubsetHeaders st schema).
Proof. intros w Hw. unfold WriteSubsetHeaders, WriteSchemaHeader. carry. Qed.

Lemma carries_refetch (is_print : N -> bool) (req : ShapeRequest) (st : State) (c : Clock) : keeps (WriteMustRefetchHeaders is_print req st c).
Proof. intros w Hw. unfold WriteMustRefetchHeaders. carry. Qed.

Lemma carries_not_modified (is_print : N -> bool) (cfg : Config) (req : ShapeRequest) (st : State) (o : SuccessHeaderOptions) (c : Clock) :
  keeps (WriteNotModified is_print cfg req st o c).
Proof. intros w Hw. unfold WriteNotModified. carry. by apply carries_success. Qed.

Lemma carries_stream (cfg : Config) (req : ShapeRequest) : keeps (stream_headers cfg req).
Proof. intros w Hw. unfold stream_headers. carry. Qed.

Lemma carries_delete : keeps writeDeleteAccepted.
Proof. intros w Hw. unfold writeDeleteAccepted. carry. Qed.

Lemma carries_not_found : keeps NotFound.
Proof. intros w Hw. unfold NotFound. carry. Qed.

Lemma carries_options (r : Request) : keeps (serveShapeOptions r).
Proof. intros w Hw. unfold serveShapeOptions. carry. Qed.

Lemma carries_health (status : ServiceStatus) : keeps (serveHealth status).
Proof. intros w Hw. unfold serveHealth. destruct (health_of status). apply carries_json. carry. Qed.
End writers.

Section handlers.
Context {S : Type} {store_ops : Store S} {B : Type} {backend : Backend B}.
Variable cfg : Config.
Variable error_text : runtimeError -> string.
Variable json_error : string -> string.
Variable is_print : N -> bool.
Variable env : Env S B.
Variables (key value : string).
Hypothesis Hforeign : key ∉ service_headers.

(** A handler that leaves the header alone. *)
Definition carried (x : Exchange S) : Prop := carries key value (ex_writer x).
#[local] Abbreviation keeps h := (triple carried h (fun _ => carried)).

Lemma carried_write (f : Writer -> Writer) : (forall w, carries key value w -> carries key value (f w)) -> keeps (@write S f).
Proof. intros Hf x Hx. by apply Hf. Qed.

Lemma carried_tick : keeps (@Service.tick S).
Proof. by intros x. Qed.

Lemma carried_call {A} (f : nat -> Manager S -> Manager S * A) : keeps (manager_call env f).
Proof. intros x Hx. unfold manager_call, mbind, handler_bind. cbn. unfold on_manager. by destruct (f _ _). Qed.

Lemma carried_get {A} (f : Manager S -> A) : keeps (manager_get env f).
Proof. apply carried_call. Qed.

Lemma carried_clock : keeps (read_clock env).
Proof. by intros x. Qed.

Lemma carried_snapshot (request : SnapshotRequest) : keeps (take_snapshot env request).
Proof. by intros x. Qed.

Lemma carried_metric (e : metric) : keeps (@record_metric S e).
Proof. by intros x. Qed.

Lemma carried_enter (kind : admissionKind) : keeps (@enter S kind).
Proof. intros x Hx. unfold enter. by destruct (acquire _ _). Qed.

Lemma carried_leave (kind : admissionKind) : keeps (@leave S kind).
Proof. intros x Hx. unfold leave. by destruct (release _ _). Qed.

Lemma carried_upsert (def : Definition_) (snapshot : SnapshotResult) (offset : string) : keeps (upsert env def snapshot offset).
Proof. apply carried_call. Qed.

Lemma carried_read (h offset : string) : keeps (read env h offset).
Proof. apply carried_call. Qed.
#[local] Hint Resolve carried_tick carried_call carried_get carried_clock carried_snapshot carried_metric carried_enter carried_leave
  carried_upsert carried_read : headers.
#[local] Hint Resolve carries_json carries_error carries_overloaded carries_success carries_subset carries_refetch carries_not_modified carries_stream
  carries_delete carries_not_found carries_options carries_health : headers.

Ltac keeping :=
  repeat match goal with
  | |- triple _ (mbind _ _) _ => apply (triple_bind _ (fun _ => carried)); [|intros ?; cbv beta]
  | |- triple _ (match ?x with _ => _ end) _ => destruct x
  | |- triple _ (mret _) _ => by apply triple_ret
  | |- triple _ (write _) _ => apply carried_write; first [solve [auto with headers nocore] | intros ? ?; carry; solve [auto with headers nocore]]
  | |- triple _ _ _ => solve [auto with headers nocore]
  end.

Lemma carried_wait (timeout : Z) (h offset : string) : keeps (WaitForChange env timeout h offset).
Proof. unfold WaitForChange. keeping. Qed.

Lemma carried_unavailable (message : string) : keeps (@write_unavailable S message).
Proof. unfold write_unavailable. keeping. Qed.

Lemma carried_invalid (field message : string) : keeps (@write_invalid S field message).
Proof. unfold write_invalid, WriteInvalidRequest, WriteInvalidRequestBody. keeping. Qed.
#[local] Hint Resolve carried_wait carried_unavailable carried_invalid : headers.

Lemma carried_snapshot_error (e : serviceError) : keeps (@writeSnapshotError S error_text is_print e).
Proof. unfold writeSnapshotError. keeping. Qed.

Lemma carried_headers (r : Request) (req : ShapeRequest) (st : State) (o : SuccessHeaderOptions) : keeps (write_headers cfg is_print env r req st o).
Proof. unfold write_headers. keeping. Qed.
#[local] Hint Resolve carried_snapshot_error carried_headers : headers.

Lemma carried_respond (r : Request) (req : ShapeRequest) (st : State) (o : SuccessHeaderOptions) (body : list json) :
  keeps (respond cfg is_print env r req st o body).
Proof. unfold respond. keeping. Qed.

Lemma carried_refetch (req : ShapeRequest) (def : Definition_) : keeps (mustRefetch error_text is_print env req def).
Proof. unfold mustRefetch. keeping. Qed.
#[local] Hint Resolve carried_respond carried_refetch : headers.

Lemma carried_initial (r : Request) (req : ShapeRequest) (def : Definition_) : keeps (serveInitialSnapshot cfg error_text is_print env r req def).
Proof. unfold serveInitialSnapshot. keeping. Qed.

Lemma carried_now (r : Request) (req : ShapeRequest) (def : Definition_) : keeps (serveNow cfg error_text is_print env r req def).
Proof. unfold serveNow. keeping. Qed.

Lemma carried_events (body : list json) : keeps (@writeSSEEvents S body).
Proof. unfold writeSSEEvents. apply carried_write. intros w. by apply carries_text. Qed.

Lemma carried_flush : keeps (@flush S).
Proof. unfold flush. apply carried_write. intros w. by apply carries_status. Qed.
#[local] Hint Resolve carried_initial carried_now carried_events carried_flush : headers.

Lemma carried_rounds (rounds : nat) (h offset : string) : keeps (sse_rounds cfg env rounds h offset).
Proof.
  revert offset. induction rounds as [|rounds IH]; intros offset; cbn [sse_rounds]; [by apply triple_ret|]. keeping; apply IH.
Qed.
#[local] Hint Resolve carried_rounds : headers.

Lemma carried_sse (rounds : nat) (r : Request) (req : ShapeRequest) (st : State) (messages : list Message) :
  keeps (serveLiveSSE cfg is_print env rounds r req st messages).
Proof. unfold serveLiveSSE. keeping. Qed.

Lemma carried_poll (req : ShapeRequest) (def : Definition_) : keeps (long_poll cfg error_text is_print env req def).
Proof. unfold long_poll. keeping. Qed.
#[local] Hint Resolve carried_sse carried_poll : headers.

Lemma carried_continuation (rounds : nat) (r : Request) (req : ShapeRequest) (def : Definition_) :
  keeps (serveContinuation cfg error_text is_print env rounds r req def).
Proof. unfold serveContinuation, serve_messages. keeping. Qed.

Lemma carried_delete (req : ShapeRequest) (def : Definition_) : keeps (deleteShape cfg error_text is_print env req def).
Proof. unfold deleteShape, delete_handle. keeping. Qed.

Lemma carried_subset (req : ShapeRequest) (shapeDef queryDef : Definition_) : keeps (serveSubsetSnapshot error_text is_print env req shapeDef queryDef).
Proof. unfold serveSubsetSnapshot, resolveSubsetShape, writeSubsetResolutionError. keeping. Qed.
#[local] Hint Resolve carried_continuation carried_delete carried_subset : headers.

Lemma carried_handle (rounds : nat) (r : Request) : keeps (HandleShape cfg error_text json_error is_print env rounds r).
Proof.
  unfold HandleShape, serve_admitted, request_kind, serve_shape, WriteUnauthorized, WriteInvalidRequest, WriteInvalidRequestBody. keeping.
Qed.
End handlers.

(** ** Routes *)

(** The requests that have a route. *)
Definition routed (router : Router) (r : Request) : Prop :=
  (r_Path r = "/" /\ r_Method r ∈ ["GET"; "HEAD"]) \/
  r_Path r = "/v1/health" \/
  (r_Path r = "/v1/shape" /\ r_Method r ∈ ["GET"; "HEAD"; "POST"; "DELETE"; "OPTIONS"]) \/
  (r_Path r = MetricsPath (rtr_telemetry router) /\ (r_Path r ∉ ["/"; "/v1/health"; "/v1/shape"]) /\ r_Method r ∈ ["GET"; "HEAD"]).

Lemma shape_status {S} `{Store S} {B} `{Backend B} (cfg : Config) (error_text : runtimeError -> string) (json_error : string -> string)
    (is_print : N -> bool) (env : Env S B) (rounds : nat) (r : Request) (x : Exchange S) :
  w_Sent (ex_writer x) = None ->
  exists status, status_of (ex_writer (HandleShape cfg error_text json_error is_print env rounds r x).2) = Some status /\ status ∈ 401 :: statuses.
Proof.
  intros Hw. destruct (authorized cfg r) eqn:Ea.
  - destruct (handle_answers cfg error_text json_error is_print env rounds r (ex_admission x) Ea x (conj Hw eq_refl)) as (a' & [(s & Es & Hin) _] & _).
    exists s. split; [done|by right].
  - exists 401. unfold HandleShape. rewrite Ea. split; [by apply sent_json|by left].
Qed.

(** The header that was set is sent. *)
Lemma carries_sent (name value : string) (w : Writer) (status : Z) :
  carries (canonical_key name) value w -> status_of w = Some status -> sent_header name w = Some value.
Proof.
  intros [_ Hc] Hs. unfold status_of in Hs. unfold sent_header. destruct (w_Sent w) as [[s h]|] eqn:E; [|done]. by apply (Hc s h).
Qed.

Lemma carries_unsent (key value : string) (w : Writer) : w_Sent w = None -> w_Header w !! key = Some value -> carries key value w.
Proof. intros Hw Hk. split; [done|]. by rewrite Hw. Qed.

(** The headers of the router, before a handler runs. *)
Lemma cors_headers (r : Request) (shape : bool) (server : string) (w : Writer) :
  let h := w_Header (putStandardCORS r shape (set_header "electric-server" server w)) in
  h !! "Electric-Server" = Some server /\ h !! "Access-Control-Allow-Origin" = Some (allowedOrigin r) /\
  h !! "Access-Control-Expose-Headers" = Some ExposedHeadersValue.
Proof.
  unfold putStandardCORS. destruct shape; cbn [set_header w_Header];
    change (canonical_key "Access-Control-Allow-Methods") with "Access-Control-Allow-Methods";
    change (canonical_key "Access-Control-Expose-Headers") with "Access-Control-Expose-Headers";
    change (canonical_key "Access-Control-Allow-Origin") with "Access-Control-Allow-Origin";
    change (canonical_key "electric-server") with "Electric-Server"; split_and!;
    repeat first [rewrite lookup_insert_eq; reflexivity|rewrite lookup_insert_ne by done].
Qed.

Lemma cors_unsent (r : Request) (shape : bool) (w : Writer) : w_Sent (putStandardCORS r shape w) = w_Sent w.
Proof. by destruct shape. Qed.

(** What a response of the router is: it has a status, 404 exactly where there
    is no route, the name of the server, and the headers for browsers on the
    routes they call; and only a request for shapes touches the shapes, the
    admission controller and the counters. *)
Record answered {S} (router : Router) (r : Request) (x : Exchange S) (res : bool * Exchange S) : Prop := {
  ans_status : exists status, status_of (ex_writer res.2) = Some status /\ (status = 404 <-> ~ routed router r);
  ans_server : sent_header "electric-server" (ex_writer res.2) = Some (rtr_serverHeader router);
  ans_origin : r_Path r ∈ ["/v1/health"; "/v1/shape"] ->
    sent_header "Access-Control-Allow-Origin" (ex_writer res.2) = Some (allowedOrigin r) /\
    sent_header "Access-Control-Expose-Headers" (ex_writer res.2) = Some ExposedHeadersValue;
  ans_untouched : r_Path r <> "/v1/shape" ->
    res.1 = true /\ ex_manager res.2 = ex_manager x /\ ex_admission res.2 = ex_admission x /\ ex_metrics res.2 = ex_metrics x
}.

(** A response that was written after the router's headers. *)
Lemma answered_intro {S} (router : Router) (r : Request) (x : Exchange S) (res : bool * Exchange S) (status : Z) :
  status_of (ex_writer res.2) = Some status -> (status = 404 <-> ~ routed router r) ->
  carries "Electric-Server" (rtr_serverHeader router) (ex_writer res.2) ->
  (r_Path r ∈ ["/v1/health"; "/v1/shape"] ->
     carries "Access-Control-Allow-Origin" (allowedOrigin r) (ex_writer res.2) /\
     carries "Access-Control-Expose-Headers" ExposedHeadersValue (ex_writer res.2)) ->
  (r_Path r <> "/v1/shape" ->
     res.1 = true /\ ex_manager res.2 = ex_manager x /\ ex_admission res.2 = ex_admission x /\ ex_metrics res.2 = ex_metrics x) ->
  answered router r x res.
Proof.
  intros Hs Hr H1 H2 H3. split; [by exists status| | |done].
  - exact (carries_sent "electric-server" _ _ status H1 Hs).
  - intros [Ho He]%H2. split; [exact (carries_sent "Access-Control-Allow-Origin" _ _ status Ho Hs)|
      exact (carries_sent "Access-Control-Expose-Headers" _ _ status He Hs)].
Qed.

Lemma foreign_server : "Electric-Server" ∉ service_headers.
Proof. apply (bool_decide_unpack _). vm_compute. exact I. Qed.
Lemma foreign_origin : "Access-Control-Allow-Origin" ∉ service_headers.
Proof. apply (bool_decide_unpack _). vm_compute. exact I. Qed.
Lemma foreign_expose : "Access-Control-Expose-Headers" ∉ service_headers.
Proof. apply (bool_decide_unpack _). vm_compute. exact I. Qed.
#[local] Hint Resolve foreign_server foreign_origin foreign_expose : headers.

Lemma not_found_sent (w : Writer) : w_Sent w = None -> status_of (NotFound w) = Some 404.
Proof. intros Hw. apply status_text, sent_headers. exact Hw. Qed.

Lemma metrics_carry (key value : string) (is_print : N -> bool) (order : list string) (runtime : option RuntimeMetrics)
    (stats : option (result string StoreStats)) (p : Provider) (w : Writer) :
  key ∉ service_headers -> carries key value w -> carries key value (ServeMetrics is_print order runtime stats p w).
Proof.
  intros Hk Hw. unfold ServeMetrics. generalize (families is_print order runtime stats p). intros fs.
  assert (Hs : forall w, carries key value w -> carries key value (foldl (fun w f => write_text (print_family f) w) w fs)).
  { induction fs as [|f fs IH]; intros w' Hw'; [done|]. by apply IH, carries_text. }
  apply Hs. carry.
Qed.

Section answers.
Context {S : Type} {store_ops : Store S} {B : Type} {backend : Backend B}.
Variable cfg : Config.
Variable error_text : runtimeError -> string.
Variable json_error : string -> string.
Variable is_print : N -> bool.
Variable env : Env S B.
Variable surroundings : nat -> Surroundings.
Variable router : Router.
Variable rounds : nat.
Variable r : Request.
Variable x : Exchange S.
Hypothesis Hunsent : w_Sent (ex_writer x) = None.

Definition served_writer (w : Writer) : Exchange S := mkExchange (ex_manager x) (ex_admission x) w (ex_metrics x) (ex_step x).

Lemma not_found_answered (f : Writer -> Writer) :
  (f = id \/ exists shape, f = putStandardCORS r shape) ->
  (r_Path r ∈ ["/v1/health"; "/v1/shape"] -> exists shape, f = putStandardCORS r shape) -> ~ routed router r ->
  answered router r x (true, served_writer (NotFound (f (set_header "electric-server" (rtr_serverHeader router) (ex_writer x))))).
Proof.
  intros Hf Hc Hr. set (w := f (set_header "electric-server" (rtr_serverHeader router) (ex_writer x))).
  assert (Hw : w_Sent w = None) by (by destruct Hf as [E|[shape E]]; unfold w; rewrite E; [|rewrite cors_unsent]).
  assert (He : w_Header w !! "Electric-Server" = Some (rtr_serverHeader router)).
  { unfold w. destruct Hf as [->|[shape ->]]; [apply lookup_insert_eq|apply cors_headers]. }
  apply (answered_intro router r x _ 404).
  - by apply not_found_sent.
  - done.
  - apply carries_not_found; [auto with headers nocore|]. by apply carries_unsent.
  - intros [shape E]%Hc. destruct (cors_headers r shape (rtr_serverHeader router) (ex_writer x)) as (_ & Ho & Hx).
    split; (apply carries_not_found; [auto with headers nocore|apply carries_unsent; [done|unfold w; by rewrite E]]).
  - done.
Qed.
End answers.

Lemma is_method_spec (methods : list string) (r : Request) : is_method methods r = true <-> r_Method r ∈ methods.
Proof. apply bool_decide_eq_true. Qed.

Section routes.
Context {S : Type} {store_ops : Store S} {B : Type} {backend : Backend B}.
Variable cfg : Config.
Variable error_text : runtimeError -> string.
Variable json_error : string -> string.
Variable is_print : N -> bool.
Variable env : Env S B.
Variable surroundings : nat -> Surroundings.
Variable router : Router.
Variable rounds : nat.
Variable r : Request.
Variable x : Exchange S.
Hypothesis Hunsent : w_Sent (ex_writer x) = None.
#[local] Abbreviation served := (ServeHTTP cfg error_text json_error is_print env surroundings router rounds r x).

Lemma root_answered : r_Path r = "/" -> answered router r x served.
Proof.
  intros Hp. unfold ServeHTTP. rewrite decide_True by done. destruct (is_method _ r) eqn:Em; unfold mbind, handler_bind; cbn -[set_header NotFound write_header].
  - apply is_method_spec in Em. apply (answered_intro router r x _ 200).
    + by apply sent_headers.
    + split; [done|]. intros Hr. destruct Hr. by left.
    + apply carries_status, carries_unsent; [done|apply lookup_insert_eq].
    + rewrite Hp. intros Hx. exfalso. revert Hx. apply (bool_decide_unpack _). vm_compute. exact I.
    + done.
  - apply (not_found_answered router r x Hunsent id); [by left| |].
    + rewrite Hp. intros Hx. exfalso. revert Hx. apply (bool_decide_unpack _). vm_compute. exact I.
    + intros Hr. rewrite <- not_true_iff_false, is_method_spec in Em. unfold routed in Hr. rewrite Hp in Hr.
      destruct Hr as [[_ Hr]|[Hr|[[Hr _]|(_ & Hr & _)]]]; try done. apply Hr. by left.
Qed.

Lemma health_answered : r_Path r = "/v1/health" -> answered router r x served /\
  status_of (ex_writer served.2) = Some (health_of (sur_status (surroundings (ex_step x)))).1.
Proof.
  intros Hp. unfold ServeHTTP. rewrite decide_False by (by rewrite Hp). rewrite decide_True by done. unfold mbind, handler_bind.
  cbn -[set_header serveHealth putStandardCORS].
  set (w := putStandardCORS r false _). set (status := sur_status _).
  assert (Hw : w_Sent w = None) by (unfold w; by rewrite cors_unsent).
  assert (Hs : status_of (serveHealth status w) = Some (health_of status).1).
  { unfold serveHealth. destruct (health_of status) as [code text]. by apply sent_json. }
  split; [|exact Hs]. destruct (cors_headers r false (rtr_serverHeader router) (ex_writer x)) as (H1 & H2 & H3).
  apply (answered_intro router r x _ (health_of status).1); cbn.
  - exact Hs.
  - split; [by destruct status|]. intros Hr. destruct Hr. right. by left.
  - apply carries_health; [auto with headers nocore|by apply carries_unsent].
  - intros _. split; (apply carries_health; [auto with headers nocore|by apply carries_unsent]).
  - done.
Qed.

Lemma metrics_answered : (r_Path r ∉ ["/"; "/v1/health"; "/v1/shape"]) -> answered router r x served.
Proof.
  intros Hp. pose proof Hp as Hq. rewrite !not_elem_of_cons in Hp. destruct Hp as (H1 & H2 & H3 & _).
  unfold ServeHTTP. rewrite !decide_False by done.
  assert (Hno : r_Path r ∈ ["/v1/health"; "/v1/shape"] -> False).
  { rewrite !elem_of_cons, elem_of_nil. by intros [?|[?|[]]]. }
  destruct (decide (r_Path r = MetricsPath (rtr_telemetry router))) as [Hm|Hm].
  - destruct (is_method _ r) eqn:Em; unfold mbind, handler_bind; cbn -[set_header NotFound ServeMetrics].
    + apply is_method_spec in Em. apply (answered_intro router r x _ 200); cbn -[set_header ServeMetrics].
      * by apply metrics_sent.
      * split; [done|]. intros Hr. destruct Hr. right. right. by right.
      * apply metrics_carry; [auto with headers nocore|]. apply carries_unsent; [done|apply lookup_insert_eq].
      * by intros ?%Hno.
      * done.
    + apply (not_found_answered router r x Hunsent id); [by left|by intros ?%Hno|].
      intros Hr. rewrite <- not_true_iff_false, is_method_spec in Em.
      by destruct Hr as [[? _]|[?|[[? _]|(_ & _ & ?)]]].
  - apply (not_found_answered router r x Hunsent id); [by left|by intros ?%Hno|].
    intros Hr. by destruct Hr as [[? _]|[?|[[? _]|(? & _ & _)]]].
Qed.

Lemma shapes_answered : r_Path r = "/v1/shape" -> answered router r x served.
Proof.
  intros Hp. unfold ServeHTTP. rewrite !(decide_False (P := r_Path r = _)) by (by rewrite Hp). rewrite decide_True by done.
  destruct (cors_headers r true (rtr_serverHeader router) (ex_writer x)) as (H1 & H2 & H3).
  unfold mbind, handler_bind. cbn -[set_header putStandardCORS serveShapeOptions NotFound HandleShape].
  set (w := putStandardCORS r true _) in *. assert (Hw : w_Sent w = None) by (unfold w; by rewrite cors_unsent).
  assert (Hc : carries "Electric-Server" (rtr_serverHeader router) w /\ carries "Access-Control-Allow-Origin" (allowedOrigin r) w /\
    carries "Access-Control-Expose-Headers" ExposedHeadersValue w) by (split_and!; by apply carries_unsent).
  destruct Hc as (C1 & C2 & C3). destruct (is_method ["OPTIONS"] r) eqn:Eo.
  - apply is_method_spec, list_elem_of_singleton in Eo. cbn -[serveShapeOptions].
    apply (answered_intro router r x _ 204); cbn -[serveShapeOptions].
    + unfold serveShapeOptions. apply sent_headers. by case_decide.
    + split; [done|]. intros Hr. destruct Hr. right. right. left. split; [done|]. rewrite Eo. listed_header.
    + apply carries_options; [auto with headers nocore|done].
    + intros _. split; (apply carries_options; [auto with headers nocore|done]).
    + done.
  - destruct (is_method ["GET"; "HEAD"; "POST"; "DELETE"] r) eqn:Em.
    + apply is_method_spec in Em. set (x1 := mkExchange _ _ w _ _).
      destruct (shape_status cfg error_text json_error is_print env rounds r x1 Hw) as (s & Hs & Hin).
      assert (Hk : forall key value, key ∉ service_headers -> carries key value w ->
        carries key value (ex_writer (HandleShape cfg error_text json_error is_print env rounds r x1).2)).
      { intros key value Hf Hcw. exact (carried_handle cfg error_text json_error is_print env key value Hf rounds r x1 Hcw). }
      apply (answered_intro router r x _ s).
      * exact Hs.
      * split.
        -- intros ->. exfalso. revert Hin. apply (bool_decide_unpack _). vm_compute. exact I.
        -- intros Hr. destruct Hr. right. right. left. split; [done|]. revert Em. rewrite !elem_of_cons, !elem_of_nil. tauto.
      * apply Hk; [auto with headers nocore|done].
      * intros _. split; (apply Hk; [auto with headers nocore|done]).
      * done.
    + apply (not_found_answered router r x Hunsent (putStandardCORS r true)); [right; by exists true|by exists true|].
      intros Hr. rewrite <- not_true_iff_false, is_method_spec in Eo, Em. unfold routed in Hr. rewrite Hp in Hr.
      destruct Hr as [[? _]|[?|[[_ Hr]|(_ & Hr & _)]]]; [done|done| |].
      * revert Hr Eo Em. rewrite !elem_of_cons, !elem_of_nil. tauto.
      * apply Hr. listed_header.
Qed.
End routes.

(** C38. Every request is routed and answered.  Whatever the method and the
    path, the response has one status, 404 exactly where there is no route,
    and the name of the server; on the routes browsers call it has their
    headers, whichever handler answers and whatever the error; and only a
    request for shapes touches the shapes, the admission controller or the
    counters, or stays open. *)
Theorem every_request_routed {S} `{Store S} {B} `{Backend B} (cfg : Config) (error_text : runtimeError -> string) (json_error : string -> string)
    (is_print : N -> bool) (env : Env S B) (surroundings : nat -> Surroundings) (router : Router) (rounds : nat) (r : Request) (x : Exchange S) :
  w_Sent (ex_writer x) = None ->
  answered router r x (ServeHTTP cfg error_text json_error is_print env surroundings router rounds r x).
Proof.
  intros Hx. destruct (decide (r_Path r = "/")) as [?|H1]; [by apply root_answered|].
  destruct (decide (r_Path r = "/v1/health")) as [?|H2]; [by apply health_answered|].
  destruct (decide (r_Path r = "/v1/shape")) as [?|H3]; [by apply shapes_answered|].
  apply metrics_answered; [done|]. rewrite !elem_of_cons, elem_of_nil. tauto.
Qed.

(** A browser's request for a table without the secret. *)
Definition browser_request : Request :=
  Request.mkRequest "GET" ("", None) {["table" := ["items"]]} {["Origin" := "https://app.example"]} "/v1/shape".
Definition demo_router : Router := NewRouter "postgres-sync-go/v0" (NewProvider "v0" "" (mkLimits 300 10000)).
Definition demo_surroundings (status : ServiceStatus) (_ : nat) : Surroundings :=
  mkSurroundings status (rtr_telemetry demo_router) [] None None.
Definition demo_serve (status : ServiceStatus) (r : Request) : bool * Exchange MemoryStore :=
  ServeHTTP secured_config (fun _ => "error") (fun _ => "error") (fun _ => true) (alone_env "a") (demo_surroundings status) demo_router 3 r
    (NewService secured_config (mkManager NewMemoryStore ∅ ∅ ∅ 0 ∅ ∅) true).

Lemma every_request_routed_witness :
  status_of (ex_writer (demo_serve StatusActive browser_request).2) = Some 401 /\
  sent_header "Access-Control-Allow-Origin" (ex_writer (demo_serve StatusActive browser_request).2) = Some "https://app.example".
Proof.
  destruct (every_request_routed secured_config (fun _ => "error") (fun _ => "error") (fun _ => true) (alone_env "a")
    (demo_surroundings StatusActive) demo_router 3 browser_request
    (NewService secured_config (mkManager NewMemoryStore ∅ ∅ ∅ 0 ∅ ∅) true) eq_refl) as [_ _ Ho _].
  split; [vm_compute; reflexivity|]. apply Ho. listed_header.
Defined.

(** The health route says ready exactly when the runtime's status is
    active or sleeping, and 202 otherwise. *)
Theorem health_tells_status {S} `{Store S} {B} `{Backend B} (cfg : Config) (error_text : runtimeError -> string) (json_error : string -> string)
    (is_print : N -> bool) (env : Env S B) (surroundings : nat -> Surroundings) (router : Router) (rounds : nat) (r : Request) (x : Exchange S) :
  w_Sent (ex_writer x) = None -> r_Path r = "/v1/health" ->
  let status := sur_status (surroundings (ex_step x)) in
  status_of (ex_writer (ServeHTTP cfg error_text json_error is_print env surroundings router rounds r x).2) =
    Some (if decide (status = StatusActive \/ status = StatusSleeping) then 200 else 202).
Proof.
  intros Hx Hp status. destruct (health_answered cfg error_text json_error is_print env surroundings router rounds r x Hx Hp) as [_ ->].
  fold status. f_equal. destruct status; case_decide; naive_solver.
Qed.

Lemma health_tells_status_witness :
  status_of (ex_writer (demo_serve StatusWaiting (Request.mkRequest "GET" ("", None) ∅ ∅ "/v1/health")).2) = Some 202.
Proof.
  exact (health_tells_status secured_config (fun _ => "error") (fun _ => "error") (fun _ => true) (alone_env "a") (demo_surroundings StatusWaiting)
    demo_router 3 (Request.mkRequest "GET" ("", None) ∅ ∅ "/v1/health") (NewService secured_config (mkManager NewMemoryStore ∅ ∅ ∅ 0 ∅ ∅) true)
    eq_refl eq_refl).
Defined.
