(* ===== verification/Calls.v ===== *)
(** What a request does to the shapes: [src/internal/protocol/service.go] and
    [src/internal/httpapi/router.go] above [src/internal/shapes/manager.go].

    A request calls the manager, with other goroutines in between.  Its calls
    are transitions of the manager, and they touch no shape but the one the
    request asks for. *)

From Stdlib Require Import Ascii String ZArith NArith Lia.
From stdpp Require Import relations.
From S2P Require Import Prelude GoValue JsonText Config Offset ShapeTypes Diff Storage Persist Manager ShapeLog Restart Admission Request Response RelationCache Snapshot Service Answers Replication Lifecycle Telemetry Router Client.

#[local] Set Warnings "-clear-no-such-hyp".

(** * Definitions *)

(** The definition a request asks for. *)
Definition asks_for (json_error : string -> string) (is_print : N -> bool) (r : Request) (def : Definition_) : Prop :=
  forall req, ParseShapeRequest json_error is_print r = Ok req -> shapeDefinitionFromRequest req = def.

(** The shapes with other definitions are as they were. *)
Definition others_kept {S} (def : Definition_) (m m' : Manager S) : Prop :=
  forall h st, live_at h st m -> st_Hash st <> definition_hash def -> live_at h st m'.

(** The handle that would be made for the definition is free, at each moment
    the clock of the request is read. *)
Definition unused {S B} (env : Env S B) (def : Definition_) (m : Manager S) : Prop :=
  forall n, handle_unused def (env_now env n) m.

(** Other goroutines that work through the manager and make no shape of this
    definition under such a handle. *)
Definition well_behaved {S} `{Store S} {B} (env : Env S B) (def : Definition_) (m0 : Manager S) : Prop :=
  forall n m, rtc mstep m0 m -> unused env def m -> rtc mstep m (env_others env n m) /\ unused env def (env_others env n m).

(** * Lemmas *)

Create HintDb calls.

(** ** Every call keeps an invariant *)

Section invariant.
Context {S : Type} {store_ops : Store S} {B : Type} {backend : Backend B}.
Variable cfg : Config.
Variable error_text : runtimeError -> string.
Variable json_error : string -> string.
Variable is_print : N -> bool.
Variable env : Env S B.
Variable def : Definition_.
Variable I : Manager S -> Prop.
Hypothesis I_others : forall n m, I m -> I (env_others env n m).
Hypothesis I_upsert : forall n m snapshot offset, I m -> I (UpsertSnapshotAtOffset def snapshot offset (env_now env n) m).1.
Hypothesis I_register : forall m h offset waiter, I m -> I (wait_register h offset waiter m).1.
Hypothesis I_remove : forall m h waiter, I m -> I (removeWaiter h waiter m).

Definition inv (x : Exchange S) : Prop := I (ex_manager x).
#[local] Abbreviation keeps h := (triple inv h (fun _ => inv)).

Lemma inv_call {A} (f : nat -> Manager S -> Manager S * A) : (forall n m, I m -> I (f n m).1) -> keeps (manager_call env f).
Proof.
  intros Hf x Hx. unfold manager_call, mbind, handler_bind, Service.tick, on_manager, inv in *. cbn.
  pose proof (Hf (ex_step x) _ (I_others (ex_step x) _ Hx)) as H. by destruct (f _ _).
Qed.

Lemma inv_get {A} (f : Manager S -> A) : keeps (manager_get env f).
Proof. by apply inv_call. Qed.

Lemma inv_write (f : Writer -> Writer) : keeps (@write S f).
Proof. by intros x. Qed.

Lemma inv_tick : keeps (@Service.tick S).
Proof. by intros x. Qed.

Lemma inv_clock : keeps (read_clock env).
Proof. by intros x. Qed.

Lemma inv_snapshot (request : SnapshotRequest) : keeps (take_snapshot env request).
Proof. by intros x. Qed.

Lemma inv_metric (e : metric) : keeps (@record_metric S e).
Proof. by intros x. Qed.

Lemma inv_enter (kind : admissionKind) : keeps (@enter S kind).
Proof. intros x Hx. unfold enter. by destruct (acquire _ _). Qed.

Lemma inv_leave (kind : admissionKind) : keeps (@leave S kind).
Proof. intros x Hx. unfold leave. by destruct (release _ _). Qed.

Lemma inv_upsert (snapshot : SnapshotResult) (offset : string) : keeps (upsert env def snapshot offset).
Proof. apply inv_call. intros n m. apply I_upsert. Qed.

Lemma inv_register (h offset : string) (waiter : nat) : keeps (manager_call env (fun _ => wait_register h offset waiter)).
Proof. apply inv_call. intros n m. apply I_register. Qed.

Lemma inv_removed (h : string) (waiter : nat) : keeps (manager_call env (fun _ m => (removeWaiter h waiter m, tt))).
Proof. apply inv_call. intros n m. apply I_remove. Qed.
#[local] Hint Resolve inv_get inv_write inv_tick inv_clock inv_snapshot inv_metric inv_enter inv_leave inv_upsert inv_register inv_removed : calls.

Ltac calling :=
  repeat match goal with
  | |- triple _ (mbind _ _) _ => apply (triple_bind _ (fun _ => inv)); [|intros ?; cbv beta]
  | |- triple _ (match ?x with _ => _ end) _ => destruct x
  | |- triple _ (mret _) _ => by apply triple_ret
  | |- triple _ _ _ => solve [auto with calls nocore]
  end.

Lemma inv_read (h offset : string) : keeps (read env h offset).
Proof. apply inv_get. Qed.
#[local] Hint Resolve inv_read : calls.

Lemma inv_wait (timeout : Z) (h offset : string) : keeps (WaitForChange env timeout h offset).
Proof. unfold WaitForChange. calling. Qed.

Lemma inv_snapshot_error (e : serviceError) : keeps (@writeSnapshotError S error_text is_print e).
Proof. unfold writeSnapshotError, write_invalid, write_unavailable. calling. Qed.

Lemma inv_headers (r : Request) (req : ShapeRequest) (st : State) (o : SuccessHeaderOptions) : keeps (write_headers cfg is_print env r req st o).
Proof. unfold write_headers. calling. Qed.
#[local] Hint Resolve inv_wait inv_snapshot_error inv_headers : calls.

Lemma inv_respond (r : Request) (req : ShapeRequest) (st : State) (o : SuccessHeaderOptions) (body : list json) :
  keeps (respond cfg is_print env r req st o body).
Proof. unfold respond. calling. Qed.

Lemma inv_refetch (req : ShapeRequest) : keeps (mustRefetch error_text is_print env req def).
Proof. unfold mustRefetch, write_unavailable. calling. Qed.
#[local] Hint Resolve inv_respond inv_refetch : calls.

Lemma inv_initial (r : Request) (req : ShapeRequest) : keeps (serveInitialSnapshot cfg error_text is_print env r req def).
Proof. unfold serveInitialSnapshot, write_unavailable. calling. Qed.

Lemma inv_now (r : Request) (req : ShapeRequest) : keeps (serveNow cfg error_text is_print env r req def).
Proof. unfold serveNow, write_unavailable. calling. Qed.
#[local] Hint Resolve inv_initial inv_now : calls.

Lemma inv_rounds (rounds : nat) (h offset : string) : keeps (sse_rounds cfg env rounds h offset).
Proof.
  revert offset. induction rounds as [|rounds IH]; intros offset; cbn [sse_rounds]; unfold writeSSEEvents, flush; calling; apply IH.
Qed.
#[local] Hint Resolve inv_rounds : calls.

Lemma inv_sse (rounds : nat) (r : Request) (req : ShapeRequest) (st : State) (messages : list Message) :
  keeps (serveLiveSSE cfg is_print env rounds r req st messages).
Proof. unfold serveLiveSSE, writeSSEEvents, flush, write_unavailable. calling. Qed.

Lemma inv_poll (req : ShapeRequest) : keeps (long_poll cfg error_text is_print env req def).
Proof. unfold long_poll, write_invalid, write_unavailable. calling. Qed.
#[local] Hint Resolve inv_sse inv_poll : calls.

Lemma inv_continuation (rounds : nat) (r : Request) (req : ShapeRequest) :
  keeps (serveContinuation cfg error_text is_print env rounds r req def).
Proof. unfold serveContinuation, serve_messages, write_invalid, write_unavailable. calling. Qed.

Lemma inv_subset (req : ShapeRequest) (queryDef : Definition_) : keeps (serveSubsetSnapshot error_text is_print env req def queryDef).
Proof. unfold serveSubsetSnapshot, resolveSubsetShape, writeSubsetResolutionError. calling. Qed.
#[local] Hint Resolve inv_continuation inv_subset : calls.

Lemma inv_admitted (rounds : nat) (r : Request) (req : ShapeRequest) : keeps (serve_admitted cfg error_text is_print env rounds r req def def).
Proof. unfold serve_admitted, request_kind, serve_shape. calling. Qed.
#[local] Hint Resolve inv_admitted : calls.

Lemma inv_handle (rounds : nat) (r : Request) :
  r_Method r <> "DELETE" -> asks_for json_error is_print r def -> keeps (HandleShape cfg error_text json_error is_print env rounds r).
Proof.
  intros Hm Hdef. unfold HandleShape, asks_for in *. destruct (ParseShapeRequest json_error is_print r) as [e|req]; [calling|].
  specialize (Hdef req eq_refl). rewrite (decide_False (P := r_Method r = "DELETE")) by done.
  assert (Hq : sr_Subset req = None -> snapshotDefinitionFromRequest req = def).
  { intros Hs. rewrite <- Hdef. unfold snapshotDefinitionFromRequest, shapeDefinitionFromRequest. by rewrite Hs. }
  destruct (sr_Subset req) as [s|] eqn:Es; rewrite Hdef, ?Hq by done; calling.
Qed.
#[local] Hint Resolve inv_handle : calls.

Lemma inv_serve (surroundings : nat -> Surroundings) (router : Router) (rounds : nat) (r : Request) :
  r_Method r <> "DELETE" -> asks_for json_error is_print r def ->
  keeps (ServeHTTP cfg error_text json_error is_print env surroundings router rounds r).
Proof. intros Hm Hdef. unfold ServeHTTP. cbv zeta. calling. Qed.
End invariant.

(** ** Calls as transitions *)

Section steps.
Context {S : Type} {store_ops : Store S}.
#[local] Abbreviation Manager := (Manager S).

Lemma unused_same (def : Definition_) (now : Z) (m m' : Manager) :
  mgr_byHandle m' = mgr_byHandle m -> mgr_byHash m' = mgr_byHash m -> handle_unused def now m -> handle_unused def now m'.
Proof. unfold handle_unused. by intros -> ->. Qed.

Lemma sound_same {B} (env : Env S B) (def : Definition_) (m m' : Manager) :
  same_indices m' m -> well_formed m /\ unused env def m -> well_formed m' /\ unused env def m'.
Proof.
  intros Hs [Hw Hu]. pose proof Hs as (E1 & E2 & _).
  split; [by eapply well_formed_same; [symmetry|]|intros n; by apply (unused_same def _ m)].
Qed.

Lemma unused_found (def : Definition_) (now : Z) (m : Manager) : is_Some (mgr_byHash m !! definition_hash def) -> handle_unused def now m.
Proof. intros [h Hh] Hn. congruence. Qed.

Lemma notify_byHash (h : string) (m : Manager) : mgr_byHash (notifyLocked h m) = mgr_byHash m.
Proof. by destruct (notify_same h m) as (_ & -> & _). Qed.
#[local] Hint Rewrite @notify_byHash : mgr.

(** After an upsert the shape is found, or nothing has changed. *)
Lemma upsert_unused (def : Definition_) (snapshot : SnapshotResult) (offset : string) (now later : Z) (m : Manager) :
  handle_unused def later m -> handle_unused def later (UpsertSnapshotAtOffset def snapshot offset now m).1.
Proof.
  intros Hu. unfold UpsertSnapshotAtOffset, create_state. destruct (mgr_byHash m !! definition_hash def) as [h|] eqn:Eh.
  - destruct (persistStateLocked _ m) as [m1 [e|]] eqn:Ep; apply persist_same in Ep as (E1 & E2 & _); cbn [fst].
    + by apply (unused_same def later m).
    + apply unused_found. repeat (autorewrite with mgr; mgr_simpl). rewrite lookup_insert_eq. by eexists.
  - destruct (persistStateLocked _ (set_generation _ m)) as [m1 [e|]] eqn:Ep; apply persist_same in Ep as (E1 & E2 & _); mgr_simpl; cbn [fst].
    + by apply (unused_same def later m).
    + apply unused_found. repeat (autorewrite with mgr; mgr_simpl). cbn [created_state st_Hash]. rewrite lookup_insert_eq. by eexists.
Qed.

(** An upsert is of one shape. *)
Lemma upsert_kept (def : Definition_) (snapshot : SnapshotResult) (offset : string) (now : Z) (m : Manager) :
  well_formed m -> handle_unused def now m -> others_kept def m (UpsertSnapshotAtOffset def snapshot offset now m).1.
Proof.
  intros Hwf Hu h st [Hst Hd] Hne. split; [|done]. unfold UpsertSnapshotAtOffset, create_state.
  destruct (mgr_byHash m !! definition_hash def) as [k|] eqn:Eh.
  - apply (wf_hash m Hwf) in Eh as (s & [Hs _] & He). assert (k <> h) by (intros ->; congruence).
    destruct (persistStateLocked _ m) as [m1 [e|]] eqn:Ep; apply persist_same in Ep as (E1 & E2 & _); cbn [fst]; [by rewrite E1|].
    repeat (autorewrite with mgr; mgr_simpl). by rewrite lookup_insert_ne, E1.
  - specialize (Hu Eh). assert (new_handle (definition_hash def) now <> h) by (intros E; rewrite <- E in Hst; congruence).
    destruct (persistStateLocked _ (set_generation _ m)) as [m1 [e|]] eqn:Ep; apply persist_same in Ep as (E1 & E2 & _); mgr_simpl; cbn [fst]; [by rewrite E1|].
    repeat (autorewrite with mgr; mgr_simpl). cbn [created_state st_Handle]. by rewrite lookup_insert_ne, E1.
Qed.

Lemma kept_indices (def : Definition_) (m0 m m' : Manager) : same_indices m' m -> others_kept def m0 m -> others_kept def m0 m'.
Proof. intros (E & _) Hk h st Hl Hne. unfold live_at in *. rewrite E. by apply Hk. Qed.

Context {B : Type} {backend : Backend B}.
Variable cfg : Config.
Variable error_text : runtimeError -> string.
Variable json_error : string -> string.
Variable is_print : N -> bool.
Variable env : Env S B.
Variable def : Definition_.
Variables (surroundings : nat -> Surroundings) (router : Router) (rounds : nat) (r : Request).
Hypothesis Hmethod : r_Method r <> "DELETE".
Hypothesis Hdef : asks_for json_error is_print r def.
#[local] Abbreviation serve := (ServeHTTP cfg error_text json_error is_print env surroundings router rounds r).

Lemma serve_steps (x : Exchange S) :
  unused env def (ex_manager x) -> well_behaved env def (ex_manager x) ->
  rtc mstep (ex_manager x) (ex_manager (serve x).2) /\ unused env def (ex_manager (serve x).2).
Proof.
  intros Hu Hothers. set (m0 := ex_manager x) in *.
  apply (inv_serve cfg error_text json_error is_print env def (fun m => rtc mstep m0 m /\ unused env def m)); try done.
  - intros n m [Hr Hm]. destruct (Hothers n m Hr Hm) as [Hr2 Hm2]. split; [by etrans|done].
  - intros n m snapshot offset [Hr Hm]. split; [|intros k; by apply upsert_unused]. eapply rtc_r; [exact Hr|]. by apply step_operation, step_upsert.
  - intros m h offset waiter [Hr Hm]. split; [eapply rtc_r; [exact Hr|apply step_register]|]. intros k.
    destruct (wait_register_same h offset waiter m) as (E1 & E2 & _). by apply (unused_same def _ m).
  - intros m h waiter [Hr Hm]. split; [eapply rtc_r; [exact Hr|apply step_remove_waiter]|]. intros k.
    destruct (removeWaiter_same h waiter m) as (E1 & E2 & _). by apply (unused_same def _ m).
Qed.

Lemma serve_kept (x : Exchange S) :
  well_formed (ex_manager x) -> unused env def (ex_manager x) -> (forall n m, env_others env n m = m) ->
  others_kept def (ex_manager x) (ex_manager (serve x).2).
Proof.
  intros Hwf Hu Halone. set (m0 := ex_manager x) in *.
  apply (inv_serve cfg error_text json_error is_print env def (fun m => (well_formed m /\ unused env def m) /\ others_kept def m0 m)); try done.
  - intros n m. by rewrite Halone.
  - intros n m snapshot offset [[Hw Hm] Hk]. split_and!; [by apply wf_upsert|intros k; by apply upsert_unused|].
    intros h st Hl Hne. apply (upsert_kept def snapshot offset (env_now env n) m Hw (Hm n)); [by apply Hk|done].
  - intros m h offset waiter [Hs Hk]. split; [by eapply sound_same; [apply wait_register_same|]|eapply kept_indices; [apply wait_register_same|done]].
  - intros m h waiter [Hs Hk]. split; [by eapply sound_same; [apply removeWaiter_same|]|eapply kept_indices; [apply removeWaiter_same|done]].
  - change ((well_formed m0 /\ unused env def m0) /\ others_kept def m0 m0). split; [done|by intros h st Hl _].
Qed.
End steps.

(** ** Calls while the runtime runs *)

(** Steps of the manager are steps of the runtime. *)
Lemma shapes_run {S} `{Store S} (env : nat -> World) (cfg : runtimeConfig) (lsn_String : Z -> string) (ParseLSN : string -> option Z)
    (error_text : runtimeError -> string) (m : Manager S) (l : Life S) :
  rtc mstep (rt_shapes (rf_rt (lf_fields l))) m -> rtc (lstep env cfg lsn_String ParseLSN error_text) l (on_rt (Replication.set_shapes m) l).
Proof.
  intros Hr. remember (rt_shapes (rf_rt (lf_fields l))) as m0 eqn:E. revert l E. induction Hr as [m|m m1 m2 Hs _ IH]; intros l ->.
  - replace (on_rt _ l) with l; [done|]. by destruct l as [[[] ? ? ? ? ? ? ? ?] ? ? ? ? ?].
  - eapply rtc_l; [by apply (step_shapes _ _ _ _ _ l m1)|]. exact (IH (on_rt (Replication.set_shapes m1) l) eq_refl).
Qed.

(** ** A second shape *)

(** A request for a second shape of the table of [first_request]. *)
Definition filtered_request : Request := table_request "GET" "s3cret" [("offset", "-1"); ("where", "id = 1")].

Lemma first_manager_wf : well_formed first_manager.
Proof.
  set (def := shapeDefinitionFromRequest (parsed_request first_request)).
  assert (Hk : well_formed first_manager /\ unused (alone_env "a") def first_manager); [|by destruct Hk].
  assert (Ht : triple (inv (fun m => well_formed m /\ unused (alone_env "a") def m))
    (HandleShape secured_config (fun _ => "error") (fun _ => "error") (fun _ => true) (alone_env "a") 3 first_request)
    (fun _ => inv (fun m => well_formed m /\ unused (alone_env "a") def m))).
  { apply (inv_handle _ _ _ _ _ def).
    - done.
    - intros n m snapshot offset [Hw Hu]. split; [by apply wf_upsert|intros k; by apply upsert_unused].
    - intros m h offset waiter. apply sound_same, wait_register_same.
    - intros m h waiter. apply sound_same, removeWaiter_same.
    - discriminate.
    - intros req E. unfold def, parsed_request. by rewrite E. }
  specialize (Ht (NewService secured_config demo_none true)). unfold inv in Ht. unfold first_manager, run. apply Ht.
  split; [apply empty_well_formed|]. intros n _. apply lookup_empty.
Qed.

Lemma filtered_unused : unused (alone_env "a") (shapeDefinitionFromRequest (parsed_request filtered_request)) first_manager.
Proof.
  intros n _. assert (Hk : first_manager.(mgr_byHandle) = {[first_handle := first_state]}) by (vm_compute; reflexivity).
  rewrite Hk. apply lookup_singleton_ne. unfold new_handle.
  assert (Hh : exists s, take_bytes 10 (definition_hash (shapeDefinitionFromRequest (parsed_request filtered_request))) = String "e" s) by (vm_compute; eauto).
  destruct Hh as [s ->]. discriminate.
Qed.
