(* ===== verification/Engine.v ===== *)
(** The engine: [src/pkg/pgsync/engine.go].

    An engine is the runtime, the service, the telemetry and the router over
    one store, which is in memory or on the disk.  [New] checks the
    configuration, opens the store, compacts it and loads the shapes; [Start]
    and [Close] act once; the handler is the router, over the shapes of the
    runtime.  An operation here is what it does when nothing interferes; the
    steps that may come between are those of [Lifecycle] and [Service]. *)

From Stdlib Require Import Ascii String ZArith NArith Lia.
From stdpp Require Import relations.
From S2P Require Import Prelude GoValue JsonText GoFormat Config Offset ShapeTypes Diff Storage Persist Manager Restart Paths DiskStore DiskLaws DiskRefine DiskRestart Handles DiskManager DiskReload.
From S2P Require Import Admission Request Response Effects RelationCache Snapshot Service Answers Client Replication Lifecycle Telemetry Router Calls.

#[local] Set Warnings "-clear-no-such-hyp".

(** * Definitions *)

Definition Version : string := "v0.1.0-preview.3".

(** The conversion of a snapshot of the runtime's metrics. *)
Definition status_text (s : ServiceStatus) : string :=
  match s with
  | StatusStarting => "starting"
  | StatusWaiting => "waiting"
  | StatusActive => "active"
  | StatusSleeping => "sleeping"
  | StatusStopped => "stopped"
  end.

Definition runtime_metrics (s : MetricsSnapshot) : RuntimeMetrics :=
  mkRuntimeMetrics (status_text (ms_Status s)) (ms_ReplicationConnected s) (ms_ReplicationSlot s) (ms_LastConfirmedLSN s)
    (ms_LastConfirmedBytes s) (ms_LastReceivedLSN s) (ms_LastReceivedBytes s) (ms_ServerWALEnd s) (ms_ServerWALEndBytes s)
    (ms_WALRetainedBytes s) (ms_Reconnects s) (ms_ReplicationErrors s) (ms_ChangeBatches s) (ms_ChangeRecords s)
    (ms_Invalidations s) (ms_LastReplicationError s).

Section engine.
Context {S : Type} {store_ops : Store S}.

(** The service's own state is its admission controller; its shapes are those
    of the runtime.  [None] as the result of [Start] or [Close]: not called. *)
Record Engine : Type := mkEngine {
  eng_cfg : Config;
  eng_runtime : Life S;
  eng_telemetry : Provider;
  eng_protocol : option admissionController;
  eng_router : Router;
  eng_startErr : option (option string);
  eng_closeErr : option (option string)
}.

Definition set_runtime (l : Life S) (e : Engine) : Engine :=
  mkEngine (eng_cfg e) l (eng_telemetry e) (eng_protocol e) (eng_router e) (eng_startErr e) (eng_closeErr e).

(** The shapes, and below them the store. *)
Definition eng_shapes (e : Engine) : Manager S := rt_shapes (rf_rt (lf_fields (eng_runtime e))).
Definition eng_store (e : Engine) : S := mgr_store (eng_shapes e).

(** What [New] comes to once it has a store: [closed] tells whether it has
    closed the store again. *)
Inductive outcome : Type :=
| Created (e : Engine)
| Failed (err : string) (closed : bool).

Definition assemble (cfg : Config) (store : S) : outcome :=
  match Compact store with
  | (_, Err e) => Failed e true
  | (store, Ok _) =>
      match NewManager store with
      | Err e => Failed e false
      | Ok shapeManager =>
          let telemetryProvider := NewProvider Version (cfg_MetricsPath cfg) (cfg_MaxConcurrentRequests cfg) in
          let runtime := NewRuntime shapeManager in
          let protocolService := NewService cfg shapeManager true in
          let router := NewRouter ("postgres-sync-go/" +:+ Version) telemetryProvider in
          Created (mkEngine cfg runtime telemetryProvider (ex_admission protocolService) router None None)
      end
  end.

Definition Status (e : Engine) : ServiceStatus := Lifecycle.Status (eng_runtime e).

(** ** Start and Close *)

Variable env : nat -> World.
(** net/url.Parse of a database URL: its path. *)
Variable url_Path : string -> option string.
(** pgxpool.ParseConfig: the text of its error. *)
Variable pool_ParseConfig : string -> option string.
Variable lsn_String : Z -> string.
Variable ParseLSN : string -> option Z.

Definition currentDatabaseName (databaseURL : string) : string :=
  match url_Path databaseURL with
  | None => ""
  | Some path => default path (strip_prefix "/" path)
  end.

Definition runtime_config (cfg : Config) : runtimeConfig :=
  mkRuntimeConfig (cfg_ReplicationStreamID cfg) (currentDatabaseName (cfg_DatabaseURL cfg)).

(** [Runtime.Start]: a first attempt to connect, then the supervisor. *)
Definition runtime_Start (cfg : Config) (a : connectAnswers) (l : Life S) : Life S * option string :=
  match pool_ParseConfig (cfg_PooledDatabaseURL cfg) with
  | Some e => (Lifecycle.Start false (cfg_DBPoolSize cfg) l, Some e)
  | None =>
      let l := Lifecycle.Start true (cfg_DBPoolSize cfg) l in
      (set_connector Ticking (connectRuntime env (runtime_config cfg) lsn_String ParseLSN a l).1, None)
  end.

Definition Start (a : connectAnswers) (e : Engine) : Engine * option string :=
  match eng_startErr e with
  | Some err => (e, err)
  | None =>
      let '(l, err) := runtime_Start (eng_cfg e) a (eng_runtime e) in
      (mkEngine (eng_cfg e) l (eng_telemetry e) (eng_protocol e) (eng_router e) (Some err) (eng_closeErr e), err)
  end.

(** [Runtime.Close]: the loops and the supervisor have seen their contexts done
    and returned. *)
Definition runtime_Close (l : Life S) : Life S :=
  let replConn := rf_conn (lf_fields l) in
  let hadCtx := rf_runCtx (lf_fields l) in
  let l := close_connection replConn (close_begin l) in
  let l := set_loops ∅ l in
  let l := match lf_connector l with Ticking => set_connector Exited l | _ => l end in
  set_closer (Closed hadCtx) (close_end l).

(** Neither the runtime nor the telemetry fails to close; [store_err] is what
    the store says. *)
Definition Close (store_err : option string) (e : Engine) : Engine * option string :=
  match eng_closeErr e with
  | Some err => (e, err)
  | None =>
      (mkEngine (eng_cfg e) (runtime_Close (eng_runtime e)) (eng_telemetry e) (eng_protocol e) (eng_router e) (eng_startErr e) (Some store_err),
       store_err)
  end.

(** ** The handler *)

Variable error_text : runtimeError -> string.
Variable json_error : string -> string.
Variable is_print : N -> bool.

(** What the router finds: the engine's own parts. *)
Definition surroundings_of (order : list string) (e : Engine) : Surroundings :=
  mkSurroundings (Status e) (eng_telemetry e) order (Some (runtime_metrics (metrics lsn_String (eng_runtime e)))) (Some (Stats (eng_store e))).

Context {B : Type} {backend : Backend B}.

(** One request: the response, whether it is complete, and the engine after. *)
Definition Handle (requests : Env S B) (rounds : nat) (order : list string) (r : Request) (e : Engine) : (bool * Writer) * Engine :=
  let x := mkExchange (eng_shapes e) (eng_protocol e) new_writer (Some []) 0%nat in
  let '(complete, x') :=
    ServeHTTP (eng_cfg e) error_text json_error is_print requests (fun _ => surroundings_of order e) (eng_router e) rounds r x in
  ((complete, ex_writer x'),
   mkEngine (eng_cfg e) (on_rt (Replication.set_shapes (ex_manager x')) (eng_runtime e))
     (foldl record_event (eng_telemetry e) (default [] (ex_metrics x'))) (ex_admission x') (eng_router e) (eng_startErr e) (eng_closeErr e)).
End engine.
Arguments Engine S : clear implicits.
Arguments outcome S : clear implicits.

(** ** New *)

Inductive created : Type :=
| Rejected (err : string)
| OnMemory (o : outcome MemoryStore)
| OnDisk (o : outcome DiskStore).

Definition storage_dir (cfg : Config) : string :=
  if decide (cfg_StorageDir cfg = "") then Join "." ".postgres-sync-go" else cfg_StorageDir cfg.

Section new.
Context `{Device}.
(** net/url.Parse: the text of its error. *)
Variable url_Parse : string -> option string.

Definition New (cfg : Config) (medium : Medium) : created :=
  match Validate url_Parse cfg with
  | Some e => Rejected e
  | None =>
      if decide (cfg_StorageMode cfg ∈ [""; StorageModeMemory]) then OnMemory (assemble cfg NewMemoryStore)
      else if decide (cfg_StorageMode cfg = StorageModeDisk) then
        match NewDiskStore (storage_dir cfg) medium with
        | Err e => Rejected (DiskStore.error_text e)
        | Ok diskStore => OnDisk (assemble cfg diskStore)
        end
      else Rejected "unsupported storage mode"
  end.
End new.

(** What an engine on the disk leaves when it is closed, or when the process
    ends. *)
Definition left_behind (e : Engine DiskStore) : Medium := disk_Close (eng_store e).

(** An engine that has only been created. *)
Record fresh_engine {S} `{Store S} (cfg : Config) (e : Engine S) : Prop := {
  fresh_status : Status e = StatusStarting;
  fresh_shapes h : LookupByHandle h (eng_shapes e) = None;
  fresh_limits : eng_protocol e = Some (newAdmissionController (Z.to_nat (lim_Initial (cfg_MaxConcurrentRequests cfg)))
    (Z.to_nat (lim_Existing (cfg_MaxConcurrentRequests cfg))));
  fresh_room : 0 < lim_Initial (cfg_MaxConcurrentRequests cfg) /\ 0 < lim_Existing (cfg_MaxConcurrentRequests cfg);
  fresh_calls : eng_startErr e = None /\ eng_closeErr e = None
}.

(** * Lemmas *)

(** ** A compaction without faults succeeds *)

Section compaction.
Context `{Device}.
Hypothesis no_fault : forall n, fault_at n = None.

(** The operation succeeds here. *)
Definition succeeds {A} (m : Io A) (s : DiskStore) (Q : DiskStore -> Prop) : Prop :=
  runs m s (fun r s' => (exists a, r = Ok a) /\ Q s').

Lemma runs_attempt_quiet {A} (f : DiskStore -> result diskError A * DiskStore) (s : DiskStore) (Q : result diskError A -> DiskStore -> Prop) :
  Q (f (DiskStore.tick s)).1 (f (DiskStore.tick s)).2 -> runs (attempt f) s Q.
Proof. unfold runs, attempt. by rewrite no_fault. Qed.

Lemma remove_present (p : string) (s : DiskStore) :
  Clean p = p -> is_Some (ds_files s !! p) -> succeeds (remove_if_there p) s (fun s' => ds_files s' = delete p (ds_files s)).
Proof.
  intros Hc [data Hd]. apply runs_bind, runs_catch, runs_attempt_quiet. cbn [ds_files DiskStore.tick]. rewrite Hc, Hd.
  split; [by eexists|done].
Qed.

Lemma remove_unreferenced_succeeds (live : gset string) (paths : list string) (res : CompactionResult) (s : DiskStore) :
  NoDup paths -> Forall (fun q => Clean q = q /\ is_Some (ds_files s !! q)) paths ->
  succeeds (remove_unreferenced live paths res) s (fun _ => True).
Proof.
  revert res s. induction paths as [|q paths IH]; intros res s Hnd Hin; [by apply runs_ret; split; [eexists|]|].
  apply NoDup_cons in Hnd as [Hq Hnd]. inversion_clear Hin as [|?? [Hc Hs] Hrest]. cbn [remove_unreferenced]. rewrite Hc.
  case_decide; [by apply IH|]. apply runs_with_store, runs_bind. eapply runs_mono; [by apply remove_present|].
  intros r s1 [[[] ->] Hf]. apply IH; [done|]. rewrite Hf. eapply Forall_impl; [|intros y Hy; exact Hy].
  apply Forall_forall. intros y Hy. rewrite Forall_forall in Hrest. destruct (Hrest y Hy) as [Hyc Hys]. split; [done|].
  rewrite lookup_delete_ne; [done|]. intros ->. done.
Qed.

Lemma compact_tx_succeeds (s : DiskStore) :
  runs (in_tx (_ ← tx_exec delete_dead_chunks; _ ← tx_exec (fun t => Ok (DiskStore.set_shapes (reset_count <$> tbl_shapes t) t)); commit)) s
    (fun r _ => r = Ok tt).
Proof. unfold runs, in_tx, mbind, io_bind, begin_tx, rollback_after, tx_exec, commit, attempt. by repeat (rewrite no_fault; cbn). Qed.

Lemma compact_succeeds (s : DiskStore) : disk_ok s -> exists res, (disk_Compact s).1 = Ok res.
Proof.
  intros Hok. enough (Hs : succeeds disk_Compact s (fun _ => True)) by (by destruct Hs).
  apply runs_bind. pose proof (compact_tx_spec s Hok) as Hspec. pose proof (compact_tx_succeeds s) as Hr. unfold runs in *.
  destruct (in_tx _ s) as [r s1]. cbn [fst snd] in *. subst r. destruct Hspec as [Hi Hf].
  change (succeeds (livePaths ← liveChunkPaths; result ← removeUnreferencedChunkFiles livePaths; _ ← catch removeEmptyChunkDirs; mret result) s1 (fun _ => True)).
  apply runs_bind, runs_attempt_quiet. cbn [fst snd]. apply runs_bind, runs_bind, runs_attempt_quiet. cbn [fst snd ds_chunkDir ds_files DiskStore.tick].
  destruct (walk_files_spec (ds_chunkDir s1) (ds_files s1)) as [Hnd Hwalk].
  eapply runs_mono.
  { apply remove_unreferenced_succeeds; [done|]. apply Forall_forall. intros q [_ Hq]%Hwalk. split; [|done]. by apply (ok_files s1), Hq; apply Hi. }
  intros r s3 [[res ->] _]. apply runs_bind, runs_catch. unfold runs. destruct (removeEmptyChunkDirs s3). split; [by eexists|done].
Qed.
End compaction.

(** ** New *)

Section creation.
Context `{Device}.
Variable url_Parse : string -> option string.

Lemma valid_limits (cfg : Config) : Validate url_Parse cfg = None ->
  0 < lim_Initial (cfg_MaxConcurrentRequests cfg) /\ 0 < lim_Existing (cfg_MaxConcurrentRequests cfg).
Proof.
  unfold Validate. intros E. repeat (case_match; try done).
  all: lia.
Qed.

Lemma valid_mode (cfg : Config) : Validate url_Parse cfg = None ->
  cfg_StorageMode cfg ∈ [""; StorageModeMemory] \/ cfg_StorageMode cfg = StorageModeDisk.
Proof.
  unfold Validate. intros E. destruct (decide (cfg_StorageMode cfg = "")) as [->|]; [left; by left|].
  destruct (decide (cfg_StorageMode cfg = StorageModeMemory)) as [->|]; [left; right; by left|]. right.
  destruct (decide (cfg_StorageMode cfg = StorageModeDisk)) as [|]; [done|].
  repeat (case_match; try done). all: by rewrite !bool_decide_false in * by done.
Qed.

(** What assembling makes of a store that is compacted and loaded. *)
Lemma assemble_created {S} `{Store S} (cfg : Config) (s s' : S) (res : CompactionResult) (m : Manager S) :
  Compact s = (s', Ok res) -> NewManager s' = Ok m ->
  exists e, assemble cfg s = Created e /\ eng_shapes e = m /\ Status e = StatusStarting /\
    eng_protocol e = Some (newAdmissionController (Z.to_nat (lim_Initial (cfg_MaxConcurrentRequests cfg)))
      (Z.to_nat (lim_Existing (cfg_MaxConcurrentRequests cfg)))) /\ eng_startErr e = None /\ eng_closeErr e = None.
Proof. intros Ec Em. unfold assemble. rewrite Ec, Em. by eexists. Qed.

(** And back. *)
Lemma assemble_inv {S} `{Store S} (cfg : Config) (s : S) (e : Engine S) :
  assemble cfg s = Created e -> exists s' res, Compact s = (s', Ok res) /\ NewManager s' = Ok (eng_shapes e).
Proof.
  unfold assemble. destruct (Compact s) as [s' [x|res]]; [done|]. destruct (NewManager s') as [x|m] eqn:Em; [done|]. intros [= <-].
  by exists s', res.
Qed.

Lemma new_on_disk (cfg : Config) (medium : Medium) : Validate url_Parse cfg = None -> cfg_StorageMode cfg = StorageModeDisk ->
  New url_Parse cfg medium = match NewDiskStore (storage_dir cfg) medium with
    | Err e => Rejected (DiskStore.error_text e) | Ok diskStore => OnDisk (assemble cfg diskStore) end.
Proof. intros E Em. unfold New. by rewrite E, Em. Qed.

Lemma opens (dir : string) (medium : Medium) : (forall n, fault_at n = None) -> exists s, NewDiskStore dir medium = Ok s.
Proof.
  intros Hquiet. unfold NewDiskStore.
  match goal with |- context [open_store ?a ?b ?c] => pose proof (open_store_spec a b c) as Hs; cbv zeta in Hs; unfold runs in Hs; destruct (open_store a b c) as [r s] end.
  destruct Hs as [_ Hs]. cbn in Hs. rewrite (Hs Hquiet). by exists s.
Qed.

(** Opening, and compacting, what a store has left. *)
Lemma reopened_compacted (dir : string) (s s1 s2 : DiskStore) (res : CompactionResult) :
  store_in dir s -> disk_ok s -> NewDiskStore dir (disk_Close s) = Ok s1 -> Compact s1 = (s2, Ok res) ->
  store_in dir s2 /\ disk_ok s2 /\ disk_shapes s2 = disk_shapes s /\
  tbl_shapes (ds_tables s2) = tbl_shapes (ds_tables s) /\ checkpoint_of s2 = checkpoint_of s.
Proof.
  intros (Hb & Hd & Hc) Hok Eo Ec. destruct (reopened dir s s1 Hok Hd Hb Hc Eo) as (Hd1 & Hc1 & Hok1 & Hs1 & Ht1 & Hk1).
  pose proof (compact_outcome s1 Hok1) as Ho. unfold runs in Ho. cbn in Ec. destruct (disk_Compact s1) as [r s'].
  assert (s' = s2) as -> by congruence. destruct Ho as [[Hok2 Hd2 Hc2 Hs2 Ht2 Hk2 _] _]. cbn [fst snd] in *.
  split_and!; [unfold store_in; split_and!; congruence|done|congruence|congruence|cbn; congruence].
Qed.

Lemma disk_compacts (s : DiskStore) : (forall n, fault_at n = None) -> disk_ok s -> exists s' res, Compact s = (s', Ok res).
Proof.
  intros Hquiet Hok. destruct (compact_succeeds Hquiet s Hok) as [res E]. cbn. destruct (disk_Compact s) as [r s']. cbn in E. subst r. by exists s', res.
Qed.

(** An engine that comes up over what a manager has left. *)
Lemma restarted (cfg : Config) (m : Manager DiskStore) (e : Engine DiskStore) :
  Validate url_Parse cfg = None -> cfg_StorageMode cfg = StorageModeDisk -> disk_ready (storage_dir cfg) true m ->
  New url_Parse cfg (disk_Close (mgr_store m)) = OnDisk (Created e) ->
  disk_ready (storage_dir cfg) true (eng_shapes e) /\ checkpoint_of (eng_store e) = checkpoint_of (mgr_store m) /\
  (forall h s, LookupByHandle h (eng_shapes e) = Some s ->
    exists st, LookupByHandle h m = Some st /\ s = reloaded_state (kept_state st)) /\
  (forall def s, LookupByDefinition def (eng_shapes e) = Some s ->
    exists st, LookupByDefinition def m = Some st /\ s = reloaded_state (kept_state st)).
Proof.
  intros Hv Hmode Hready. rewrite new_on_disk by done. destruct (NewDiskStore _ _) as [|s1] eqn:Eo; [done|]. intros [= E].
  apply assemble_inv in E as (s2 & res & Ec & Em). pose proof (ready_mirrored _ _ _ Hready) as Hm.
  destruct (reopened_compacted _ _ s1 s2 res (holds_place _ _ _ _ Hm) (holds_ok _ _ _ _ Hm) Eo Ec) as (Hin2 & Hok2 & Hs2 & Ht2 & Hk2).
  destruct (restart_torn _ _ _ s2 Hready Hin2 Hok2 Hs2 Ht2 Em) as (Hr' & Hk' & Hserved).
  split; [done|]. split; [unfold eng_store, checkpoint_of in *; congruence|].
  apply served_lookups; [by eapply ready_wf|apply Hr'|done].
Qed.

(** An engine in an empty directory. *)
Lemma new_on_fresh_disk (cfg : Config) (medium : Medium) :
  Validate url_Parse cfg = None -> cfg_StorageMode cfg = StorageModeDisk -> is_blank (storage_dir cfg) = false -> (forall n, fault_at n = None) ->
  (forall q, md_databases medium !! q = None) -> (forall q, is_Some (md_files medium !! q) -> Clean q = q) ->
  exists e, New url_Parse cfg medium = OnDisk (Created e) /\ fresh_engine cfg e /\ disk_ready (storage_dir cfg) false (eng_shapes e).
Proof.
  intros Hv Hm Hb Hquiet Hnone Hclean. pose proof (valid_limits cfg Hv) as Hlim.
  rewrite new_on_disk by done. destruct (opens (storage_dir cfg) medium Hquiet) as [s1 Eo]. rewrite Eo.
  destruct (new_store_ok _ medium s1 Hnone Hclean Eo) as (Hd & Hch & Hok & Hsh). rewrite Hb in Hd, Hch.
  destruct (disk_compacts s1 Hquiet Hok) as (s2 & res & Ec). pose proof (compact_outcome s1 Hok) as Ho. unfold runs in Ho.
  assert (Hi : intact s1 s2) by (cbn in Ec; destruct (disk_Compact s1); injection Ec as <- _; apply Ho). destruct Hi as [Hok2 Hd2 Hc2 Hs2 _ _ _].
  assert (Em : NewManager s2 = Ok (mkManager s2 ∅ ∅ ∅ 0 ∅ ∅)).
  { unfold NewManager, loadPersisted. cbn [mgr_store]. rewrite (loaded_all s2 Hok2 Hquiet), Hs2, Hsh. done. }
  destruct (assemble_created cfg s1 s2 res _ Ec Em) as (e & -> & E & Hst & Hp & Hcalls).
  exists e. split; [done|]. split; [by split; try done; intros h; rewrite E|]. rewrite E. split.
  - apply empty_well_formed.
  - exact fits_empty.
  - change (store_holds (storage_dir cfg) false s2 ∅). split; [unfold store_in; split_and!; [done|congruence|congruence]|done|]. intros h. rewrite lookup_empty. cbn [held_at]. by rewrite Hs2, Hsh, lookup_empty.
Qed.
End creation.

(** ** Start and Close as steps *)

Section calls.
Context {S : Type} {store_ops : Store S} {store_laws : CheckpointLaws S}.
Variable env : nat -> World.
Variable cfg : runtimeConfig.
Variable lsn_String : Z -> string.
Variable ParseLSN : string -> option Z.
Variable error_text : runtimeError -> string.
#[local] Abbreviation lstep := (lstep env cfg lsn_String ParseLSN error_text).

Lemma runtime_close_steps (l : Life S) :
  life_ok l -> run_ok l -> lf_connector l = Ticking -> lf_closer l = Open -> rtc lstep l (runtime_Close l).
Proof.
  intros Hok [Hrun Hctx] Ht Ho. specialize (Hctx Ho). rewrite Ht in Hctx. unfold runtime_Close. rewrite Hctx.
  assert (Hcan : forall c, is_Some (lf_loops l !! c) -> c ∈ rs_cancelled (lf_res (close_begin l))).
  { intros c Hl. by destruct (ok_loop _ (close_begin_streams env l (ok_streams l Hok)) c Hl). }
  set (rc := rf_conn (lf_fields l)). set (l2 := set_closer (WaitingLoops true) (close_connection rc (close_begin l))).
  eapply rtc_l; [by apply step_close|]. eapply (rtc_l _ _ l2); [apply step_close_connection; cbn; by rewrite Hctx|].
  etrans; [apply timely_steps, loops_end; by destruct rc|].
  eapply rtc_l; [apply (step_loops_done _ _ _ _ _ _ true); [by destruct rc|done]|].
  eapply rtc_l; [apply step_exit; [by destruct rc|]|].
  { assert (Hd : rs_ctxDone (lf_res (close_begin l)) = true) by (cbn; rewrite <- Hrun, Hctx; apply orb_true_r). by destruct rc. }
  eapply rtc_l; [by apply (step_close_end _ _ _ _ _ _ true)|].
  replace (lf_connector (set_loops ∅ (close_connection rc (close_begin l)))) with Ticking by (by destruct rc).
  unfold close_end, l2. destruct rc, (rf_pool (lf_fields l)) eqn:Ep; cbn; rewrite ?Ep; done.
Qed.
End calls.

(** * Properties *)

(** C6. Closing and starting again never changes a shape, and loses none unless
    something fails.  An engine on the disk runs shape operations that fit on
    the disk, with saves that fail or not, and is closed, or its process ends;
    an engine is created from what it left, where again anything can fail.  If
    it comes up, every shape it has, by handle or by definition, is one that
    was there, as the disk keeps it, and all this holds of it again.  When no
    operation reported an error and nothing fails now, it does come up, with
    every shape under its handle and its definition, and the same checkpoint. *)
Theorem engine_restarts `{Device} (url_Parse : string -> option string) (cfg : Config) (e0 e : Engine DiskStore) :
  Validate url_Parse cfg = None -> cfg_StorageMode cfg = StorageModeDisk ->
  (disk_ready (storage_dir cfg) true (eng_shapes e0) -> rtc (fit_step true) (eng_shapes e0) (eng_shapes e) ->
   forall e', New url_Parse cfg (left_behind e) = OnDisk (Created e') ->
    disk_ready (storage_dir cfg) true (eng_shapes e') /\ checkpoint_of (eng_store e') = checkpoint_of (eng_store e) /\
    (forall h s, LookupByHandle h (eng_shapes e') = Some s ->
      exists st, LookupByHandle h (eng_shapes e) = Some st /\ s = reloaded_state (kept_state st)) /\
    (forall def s, LookupByDefinition def (eng_shapes e') = Some s ->
      exists st, LookupByDefinition def (eng_shapes e) = Some st /\ s = reloaded_state (kept_state st))) /\
  (disk_ready (storage_dir cfg) false (eng_shapes e0) -> rtc (fit_step false) (eng_shapes e0) (eng_shapes e) ->
   (forall n, fault_at n = None) ->
   exists e', New url_Parse cfg (left_behind e) = OnDisk (Created e') /\ Status e' = StatusStarting /\
      disk_ready (storage_dir cfg) false (eng_shapes e') /\ checkpoint_of (eng_store e') = checkpoint_of (eng_store e) /\
      (forall h, LookupByHandle h (eng_shapes e') = (fun st => reloaded_state (kept_state st)) <$> LookupByHandle h (eng_shapes e)) /\
      (forall def, LookupByDefinition def (eng_shapes e') = (fun st => reloaded_state (kept_state st)) <$> LookupByDefinition def (eng_shapes e))).
Proof.
  intros Hv Hmode. unfold left_behind. split; intros H0 Hsteps.
  - intros e' E. exact (restarted url_Parse cfg _ e' Hv Hmode (fit_steps _ true _ _ H0 Hsteps) E).
  - rewrite new_on_disk by done. unfold eng_store. intros Hquiet. pose proof (fit_steps _ false _ _ H0 Hsteps) as Hready. destruct (Hready) as [_ Hf [Hin Hok Hsh]].
    destruct (opens (storage_dir cfg) (disk_Close (mgr_store (eng_shapes e))) Hquiet) as [s1 Eo]. rewrite Eo.
    destruct Hin as (Hb & Hd & Hc). destruct (reopened _ _ s1 Hok Hd Hb Hc Eo) as (_ & _ & Hok1 & _).
    destruct (disk_compacts s1 Hquiet Hok1) as (s2 & res & Ec).
    destruct (reopened_compacted _ _ s1 s2 res (conj Hb (conj Hd Hc)) Hok Eo Ec) as (Hin2 & Hok2 & Hs2 & _ & Hk2).
    destruct (restart_ready _ _ s2 Hready Hin2 Hok2 Hs2 Hquiet) as (m' & Em & Hr' & Est & Hh & Hdef).
    destruct (assemble_created cfg s1 s2 res m' Ec Em) as (e' & Ee & <- & Hst & _). exists e'. rewrite Ee.
    unfold eng_store. split_and!; try done. by rewrite Est.
Qed.


(** Start of a new engine returns, with an error exactly where the
    configuration of the pool does not parse.  It is a sequence of steps of
    the runtime; without an error the supervisor runs, and the status is active or waiting;
    another Start does nothing and returns the same. *)
Theorem engine_starts {S} `{CheckpointLaws S} (env : nat -> World) (url_Path pool_ParseConfig : string -> option string)
    (lsn_String : Z -> string) (ParseLSN : string -> option Z) (error_text : runtimeError -> string) (m : Manager S) (e : Engine S)
    (a other : connectAnswers) :
  eng_runtime e = NewRuntime m -> eng_startErr e = None ->
  let start := Start env url_Path pool_ParseConfig lsn_String ParseLSN in
  let e' := (start a e).1 in
  let err := pool_ParseConfig (cfg_PooledDatabaseURL (eng_cfg e)) in
  (start a e).2 = err /\ start other e' = (e', err) /\
  rtc (lstep env (runtime_config url_Path (eng_cfg e)) lsn_String ParseLSN error_text) (eng_runtime e) (eng_runtime e') /\
  (err = None -> lf_connector (eng_runtime e') = Ticking /\ (Status e' = StatusActive \/ Status e' = StatusWaiting)).
Proof.
  intros Hl Hs. cbv zeta. unfold Start, runtime_Start. rewrite Hs, Hl.
  destruct (pool_ParseConfig _) as [err|] eqn:Ep; cbn [fst snd eng_startErr eng_runtime]; (split_and!; [done|done|..]).
  - apply rtc_once. exact (step_start env _ lsn_String ParseLSN error_text (NewRuntime m) false _ eq_refl).
  - done.
  - set (l1 := Lifecycle.Start true _ _).
    destruct (connectRuntime_total env (runtime_config url_Path (eng_cfg e)) lsn_String ParseLSN a l1) as (l' & ok & E). rewrite E. cbn [fst].
    eapply rtc_l; [exact (step_start env _ lsn_String ParseLSN error_text (NewRuntime m) true (cfg_DBPoolSize (eng_cfg e)) eq_refl)|].
    exact (connectRuntime_steps env _ lsn_String ParseLSN error_text a false l1 l' ok E).
  - intros _. split; [done|]. set (l1 := Lifecycle.Start true _ _).
    destruct (connectRuntime_total env (runtime_config url_Path (eng_cfg e)) lsn_String ParseLSN a l1) as (l' & ok & E). rewrite E. cbn [fst].
    change (Lifecycle.Status l' = StatusActive \/ Lifecycle.Status l' = StatusWaiting).
    rewrite (connectRuntime_running env (runtime_config url_Path (eng_cfg e)) lsn_String ParseLSN a l1 l' ok); [by destruct ok; auto|done|exact E].
Qed.


(** C15. A request to an engine is a run of its runtime and works only on its
    own shape.  Any request but a deletion, on any route, with other goroutines
    in between that work on the shapes through the manager, leads from the
    engine it finds to the engine it leaves by steps of the runtime, all of
    them transitions of the shape manager, so that what holds of every state
    the runtime can reach goes on holding; the status, the stream and the
    results of Start and Close stay; and when nobody else is there, every live
    shape with another definition is exactly as before. *)
Theorem request_steps_own_shape {S} `{Store S} {B} `{Backend B} (env : nat -> World) (rcfg : runtimeConfig) (lsn_String : Z -> string)
    (ParseLSN : string -> option Z) (error_text : runtimeError -> string) (json_error : string -> string) (is_print : N -> bool)
    (requests : Env S B) (rounds : nat) (order : list string) (r : Request) (def : Definition_) (e : Engine S) :
  r_Method r <> "DELETE" -> asks_for json_error is_print r def ->
  unused requests def (eng_shapes e) -> well_behaved requests def (eng_shapes e) ->
  let e' := (Handle lsn_String error_text json_error is_print requests rounds order r e).2 in
  rtc (lstep env rcfg lsn_String ParseLSN error_text) (eng_runtime e) (eng_runtime e') /\
  rtc mstep (eng_shapes e) (eng_shapes e') /\
  Status e' = Status e /\ rf_conn (lf_fields (eng_runtime e')) = rf_conn (lf_fields (eng_runtime e)) /\
  eng_startErr e' = eng_startErr e /\ eng_closeErr e' = eng_closeErr e /\
  (well_formed (eng_shapes e) -> (forall n m, env_others requests n m = m) -> others_kept def (eng_shapes e) (eng_shapes e')).
Proof.
  intros Hm Hdef Hu Hothers. unfold Handle. set (x := mkExchange (eng_shapes e) (eng_protocol e) new_writer (Some []) 0%nat).
  pose proof (serve_steps (eng_cfg e) error_text json_error is_print requests def (fun _ => surroundings_of lsn_String order e) (eng_router e) rounds r Hm Hdef x Hu Hothers) as [Hr _].
  pose proof (serve_kept (eng_cfg e) error_text json_error is_print requests def (fun _ => surroundings_of lsn_String order e) (eng_router e) rounds r Hm Hdef x) as Hk.
  destruct (ServeHTTP _ _ _ _ _ _ _ _ _ x) as [complete x']. cbn [snd] in *.
  split_and!; try done; [by apply shapes_run|]. intros Hwf Halone. by apply Hk.
Qed.

(** ** Witnesses *)

Definition disk_config : Config :=
  mkConfig "postgres://db/app" "postgres://db/app" "" true 3000 "" "default" 20 (mkLimits 300 10000) 60 300 "disk" "data" "/metrics" 20000 60000 false [].
Definition no_url_error (_ : string) : option string := None.
Definition no_medium : Medium := mkMedium ∅ ∅ ∅.

Definition demo_engine : Engine DiskStore :=
  match New (H := DiskRefine.quiet) no_url_error disk_config no_medium with
  | OnDisk (Created e) => e
  | _ => mkEngine disk_config (NewRuntime (mkManager demo_disk ∅ ∅ ∅ 0 ∅ ∅)) (NewProvider Version "" (mkLimits 1 1)) None
           (NewRouter "" (NewProvider Version "" (mkLimits 1 1))) None None
  end.

(** It gets a shape. *)
#[local] Abbreviation demo_filled :=
  (UpsertSnapshot (store_ops := disk_Store (H := DiskRefine.quiet)) demo_def demo_snapshot 1700000000000000 (eng_shapes demo_engine)).
Definition demo_used : Engine DiskStore :=
  set_runtime (on_rt (Replication.set_shapes demo_filled.1) (eng_runtime demo_engine)) demo_engine.

Lemma demo_engine_ready : disk_ready "data" false (eng_shapes demo_engine).
Proof.
  assert (Hv : Validate no_url_error disk_config = None) by (vm_compute; reflexivity).
  destruct (@new_on_fresh_disk DiskRefine.quiet no_url_error disk_config no_medium Hv eq_refl eq_refl (fun _ => eq_refl)) as (e & E & _ & Hr).
  - intros q. apply lookup_empty.
  - intros q [x Hq]. unfold no_medium in Hq. cbn [md_files] in Hq. by rewrite lookup_empty in Hq.
  - change (storage_dir disk_config) with "data" in Hr. unfold demo_engine. rewrite E. exact Hr.
Qed.

Lemma shapes_set {S} (m : Manager S) (e : Engine S) :
  eng_shapes (set_runtime (on_rt (Replication.set_shapes m) (eng_runtime e)) e) = m.
Proof. reflexivity. Qed.

Lemma demo_used_shapes : eng_shapes demo_used = demo_filled.1.
Proof. apply shapes_set. Qed.

Lemma demo_filled_fits : fits (mgr_byHandle demo_filled.1).
Proof.
  assert (Hb : exists st, mgr_byHandle demo_filled.1 = <[st_Handle st := st]> ∅ /\ state_storable st /\ st_Changes st = [] /\
    settled (ps_Snapshot (marshalState st)) /\ st_Handle st = new_handle (definition_hash demo_def) 1700000000000000).
  { exists (default zero_state (LookupByDefinition demo_def demo_filled.1)). split_and!.
    - vm_compute. reflexivity.
    - apply (bool_decide_unpack _). vm_compute. exact I.
    - vm_compute. reflexivity.
    - vm_compute. reflexivity.
    - vm_compute. reflexivity. }
  destruct Hb as (st & -> & Hst & Hc & Hs & Hh). apply fits_insert; [exact fits_empty|exact Hst| |exact Hs| |].
  - unfold marshalState. cbn [ps_Changes]. rewrite Hc. constructor.
  - rewrite Hc. unfold max_chunks. cbn [length]. lia.
  - rewrite Hh. apply new_handle_name.
Qed.

Lemma demo_filled_ok : demo_filled.2 = Ok (default zero_state (LookupByDefinition demo_def demo_filled.1)).
Proof. vm_compute. reflexivity. Qed.

Lemma demo_filled_unused : handle_unused demo_def 1700000000000000 (eng_shapes demo_engine).
Proof. intros _. vm_compute. reflexivity. Qed.

(** An operation that has succeeded. *)
Lemma upsert_step `{Device} (def : Definition_) (snapshot : SnapshotResult) (now : Z) (m : Manager DiskStore) (st : State) :
  handle_unused def now m -> (UpsertSnapshot def snapshot now m).2 = Ok st -> dstep false m (UpsertSnapshot def snapshot now m).1.
Proof.
  intros Hu E. apply (dstep_upsert false _ _ def snapshot InitialOffset now (Ok st) Hu); [|done].
  unfold UpsertSnapshot in *. by destruct (UpsertSnapshotAtOffset _ _ _ _ _); cbn in *; subst.
Qed.

Lemma demo_used_step : fit_step (H := DiskRefine.quiet) false (eng_shapes demo_engine) (eng_shapes demo_used).
Proof.
  rewrite demo_used_shapes. split; [|exact demo_filled_fits].
  exact (upsert_step demo_def demo_snapshot 1700000000000000 (eng_shapes demo_engine) _ demo_filled_unused demo_filled_ok).
Qed.

Lemma engine_restarts_witness :
  exists e', New (H := DiskRefine.quiet) no_url_error disk_config (left_behind demo_used) = OnDisk (Created e') /\
    LookupByDefinition demo_def (eng_shapes e') =
      (fun st => reloaded_state (kept_state st)) <$> LookupByDefinition demo_def (eng_shapes demo_used).
Proof.
  destruct (@engine_restarts DiskRefine.quiet no_url_error disk_config demo_engine demo_used) as [_ Hall].
  - vm_compute. reflexivity.
  - reflexivity.
  - destruct Hall as (e' & E & _ & _ & _ & _ & Hd); [exact demo_engine_ready|exact (rtc_once _ _ demo_used_step)|exact (fun _ => eq_refl)|].
    exists e'. split; [exact E|exact (Hd demo_def)].
Defined.


(** An engine with a stream. *)
Definition demo_streaming : Engine MemoryStore :=
  mkEngine secured_config demo_started (NewProvider Version "" (mkLimits 1 1)) None (NewRouter "" (NewProvider Version "" (mkLimits 1 1))) (Some None) None.


(** ** Examples *)

(** A store that cannot be loaded fails [New], which leaves it open; one that
    cannot be compacted is closed. *)
Example failed_load_leaves_store_open :
  New (H := failing 14) no_url_error disk_config no_medium = OnDisk (Failed "input/output error" false) /\
  New (H := failing 12) no_url_error disk_config no_medium = OnDisk (Failed "input/output error" true).
Proof. split; vm_compute; reflexivity. Qed.

(** A deletion that fails on the disk after it has removed the log: in memory
    the shape is still there; after a restart it is gone. *)
Definition torn_shapes : Manager DiskStore :=
  let h := new_handle (definition_hash demo_def) 1700000000000000 in
  let ops := disk_Store (H := failing 33) in
  match New (H := failing 33) no_url_error disk_config no_medium with
  | OnDisk (Created e) =>
      let m := (UpsertSnapshot (store_ops := ops) demo_def demo_snapshot 1700000000000000 (eng_shapes e)).1 in
      let m := (Append (store_ops := ops) h [demo_message "0_0"] 1700000001000000 m).1 in
      (Delete (store_ops := ops) h 1700000002000000 m).1
  | _ => eng_shapes demo_engine
  end.

Definition found_after_restart : option (option string) :=
  match New (H := failing 33) no_url_error disk_config (left_behind (set_runtime (on_rt (Replication.set_shapes torn_shapes) (eng_runtime demo_engine)) demo_engine)) with
  | OnDisk (Created e) => Some (st_Handle <$> LookupByDefinition demo_def (eng_shapes e))
  | _ => None
  end.

Example failed_deletion_gives_up_shape :
  st_Handle <$> LookupByDefinition demo_def torn_shapes = Some (new_handle (definition_hash demo_def) 1700000000000000) /\
  found_after_restart = Some None.
Proof. split; vm_compute; reflexivity. Qed.

(** An engine that is streaming says so, and one that is closed no longer. *)
Definition demo_health (e : Engine MemoryStore) : option Z :=
  status_of (Handle demo_lsn (fun _ => "error") (fun _ => "error") (fun _ => true) (alone_env "a") 3 []
    (Request.mkRequest "GET" ("", None) ∅ ∅ "/v1/health") e).1.2.

Example health_of_engine : demo_health demo_streaming = Some 200 /\ demo_health (Close None demo_streaming).1 = Some 202.
Proof. split; vm_compute; reflexivity. Qed.

Lemma engine_starts_witness :
  let start := Start demo_env (fun _ => Some "/app") (fun _ => None) demo_lsn demo_parse in
  let e := set_runtime demo_new (mkEngine secured_config demo_started (NewProvider Version "" (mkLimits 1 1)) None
    (NewRouter "" (NewProvider Version "" (mkLimits 1 1))) None None) in
  (start demo_good e).2 = None /\ lf_connector (eng_runtime (start demo_good e).1) = Ticking.
Proof.
  cbv zeta.
  match goal with |- (?f demo_good ?e).2 = _ /\ _ =>
    destruct (engine_starts demo_env (fun _ => Some "/app") (fun _ => None) demo_lsn demo_parse demo_error demo_shapes e demo_good demo_good)
      as (H1 & _ & _ & H2); [reflexivity|reflexivity|] end.
  split; [exact H1|exact (proj1 (H2 eq_refl))].
Defined.

(** A request for a second shape. *)
Definition demo_two : Engine MemoryStore :=
  mkEngine secured_config (NewRuntime first_manager) (NewProvider Version "" (mkLimits 1 1)) (ex_admission (NewService secured_config first_manager true))
    (NewRouter "" (NewProvider Version "" (mkLimits 1 1))) None None.
Definition demo_second : Engine MemoryStore :=
  (Handle demo_lsn (fun _ => "error") (fun _ => "error") (fun _ => true) (alone_env "a") 3 [] filtered_request demo_two).2.

Lemma request_steps_own_shape_witness :
  rtc mstep (eng_shapes demo_two) (eng_shapes demo_second) /\ size (mgr_byHandle (eng_shapes demo_second)) = 2%nat /\
  LookupByHandle first_handle (eng_shapes demo_second) = Some first_state.
Proof.
  destruct (request_steps_own_shape demo_env demo_config demo_lsn demo_parse (fun _ => "error") (fun _ => "error") (fun _ => true) (alone_env "a") 3 []
    filtered_request (shapeDefinitionFromRequest (parsed_request filtered_request)) demo_two) as (_ & H1 & _ & _ & _ & _ & H2).
  - discriminate.
  - intros req E. unfold parsed_request. by rewrite E.
  - exact filtered_unused.
  - intros n m _ Hu. split; [apply rtc_refl|exact Hu].
  - split; [exact H1|]. split; [vm_compute; reflexivity|].
    apply LookupByHandle_live, (H2 first_manager_wf (fun _ _ => eq_refl)); [exact first_state_live|].
    vm_compute. discriminate.
Defined.
