(* ===== verification/Process.v ===== *)
(** The command: [src/cmd/postgres-sync/main.go], with the aliases of
    [src/pkg/pgsync/config.go] it goes through.

    [main] loads the configuration, creates an engine and starts it, serves its
    handler until a signal comes or the server fails, and then shuts the
    server and the engine down.  The main goroutine stands at one of its
    blocking points; at each of them the goroutines of the runtime and the
    requests go on, as the steps of [Lifecycle].  The listener is net/http's:
    what it returns is an argument of the step that receives it. *)

From Stdlib Require Import Ascii String ZArith NArith Lia.
From stdpp Require Import relations.
From S2P Require Import Prelude GoValue JsonText Config Offset ShapeTypes Diff Storage Persist Manager Restart Paths DiskStore DiskRefine Admission Request Response Effects RelationCache Snapshot Service Answers Replication Lifecycle Telemetry Router Engine.

#[local] Set Warnings "-clear-no-such-hyp".

(** * Definitions *)

(** What [ctx.Err] can say. *)
Inductive contextError : Type := Canceled | DeadlineExceeded.

(** What [ListenAndServe] returns. *)
Inductive serveError : Type := ErrServerClosed | ServeFailed (text : string).

(** Where the main goroutine is: before [engine.Start], in it, at the select,
    in [server.Shutdown], in [engine.Close], or gone with an exit code. *)
Inductive phase : Type :=
| AtEngine
| InStart
| Serving
| InShutdown
| InClose
| Gone (code : Z).

#[export] Instance contextError_eq_dec : EqDecision contextError.
Proof. solve_decision. Defined.

Definition gone (ph : phase) : bool := match ph with Gone _ => true | _ => false end.

(** [engine.Start] has returned without an error: the supervisor runs. *)
Definition start_returned (c : connector) : bool :=
  match c with Ticking | Connecting true _ => true | _ => false end.

Section process.
Context {S : Type} {store_ops : Store S}.

(** Of the engine [main] depends on the runtime. *)
Record Process : Type := mkProcess {
  pr_cfg : Config;
  pr_runtime : Life S;
  pr_ctxErr : option contextError;
  pr_phase : phase;
  pr_log : list string
}.

Definition set_phase (ph : phase) (p : Process) : Process := mkProcess (pr_cfg p) (pr_runtime p) (pr_ctxErr p) ph (pr_log p).
Definition set_life (l : Life S) (p : Process) : Process := mkProcess (pr_cfg p) l (pr_ctxErr p) (pr_phase p) (pr_log p).
Definition log (text : string) (p : Process) : Process :=
  mkProcess (pr_cfg p) (pr_runtime p) (pr_ctxErr p) (pr_phase p) (pr_log p ++ [text]).
Definition log_if (prefix : string) (err : option string) (p : Process) : Process :=
  match err with Some e => log (prefix +:+ e) p | None => p end.

(** [log.Fatalf]: deferred calls do not run. *)
Definition fatal (text : string) (p : Process) : Process := set_phase (Gone 1) (log text p).

(** SIGINT or SIGTERM: the context of [NotifyContext] is done.  [stop] is
    deferred, so a further signal is caught too and does nothing. *)
Definition signalled (p : Process) : Process :=
  mkProcess (pr_cfg p) (pr_runtime p) (Some (default Canceled (pr_ctxErr p))) (pr_phase p) (pr_log p).

Definition boot_process (e : Engine S) : Process := mkProcess (eng_cfg e) (eng_runtime e) None AtEngine [].

Variable pool_ParseConfig : string -> option string.
Definition pool_error (cfg : Config) : option string := pool_ParseConfig (cfg_PooledDatabaseURL cfg).

(** [engine.Start] up to its first blocking point. *)
Definition start_engine (p : Process) : Process :=
  set_phase InStart (set_life
    (Lifecycle.Start (bool_decide (pool_error (pr_cfg p) = None)) (cfg_DBPoolSize (pr_cfg p)) (pr_runtime p)) p).

(** The second branch of the select. *)
Definition served (err : serveError) (p : Process) : Process :=
  match err with
  | ErrServerClosed => set_phase InShutdown p
  | ServeFailed text => fatal ("serve http: " +:+ text) p
  end.

Definition after_shutdown (err : option string) (p : Process) : Process :=
  set_phase InClose (log_if "shutdown http server: " err p).

(** The end of [main]. *)
Definition exit_code (ctxErr : option contextError) : Z :=
  if bool_decide (ctxErr <> None) && negb (bool_decide (ctxErr = Some Canceled)) then 1 else 0.
Definition after_close (store_err : option string) (p : Process) : Process :=
  set_phase (Gone (exit_code (pr_ctxErr p))) (log_if "shutdown engine: " store_err p).

Variable env : nat -> World.
Variable url_Path : string -> option string.
Variable lsn_String : Z -> string.
Variable ParseLSN : string -> option Z.
Variable error_text : runtimeError -> string.

(** Where [prompt], no connection becomes the runtime's once its context is
    done. *)
Definition life_step (prompt : bool) (cfg : Config) (l l' : Life S) : Prop :=
  if prompt then timely env (runtime_config url_Path cfg) lsn_String ParseLSN error_text l l'
  else lstep env (runtime_config url_Path cfg) lsn_String ParseLSN error_text l l'.

(** The steps of the runtime at each point of [main]: none before the start,
    no request before the server listens, and its [Close] only where [main]
    calls it. *)
Definition may_run (ph : phase) (l' : Life S) : Prop :=
  match ph with
  | AtEngine | Gone _ => False
  | InStart => lf_closer l' = Open /\ lf_requests l' = ∅
  | Serving | InShutdown => lf_closer l' = Open
  | InClose => True
  end.

Inductive pstep (prompt : bool) (p : Process) : Process -> Prop :=
| p_signal : gone (pr_phase p) = false -> pstep prompt p (signalled p)
| p_life l' : life_step prompt (pr_cfg p) (pr_runtime p) l' -> may_run (pr_phase p) l' -> pstep prompt p (set_life l' p)
| p_start : pr_phase p = AtEngine -> pstep prompt p (start_engine p)
| p_start_failed e :
    pr_phase p = InStart -> lf_connector (pr_runtime p) = Exited -> pool_error (pr_cfg p) = Some e ->
    pstep prompt p (fatal ("start engine: " +:+ e) p)
| p_started : pr_phase p = InStart -> start_returned (lf_connector (pr_runtime p)) = true -> pstep prompt p (set_phase Serving p)
| p_done : pr_phase p = Serving -> pr_ctxErr p <> None -> pstep prompt p (set_phase InShutdown p)
| p_served err : pr_phase p = Serving -> pstep prompt p (served err p)
| p_shutdown err : pr_phase p = InShutdown -> pstep prompt p (after_shutdown err p)
| p_closed hadCtx store_err :
    pr_phase p = InClose -> lf_closer (pr_runtime p) = Closed hadCtx -> pstep prompt p (after_close store_err p).
End process.
Arguments Process S : clear implicits.

(** ** The start of main *)

(** What [main] comes to before it has a signal handler: a fatal message, or
    an engine over one of the stores. *)
Inductive booted : Type :=
| BootFailed (message : string)
| BootMemory (p : Process MemoryStore)
| BootDisk (p : Process DiskStore).

Section boot.
Context `{Device}.
Variable url_Parse : string -> option string.
Variable json_error : string -> string.
Variable is_print : N -> bool.

(** [LoadConfigFromEnv] is [Load] over the environment. *)
Definition LoadConfigFromEnv (environ : string -> option string) : Config * option string :=
  Load url_Parse json_error is_print environ.

Definition boot (environ : string -> option string) (medium : Medium) : booted :=
  match LoadConfigFromEnv environ with
  | (_, Some err) => BootFailed ("load config: " +:+ err)
  | (cfg, None) =>
      match New url_Parse cfg medium with
      | Rejected err | OnMemory (Failed err _) | OnDisk (Failed err _) => BootFailed ("create engine: " +:+ err)
      | OnMemory (Created e) => BootMemory (boot_process e)
      | OnDisk (Created e) => BootDisk (boot_process e)
      end
  end.
End boot.

(** * Lemmas *)

Section runs.
Context {S : Type} {store_ops : Store S} {store_laws : CheckpointLaws S}.
Variable env : nat -> World.
Variable cfg : runtimeConfig.
Variable lsn_String : Z -> string.
Variable ParseLSN : string -> option Z.
Variable error_text : runtimeError -> string.
#[local] Abbreviation lstep := (lstep env cfg lsn_String ParseLSN error_text).
#[local] Abbreviation timely := (timely env cfg lsn_String ParseLSN error_text).
#[local] Abbreviation advances := (advances env cfg lsn_String ParseLSN error_text).

(** ** What every step of a started runtime keeps *)

(** [Start] has returned, and the one call of [Close] gets as far as the
    goroutines let it. *)
Record up (l : Life S) : Prop := {
  up_connector : match lf_connector l with Connecting true _ | Ticking => True | Exited => lf_closer l <> Open | _ => False end;
  up_ctx : lf_closer l = Open -> rs_ctxDone (lf_res l) = false;
  up_closer : match lf_closer l with Open => True | ClosingConn _ c | WaitingLoops c | WaitingRun c | Closed c => c = true end;
  up_closed : lf_closer l = Closed true -> lf_connector l = Exited /\ Lifecycle.Status l = StatusStopped
}.

(** In [Start], with or without an error. *)
Definition coming (failed : bool) (l : Life S) : Prop :=
  lf_closer l = Open /\ rs_ctxDone (lf_res l) = false /\
  match lf_connector l with NotStarted => False | Exited => failed = true | _ => failed = false end.

Lemma up_open (l : Life S) : up l -> lf_closer l = Open -> start_returned (lf_connector l) = true.
Proof. intros [H1 _ _ _] Ho. by destruct (lf_connector l) as [|[]| |]. Qed.

Lemma lstep_up (l l' : Life S) : run_ok l -> up l -> lstep l l' -> up l'.
Proof.
  intros [_ Hrun] [H1 H2 H3 H4] Hs.
  destruct Hs as [parsed poolSize Hc|a sup p l' p' Hc E _|sup ok Hc|Hc|Hc Hd|conn pos batch event r pos' batch' Hl E|conn pos batch event r e Hl E
    |conn Hl Hin|Hop|replConn hadCtx Hcl|hadCtx Hcl Hd|hadCtx Hcl Hd|n Hn Hp Hcfg|n p Hn|m Hm].
  - by rewrite Hc in H1.
  - apply connect_step_closer in E as (E1 & E2 & _). rewrite Hc in *. split; cbn; rewrite ?E1, ?E2; try done. by intros [? _]%H4.
  - rewrite Hc in *. unfold connect_status, setStatus. case_decide; split; cbn; try done; by intros [? _]%H4.
  - unfold tick. destruct (hasReplicationConnection l); [done|]. rewrite Hc in *. split; cbn; try done. by intros [? _]%H4.
  - rewrite Hc in *. split; cbn; try done; [|by intros [? _]%H4]. intros Ho. rewrite (H2 Ho) in Hd. discriminate Hd.
  - by split.
  - unfold handleReplicationError. cbn. case_decide; [|by split]. split; cbn; try done.
    intros Hx. destruct (H4 Hx) as [Hy Hz]. split; [done|]. change (rf_status (lf_fields l) = StatusStopped) in Hz. by rewrite decide_True by done.
  - by split.
  - assert (Hx : rf_runCtx (lf_fields l) = true) by (specialize (Hrun Hop); rewrite Hop in H1; by destruct (lf_connector l) as [|[]| |]).
    split; cbn; try done. by destruct (lf_connector l) as [|[]| |].
  - rewrite Hcl in *. subst. assert (Hx : match lf_connector l with NotStarted | Connecting false _ => False | _ => True end)
      by (by destruct (lf_connector l) as [|[]| |]).
    by destruct replConn; split; cbn; try done; destruct (lf_connector l) as [|[]| |].
  - rewrite Hcl in *. subst. split; cbn; try done. by destruct (lf_connector l) as [|[]| |].
  - rewrite Hcl in *. subst. unfold run_done in Hd. specialize (Hd eq_refl).
    assert (Hx : lf_connector l = Exited) by (by destruct (lf_connector l) as [|[]| |]).
    unfold close_end. by destruct (rf_pool (lf_fields l)); split; cbn; rewrite ?Hx.
  - by split.
  - unfold install_pool. by destruct (rf_pool (lf_fields l)); split.
  - by split.
Qed.

Lemma lstep_coming (failed : bool) (l l' : Life S) : coming failed l -> lstep l l' -> lf_closer l' = Open -> coming failed l'.
Proof.
  intros (H1 & H2 & H3) Hs Ho. unfold coming.
  destruct Hs as [parsed poolSize Hc|a sup p l' p' Hc E _|sup ok Hc|Hc|Hc Hd|conn pos batch event r pos' batch' Hl E|conn pos batch event r e Hl E
    |conn Hl Hin|Hop|replConn hadCtx Hcl|hadCtx Hcl Hd|hadCtx Hcl Hd|n Hn Hp Hcfg|n p Hn|m Hm]; try congruence; try done.
  - by rewrite Hc in H3.
  - apply connect_step_closer in E as (E1 & E2 & _). rewrite Hc in *. cbn. by rewrite E1, E2.
  - rewrite Hc in *. unfold connect_status, setStatus. by case_decide.
  - unfold tick in *. destruct (hasReplicationConnection l); [done|]. by rewrite Hc in *.
  - unfold handleReplicationError in *. cbn in *. by case_decide.
  - unfold install_pool in *. by destruct (rf_pool (lf_fields l)).
Qed.

Lemma coming_up (l : Life S) : coming false l -> start_returned (lf_connector l) = true -> up l.
Proof.
  intros (H1 & H2 & H3) Hr. split; rewrite ?H1; try done. by destruct (lf_connector l) as [|[]| |].
Qed.

(** While nobody closes, the next step leaves it so or is the first of [Close]. *)
Lemma lstep_closer_open (l l' : Life S) : lstep l l' -> lf_closer l = Open -> l' = close_begin l \/ lf_closer l' = Open.
Proof.
  intros Hs Ho.
  destruct Hs as [parsed poolSize Hc|a sup p l' p' Hc E _|sup ok Hc|Hc|Hc Hd|conn pos batch event r pos' batch' Hl E|conn pos batch event r e Hl E
    |conn Hl Hin|Hop|replConn hadCtx Hcl|hadCtx Hcl Hd|hadCtx Hcl Hd|n Hn Hp Hcfg|n p Hn|m Hm]; try congruence; auto.
  - right. unfold Lifecycle.Start. by destruct parsed.
  - right. apply connect_step_closer in E as (E1 & _). cbn. congruence.
  - right. unfold connect_status, setStatus. by case_decide.
  - right. unfold tick. by destruct (hasReplicationConnection l).
  - right. unfold handleReplicationError. cbn. by case_decide.
  - right. unfold install_pool. by destruct (rf_pool (lf_fields l)).
Qed.

(** [Close] waits for a loop whose context is not cancelled as long as the loop
    runs: it cancels nothing any more. *)
Lemma uncancelled_step (hadCtx : bool) (c : nat) (l l' : Life S) :
  lstep l l' -> is_Some (lf_loops l' !! c) -> lf_closer l = WaitingLoops hadCtx -> is_Some (lf_loops l !! c) ->
  (c ∉ rs_cancelled (lf_res l)) -> lf_closer l' = WaitingLoops hadCtx /\ (c ∉ rs_cancelled (lf_res l')).
Proof.
  intros Hs Hl' Ho Hl Hn.
  destruct Hs as [parsed poolSize Hc|a sup p l' p' Hc E _|sup ok Hc|Hc|Hc Hd|conn pos batch event r pos' batch' Hx E|conn pos batch event r e Hx E
    |conn Hx Hin|Hop|replConn hx Hcl|hx Hcl Hd|hx Hcl Hd|n Hx Hp Hcfg|n p Hx|m Hm]; try congruence; try done.
  - unfold Lifecycle.Start. by destruct parsed.
  - assert (E1 : lf_closer l' = lf_closer l /\ rs_cancelled (lf_res l') = rs_cancelled (lf_res l)).
    { destruct p; cbn in E; try (repeat case_match; by injection E as <- <-).
      injection E as <- <-. unfold install_pool. by destruct (rf_pool _). }
    destruct E1 as [E1 E2]. cbn. by rewrite E1, E2.
  - unfold connect_status, setStatus. by case_decide.
  - unfold tick. by destruct (hasReplicationConnection l).
  - unfold handleReplicationError. cbn. by case_decide.
  - exfalso. unfold loops_done in Hd. apply bool_decide_eq_true in Hd. rewrite Hd, lookup_empty in Hl. by destruct Hl.
  - unfold install_pool. by destruct (rf_pool (lf_fields l)).
Qed.

Lemma uncancelled_steps (hadCtx : bool) (c : nat) (l l' : Life S) :
  rtc (fun a b => lstep a b /\ is_Some (lf_loops b !! c)) l l' -> lf_closer l = WaitingLoops hadCtx -> is_Some (lf_loops l !! c) ->
  (c ∉ rs_cancelled (lf_res l)) -> lf_closer l' = WaitingLoops hadCtx.
Proof.
  induction 1 as [|a b d [Hs Hb] _ IH]; [done|]. intros Ho Hl Hn.
  destruct (uncancelled_step hadCtx c a b Hs Hb Ho Hl Hn) as [H1 H2]. by apply IH.
Qed.

(** ** Without answers from the server *)

(** The goroutine that connects comes to its waiting point, and what is open
    stays open. *)
Lemma advances_open (l l' : Life S) : advances l l' -> lstep l l' /\ lf_closer l' = lf_closer l /\ lf_requests l' = lf_requests l.
Proof. intros [[Hs _] [H1 H2]]. done. Qed.

(** A runtime that is up and not yet closing can be closed, whatever the
    server does. *)
Lemma closes_from (l : Life S) :
  life_ok l -> run_ok l -> lf_closer l = Open -> start_returned (lf_connector l) = true -> rs_ctxDone (lf_res l) = false ->
  exists l', rtc timely l l' /\ lf_closer l' = Closed true.
Proof.
  intros Hok Hrun Ho Hr Hctx.
  assert (Htick : exists l1, rtc advances l l1 /\ lf_connector l1 = Ticking /\ lf_closer l1 = lf_closer l).
  { destruct (lf_connector l) as [|[] q| |] eqn:Ec; try done; [|by exists l].
    apply (no_answer_ticks env cfg lsn_String ParseLSN error_text true q l Ec). congruence. }
  destruct Htick as (l1 & H1%advances_timely & Ht & Hc). rewrite Ho in Hc.
  assert (Hs1 : rtc lstep l l1) by (by apply timely_steps).
  assert (Hok1 : life_ok l1) by (by apply (steps_ok env cfg lsn_String ParseLSN error_text l)).
  assert (Hrun1 : run_ok l1) by (by apply (steps_run_ok env cfg lsn_String ParseLSN error_text l)).
  assert (Hb : timely l1 (close_begin l1)).
  { split; [by apply step_close|]. intros _. by left. }
  destruct (shut_finishes env cfg lsn_String ParseLSN error_text (close_begin l1)) as (l' & H2 & H3).
  - apply (steps_ok env cfg lsn_String ParseLSN error_text l1); [done|]. apply rtc_once, Hb.
  - apply close_begin_shut; [done|done|by rewrite Ht].
  - cbn. by rewrite Ht.
  - exists l'. split; [|done]. etrans; [exact H1|]. by eapply rtc_l.
Qed.

(** Nothing is connected after a [Close] that nothing overtook. *)
Lemma shut_releases (l : Life S) : life_ok l -> shut l -> lf_closer l = Closed true ->
  rs_conns (lf_res l) = ∅ /\ forall c, is_Some (lf_loops l !! c) -> c ∈ rs_cancelled (lf_res l).
Proof.
  intros Hok Hsh Hc. destruct (shut_closed l Hsh Hc) as [Hx _]. pose proof (shut_conn l Hsh) as Hn. split.
  - apply set_eq. intros c. split; [|by intros ?%elem_of_empty]. intros Hin. exfalso.
    destruct (own_conn l (ok_owned l Hok) c Hin) as [Hy|[Hy|Hy]]; [congruence|by rewrite Hx in Hy|by rewrite Hc in Hy].
  - intros c Hl. destruct (ok_loop l (ok_streams l Hok) c Hl); [congruence|done].
Qed.
End runs.

(** ** The invariant of the process *)

Section invariant.
Context {S : Type} {store_ops : Store S} {store_laws : CheckpointLaws S}.
Variable pool_ParseConfig : string -> option string.
Variable env : nat -> World.
Variable url_Path : string -> option string.
Variable lsn_String : Z -> string.
Variable ParseLSN : string -> option Z.
Variable error_text : runtimeError -> string.
#[local] Abbreviation pstep := (pstep pool_ParseConfig env url_Path lsn_String ParseLSN error_text).
#[local] Abbreviation life_step := (life_step env url_Path lsn_String ParseLSN error_text).
#[local] Abbreviation pool_error := (pool_error pool_ParseConfig).

(** What has been logged, and where the runtime is, at each point of [main]. *)
Definition at_phase (prompt : bool) (p : Process S) : Prop :=
  let l := pr_runtime p in
  match pr_phase p with
  | AtEngine => (exists m, l = NewRuntime m) /\ pr_log p = []
  | InStart => coming (bool_decide (pool_error (pr_cfg p) <> None)) l /\ lf_requests l = ∅ /\ pr_log p = []
  | Serving | InShutdown => up l /\ lf_closer l = Open /\ pool_error (pr_cfg p) = None /\ pr_log p = []
  | InClose => up l /\ (prompt = true -> lf_closer l <> Open -> shut l) /\ pool_error (pr_cfg p) = None
  | Gone code =>
      (code = 1 /\ lf_closer l = Open /\
        ((exists e, pool_error (pr_cfg p) = Some e /\ pr_log p = ["start engine: " +:+ e]) \/
         (exists text, pool_error (pr_cfg p) = None /\ pr_log p = ["serve http: " +:+ text]))) \/
      (code = 0 /\ up l /\ lf_closer l = Closed true /\ (prompt = true -> shut l) /\ pool_error (pr_cfg p) = None)
  end.

Record process_ok (prompt : bool) (p : Process S) : Prop := {
  pok_life : life_ok (pr_runtime p);
  pok_run : run_ok (pr_runtime p);
  pok_ctx : pr_ctxErr p = None \/ pr_ctxErr p = Some Canceled;
  pok_phase : at_phase prompt p
}.

Lemma life_step_lstep (prompt : bool) (cfg : Config) (l l' : Life S) :
  life_step prompt cfg l l' -> lstep env (runtime_config url_Path cfg) lsn_String ParseLSN error_text l l'.
Proof. destruct prompt; [by intros [? _]|done]. Qed.

Lemma log_if_same (prefix : string) (err : option string) (p : Process S) :
  pr_cfg (log_if prefix err p) = pr_cfg p /\ pr_runtime (log_if prefix err p) = pr_runtime p /\
  pr_ctxErr (log_if prefix err p) = pr_ctxErr p.
Proof. by destruct err. Qed.

Lemma boot_ok (prompt : bool) (cfg : Config) (store : S) (e : Engine S) :
  assemble cfg store = Created e -> well_formed (eng_shapes e) -> process_ok prompt (boot_process e) /\ pr_cfg (boot_process e) = cfg.
Proof.
  unfold assemble. destruct (Compact store) as [s' [x|res]]; [done|]. destruct (NewManager s') as [x|m]; [done|].
  intros [= <-] Hwf. split; [|done]. split; cbn; [by apply init_ok|done|by left|]. split; [by eexists|done].
Qed.

(** The runtime goes on. *)
Lemma life_at_phase (prompt : bool) (p : Process S) (l' : Life S) :
  process_ok prompt p -> life_step prompt (pr_cfg p) (pr_runtime p) l' -> may_run (pr_phase p) l' -> at_phase prompt (set_life l' p).
Proof.
  intros [_ Hrun _ Hp] Hs Hm. pose proof (life_step_lstep _ _ _ _ Hs) as Hl. unfold at_phase, may_run in *. cbn.
  destruct (pr_phase p); try done.
  - destruct Hp as (Hp & _ & Hlog), Hm as [Ho Hq]. split_and!; [|done|done]. by eapply lstep_coming.
  - destruct Hp as (Hu & _ & Hp). split; [by eapply lstep_up|done].
  - destruct Hp as (Hu & _ & Hp). split; [by eapply lstep_up|done].
  - destruct Hp as (Hu & Hsh & Hp). split_and!; [by eapply lstep_up| |done]. intros -> Hn. cbn in Hs.
    destruct (decide (lf_closer (pr_runtime p) = Open)) as [Ho|Hc]; [|eapply timely_shut; [by apply Hsh|exact Hs]].
    destruct (lstep_closer_open _ _ _ _ _ _ _ Hl Ho) as [->|Hb]; [|congruence]. apply close_begin_shut; [done|done|]. pose proof (up_open _ Hu Ho) as Hr.
    by destruct (lf_connector (pr_runtime p)) as [|[]| |].
Qed.

Lemma pstep_ok (prompt : bool) (p p' : Process S) : process_ok prompt p -> pstep prompt p p' -> process_ok prompt p'.
Proof.
  intros Hok Hs. pose proof Hok as [Hl Hr Hc Hp].
  destruct Hs as [Hg|l' Hs Hm|Hph|e Hph Hx He|Hph Hx|Hph Hx|[|text] Hph|err Hph|hadCtx err Hph Hx].
  - split; cbn; [done..|by destruct Hc as [-> | ->]; right|exact Hp].
  - pose proof (life_step_lstep _ _ _ _ Hs) as Hls.
    split; [by eapply steps_ok, rtc_once|by eapply lstep_run_ok|done|by apply life_at_phase].
  - unfold at_phase in Hp. rewrite Hph in Hp. destruct Hp as [[m Hm] Hlog].
    assert (Hls : lstep env (runtime_config url_Path (pr_cfg p)) lsn_String ParseLSN error_text (pr_runtime p) (pr_runtime (start_engine pool_ParseConfig p)))
      by (cbn; apply step_start; by rewrite Hm).
    split; [by eapply steps_ok, rtc_once|by eapply lstep_run_ok|done|].
    unfold at_phase, start_engine. cbn. unfold Lifecycle.Start. rewrite Hm. by destruct (pool_error (pr_cfg p)).
  - unfold at_phase in Hp. rewrite Hph in Hp. destruct Hp as ([Ho _] & _ & Hlog).
    split; [done..|]. unfold at_phase. cbn. left. rewrite Hlog. split_and!; [done|done|]. left. by exists e.
  - unfold at_phase in Hp. rewrite Hph in Hp. destruct Hp as (Hco & _ & Hlog). split; [done..|]. unfold at_phase. cbn.
    destruct (pool_error (pr_cfg p)) eqn:He; cbn in Hco.
    + destruct Hco as (_ & _ & Hco). by destruct (lf_connector (pr_runtime p)) as [|[]| |].
    + split_and!; [by apply coming_up|apply Hco|done|done].
  - unfold at_phase in Hp. rewrite Hph in Hp. by split.
  - unfold at_phase in Hp. rewrite Hph in Hp. by split.
  - unfold at_phase in Hp. rewrite Hph in Hp. destruct Hp as (Hu & Ho & He & Hlog). split; [done..|].
    unfold at_phase. cbn. left. rewrite Hlog. split_and!; [done|done|]. right. by exists text.
  - unfold at_phase in Hp. rewrite Hph in Hp. destruct Hp as (Hu & Ho & He & Hlog).
    destruct (log_if_same "shutdown http server: " err p) as (E1 & E2 & E3).
    split; unfold at_phase, after_shutdown; cbn; rewrite ?E1, ?E2, ?E3; try done.
  - unfold at_phase in Hp. rewrite Hph in Hp. destruct Hp as (Hu & Hsh & He).
    destruct (log_if_same "shutdown engine: " err p) as (E1 & E2 & E3).
    split; unfold at_phase, after_close; cbn; rewrite ?E1, ?E2, ?E3; try done.
    right. split_and!; [by destruct Hc as [-> | ->]|done| | |done].
    + pose proof (up_closer _ Hu) as Hcl. rewrite Hx in *. by subst.
    + intros Hpr. apply Hsh; [done|congruence].
Qed.

Lemma psteps_ok (prompt : bool) (p p' : Process S) : process_ok prompt p -> rtc (pstep prompt) p p' -> process_ok prompt p'.
Proof. intros Hok Hr. revert Hok. induction Hr as [|x y z Hs _ IH]; [done|]. intros Hok. by apply IH, (pstep_ok prompt x). Qed.

Lemma pstep_cfg (prompt : bool) (p p' : Process S) : pstep prompt p p' -> pr_cfg p' = pr_cfg p.
Proof.
  destruct 1 as [| | | | | |[|text]|err|? err]; try done; unfold after_shutdown, after_close; cbn; by rewrite (proj1 (log_if_same _ err p)).
Qed.

Lemma psteps_cfg (prompt : bool) (p p' : Process S) : rtc (pstep prompt) p p' -> pr_cfg p' = pr_cfg p.
Proof. induction 1 as [|x y z Hs _ IH]; [done|]. rewrite IH. by apply (pstep_cfg prompt). Qed.

(** ** Ways to the end *)

Lemma lift_life (prompt : bool) (p : Process S) (l l' : Life S) :
  rtc (fun a b => life_step prompt (pr_cfg p) a b /\ may_run (pr_phase p) b) l l' -> rtc (pstep prompt) (set_life l p) (set_life l' p).
Proof. induction 1 as [|a b c [Hs Hm] _ IH]; [done|]. eapply rtc_l; [|exact IH]. by apply (p_life _ _ _ _ _ _ _ (set_life a p)). Qed.

(** A run to the given exit code. *)
Definition can_exit (code : Z) (p : Process S) : Prop := exists p', rtc (pstep true) p p' /\ pr_phase p' = Gone code.

Lemma exits_after (code : Z) (p p1 : Process S) : rtc (pstep true) p p1 -> can_exit code p1 -> can_exit code p.
Proof. intros H1 (p' & H2 & H3). exists p'. split; [by etrans|done]. Qed.

(** In [engine.Close]. *)
Lemma close_exits (p : Process S) :
  process_ok true p -> pr_phase p = InClose -> (lf_closer (pr_runtime p) <> Open -> installing (lf_connector (pr_runtime p)) = false) ->
  can_exit 0 p.
Proof.
  intros [Hl Hr Hc Hp] Hph Hi. unfold at_phase in Hp. rewrite Hph in Hp. destruct Hp as (Hu & Hsh & _).
  assert (Hend : exists l', rtc (timely env (runtime_config url_Path (pr_cfg p)) lsn_String ParseLSN error_text) (pr_runtime p) l' /\
    lf_closer l' = Closed true).
  { destruct (decide (lf_closer (pr_runtime p) = Open)) as [Ho|Ho]; [|apply shut_finishes; auto].
    apply closes_from; [done..|by apply up_open|by apply up_ctx]. }
  destruct Hend as (l' & H1 & H2). apply (exits_after _ _ (set_life l' p)).
  - replace p with (set_life (pr_runtime p) p) at 1 by (by destruct p). apply lift_life.
    eapply rtc_subrel; [|exact H1]. intros a b Hab. by rewrite Hph.
  - exists (after_close None (set_life l' p)). split; [by apply rtc_once, (p_closed _ _ _ _ _ _ true _ true None)|].
    cbn. by destruct Hc as [-> | ->].
Qed.

(** At the select, once a signal has come. *)
Lemma serving_exits (p : Process S) : process_ok true p -> pr_phase p = Serving -> pr_ctxErr p <> None -> can_exit 0 p.
Proof.
  intros Hok Hph Hctx. pose proof (pok_phase _ _ Hok) as Hp. unfold at_phase in Hp. rewrite Hph in Hp.
  assert (Hrun : rtc (pstep true) p (after_shutdown None (set_phase InShutdown p))).
  { eapply rtc_l; [by apply p_done|]. apply rtc_once. by apply p_shutdown. }
  eapply exits_after; [exact Hrun|]. apply close_exits; [by eapply psteps_ok|done|]. intros Hn. destruct Hn. apply Hp.
Qed.

(** In [engine.Start]: with an error the process ends, else it comes to serve. *)
Lemma start_exits (p : Process S) : process_ok true p -> pr_phase p = InStart -> pr_ctxErr p <> None ->
  can_exit (match pool_error (pr_cfg p) with Some _ => 1 | None => 0 end) p.
Proof.
  intros Hok Hph Hctx. pose proof (pok_phase _ _ Hok) as Hp. unfold at_phase in Hp. rewrite Hph in Hp. destruct Hp as (Hco & Hq & _).
  destruct (pool_error (pr_cfg p)) as [e|] eqn:He; cbn in Hco.
  { eexists. split; [apply rtc_once; eapply (p_start_failed _ _ _ _ _ _ _ _ e)|]; try done.
    destruct Hco as (_ & _ & Hco). by destruct (lf_connector (pr_runtime p)). }
  assert (Htick : exists l1, rtc (fun a b => life_step true (pr_cfg p) a b /\ may_run (pr_phase p) b) (pr_runtime p) l1 /\
    start_returned (lf_connector l1) = true).
  { pose proof Hco as (Ho & Hd & Hx). destruct (lf_connector (pr_runtime p)) as [|sup q| |] eqn:Ec; try done; [|exists (pr_runtime p); by rewrite Ec].
    destruct (no_answer_ticks env (runtime_config url_Path (pr_cfg p)) lsn_String ParseLSN error_text sup q _ Ec) as (l1 & H1 & H2 & _); [congruence|].
    exists l1. rewrite H2. split; [|done]. rewrite Hph. clear Hco Hd Hx Ec H2. revert Ho Hq.
    induction H1 as [|a b c [Hs [H3 H4]] _ IH]; intros Ho Hq; [done|]. rewrite Ho in H3. rewrite Hq in H4.
    eapply rtc_l; [by split|by apply IH]. }
  destruct Htick as (l1 & H1 & H2).
  assert (Hrun : rtc (pstep true) p (set_phase Serving (set_life l1 p))).
  { replace p with (set_life (pr_runtime p) p) at 1 by (by destruct p). etrans; [by apply lift_life|].
    apply rtc_once. by apply (p_started _ _ _ _ _ _ true (set_life l1 p)). }
  eapply exits_after; [exact Hrun|]. apply serving_exits; [by eapply psteps_ok|done|done].
Qed.
End invariant.

(** * Properties *)



(** ** Witnesses *)

(** In memory an engine is always created, and its shapes are well formed. *)
Lemma boot_memory `{Device} (url_Parse : string -> option string) (json_error : string -> string) (is_print : N -> bool)
    (environ : string -> option string) (medium : Medium) (cfg : Config) :
  LoadConfigFromEnv url_Parse json_error is_print environ = (cfg, None) -> cfg_StorageMode cfg = StorageModeMemory ->
  exists e, boot url_Parse json_error is_print environ medium = BootMemory (boot_process e) /\
    assemble cfg NewMemoryStore = Created e /\ well_formed (eng_shapes e).
Proof.
  intros El Hm. unfold boot, LoadConfigFromEnv in *. rewrite El.
  assert (Hv : Validate url_Parse cfg = None).
  { unfold Load in El. destruct (read_settings _ _ _) as [|c]; [done|]. congruence. }
  unfold New. rewrite Hv, decide_True by (rewrite Hm; right; by left).
  destruct (assemble_created cfg NewMemoryStore NewMemoryStore (mkCompaction 0 0) (mkManager NewMemoryStore ∅ ∅ ∅ 0 ∅ ∅)) as (e & He & Hs & _); [done..|].
  rewrite He. exists e. split_and!; [done..|]. rewrite Hs. apply empty_well_formed.
Qed.

#[local] Abbreviation demo_boot :=
  (boot (H := DiskRefine.quiet) no_url_error (fun _ => "") (fun _ => true) demo_env_vars no_medium).
Definition no_pool_error (_ : string) : option string := None.
Definition bad_pool (_ : string) : option string := Some "cannot parse".
#[local] Abbreviation demo_pstep pool :=
  (pstep pool demo_env (fun _ => Some "/app") demo_lsn demo_parse demo_error true).

(** The engine that [main] gets in the example environment. *)
Lemma demo_loaded : exists cfg,
  LoadConfigFromEnv no_url_error (fun _ => "") (fun _ => true) demo_env_vars = (cfg, None) /\ cfg_StorageMode cfg = StorageModeMemory.
Proof. eexists. split; [vm_compute; reflexivity|reflexivity]. Qed.

Lemma demo_boots : exists cfg e, demo_boot = BootMemory (boot_process e) /\ assemble cfg NewMemoryStore = Created e /\ well_formed (eng_shapes e).
Proof.
  destruct demo_loaded as (cfg & El & Hmode).
  destruct (boot_memory (H := DiskRefine.quiet) no_url_error (fun _ => "") (fun _ => true) demo_env_vars no_medium cfg El Hmode) as (e & H1 & H2 & H3).
  exists cfg, e. exact (conj H1 (conj H2 H3)).
Qed.



(** ** Examples *)

(** A listener that fails ends the process with the engine not closed, its
    stream and its pool open. *)
Example serve_failure_leaves_engine_open :
  let p := served (ServeFailed "address already in use")
    (mkProcess secured_config demo_started None Serving []) in
  pr_phase p = Gone 1 /\ pr_log p = ["serve http: address already in use"] /\
  Lifecycle.Status (pr_runtime p) = StatusActive /\ rs_conns (lf_res (pr_runtime p)) <> ∅ /\ rs_pools (lf_res (pr_runtime p)) <> ∅.
Proof. split_and!; try (vm_compute; reflexivity); intros E; apply (f_equal (fun X : gset nat => size X)) in E; vm_compute in E; discriminate. Qed.

(** [Close] ignores the context it is given.  Where the supervisor installs a
    connection after [Close] has cancelled what there was, [Close] waits until
    that stream fails by itself; the five seconds of [main] do not end it. *)
#[local] Abbreviation demo_step := (@lstep MemoryStore _ demo_env demo_config demo_lsn demo_parse demo_error).
Definition late_stream : Life MemoryStore :=
  demo_at true (demo_advance 3 demo_good (AtInstall 1 (replicationSlotName demo_config "memory" 1700000000000000) 90 demo_system)
    (set_closer (WaitingLoops true) (close_connection None (close_begin race_streaming)))).

Lemma late_stream_steps : rtc demo_step demo_new late_stream.
Proof.
  trans demo_waiting; [exact (demo_started_steps no_answers)|].
  eapply rtc_l; [apply (step_tick _ _ _ _ _ demo_waiting); reflexivity|].
  trans race_streaming; [apply demo_at_steps; vm_compute; reflexivity|].
  eapply rtc_l; [apply (step_close _ _ _ _ _ race_streaming); vm_compute; reflexivity|].
  eapply rtc_l; [apply (step_close_connection _ _ _ _ _ (close_begin race_streaming) None true); vm_compute; reflexivity|].
  apply demo_at_steps. vm_compute. reflexivity.
Qed.

Example close_outlives_its_context : rtc demo_step demo_new late_stream /\
  forall l, rtc (fun a b => demo_step a b /\ is_Some (lf_loops b !! 1%nat)) late_stream l -> lf_closer l = WaitingLoops true.
Proof.
  split; [exact late_stream_steps|]. intros l Hr.
  apply (uncancelled_steps demo_env demo_config demo_lsn demo_parse demo_error true 1 late_stream l Hr); [vm_compute; reflexivity| |].
  - vm_compute. by eexists.
  - apply (bool_decide_unpack _). vm_compute. exact I.
Qed.
