(* ===== verification/Survival.v ===== *)
(** What survives the process: [src/cmd/postgres-sync/main.go] over the disk of
    [src/internal/storage/disk.go].

    A process on the disk may end at any point of its run, by its own exit or
    from outside.  Whatever its runtime and its requests have done to the shapes
    are transitions of the manager and saves of the checkpoint, and the disk
    keeps up with each of them; the next process starts from there. *)

From Stdlib Require Import Ascii String ZArith NArith Lia.
From stdpp Require Import relations.
From S2P Require Import Prelude GoValue JsonText Config Offset ShapeTypes Diff Storage Persist Manager Waiting Restart Paths DiskStore DiskLaws DiskRefine DiskRestart Handles DiskManager DiskReload Admission Request Response Effects RelationCache Snapshot Service Answers Replication Moves Lifecycle Telemetry Router Engine Process.

#[local] Set Warnings "-clear-no-such-hyp".

(** * Definitions *)

Definition shapes_of {S} (p : Process S) : Manager S := rt_shapes (rf_rt (lf_fields (pr_runtime p))).

(** What is on the disk when the process has ended. *)
Definition left_by (p : Process DiskStore) : Medium := disk_Close (mgr_store (shapes_of p)).

(** The shapes move, and what they pass through fits on the disk. *)
Definition writes_fit `{Device} (m m' : Manager DiskStore) : Prop := rtc (fun a b => rstep a b /\ fits (mgr_byHandle b)) m m'.

(** * Lemmas *)

Section moves.
Context {S : Type} {store_ops : Store S} {store_laws : CheckpointLaws S}.
Variable pool_ParseConfig : string -> option string.
Variable env : nat -> World.
Variable url_Path : string -> option string.
Variable lsn_String : Z -> string.
Variable ParseLSN : string -> option Z.
Variable error_text : runtimeError -> string.
#[local] Abbreviation pstep := (pstep pool_ParseConfig env url_Path lsn_String ParseLSN error_text).

Lemma pstep_moves (prompt : bool) (p p' : Process S) :
  well_formed (shapes_of p) -> pstep prompt p p' -> rtc rstep (shapes_of p) (shapes_of p').
Proof.
  intros Hwf Hs. unfold shapes_of in *. destruct Hs as [| l' Hs _| | | | |[|text]|err|? err]; try done.
  - eapply lstep_moves; [exact Hwf|]. by eapply life_step_lstep.
  - cbn. unfold Lifecycle.Start. by destruct (bool_decide _).
  - unfold after_shutdown. cbn. by rewrite (proj1 (proj2 (log_if_same _ err p))).
  - unfold after_close. cbn. by rewrite (proj1 (proj2 (log_if_same _ err p))).
Qed.

Lemma psteps_move (prompt : bool) (p p' : Process S) :
  well_formed (shapes_of p) -> rtc (pstep prompt) p p' -> rtc rstep (shapes_of p) (shapes_of p').
Proof.
  intros Hwf Hr. revert Hwf. induction Hr as [|x y z Hs _ IH]; [done|]. intros Hwf. pose proof (pstep_moves prompt x y Hwf Hs) as Hm.
  etrans; [exact Hm|]. apply IH. by eapply rsteps_wf.
Qed.
End moves.

(** ** The disk keeps up *)

Section disk.
Context `{Device}.
#[local] Abbreviation Manager := (Manager DiskStore).

(** A save of the checkpoint touches nothing else. *)
Lemma checkpoint_place (c : RuntimeCheckpoint) (s : DiskStore) :
  let s' := (disk_SaveRuntimeCheckpoint c s).2 in
  ds_dir s' = ds_dir s /\ ds_chunkDir s' = ds_chunkDir s /\ ds_files s' = ds_files s /\ ds_tx s' = ds_tx s /\
  tbl_shapes (ds_tables s') = tbl_shapes (ds_tables s) /\ tbl_chunks (ds_tables s') = tbl_chunks (ds_tables s).
Proof. unfold disk_SaveRuntimeCheckpoint, exec, attempt. by destruct (fault_at _). Qed.

(** What holds of a disk holds of one with the same rows and files. *)
Lemma same_disk (s s' : DiskStore) :
  ds_chunkDir s' = ds_chunkDir s -> ds_files s' = ds_files s -> ds_tx s' = ds_tx s ->
  tbl_shapes (ds_tables s') = tbl_shapes (ds_tables s) -> tbl_chunks (ds_tables s') = tbl_chunks (ds_tables s) ->
  disk_ok s -> disk_ok s' /\ disk_shapes s' = disk_shapes s.
Proof.
  intros E1 E2 E3 E4 E5 Hok.
  assert (Hrows : forall h, chunk_rows h (ds_tables s') = chunk_rows h (ds_tables s)) by (intros h; unfold chunk_rows; by rewrite E5).
  assert (Hst : forall h, stored_changes s' h = stored_changes s h) by (intros h; unfold stored_changes; by rewrite E2, Hrows).
  split.
  - destruct Hok as [H1 H2 H3 H4 H5 H6 H7 H8]. split.
    + by rewrite E1.
    + congruence.
    + intros h. rewrite Hrows. apply H3.
    + intros h i r. rewrite Hrows, E1. apply H4.
    + intros h. rewrite Hrows, E4. apply H5.
    + intros h k. rewrite E4. apply H6.
    + intros h row l. rewrite E4, Hst. apply H7.
    + intros q. rewrite E2. apply H8.
  - unfold disk_shapes. rewrite E4. apply map_imap_ext. intros h. rewrite Hst. done.
Qed.

Lemma checkpoint_holds (dir : string) (torn : bool) (c : RuntimeCheckpoint) (s : DiskStore) (shapes : gmap string State) :
  store_holds dir torn s shapes -> store_holds dir torn (SaveRuntimeCheckpoint c s).1 shapes.
Proof.
  intros [(Hb & Hd & Hc) Hok Hs]. cbn. pose proof (checkpoint_place c s) as Hp. destruct (disk_SaveRuntimeCheckpoint c s) as [r s'].
  destruct Hp as (E1 & E2 & E3 & E4 & E5 & E6). cbn [fst snd] in *. destruct (same_disk s s' E2 E3 E4 E5 E6 Hok) as [Hok' Hsh].
  split; [unfold store_in; split_and!; congruence|done|]. intros h. specialize (Hs h). unfold held_at in *.
  destruct (shapes !! h) as [st|]; [|by rewrite Hsh].
  destruct Hs as [Hs|t Ht Hs|q Ht Hs Hn]; rewrite <- Hsh in Hs.
  - by apply held_same.
  - by apply (held_deleted _ _ _ _ t).
  - apply (held_lost _ _ _ _ q); [done..|]. unfold disk_count in *. by rewrite E5.
Qed.

Lemma ran_torn {A} (r : result ManagerError A) : ran true r.
Proof. by destruct r. Qed.

(** Every operation of the manager, when saves may fail. *)
Lemma ostep_dstep (m m' : Manager) : ostep m m' -> dstep true m m'.
Proof.
  destruct 1 as [def snapshot offset now Hu|def now1 now2 Hu|h now Hst|relation clock|clock|h l now|h sn md now|h sn kr md now].
  - exact (dstep_upsert true _ _ def snapshot offset now _ Hu (surjective_pairing _) (ran_torn _)).
  - exact (dstep_lookup_or_create true _ _ def now1 now2 _ Hu (surjective_pairing _) (ran_torn _)).
  - exact (dstep_delete true _ _ h now _ Hst (surjective_pairing _) (ran_torn _)).
  - exact (dstep_invalidate_relation true _ _ relation clock _ (surjective_pairing _) (ran_torn _)).
  - destruct (InvalidateAll clock m) as [m1 [hs e]] eqn:E. apply (dstep_invalidate_all true _ _ clock hs e E). by right.
  - exact (dstep_append true _ _ h l now _ (surjective_pairing _) (ran_torn _)).
  - exact (dstep_refresh true _ _ h sn md now _ (surjective_pairing _) (ran_torn _)).
  - exact (dstep_refresh_keys true _ _ h sn kr md now _ (surjective_pairing _) (ran_torn _)).
Qed.

(** A transition that fits leaves a disk that is ready. *)
Lemma rstep_ready (dir : string) (m m' : Manager) :
  disk_ready dir true m -> rstep m m' -> fits (mgr_byHandle m') -> disk_ready dir true m'.
Proof.
  intros Hr Hs Hf. pose proof (rstep_wf _ _ (ready_wf _ _ _ Hr) Hs) as Hwf. destruct Hr as [Hwf0 Hf0 Hm]. split; [done|done|].
  destruct Hs as [m' [m1 Ho|h offset waiter|h waiter]|c].
  - apply (dstep_mirrors dir true m); try done. by apply ostep_dstep.
  - unfold mirrored, wait_register in *. by destruct (wait_check h offset m).
  - unfold mirrored, removeWaiter in *. by destruct (remove_first _ _).
  - by apply checkpoint_holds.
Qed.
End disk.

(** ** The next process *)

Lemma writes_ready `{Device} (dir : string) (m m' : Manager DiskStore) : disk_ready dir true m -> writes_fit m m' -> disk_ready dir true m'.
Proof. intros Hr Hw. revert Hr. induction Hw as [|a b c [Hs Hf] _ IH]; [done|]. intros Hr. by apply IH, (rstep_ready dir a). Qed.

Lemma boot_inv `{Device} (url_Parse : string -> option string) (json_error : string -> string) (is_print : N -> bool)
    (environ : string -> option string) (medium : Medium) (cfg : Config) (p : Process DiskStore) :
  LoadConfigFromEnv url_Parse json_error is_print environ = (cfg, None) ->
  boot url_Parse json_error is_print environ medium = BootDisk p ->
  Validate url_Parse cfg = None /\ cfg_StorageMode cfg = StorageModeDisk /\
  exists e, New url_Parse cfg medium = OnDisk (Created e) /\ p = boot_process e.
Proof.
  unfold boot, LoadConfigFromEnv. intros El. rewrite El.
  assert (Hv : Validate url_Parse cfg = None) by (unfold Load in El; destruct (read_settings _ _ _); congruence).
  destruct (New url_Parse cfg medium) as [err|[e|err c]|[e|err c]] eqn:En; try done. intros [= <-]. split; [done|].
  split; [|by exists e]. destruct (valid_mode url_Parse cfg Hv) as [Hm|]; [|done].
  unfold New in En. by rewrite Hv, decide_True in En.
Qed.

(** A disk that holds everything may also have lost something. *)
Lemma ready_torn (dir : string) (m : Manager DiskStore) : disk_ready dir false m -> disk_ready dir true m.
Proof.
  intros [H1 H2 [H3 H4 H5]]. split; [done|done|]. split; [done|done|]. intros h. specialize (H5 h). unfold held_at in *.
  destruct (mgr_byHandle m !! h); [|done]. by destruct H5; [apply held_same| |].
Qed.

(** * Properties *)

(** C5. Shapes survive the process.  Whatever happens in a run of [main] on the
    disk, the shapes move only by transitions of the manager and saves of the
    checkpoint.  If what they pass through fits on the disk, and the disk held
    them at the beginning, as it does in a new directory, then at any point
    where the process ends, by itself or from outside, and with whatever
    statements and file operations have failed, the next process that starts
    in that environment, where others may fail, has only shapes that were
    there, as the disk keeps them, under their handles and their definitions,
    with the last checkpoint that was saved; and its disk holds them again. *)
Theorem shapes_survive_process {D D' : Device} (url_Parse pool_ParseConfig url_Path : string -> option string) (json_error : string -> string)
    (is_print : N -> bool) (env : nat -> World) (lsn_String : Z -> string) (ParseLSN : string -> option Z) (error_text : runtimeError -> string)
    (environ : string -> option string) (cfg : Config) (prompt : bool) (p0 p : Process DiskStore) :
  let ops := disk_Store (H := D) in
  let step := pstep (store_ops := ops) pool_ParseConfig env url_Path lsn_String ParseLSN error_text prompt in
  LoadConfigFromEnv url_Parse json_error is_print environ = (cfg, None) ->
  disk_ready (storage_dir cfg) true (shapes_of p0) ->
  (rtc step p0 p -> rtc (rstep (H := ops)) (shapes_of p0) (shapes_of p)) /\
  (rtc (fun a b => step a b /\ writes_fit (H := D) (shapes_of a) (shapes_of b)) p0 p ->
   forall p', boot (H := D') url_Parse json_error is_print environ (left_by p) = BootDisk p' ->
     disk_ready (storage_dir cfg) true (shapes_of p') /\
     tbl_checkpoint (ds_tables (mgr_store (shapes_of p'))) = tbl_checkpoint (ds_tables (mgr_store (shapes_of p))) /\
     (forall h s, LookupByHandle h (shapes_of p') = Some s ->
       exists st, LookupByHandle h (shapes_of p) = Some st /\ s = reloaded_state (kept_state st)) /\
     (forall def s, LookupByDefinition def (shapes_of p') = Some s ->
       exists st, LookupByDefinition def (shapes_of p) = Some st /\ s = reloaded_state (kept_state st))).
Proof.
  cbv zeta. intros El Hready. split.
  - intros Hr. exact (psteps_move (store_ops := disk_Store (H := D)) _ _ _ _ _ _ prompt p0 p (ready_wf _ _ _ Hready) Hr).
  - intros Hr p' Hb. destruct (boot_inv (H := D') _ _ _ _ _ _ _ El Hb) as (Hv & Hmode & e & En & ->).
    assert (Hp : disk_ready (storage_dir cfg) true (shapes_of p)).
    { clear Hb En. induction Hr as [|a b c [_ Hw] _ IH]; [done|]. by apply IH, (writes_ready (H := D) _ (shapes_of a)). }
    exact (restarted (H := D') url_Parse cfg (shapes_of p) e Hv Hmode Hp En).
Qed.

(** ** Witness *)

(** A process comes to serve without a database, and no shape changes. *)
Section idle.
Context {S : Type} {store_ops : Store S}.
Variable pool_ParseConfig : string -> option string.
Variable env : nat -> World.
Variable url_Path : string -> option string.
Variable lsn_String : Z -> string.
Variable ParseLSN : string -> option Z.
Variable error_text : runtimeError -> string.
#[local] Abbreviation pstep := (pstep pool_ParseConfig env url_Path lsn_String ParseLSN error_text).

Definition still (a b : Process S) : Prop := pstep false a b /\ shapes_of b = shapes_of a.

Lemma comes_to_serve (p : Process S) (m : Manager S) :
  pr_phase p = AtEngine -> pr_runtime p = NewRuntime m -> pool_error pool_ParseConfig (pr_cfg p) = None ->
  exists p', rtc still p p' /\ pr_phase p' = Serving /\ shapes_of p' = m /\ lf_closer (pr_runtime p') = Open.
Proof.
  intros Hph Hl He. set (p1 := start_engine pool_ParseConfig p).
  assert (Hl1 : pr_runtime p1 = Lifecycle.Start true (cfg_DBPoolSize (pr_cfg p)) (NewRuntime m)) by (unfold p1, start_engine; cbn; by rewrite He, Hl).
  set (l2 := set_connector (Connecting false (AtStatus false)) (pr_runtime p1)).
  set (l3 := set_connector Ticking (connect_status false l2)).
  exists (set_phase Serving (set_life l3 p1)).
  assert (Hs : shapes_of p = m /\ shapes_of p1 = m) by (unfold shapes_of; by rewrite Hl1, Hl).
  destruct Hs as [Hs0 Hs1].
  assert (H3 : lf_closer l3 = Open /\ rt_shapes (rf_rt (lf_fields l3)) = m /\ lf_requests l3 = ∅) by (unfold l3, l2; by rewrite Hl1).
  destruct H3 as (H3 & H4 & H5). split_and!; [|done..].
  apply (rtc_l _ _ p1); [split; [by apply p_start|congruence]|].
  apply (rtc_l _ _ (set_life l2 p1)).
  { split; [|done]. apply p_life; [|unfold l2; by rewrite Hl1].
    apply (step_connect _ _ _ _ _ _ no_answers false AtPool (pr_runtime p1) (AtStatus false)); [by rewrite Hl1|by rewrite Hl1|done]. }
  apply (rtc_l _ _ (set_life l3 p1)).
  { split; [|by rewrite <- H4 in Hs1]. apply (p_life _ _ _ _ _ _ false (set_life l2 p1) l3); [|done]. exact (step_connected _ _ _ _ _ l2 false false eq_refl). }
  apply rtc_once. split; [|done]. by apply p_started.
Qed.
End idle.

#[local] Abbreviation demo_filled :=
  (UpsertSnapshot (store_ops := disk_Store (H := DiskRefine.quiet)) demo_def demo_snapshot 1700000000000000 (eng_shapes demo_engine)).
#[local] Abbreviation demo_boot_disk :=
  (boot (H := DiskRefine.quiet) no_url_error (fun _ => "") (fun _ => true)).
Definition demo_disk_vars (name : string) : option string :=
  if decide (name = "SYNC_STORAGE_MODE") then Some "disk"
  else if decide (name = "SYNC_STORAGE_DIR") then Some "data" else demo_env_vars name.

Lemma demo_disk_loaded : exists cfg,
  LoadConfigFromEnv no_url_error (fun _ => "") (fun _ => true) demo_disk_vars = (cfg, None) /\
  cfg_StorageMode cfg = StorageModeDisk /\ storage_dir cfg = "data".
Proof. eexists. split; [vm_compute; reflexivity|]. split; vm_compute; reflexivity. Qed.

Lemma boot_shapes {S} (e : Engine S) (m : Manager S) : eng_runtime e = NewRuntime m ->
  shapes_of (boot_process e) = m /\ pr_phase (boot_process e) = AtEngine /\ pr_runtime (boot_process e) = NewRuntime m.
Proof. intros Hl. unfold shapes_of. cbn. by rewrite Hl. Qed.

(** The shapes of a new engine are those of its store. *)
Lemma assemble_shapes {S} `{Store S} (cfg cfg2 : Config) (s : S) (e2 : Engine S) :
  assemble cfg2 s = Created e2 ->
  exists e, assemble cfg s = Created e /\ eng_runtime e = NewRuntime (eng_shapes e) /\ eng_shapes e = eng_shapes e2.
Proof.
  unfold assemble. destruct (Compact s) as [s' [x|res]]; [done|]. destruct (NewManager s') as [x|m]; [done|].
  intros [= <-]. by eexists.
Qed.

Lemma demo_engine_created : exists e,
  New (H := DiskRefine.quiet) no_url_error disk_config no_medium = OnDisk (Created e) /\ eng_shapes e = eng_shapes demo_engine.
Proof.
  assert (Hv : Validate no_url_error disk_config = None) by (vm_compute; reflexivity).
  destruct (@new_on_fresh_disk DiskRefine.quiet no_url_error disk_config no_medium Hv eq_refl eq_refl (fun _ => eq_refl)) as (e & E & _).
  - intros q. apply lookup_empty.
  - intros q [x Hq]. unfold no_medium in Hq. cbn [md_files] in Hq. by rewrite lookup_empty in Hq.
  - exists e. unfold demo_engine. rewrite E. exact (conj eq_refl eq_refl).
Qed.

(** Over an empty directory the shapes are those of the example engine. *)
Lemma demo_disk_boots (cfg : Config) :
  LoadConfigFromEnv no_url_error (fun _ => "") (fun _ => true) demo_disk_vars = (cfg, None) ->
  cfg_StorageMode cfg = StorageModeDisk -> storage_dir cfg = "data" ->
  exists p, demo_boot_disk demo_disk_vars no_medium = BootDisk p /\ disk_ready "data" true (shapes_of p) /\
    shapes_of p = eng_shapes demo_engine /\ pr_phase p = AtEngine /\ pr_runtime p = NewRuntime (eng_shapes demo_engine).
Proof.
  intros El Hm Hd.
  assert (Hv : Validate no_url_error cfg = None) by (unfold LoadConfigFromEnv, Load in El; destruct (read_settings _ _ _); congruence).
  assert (Hmk : exists e, New (H := DiskRefine.quiet) no_url_error cfg no_medium = OnDisk (Created e) /\
    eng_runtime e = NewRuntime (eng_shapes e) /\ eng_shapes e = eng_shapes demo_engine).
  { assert (Hw : Validate no_url_error disk_config = None) by (vm_compute; reflexivity).
    pose proof (new_on_disk (H := DiskRefine.quiet) no_url_error cfg no_medium Hv Hm) as E1.
    pose proof (new_on_disk (H := DiskRefine.quiet) no_url_error disk_config no_medium Hw eq_refl) as E2.
    rewrite Hd in E1. change (storage_dir disk_config) with "data" in E2.
    destruct demo_engine_created as (e2 & Hc & He). rewrite E2 in Hc. rewrite E1.
    destruct (NewDiskStore "data" no_medium) as [x|s]; [discriminate Hc|]. injection Hc as Hc. rewrite <- He.
    destruct (assemble_shapes cfg disk_config s e2 Hc) as (e & -> & H1 & H2). exists e. exact (conj eq_refl (conj H1 H2)). }
  destruct Hmk as (e & En & Hl & Hs). exists (boot_process e).
  unfold demo_boot_disk, boot, LoadConfigFromEnv in *. rewrite El, En. split; [exact eq_refl|].
  rewrite Hs in Hl. pose proof (boot_shapes e (eng_shapes demo_engine) Hl) as Hboot. split; [|exact Hboot].
  rewrite (proj1 Hboot). exact (ready_torn _ _ demo_engine_ready).
Qed.

(** It stores a shape while it serves, and ends. *)
Lemma next_process_found :
  match demo_boot_disk demo_disk_vars (disk_Close (mgr_store demo_filled.1)) with
  | BootDisk p => bool_decide (is_Some (LookupByDefinition demo_def (shapes_of p)))
  | _ => false
  end = true.
Proof. vm_compute. reflexivity. Qed.

Lemma demo_filled_moves :
  writes_fit (H := DiskRefine.quiet) (eng_shapes demo_engine) demo_filled.1.
Proof.
  apply rtc_once. split; [|exact demo_filled_fits]. apply rstep_shapes, step_operation.
  exact (step_upsert (store_ops := disk_Store (H := DiskRefine.quiet)) _ demo_def demo_snapshot InitialOffset 1700000000000000 demo_filled_unused).
Qed.

Lemma shapes_survive_process_witness : exists p0 p p',
  demo_boot_disk demo_disk_vars no_medium = BootDisk p0 /\ pr_phase p = Serving /\
  demo_boot_disk demo_disk_vars (left_by p) = BootDisk p' /\
  exists st, LookupByDefinition demo_def (shapes_of p) = Some st /\
    LookupByDefinition demo_def (shapes_of p') = Some (reloaded_state (kept_state st)).
Proof.
  destruct demo_disk_loaded as (cfg & El & Hm & Hd). destruct (demo_disk_boots cfg El Hm Hd) as (p0 & Hb & Hready & Hs & Hph & Hl).
  set (ops := disk_Store (H := DiskRefine.quiet)).
  destruct (comes_to_serve (store_ops := ops) no_pool_error demo_env (fun _ => Some "/app") demo_lsn demo_parse demo_error p0 _ Hph Hl eq_refl)
    as (p1 & Hr1 & Hp1 & Hs1 & Ho1).
  set (p := set_life (on_rt (Replication.set_shapes demo_filled.1) (pr_runtime p1)) p1).
  assert (Hsp : shapes_of p = demo_filled.1) by reflexivity.
  pose proof next_process_found as Hn. rewrite <- Hsp in Hn. change (disk_Close (mgr_store (shapes_of p))) with (left_by p) in Hn.
  destruct (demo_boot_disk demo_disk_vars (left_by p)) as [x|x|p'] eqn:Hb'; [discriminate Hn|discriminate Hn|].
  apply bool_decide_eq_true in Hn as [s Hn].
  destruct (shapes_survive_process (D := DiskRefine.quiet) (D' := DiskRefine.quiet) no_url_error no_pool_error (fun _ => Some "/app") (fun _ => "") (fun _ => true)
    demo_env demo_lsn demo_parse demo_error demo_disk_vars cfg false p0 p El) as [_ Hall].
  - rewrite Hd. exact Hready.
  - destruct (Hall) with (p' := p') as (_ & _ & _ & Hdef); [|exact Hb'|].
    + eapply rtc_r.
      * eapply rtc_subrel; [|exact Hr1]. intros a b [H1 H2]. split; [exact H1|]. rewrite H2. apply rtc_refl.
      * split; [|rewrite Hsp, Hs1; exact demo_filled_moves].
        apply (p_life (store_ops := ops)); [|rewrite Hp1; exact Ho1]. apply step_shapes.
        change (mstep (shapes_of p1) demo_filled.1). rewrite Hs1. apply step_operation.
        exact (step_upsert (store_ops := ops) _ demo_def demo_snapshot InitialOffset 1700000000000000 demo_filled_unused).
    + destruct (Hdef demo_def s Hn) as (st & H1 & ->). exists p0, p, p'. split; [exact Hb|]. split; [exact Hp1|]. split; [exact Hb'|].
      exists st. split; [exact H1|exact Hn].
Defined.
